(** * RadarProcessor: pipeline, odometry, occupancy grid and virtual ring

    A shallow embedding of the core of the RadarProcessor repository:

    - [utility/radar_types.hpp], [utility/math_utils.hpp]
    - [utility/vehicle_config.cpp] ([updateIsoPose])
    - [radar_core/odometry_estimator.cpp]
    - [radar_core/processing_pipeline.cpp]
    - [radar/src/processing/RadarPlayback.cpp] ([appendTracks],
      [appendEnhancedDetections])
    - [radar/src/mapping/FusedRadarMapping.cpp]
    - [radar/src/mapping/RadarVirtualSensorMapping.cpp]
    - [radar/src/engine/RadarPlaybackEngine.cpp]
      ([convertContourIsoToVcs], [buildTrackFootprint])

    Numeric conventions.  A C++ [float] is read as a real number ([R]):
    rounding, NaN and signed zeros are outside the model.  The only
    non-finite value the code stores on purpose is
    [std::numeric_limits<float>::infinity()] in the ring's end distances
    and in the "best so far" accumulators; it is kept as the constructor
    [PosInf] of [efloat].  Unsigned integers are [Z] with their wrap-around
    written out, sizes and indices are [nat], [int] grid coordinates are
    [Z].  Functions of [<cmath>] are the functions of the real-number
    library; [std::erf], [std::atan2] and [std::fmod], which that library
    lacks, are defined from it below.

    The occupancy grid computes its cell coordinates in [int] and
    indexes its cell vector without a check.  [FusedRadarMapping] below
    computes with unbounded integers, reads a cell outside the vector
    as 0 and drops a write outside it; [gridChecked] repeats the
    functions that convert to [int] or index the vector with these
    faults as outcomes, and the two are shown to agree on every grid
    whose settings give a number of cells that is a value of [int].

    Naming.  Functions keep the names of the source.  The fields of a
    struct keep their names behind a short prefix for the struct
    ([det_] for [EnhancedDetection], [et_] for [EnhancedTrack], [ts_]
    for [TrackState], [pt_] for [RadarPoint], ...), since several
    structs share field names.  A method that writes to [this] or to an
    output argument returns the written objects.

    Two library calls of the odometry estimator are parameters of the
    model: the sequence of indices drawn from [std::mt19937] and the
    column-pivoted QR solve of Eigen.  The redraw loop of the estimator
    has no bound in the source; the model bounds it by a fuel and
    returns [None] when the fuel is exhausted. *)

From Stdlib Require Import Reals Machin ZArith List Lia Lra Bool.
From stdpp Require Import base list.
Import ListNotations.

Open Scope R_scope.

(* ===================================================================== *)
(** * Numeric layer *)
(* ===================================================================== *)

Module Num.

(** Comparisons of the source, as booleans. *)
Definition Rleb (x y : R) : bool := if Rle_dec x y then true else false.
Definition Rltb (x y : R) : bool := if Rlt_dec x y then true else false.
Definition Reqb (x y : R) : bool := if Req_dec_T x y then true else false.

(** [std::clamp(v, lo, hi)]: [(v < lo) ? lo : (hi < v) ? hi : v]. *)
Definition std_clamp (v lo hi : R) : R :=
  if Rltb v lo then lo else if Rltb hi v then hi else v.

(** [utility::clamp(value, minValue, maxValue)] of math_utils.hpp:
    [std::min(maxValue, std::max(minValue, value))]. *)
Definition clamp (value minValue maxValue : R) : R :=
  Rmin maxValue (Rmax minValue value).

(** [utility::squared]. *)
Definition squared (value : R) : R := value * value.

(** [std::clamp] on [int]. *)
Definition clampZ (v lo hi : Z) : Z :=
  if (v <? lo)%Z then lo else if (hi <? v)%Z then hi else v.

(** [std::floor] and [std::ceil] followed by [static_cast<int>]. *)
Definition floorZ (x : R) : Z := Int_part x.
Definition ceilZ (x : R) : Z := (- Int_part (- x))%Z.

(** Truncation toward zero, the rounding of [std::fmod] and of a cast
    from [float] to an integer type. *)
Definition truncZ (x : R) : Z :=
  if Rleb 0 x then Int_part x else (- Int_part (- x))%Z.

(** [std::fmod(x, y)]: [x - y * trunc(x / y)]. *)
Definition fmod (x y : R) : R := x - y * IZR (truncZ (x / y)).

(** [static_cast<std::size_t>(x)] for a nonnegative [x]. *)
Definition to_size_t (x : R) : nat := Z.to_nat (truncZ x).

(** [std::atan2(y, x)]. *)
Definition atan2 (y x : R) : R :=
  if Rltb 0 x then atan (y / x)
  else if Rltb x 0 then
         (if Rleb 0 y then atan (y / x) + PI else atan (y / x) - PI)
  else if Rltb 0 y then PI / 2
  else if Rltb y 0 then - PI / 2
  else 0.

(** The integrand of the error function. *)
Definition gauss (t : R) : R := exp (- (t * t)).

Definition gauss_continuous (t : R) : continuity_pt gauss t.
Proof.
  unfold gauss.
  apply (continuity_pt_comp (fun t => - (t * t)) exp).
  - apply continuity_pt_opp.
    apply continuity_pt_mult; apply derivable_continuous_pt, derivable_pt_id.
  - apply derivable_continuous_pt, derivable_pt_exp.
Qed.

Definition gauss_integrable (a b : R) (Hab : a <= b) :
  Riemann_integrable gauss a b :=
  continuity_implies_RiemannInt Hab (fun t _ => gauss_continuous t).

(** [std::erf]: [2/sqrt(pi)] times the integral of [exp(-t^2)] from 0
    to [x], odd in [x]. *)
Definition erf (x : R) : R :=
  match Rle_dec 0 x with
  | left H => 2 / sqrt PI * RiemannInt (gauss_integrable 0 x H)
  | right H =>
      - (2 / sqrt PI *
         RiemannInt (gauss_integrable 0 (- x)
                       (Rlt_le _ _ (Ropp_0_gt_lt_contravar _ (Rnot_le_gt _ _ H)))))
  end.

(** A [float] that may be [+infinity]. *)
Inductive efloat : Type :=
| Finite (x : R)
| PosInf.

(** [std::isfinite]. *)
Definition isfinite (e : efloat) : bool :=
  match e with Finite _ => true | PosInf => false end.

(** [d < e] for a finite [d]. *)
Definition lt_efloat (d : R) (e : efloat) : bool :=
  match e with Finite x => Rltb d x | PosInf => true end.

(** [std::min(best, t)] for a finite [t]. *)
Definition min_efloat (best : efloat) (t : R) : efloat :=
  match best with
  | Finite b => Finite (Rmin b t)
  | PosInf => Finite t
  end.

End Num.

Import Num.


(* ===================================================================== *)
(** * utility/radar_types.hpp *)
(* ===================================================================== *)

Module utility.

(** [glm::vec2]. *)
Record vec2 : Type := mkVec2 { vx : R; vy : R }.

Definition vadd (a b : vec2) : vec2 := mkVec2 (vx a + vx b) (vy a + vy b).
Definition vsub (a b : vec2) : vec2 := mkVec2 (vx a - vx b) (vy a - vy b).
Definition vscale (a : vec2) (k : R) : vec2 := mkVec2 (vx a * k) (vy a * k).
Definition vdot (a b : vec2) : R := vx a * vx b + vy a * vy b.
Definition vlength (a : vec2) : R := sqrt (vx a * vx a + vy a * vy a).
Definition vzero : vec2 := mkVec2 0 0.

(** [enum class SensorIndex]; [Count = 6] is the size of the arrays that
    are indexed by it and is not a sensor. *)
Inductive SensorIndex : Type :=
| FrontLeft | FrontRight | RearLeft | RearRight | FrontShort | FrontLong.

(** [static_cast<std::size_t>(sensor)]. *)
Definition sensor_index (s : SensorIndex) : nat :=
  match s with
  | FrontLeft => 0 | FrontRight => 1 | RearLeft => 2
  | RearRight => 3 | FrontShort => 4 | FrontLong => 5
  end%nat.

Definition SensorIndex_Count : nat := 6.

Definition kCornerReturnCount : nat := 64.
Definition kFrontReturnCount : nat := 128.
Definition kTrackCount : nat := 96.

(** [enum class TrackStatus : std::uint8_t], by value. *)
Definition TrackStatus_Invalid : Z := 0.
Definition TrackStatus_Merged : Z := 1.
Definition TrackStatus_New : Z := 2.
Definition TrackStatus_NewCoasted : Z := 3.
Definition TrackStatus_NewUpdated : Z := 4.
Definition TrackStatus_Updated : Z := 5.
Definition TrackStatus_Coasted : Z := 6.

(** [enum class TrackObjectClass : std::uint16_t], by value. *)
Definition TrackObjectClass_Unknown : Z := 0.
Definition TrackObjectClass_Car : Z := 1.
Definition TrackObjectClass_Motorcycle : Z := 2.
Definition TrackObjectClass_Truck : Z := 3.
Definition TrackObjectClass_Bicycle : Z := 9.
Definition TrackObjectClass_Pedestrian : Z := 10.
Definition TrackObjectClass_Animal : Z := 12.

(** [enum class DetectionFlag : std::uint8_t]. *)
Definition DetectionFlag_Valid : Z := Z.shiftl 1 0.
Definition DetectionFlag_SuperResolution : Z := Z.shiftl 1 1.
Definition DetectionFlag_NearTarget : Z := Z.shiftl 1 2.
Definition DetectionFlag_HostVehicleClutter : Z := Z.shiftl 1 3.
Definition DetectionFlag_MultiBounce : Z := Z.shiftl 1 4.

(** [packDetectionFlags]: the sum is formed in [int] and cast back to
    [std::uint8_t]. *)
Definition packDetectionFlags
  (radarValid superResolution nearTarget hostVehicleClutter multibounce : Z) : Z :=
  (radarValid + Z.shiftl superResolution 1 + Z.shiftl nearTarget 2 +
   Z.shiftl hostVehicleClutter 3 + Z.shiftl multibounce 4) mod 256.

Record RadarPose : Type := mkRadarPose {
  longitudinal_m : R;
  lateral_m : R;
  height_m : R;
  orientation_rad : R
}.

Record RadarCalibration : Type := mkRadarCalibration {
  vcs : RadarPose;
  iso : RadarPose;
  polarity : R;
  rangeRateAccuracy_mps : R;
  azimuthAccuracy_rad : R;
  horizontalFov_rad : R
}.

Definition RadarPose_default : RadarPose := mkRadarPose 0 0 0 0.
Definition RadarCalibration_default : RadarCalibration :=
  mkRadarCalibration RadarPose_default RadarPose_default 1 0 0 0.

(** [radarCalibrations] is a [std::array] of [SensorIndex::Count]
    calibrations; it is read by [cal_at]. *)
Record VehicleParameters : Type := mkVehicleParameters {
  distRearAxleToFrontBumper_m : R;
  cornerHardwareDelay_s : R;
  frontCenterHardwareDelay_s : R;
  radarCalibrations : list RadarCalibration;
  contourIso : list vec2
}.

Definition cal_at (p : VehicleParameters) (s : SensorIndex) : RadarCalibration :=
  default RadarCalibration_default (radarCalibrations p !! sensor_index s).

Record RawDetectionsHeader : Type := mkRawDetectionsHeader {
  hdr_timestamp_us : Z;
  hdr_horizontalFov_rad : R;
  hdr_maximumRange_m : R;
  hdr_azimuthPolarity : R;
  hdr_boresightAngle_rad : R;
  hdr_sensorLongitudinal_m : R;
  hdr_sensorLateral_m : R
}.

Definition RawDetectionsHeader_default : RawDetectionsHeader :=
  mkRawDetectionsHeader 0 0 0 0 0 0 0.

(** The parallel per-return arrays that [RawCornerDetections] (64
    returns) and [RawFrontDetections] (128 returns) both declare.  A
    [std::array] is a list read with the value-initialised element as
    default. *)
Record RawReturns : Type := mkRawReturns {
  raw_range_m : list R;
  raw_rangeRate_ms : list R;
  raw_rangeRateRaw_ms : list R;
  raw_azimuthRaw_rad : list R;
  raw_azimuth_rad : list R;
  raw_amplitude_dBsm : list R;
  raw_longitudinalOffset_m : list R;
  raw_lateralOffset_m : list R;
  raw_motionStatus : list Z;
  raw_radarValidReturn : list Z;
  raw_superResolutionDetection : list Z;
  raw_nearTargetDetection : list Z;
  raw_hostVehicleClutter : list Z;
  raw_multibounceDetection : list Z
}.

Record RawCornerDetections : Type := mkRawCornerDetections {
  corner_sensor : SensorIndex;
  corner_header : RawDetectionsHeader;
  corner_returns : RawReturns
}.

Record RawFrontDetections : Type := mkRawFrontDetections {
  front_header : RawDetectionsHeader;
  front_returns : RawReturns
}.

Definition atR (l : list R) (i : nat) : R := default 0 (l !! i).
Definition atZ (l : list Z) (i : nat) : Z := default 0%Z (l !! i).

Record RawTrackFusion : Type := mkRawTrackFusion {
  rtf_timestamp_us : Z;
  rtf_visionTimestamp : Z;
  rtf_fusionTimestamp : Z;
  rtf_fusionIndex : Z;
  rtf_imageFrameIndex : Z;
  rtf_vcsLongitudinalPosition : list R;
  rtf_vcsLateralPosition : list R;
  rtf_length : list R;
  rtf_width : list R;
  rtf_height : list R;
  rtf_probabilityOfDetection : list R;
  rtf_id : list Z;
  rtf_objectClassification : list Z;
  rtf_objectClassificationConfidence : list Z;
  rtf_status : list Z;
  rtf_vcsLateralVelocity : list R;
  rtf_vcsLongitudinalVelocity : list R;
  rtf_vcsLateralAcceleration : list R;
  rtf_vcsLongitudinalAcceleration : list R;
  rtf_vcsHeading : list R;
  rtf_vcsHeadingRate : list R;
  rtf_movingFlag : list Z;
  rtf_stationaryFlag : list Z;
  rtf_moveableFlag : list Z;
  rtf_vehicleFlag : list Z
}.

Record EnhancedDetection : Type := mkEnhancedDetection {
  det_range_m : R;
  det_rangeRate_ms : R;
  det_rangeRateRaw_ms : R;
  det_azimuthRaw_rad : R;
  det_azimuth_rad : R;
  det_amplitude_dBsm : R;
  det_longitudinalOffset_m : R;
  det_lateralOffset_m : R;
  det_motionStatus : Z;
  det_flags : Z;
  det_fusedTrackIndex : Z;
  det_isStationary : Z;
  det_isMoveable : Z;
  det_isStatic : Z;
  det_stationaryProbability : R;
  det_elevationRaw_m : R
}.

Definition EnhancedDetection_default : EnhancedDetection :=
  mkEnhancedDetection 0 0 0 0 0 0 0 0 (-1) 0 (-1) 0 0 0 0 0.

Record EnhancedDetections : Type := mkEnhancedDetections {
  eds_header : RawDetectionsHeader;
  eds_detections : list EnhancedDetection
}.

Definition EnhancedDetections_default : EnhancedDetections :=
  mkEnhancedDetections RawDetectionsHeader_default [].

Record EnhancedTrack : Type := mkEnhancedTrack {
  et_vcsLongitudinalPosition : R;
  et_vcsLateralPosition : R;
  et_vcsLateralVelocity : R;
  et_vcsLongitudinalVelocity : R;
  et_vcsLateralAcceleration : R;
  et_vcsLongitudinalAcceleration : R;
  et_vcsHeading : R;
  et_vcsHeadingRate : R;
  et_length : R;
  et_width : R;
  et_height : R;
  et_probabilityOfDetection : R;
  et_id : Z;
  et_objectClassification : Z;
  et_objectClassificationConfidence : Z;
  et_isMoving : bool;
  et_isStationary : bool;
  et_isMoveable : bool;
  et_isVehicle : bool;
  et_status : Z
}.

Record EnhancedTracks : Type := mkEnhancedTracks {
  ets_timestamp_us : Z;
  ets_tracks : list EnhancedTrack
}.

Record VehicleMotionState : Type := mkVehicleMotionState {
  vLon_mps : R;
  vLat_mps : R;
  yawRate_rps : R;
  vLonVariance : R;
  vLatVariance : R;
  yawRateVariance : R
}.

Definition VehicleMotionState_default : VehicleMotionState :=
  mkVehicleMotionState 0 0 0 (1/10) (1/10) (1/10).

Record OdometryEstimate : Type := mkOdometryEstimate {
  oe_timestamp_us : Z;
  oe_vLon_mps : R;
  oe_vLat_mps : R;
  oe_yawRate_rps : R;
  oe_covariance : list R;
  oe_inlierCount : Z;
  oe_valid : bool
}.

Definition OdometryEstimate_default : OdometryEstimate :=
  mkOdometryEstimate 0 0 0 0 (replicate 9 0) 0 false.

(** [utility::secondsToMicroseconds]: the product is truncated by the
    cast to [std::uint64_t].  The cast is defined for a product from 0
    to below [2^64] only; for any other product the model still gives
    the truncated integer. *)
Definition secondsToMicroseconds (seconds : R) : Z :=
  truncZ (seconds * 1000000).

(** [utility::microsecondsToSeconds<float>]. *)
Definition microsecondsToSeconds (micros : Z) : R :=
  IZR micros * (1 / 1000000).

End utility.

(* ===================================================================== *)
(** * radar_core: odometry estimator and processing pipeline *)
(* ===================================================================== *)

Module core.
Import utility.

(** processing_common.hpp *)
Record DetectionAssociationSettings : Type := mkDetectionAssociationSettings {
  boundingBoxScale : R;
  rangeRateSigma : R;
  velocityVariance : R;
  headingRateVariance : R
}.

Record StationaryClassificationSettings : Type :=
  mkStationaryClassificationSettings { nSigma : R }.

(** [maxIterations] and [minInliers] are [int]. *)
Record OdometrySettings : Type := mkOdometrySettings {
  maxIterations : Z;
  inlierThreshold_mps : R;
  minInliers : Z
}.

Record ProcessingSettings : Type := mkProcessingSettings {
  association : DetectionAssociationSettings;
  stationary : StationaryClassificationSettings;
  odometry : OdometrySettings
}.

Definition OdometrySettings_default : OdometrySettings :=
  mkOdometrySettings 120 (35 / 100) 6.

Definition ProcessingSettings_default : ProcessingSettings :=
  mkProcessingSettings
    (mkDetectionAssociationSettings (11 / 10) 3 (5 / 100) (5 / 100))
    (mkStationaryClassificationSettings 3)
    OdometrySettings_default.

(** [validMask]: [Valid | SuperResolution]. *)
Definition validMask : Z :=
  Z.lor DetectionFlag_Valid DetectionFlag_SuperResolution.

(** ** odometry_estimator.cpp *)

Record Sample : Type := mkSample {
  cosAngle : R;
  sinAngle : R;
  rangeRate : R
}.

Definition Sample_default : Sample := mkSample 0 0 0.

Definition predictedRangeRate (sample : Sample) (vLon vLat : R) : R :=
  - (vLon * cosAngle sample + vLat * sinAngle sample).

(** [solvePair]: [None] is the [false] return, which leaves the
    caller's [vLon] and [vLat] as they were. *)
Definition solvePair (a b : Sample) : option (R * R) :=
  let a11 := - cosAngle a in
  let a12 := - sinAngle a in
  let a21 := - cosAngle b in
  let a22 := - sinAngle b in
  let det := a11 * a22 - a12 * a21 in
  if Rltb (Rabs det) (1 / 10000) then None
  else Some ((rangeRate a * a22 - a12 * rangeRate b) / det,
             (a11 * rangeRate b - rangeRate a * a21) / det).

Record RadarOdometryEstimator : Type := mkRadarOdometryEstimator {
  odo_settings : OdometrySettings;
  odo_lastEstimate : OdometryEstimate
}.

(** Constructor, which ends in [reset()]. *)
Definition RadarOdometryEstimator_new (settings : OdometrySettings) :
  RadarOdometryEstimator :=
  mkRadarOdometryEstimator settings OdometryEstimate_default.

Definition latestEstimate (e : RadarOdometryEstimator) : bool * OdometryEstimate :=
  (oe_valid (odo_lastEstimate e), odo_lastEstimate e).

(** The sample loop of [processDetections].  [std::isfinite] holds of
    every real range rate, so only the flag test filters. *)
Definition collectSamples (calibration : RadarCalibration)
  (dets : list EnhancedDetection) : list Sample :=
  flat_map
    (fun det =>
       if (Z.land (det_flags det) validMask =? 0)%Z then []
       else
         let angle := (- det_azimuthRaw_rad det * polarity calibration)
                      + orientation_rad (iso calibration) in
         [mkSample (cos angle) (sin angle) (det_rangeRate_ms det)])
    dets.

(** The inlier test shared by the counting loop and the collecting loop. *)
Definition isInlier (threshold vLon vLat : R) (sample : Sample) : bool :=
  Rleb (Rabs (predictedRangeRate sample vLon vLat - rangeRate sample)) threshold.

Definition countInliers (threshold vLon vLat : R) (samples : list Sample) : Z :=
  Z.of_nat (length (filter (fun s => isInlier threshold vLon vLat s = true) samples)).

(** [static_cast<std::uint32_t>] of an [int]. *)
Definition to_uint32 (n : Z) : Z := n mod 2 ^ 32.

(** [A(idx, 0)], [A(idx, 1)] and [b(idx)] of the least-squares system. *)
Definition systemRows (fitSamples : list Sample) : list (R * R) :=
  map (fun s => (- cosAngle s, - sinAngle s)) fitSamples.
Definition systemRhs (fitSamples : list Sample) : list R :=
  map rangeRate fitSamples.

Section Estimator.

(** The two library calls of [processDetections] that are not code of
    the repository.

    [draw n k] is the [k]-th value that
    [std::uniform_int_distribution<std::size_t>(0, n - 1)] returns on
    [std::mt19937 rng(42)]; the position [k] in that sequence is the
    state of the generator.

    [qr_solve A b] is [A.colPivHouseholderQr().solve(b)] of Eigen for a
    system with two unknowns. *)
Variable draw : nat -> nat -> nat.
Variable qr_solve : list (R * R) -> list R -> R * R.

(** [while (j == i) j = dist(rng);].  The loop has no bound in the
    source; [fuel] bounds the number of further draws and [None] stands
    for a loop that has not ended within it. *)
Fixpoint redraw (fuel n i j k : nat) : option (nat * nat) :=
  if Nat.eqb j i then
    match fuel with
    | O => None
    | S fuel' => redraw fuel' n i (draw n k) (S k)
    end
  else Some (j, k).

(** The state carried around the RANSAC loop. *)
Record Ransac : Type := mkRansac {
  rngPos : nat;
  bestVLon : R;
  bestVLat : R;
  bestInliers : Z
}.

(** One iteration of the RANSAC loop. *)
Definition ransacStep (fuel : nat) (samples : list Sample) (threshold : R)
  (st : Ransac) : option Ransac :=
  let n := length samples in
  let i := draw n (rngPos st) in
  let j := draw n (S (rngPos st)) in
  match (if Nat.ltb 1 n then redraw fuel n i j (S (S (rngPos st)))
         else Some (j, S (S (rngPos st)))) with
  | None => None
  | Some (j', k') =>
      match solvePair (nth i samples Sample_default) (nth j' samples Sample_default) with
      | None => Some (mkRansac k' (bestVLon st) (bestVLat st) (bestInliers st))
      | Some (vLon, vLat) =>
          let inliers := countInliers threshold vLon vLat samples in
          if (bestInliers st <? inliers)%Z
          then Some (mkRansac k' vLon vLat inliers)
          else Some (mkRansac k' (bestVLon st) (bestVLat st) (bestInliers st))
      end
  end.

Fixpoint ransacLoop (fuel : nat) (samples : list Sample) (threshold : R)
  (iterations : nat) (st : Ransac) : option Ransac :=
  match iterations with
  | O => Some st
  | S iterations' =>
      match ransacStep fuel samples threshold st with
      | None => None
      | Some st' => ransacLoop fuel samples threshold iterations' st'
      end
  end.

Definition ransacThreshold (settings : OdometrySettings) : R :=
  Rmax (5 / 100) (inlierThreshold_mps settings).

Definition ransacIterations (settings : OdometrySettings) : nat :=
  Z.to_nat (Z.max 1 (maxIterations settings)).

Definition ransac (fuel : nat) (settings : OdometrySettings)
  (samples : list Sample) : option Ransac :=
  ransacLoop fuel samples (ransacThreshold settings)
    (ransacIterations settings) (mkRansac 0 0 0 0).

(** The part of [processDetections] after the RANSAC loop. *)
Definition refit (e : RadarOdometryEstimator) (header : RawDetectionsHeader)
  (samples : list Sample) (best : Ransac) : bool * RadarOdometryEstimator :=
  let settings := odo_settings e in
  let threshold := ransacThreshold settings in
  let useInliers := (to_uint32 (minInliers settings) <=? bestInliers best)%Z in
  let inlierSamples :=
    if useInliers
    then filter (fun s => isInlier threshold (bestVLon best) (bestVLat best) s = true) samples
    else [] in
  let fitSamples := if useInliers then inlierSamples else samples in
  if Nat.ltb (length fitSamples) 2 then (false, e)
  else
    let solution := qr_solve (systemRows fitSamples) (systemRhs fitSamples) in
    let c0 := if useInliers then 1 / INR (length fitSamples) else 1 in
    let estimate :=
      mkOdometryEstimate
        (hdr_timestamp_us header)
        (fst solution)
        (snd solution)
        0
        [c0; 0; 0; 0; c0; 0; 0; 0; 1]
        (if useInliers then Z.of_nat (length fitSamples) else bestInliers best)
        useInliers in
    (useInliers, mkRadarOdometryEstimator settings estimate).

(** [RadarOdometryEstimator::processDetections].  The result is the
    returned flag and the estimator after the call. *)
Definition processDetections (fuel : nat) (e : RadarOdometryEstimator)
  (calibration : RadarCalibration) (detections : EnhancedDetections)
  : option (bool * RadarOdometryEstimator) :=
  let samples := collectSamples calibration (eds_detections detections) in
  if Nat.ltb (length samples) 2 then Some (false, e)
  else
    match ransac fuel (odo_settings e) samples with
    | None => None
    | Some best => Some (refit e (eds_header detections) samples best)
    end.

End Estimator.

(** ** processing_pipeline.cpp *)

Record OrientedBox : Type := mkOrientedBox {
  box_center : vec2;
  box_halfLength : R;
  box_halfWidth : R;
  box_heading : R
}.

Definition OrientedBox_default : OrientedBox := mkOrientedBox vzero 0 0 0.

(** [OrientedBox::contains]. *)
Definition contains (box : OrientedBox) (point : vec2) : bool :=
  let delta := vsub point (box_center box) in
  let cosH := cos (- box_heading box) in
  let sinH := sin (- box_heading box) in
  let localX := vx delta * cosH - vy delta * sinH in
  let localY := vx delta * sinH + vy delta * cosH in
  Rleb (Rabs localX) (box_halfLength box) && Rleb (Rabs localY) (box_halfWidth box).

Definition stationaryProbabilityFromDistance (mDist : R) : R :=
  1 - erf (mDist / sqrt 2).

Definition detectionAngleRad (det : EnhancedDetection)
  (calibration : RadarCalibration) : R :=
  (- det_azimuthRaw_rad det * polarity calibration) + orientation_rad (iso calibration).

Definition yawCompensation (state : VehicleMotionState)
  (calibration : RadarCalibration) (detAngle : R) : R :=
  yawRate_rps state *
  ((longitudinal_m (iso calibration) * sin detAngle) -
   (lateral_m (iso calibration) * cos detAngle)).

Record SensorUpdateState : Type := mkSensorUpdateState {
  sus_initialized : bool;
  sus_timestamp_us : Z;
  sus_numConsecutiveInvalid : Z
}.

Definition SensorUpdateState_default : SensorUpdateState :=
  mkSensorUpdateState false 0 0.

Record TrackState : Type := mkTrackState {
  ts_position : vec2;
  ts_velocity : vec2;
  ts_acceleration : vec2;
  ts_length : R;
  ts_width : R;
  ts_height : R;
  ts_heading : R;
  ts_headingRate : R;
  ts_isStationary : bool;
  ts_isMoveable : bool;
  ts_movingVotes : R
}.

Definition TrackState_default : TrackState :=
  mkTrackState vzero vzero vzero 0 0 0 0 0 false false 0.

Definition set_movingVotes (t : TrackState) (v : R) : TrackState :=
  mkTrackState (ts_position t) (ts_velocity t) (ts_acceleration t)
    (ts_length t) (ts_width t) (ts_height t) (ts_heading t) (ts_headingRate t)
    (ts_isStationary t) (ts_isMoveable t) v.

(** [m_parameters] is a pointer; [None] is [nullptr]. *)
Record Pipeline : Type := mkPipeline {
  m_settings : ProcessingSettings;
  m_parameters : option VehicleParameters;
  m_sensorStates : list SensorUpdateState;
  m_tracks : list TrackState;
  m_tracksTimestamp_us : Z;
  m_motionState : VehicleMotionState;
  m_hasExternalMotionState : bool;
  m_odometry : RadarOdometryEstimator;
  m_lastOdometry : OdometryEstimate
}.

(** Constructor. *)
Definition Pipeline_new (settings : ProcessingSettings) : Pipeline :=
  mkPipeline settings None
    (replicate SensorIndex_Count SensorUpdateState_default)
    [] 0 VehicleMotionState_default false
    (RadarOdometryEstimator_new (odometry settings))
    OdometryEstimate_default.

Definition initialize (p : Pipeline) (parameters : option VehicleParameters) : Pipeline :=
  mkPipeline (m_settings p) parameters (m_sensorStates p) (m_tracks p)
    (m_tracksTimestamp_us p) (m_motionState p) (m_hasExternalMotionState p)
    (m_odometry p) (m_lastOdometry p).

Definition updateVehicleState (p : Pipeline) (state : VehicleMotionState) : Pipeline :=
  mkPipeline (m_settings p) (m_parameters p) (m_sensorStates p) (m_tracks p)
    (m_tracksTimestamp_us p) state true
    (m_odometry p) (m_lastOdometry p).

Definition set_sensorStates (p : Pipeline) (l : list SensorUpdateState) : Pipeline :=
  mkPipeline (m_settings p) (m_parameters p) l (m_tracks p)
    (m_tracksTimestamp_us p) (m_motionState p) (m_hasExternalMotionState p)
    (m_odometry p) (m_lastOdometry p).

Definition set_tracks (p : Pipeline) (l : list TrackState) : Pipeline :=
  mkPipeline (m_settings p) (m_parameters p) (m_sensorStates p) l
    (m_tracksTimestamp_us p) (m_motionState p) (m_hasExternalMotionState p)
    (m_odometry p) (m_lastOdometry p).

Definition set_odometry (p : Pipeline) (e : RadarOdometryEstimator) : Pipeline :=
  mkPipeline (m_settings p) (m_parameters p) (m_sensorStates p) (m_tracks p)
    (m_tracksTimestamp_us p) (m_motionState p) (m_hasExternalMotionState p)
    e (m_lastOdometry p).

(** [RadarProcessingPipeline::updateSensorStatus].
    [numConsecutiveInvalid] is a [std::uint32_t]. *)
Definition updateSensorStatus (p : Pipeline) (sensor : SensorIndex)
  (timestamp_us : Z) : bool * Pipeline :=
  let idx := sensor_index sensor in
  let state := default SensorUpdateState_default (m_sensorStates p !! idx) in
  if negb (sus_initialized state) then
    (true, set_sensorStates p
             (<[idx := mkSensorUpdateState true timestamp_us 0]> (m_sensorStates p)))
  else if (sus_timestamp_us state <? timestamp_us)%Z then
    (true, set_sensorStates p
             (<[idx := mkSensorUpdateState (sus_initialized state) timestamp_us 0]>
                (m_sensorStates p)))
  else
    (false, set_sensorStates p
              (<[idx := mkSensorUpdateState (sus_initialized state)
                          (sus_timestamp_us state)
                          ((sus_numConsecutiveInvalid state + 1) mod 2 ^ 32)]>
                 (m_sensorStates p))).

(** [std::vector::resize(n)]: keeps the first [n] elements and pads
    with value-initialised ones. *)
Definition resize {A : Type} (n : nat) (d : A) (l : list A) : list A :=
  take n l ++ replicate (n - length l) d.

(** The body of the mapping loops: the fields that are assigned from
    the raw arrays at index [i]; the other fields of [det] are kept. *)
Definition mapReturn (r : RawReturns) (i : nat) (det : EnhancedDetection)
  : EnhancedDetection :=
  mkEnhancedDetection
    (atR (raw_range_m r) i)
    (atR (raw_rangeRate_ms r) i)
    (atR (raw_rangeRateRaw_ms r) i)
    (atR (raw_azimuthRaw_rad r) i)
    (atR (raw_azimuth_rad r) i)
    (atR (raw_amplitude_dBsm r) i)
    (atR (raw_longitudinalOffset_m r) i)
    (atR (raw_lateralOffset_m r) i)
    (atZ (raw_motionStatus r) i)
    (packDetectionFlags (atZ (raw_radarValidReturn r) i)
                        (atZ (raw_superResolutionDetection r) i)
                        (atZ (raw_nearTargetDetection r) i)
                        (atZ (raw_hostVehicleClutter r) i)
                        (atZ (raw_multibounceDetection r) i))
    (det_fusedTrackIndex det)
    (det_isStationary det)
    (det_isMoveable det)
    (det_isStatic det)
    (det_stationaryProbability det)
    (det_elevationRaw_m det).

Definition mapCornerDetections (input : RawCornerDetections)
  (output : EnhancedDetections) : EnhancedDetections :=
  mkEnhancedDetections (corner_header input)
    (imap (fun i det => mapReturn (corner_returns input) i det)
       (resize kCornerReturnCount EnhancedDetection_default (eds_detections output))).

(** [mapFrontDetections]: returns [0..63] go to the short output,
    returns [64..127] to the long one. *)
Definition mapFrontDetections (input : RawFrontDetections)
  (outputShort outputLong : EnhancedDetections)
  : EnhancedDetections * EnhancedDetections :=
  (mkEnhancedDetections (front_header input)
     (imap (fun i det => mapReturn (front_returns input) i det)
        (resize kCornerReturnCount EnhancedDetection_default (eds_detections outputShort))),
   mkEnhancedDetections (front_header input)
     (imap (fun i det => mapReturn (front_returns input) (i + kCornerReturnCount) det)
        (resize kCornerReturnCount EnhancedDetection_default (eds_detections outputLong)))).

Definition rangeRateVar (calibration : RadarCalibration) : R :=
  squared (Rmax (1 / 100) (rangeRateAccuracy_mps calibration / 3)).

(** The loop body of [classifyDetections]. *)
Definition classifyDetection (settings : ProcessingSettings)
  (motion : VehicleMotionState) (calibration : RadarCalibration)
  (det : EnhancedDetection) : EnhancedDetection :=
  let detAngle := detectionAngleRad det calibration in
  let yawTerm := yawCompensation motion calibration detAngle in
  let compensatedRangeRate := det_rangeRate_ms det + yawTerm in
  let predicted :=
    - (vLon_mps motion * cos detAngle + vLat_mps motion * sin detAngle) in
  let mDist := Rabs (compensatedRangeRate - predicted) /
               sqrt (Rmax (rangeRateVar calibration) (1 / 10000)) in
  let isStationary := if Rleb mDist (nSigma (stationary settings)) then 1%Z else 0%Z in
  mkEnhancedDetection
    (det_range_m det) (det_rangeRate_ms det) (det_rangeRateRaw_ms det)
    (det_azimuthRaw_rad det) (det_azimuth_rad det) (det_amplitude_dBsm det)
    (det_longitudinalOffset_m det) (det_lateralOffset_m det)
    (det_motionStatus det) (det_flags det)
    (-1)%Z
    isStationary
    0%Z
    isStationary
    (std_clamp (stationaryProbabilityFromDistance mDist) 0 1)
    (det_elevationRaw_m det).

Definition classifyDetections (p : Pipeline) (parameters : VehicleParameters)
  (sensor : SensorIndex) (detections : EnhancedDetections) : EnhancedDetections :=
  mkEnhancedDetections (eds_header detections)
    (map (classifyDetection (m_settings p) (m_motionState p) (cal_at parameters sensor))
       (eds_detections detections)).

(** [detectionPositionVcs]. *)
Definition detectionPositionVcs (det : EnhancedDetection)
  (calibration : RadarCalibration) : vec2 :=
  let lon0 := det_longitudinalOffset_m det in
  let lat0 := det_lateralOffset_m det in
  let first := Reqb lon0 0 && Reqb lat0 0 && Rltb 0 (det_range_m det) in
  let lon1 := if first then det_range_m det * cos (det_azimuth_rad det) else lon0 in
  let lat1 := if first then det_range_m det * sin (det_azimuth_rad det) else lat0 in
  let detAngle := (- det_azimuthRaw_rad det * polarity calibration)
                  + orientation_rad (vcs calibration) in
  let second := Reqb lon1 0 && Reqb lat1 0 && Rltb 0 (det_range_m det) in
  let lon2 := if second then det_range_m det * cos detAngle else lon1 in
  let lat2 := if second then det_range_m det * sin detAngle else lat1 in
  mkVec2 (lon2 + longitudinal_m (vcs calibration)) (lat2 + lateral_m (vcs calibration)).

(** [std::numeric_limits<float>::max()]. *)
Definition FLT_MAX : R := 340282346638528859811704183484516925440.

(** The box that [associateDetections] builds for one track. *)
Definition predictedBox (settings : ProcessingSettings) (dt_s : R)
  (track : TrackState) : OrientedBox :=
  let position :=
    vadd (vadd (ts_position track) (vscale (ts_velocity track) dt_s))
         (vscale (ts_acceleration track) (1 / 2 * dt_s * dt_s)) in
  let heading := ts_heading track + ts_headingRate track * dt_s in
  let halfLength := Rmax (ts_length track) (1 / 10) * (1 / 2)
                    * boundingBoxScale (association settings) in
  let halfWidth := Rmax (ts_width track) (1 / 10) * (1 / 2)
                   * boundingBoxScale (association settings) in
  mkOrientedBox position halfLength halfWidth heading.

(** The inner loop over the boxes: the state is
    [(bestDistance, bestIndex)]. *)
Definition bestTrackStep (settings : ProcessingSettings)
  (motion : VehicleMotionState) (calibration : RadarCalibration)
  (boxes : list OrientedBox) (tracks : list TrackState)
  (det : EnhancedDetection) (detPos : vec2)
  (best : R * nat) (i : nat) : R * nat :=
  if negb (contains (default OrientedBox_default (boxes !! i)) detPos) then best
  else
    let track := default TrackState_default (tracks !! i) in
    let detAngle := detectionAngleRad det calibration in
    let rangeRateModelX := - cos detAngle in
    let rangeRateModelY := - sin detAngle in
    let relativeVelocity :=
      vsub (mkVec2 (vLon_mps motion) (vLat_mps motion)) (ts_velocity track) in
    let predicted := vx relativeVelocity * rangeRateModelX +
                     vy relativeVelocity * rangeRateModelY in
    let mDist := Rabs (det_rangeRate_ms det - predicted) /
                 sqrt (Rmax (rangeRateVar calibration) (1 / 10000)) in
    if Rleb mDist (rangeRateSigma (association settings)) && Rltb mDist (fst best)
    then (mDist, i)
    else best.

Definition bestTrack (settings : ProcessingSettings)
  (motion : VehicleMotionState) (calibration : RadarCalibration)
  (boxes : list OrientedBox) (tracks : list TrackState)
  (det : EnhancedDetection) : nat :=
  snd (fold_left
         (bestTrackStep settings motion calibration boxes tracks det
            (detectionPositionVcs det calibration))
         (seq 0 (length boxes))
         (FLT_MAX, length boxes)).

(** [static_cast<std::int8_t>] of an index. *)
Definition to_int8 (n : Z) : Z := ((n + 128) mod 256 - 128)%Z.

(** The body of the detection loop of [associateDetections]: the
    tracks and the detection after it. *)
Definition associateDetection (settings : ProcessingSettings)
  (motion : VehicleMotionState) (calibration : RadarCalibration)
  (boxes : list OrientedBox) (tracks : list TrackState)
  (det : EnhancedDetection) : list TrackState * EnhancedDetection :=
  if (Z.land (det_flags det) validMask =? 0)%Z then (tracks, det)
  else
    let bestIndex := bestTrack settings motion calibration boxes tracks det in
    if Nat.ltb bestIndex (length boxes) then
      let track := default TrackState_default (tracks !! bestIndex) in
      let vote := if (det_isStationary det =? 0)%Z
                  then 1 - det_stationaryProbability det
                  else - det_stationaryProbability det in
      let votes := clamp (ts_movingVotes track + vote) (-100) 100 in
      let tracks' := if ts_isMoveable track then tracks
                     else <[bestIndex := set_movingVotes track votes]> tracks in
      let moveable := if ts_isMoveable track then 1%Z
                      else if Rltb 0 votes then 1%Z else 0%Z in
      let isStatic := if negb (det_isStationary det =? 0)%Z && (moveable =? 0)%Z
                      then 1%Z else 0%Z in
      (tracks',
       mkEnhancedDetection
         (det_range_m det) (det_rangeRate_ms det) (det_rangeRateRaw_ms det)
         (det_azimuthRaw_rad det) (det_azimuth_rad det) (det_amplitude_dBsm det)
         (det_longitudinalOffset_m det) (det_lateralOffset_m det)
         (det_motionStatus det) (det_flags det)
         (to_int8 (Z.of_nat bestIndex))
         (det_isStationary det)
         moveable
         isStatic
         (det_stationaryProbability det)
         (det_elevationRaw_m det))
    else (tracks, det).

Fixpoint associateLoop (settings : ProcessingSettings)
  (motion : VehicleMotionState) (calibration : RadarCalibration)
  (boxes : list OrientedBox) (tracks : list TrackState)
  (dets : list EnhancedDetection) : list TrackState * list EnhancedDetection :=
  match dets with
  | [] => (tracks, [])
  | det :: rest =>
      let '(tracks', det') :=
        associateDetection settings motion calibration boxes tracks det in
      let '(tracks'', rest') :=
        associateLoop settings motion calibration boxes tracks' rest in
      (tracks'', det' :: rest')
  end.

(** [RadarProcessingPipeline::associateDetections]. *)
Definition associateDetections (p : Pipeline) (parameters : VehicleParameters)
  (sensor : SensorIndex) (timestamp_us : Z) (detections : EnhancedDetections)
  : Pipeline * EnhancedDetections :=
  match m_tracks p with
  | [] => (p, detections)
  | _ =>
      let calibration := cal_at parameters sensor in
      let dt_s := microsecondsToSeconds
                    (if (m_tracksTimestamp_us p <? timestamp_us)%Z
                     then (timestamp_us - m_tracksTimestamp_us p)%Z else 0%Z) in
      let boxes := map (predictedBox (m_settings p) dt_s) (m_tracks p) in
      let '(tracks', dets') :=
        associateLoop (m_settings p) (m_motionState p) calibration boxes
          (m_tracks p) (eds_detections detections) in
      (set_tracks p tracks', mkEnhancedDetections (eds_header detections) dets')
  end.

(** The loop body of [processTrackFusion] for a surviving index [i]. *)
Definition enhancedTrackAt (input : RawTrackFusion) (i : nat) : EnhancedTrack :=
  mkEnhancedTrack
    (atR (rtf_vcsLongitudinalPosition input) i)
    (atR (rtf_vcsLateralPosition input) i)
    (atR (rtf_vcsLateralVelocity input) i)
    (atR (rtf_vcsLongitudinalVelocity input) i)
    (atR (rtf_vcsLateralAcceleration input) i)
    (atR (rtf_vcsLongitudinalAcceleration input) i)
    (atR (rtf_vcsHeading input) i)
    (atR (rtf_vcsHeadingRate input) i)
    (atR (rtf_length input) i)
    (atR (rtf_width input) i)
    (atR (rtf_height input) i)
    (atR (rtf_probabilityOfDetection input) i)
    (atZ (rtf_id input) i)
    (atZ (rtf_objectClassification input) i)
    (atZ (rtf_objectClassificationConfidence input) i)
    (negb (atZ (rtf_movingFlag input) i =? 0)%Z)
    (negb (atZ (rtf_stationaryFlag input) i =? 0)%Z)
    (negb (atZ (rtf_moveableFlag input) i =? 0)%Z)
    (negb (atZ (rtf_vehicleFlag input) i =? 0)%Z)
    (atZ (rtf_status input) i).

Definition trackStateOf (track : EnhancedTrack) : TrackState :=
  mkTrackState
    (mkVec2 (et_vcsLongitudinalPosition track) (et_vcsLateralPosition track))
    (mkVec2 (et_vcsLongitudinalVelocity track) (et_vcsLateralVelocity track))
    (mkVec2 (et_vcsLongitudinalAcceleration track) (et_vcsLateralAcceleration track))
    (et_length track) (et_width track) (et_height track)
    (et_vcsHeading track) (et_vcsHeadingRate track)
    (et_isStationary track) (et_isMoveable track) 0.

(** The indices that the loop of [processTrackFusion] does not skip. *)
Definition survivingIndices (input : RawTrackFusion) : list nat :=
  filter (fun i => atZ (rtf_status input) i <> TrackStatus_Invalid) (seq 0 kTrackCount).

(** [RadarProcessingPipeline::processTrackFusion].  The output argument
    is overwritten as a whole, so it is returned. *)
Definition processTrackFusion (p : Pipeline) (timestamp_us : Z)
  (input : RawTrackFusion) : Pipeline * EnhancedTracks :=
  let tracks := map (enhancedTrackAt input) (survivingIndices input) in
  (mkPipeline (m_settings p) (m_parameters p) (m_sensorStates p)
     (map trackStateOf tracks) timestamp_us
     (m_motionState p) (m_hasExternalMotionState p)
     (m_odometry p) (m_lastOdometry p),
   mkEnhancedTracks timestamp_us tracks).

Definition latestOdometry (p : Pipeline) : bool * OdometryEstimate :=
  (oe_valid (m_lastOdometry p), m_lastOdometry p).

Section Pipeline.

Variable draw : nat -> nat -> nat.
Variable qr_solve : list (R * R) -> list R -> R * R.

(** The odometry feedback at the end of both detection entry points. *)
Definition feedOdometry (fuel : nat) (p : Pipeline)
  (calibration : RadarCalibration) (output : EnhancedDetections) : option Pipeline :=
  if m_hasExternalMotionState p then Some p
  else
    match processDetections draw qr_solve fuel (m_odometry p) calibration output with
    | None => None
    | Some (false, e) => Some (set_odometry p e)
    | Some (true, e) =>
        let est := odo_lastEstimate e in
        Some (mkPipeline (m_settings p) (m_parameters p) (m_sensorStates p)
                (m_tracks p) (m_tracksTimestamp_us p)
                (mkVehicleMotionState (oe_vLon_mps est) (oe_vLat_mps est)
                   (oe_yawRate_rps est)
                   (vLonVariance (m_motionState p))
                   (vLatVariance (m_motionState p))
                   (yawRateVariance (m_motionState p)))
                (m_hasExternalMotionState p) e est)
    end.

Definition observationTime (timestamp_us delayUs : Z) : Z :=
  if (delayUs <? timestamp_us)%Z then (timestamp_us - delayUs)%Z else 0%Z.

(** [RadarProcessingPipeline::processCornerDetections].  The result is
    the returned flag, the pipeline after the call and the caller's
    [output] object after the call. *)
Definition processCornerDetections (fuel : nat) (p : Pipeline)
  (sensor : SensorIndex) (timestamp_us : Z) (input : RawCornerDetections)
  (output : EnhancedDetections)
  : option (bool * Pipeline * EnhancedDetections) :=
  match m_parameters p with
  | None => Some (false, p, output)
  | Some parameters =>
      let '(updateValid, p1) :=
        updateSensorStatus p sensor (hdr_timestamp_us (corner_header input)) in
      let out1 := mapCornerDetections input output in
      let obs := observationTime timestamp_us
                   (secondsToMicroseconds (cornerHardwareDelay_s parameters)) in
      let out2 := classifyDetections p1 parameters sensor out1 in
      let '(p2, out3) := associateDetections p1 parameters sensor obs out2 in
      match feedOdometry fuel p2 (cal_at parameters sensor) out3 with
      | None => None
      | Some p3 =>
          Some (if updateValid then oe_valid (m_lastOdometry p3) else false, p3, out3)
      end
  end.

(** [RadarProcessingPipeline::processFrontDetections]. *)
Definition processFrontDetections (fuel : nat) (p : Pipeline)
  (timestamp_us : Z) (input : RawFrontDetections)
  (outputShort outputLong : EnhancedDetections)
  : option (bool * Pipeline * EnhancedDetections * EnhancedDetections) :=
  match m_parameters p with
  | None => Some (false, p, outputShort, outputLong)
  | Some parameters =>
      let '(updateShort, p1) :=
        updateSensorStatus p FrontShort (hdr_timestamp_us (front_header input)) in
      let '(updateLong, p2) :=
        updateSensorStatus p1 FrontLong (hdr_timestamp_us (front_header input)) in
      let '(short1, long1) := mapFrontDetections input outputShort outputLong in
      let obs := observationTime timestamp_us
                   (secondsToMicroseconds (frontCenterHardwareDelay_s parameters)) in
      let short2 := classifyDetections p2 parameters FrontShort short1 in
      let '(p3, short3) := associateDetections p2 parameters FrontShort obs short2 in
      let long2 := classifyDetections p3 parameters FrontLong long1 in
      let '(p4, long3) := associateDetections p3 parameters FrontLong obs long2 in
      match feedOdometry fuel p4 (cal_at parameters FrontShort) short3 with
      | None => None
      | Some p5 =>
          Some (if updateShort && updateLong then oe_valid (m_lastOdometry p5) else false,
                p5, short3, long3)
      end
  end.

End Pipeline.

End core.

(* ===================================================================== *)
(** * radar: playback tracks, occupancy grid, virtual ring *)
(* ===================================================================== *)

Module radar.
Import utility.

(** ** processing/RadarTrack.hpp and [appendTracks] of RadarPlayback.cpp *)

Record RadarTrack : Type := mkRadarTrack {
  rt_isoPosition : vec2;
  rt_isoVelocity : vec2;
  rt_length : R;
  rt_width : R;
  rt_height : R;
  rt_headingRad : R;
  rt_headingRate : R;
  rt_probabilityOfDetection : R;
  rt_id : Z;
  rt_objectClassification : Z;
  rt_objectClassificationConfidence : Z;
  rt_isMoving : bool;
  rt_isStationary : bool;
  rt_isMoveable : bool;
  rt_isVehicle : bool
}.

Definition kMinTrackExtent : R := 25 / 100.

(** The height that [appendTracks] writes when [output.height == 0]. *)
Definition imputedHeight (classId : Z) : R :=
  if (classId =? TrackObjectClass_Car)%Z
     || (classId =? TrackObjectClass_Motorcycle)%Z
     || (classId =? TrackObjectClass_Bicycle)%Z
  then 18 / 10
  else if (classId =? TrackObjectClass_Truck)%Z then 38 / 10
  else 5 / 100.

(** The loop body of [appendTracks] for a track that is not skipped. *)
Definition radarTrackOf (track : EnhancedTrack) : RadarTrack :=
  mkRadarTrack
    (mkVec2 (et_vcsLongitudinalPosition track) (et_vcsLateralPosition track))
    (mkVec2 (et_vcsLongitudinalVelocity track) (et_vcsLateralVelocity track))
    (Rmax (et_length track) kMinTrackExtent)
    (Rmax (et_width track) kMinTrackExtent)
    (if Reqb (et_height track) 0
     then imputedHeight (et_objectClassification track)
     else et_height track)
    (et_vcsHeading track)
    (et_vcsHeadingRate track)
    (et_probabilityOfDetection track)
    (et_id track)
    (et_objectClassification track)
    (et_objectClassificationConfidence track)
    (et_isMoving track)
    (et_isStationary track)
    (et_isMoveable track)
    (et_isVehicle track).

(** [appendTracks(data, tracks)]: [tracks] after the call. *)
Definition appendTracks (data : EnhancedTracks) (tracks : list RadarTrack)
  : list RadarTrack :=
  tracks ++
  map radarTrackOf
    (filter (fun t => et_status t <> TrackStatus_Invalid) (ets_tracks data)).

(** ** sensors/BaseRadarSensor.hpp *)

Record RadarPoint : Type := mkRadarPoint {
  pt_x : R;
  pt_y : R;
  pt_z : R;
  pt_intensity : R;
  pt_range_m : R;
  pt_rangeRate_ms : R;
  pt_rangeRateRaw_ms : R;
  pt_azimuthRaw_rad : R;
  pt_azimuth_rad : R;
  pt_amplitude_dBsm : R;
  pt_longitudinalOffset_m : R;
  pt_lateralOffset_m : R;
  pt_motionStatus : Z;
  pt_radarValid : Z;
  pt_superResolution : Z;
  pt_nearTarget : Z;
  pt_hostVehicleClutter : Z;
  pt_multibounce : Z;
  pt_sensorIndex : Z;
  pt_horizontalFov_rad : R;
  pt_maximumRange_m : R;
  pt_azimuthPolarity : R;
  pt_boresightAngle_rad : R;
  pt_sensorLongitudinal_m : R;
  pt_sensorLateral_m : R;
  pt_elevationRaw_rad : R;
  pt_fusedTrackIndex : Z;
  pt_isStationary : Z;
  pt_isMoveable : Z;
  pt_isStatic : Z;
  pt_stationaryProbability : R
}.

Definition RadarPoint_default : RadarPoint :=
  mkRadarPoint 0 0 0 0 0 0 0 0 0 0 0 0 (-1) 0 0 0 0 0 (-1) 0 0 0 0 0 0 0 (-1) 0 0 0 0.

(** The inclusive [int] range of a [for (int i = lo; i <= hi; ++i)] loop. *)
Definition zrange (lo hi : Z) : list Z :=
  map (fun k => (lo + Z.of_nat k)%Z) (seq 0 (Z.to_nat (hi - lo + 1))).

(** ** mapping/FusedRadarMapping.cpp *)

Module FusedRadarMapping.

Inductive RadarModel : Type := Gaussian | Hits.

Inductive PlausibilityCombinationMethod : Type :=
| Average | Product | Minimum | Custom.

Record Settings : Type := mkSettings {
  cellSize : R;
  hitIncrement : R;
  missDecrement : R;
  maxLogOdds : R;
  minLogOdds : R;
  occupiedThreshold : R;
  mapRadius : R;
  radarModel : RadarModel;
  enableOccupied : bool;
  enableFreespace : bool;
  alwaysMapDynamicDetections : bool;
  enablePlausibilityScaling : bool;
  maxAdditiveProbability : R;
  maxFreeSpaceRange_m : R;
  minRange_m : R;
  minPlausibility : R;
  freespaceAngleAccuracy_rad : R;
  freespaceRangeSigmaFactor : R;
  srrRangeAccuracy_m : R;
  srrAngleAccuracy_deg : R;
  mrrRangeAccuracy_m : R;
  mrrAngleAccuracy_deg : R;
  plausibilityMethod : PlausibilityCombinationMethod;
  customCombinationRangeThreshold : R;
  plausibilityRangeMidpoint : R;
  plausibilityRangeBandwidth : R;
  plausibilityAzimuthMidpoint : R;
  plausibilityAzimuthBandwidth : R;
  plausibilityAmplitudeMidpoint : R;
  plausibilityAmplitudeBandwidth : R
}.

(** The default member initialisers of [Settings]. *)
Definition Settings_default : Settings :=
  mkSettings (1 / 2) (1 / 2) (1 / 10) 5 (-5) (2 / 10) 60
    Gaussian true true false true
    (275 / 1000) 100 (1 / 1000000) (1 / 100)
    (174532925 / 10000000000) 4
    (1 / 100) (1 / 10) (25 / 100) (1 / 2)
    Custom 10
    7 (105 / 10) 65 (1465 / 100) (-22) (879 / 100).

Definition kDegToRad : R := 174532925 / 10000000000.
Definition kRadToDeg : R := 572957795 / 10000000.
Definition kMinProbability : R := 1 / 1000.
Definition kMaxProbability : R := 1 - kMinProbability.

Definition wrapTo180 (degrees : R) : R :=
  let wrapped := fmod (degrees + 180) 360 in
  (if Rltb wrapped 0 then wrapped + 360 else wrapped) - 180.

Definition computeGrowthRate (bandwidth : R) : R :=
  if Rleb bandwidth 0 then 0 else 439444915 / 100000000 / bandwidth.

Definition computeIndividualPlausibility (value growthRate midpoint : R) : R :=
  1 / (1 + exp (- growthRate * (value - midpoint))).

Definition isMrrSensorIndex (sensorIndex : Z) : bool :=
  (sensorIndex =? 4)%Z || (sensorIndex =? 5)%Z.

Record t : Type := mkMapping {
  m_settings : Settings;
  m_gridSize : Z;
  m_gridCenter : R;
  m_logOdds : list R;
  m_rangeGrowthRate : R;
  m_azimuthGrowthRate : R;
  m_amplitudeGrowthRate : R
}.

Definition set_logOdds (m : t) (l : list R) : t :=
  mkMapping (m_settings m) (m_gridSize m) (m_gridCenter m) l
    (m_rangeGrowthRate m) (m_azimuthGrowthRate m) (m_amplitudeGrowthRate m).

(** [updatePlausibilityCache] followed by [initializeGrid], the common
    tail of the constructor and of [applySettings].  The conversion of
    the number of cells per side to [int] and the [int] product of the
    number of cells are exact here; [gridChecked.configured] has their
    ranges. *)
Definition initializeGrid_size (s : Settings) : Z :=
  Z.max 3 (ceilZ (mapRadius s * 2 / cellSize s)).

Definition configured (s : Settings) : t :=
  let gridSize := initializeGrid_size s in
  mkMapping s gridSize ((IZR gridSize - 1) * (1 / 2))
    (replicate (Z.to_nat (gridSize * gridSize)) 0)
    (- computeGrowthRate (plausibilityRangeBandwidth s))
    (- computeGrowthRate (plausibilityAzimuthBandwidth s))
    (computeGrowthRate (plausibilityAmplitudeBandwidth s)).

(** Constructor. *)
Definition new (settings : Settings) : t := configured settings.

(** [applySettings]. *)
Definition applySettings (m : t) (settings : Settings) : t := configured settings.

(** [reset]: [std::fill] with zero. *)
Definition reset (m : t) : t :=
  set_logOdds m (map (fun _ => 0) (m_logOdds m)).

(** [worldToCell]: the returned flag and the two indices. *)
Definition worldToCell (m : t) (position : vec2) : bool * Z * Z :=
  let scaledX := vx position / cellSize (m_settings m) + m_gridCenter m in
  let scaledY := vy position / cellSize (m_settings m) + m_gridCenter m in
  let ix := floorZ scaledX in
  let iy := floorZ scaledY in
  ((0 <=? ix)%Z && (ix <? m_gridSize m)%Z && (0 <=? iy)%Z && (iy <? m_gridSize m)%Z,
   ix, iy).

(** [computePlausibility]. *)
Definition computePlausibility (m : t) (range_m azimuth_rad amplitude_dBsm : R) : R :=
  let s := m_settings m in
  if negb (enablePlausibilityScaling s) then 1
  else
    let rangeComponent :=
      computeIndividualPlausibility range_m (m_rangeGrowthRate m)
        (plausibilityRangeMidpoint s) in
    let azimuthDeg := Rabs (wrapTo180 (azimuth_rad * kRadToDeg)) in
    let azimuthComponent :=
      computeIndividualPlausibility azimuthDeg (m_azimuthGrowthRate m)
        (plausibilityAzimuthMidpoint s) in
    let amplitudeComponent :=
      computeIndividualPlausibility amplitude_dBsm (m_amplitudeGrowthRate m)
        (plausibilityAmplitudeMidpoint s) in
    let combined :=
      match plausibilityMethod s with
      | Average => (rangeComponent + azimuthComponent + amplitudeComponent) / 3
      | Product => rangeComponent * azimuthComponent * amplitudeComponent
      | Minimum => Rmin rangeComponent (Rmin azimuthComponent amplitudeComponent)
      | Custom =>
          if Rltb (customCombinationRangeThreshold s) range_m
          then Rmin rangeComponent azimuthComponent * amplitudeComponent
          else rangeComponent * amplitudeComponent
      end in
    std_clamp combined 0 1.

(** [computeSensorAccuracies]: range accuracy and angle accuracy. *)
Definition computeSensorAccuracies (m : t) (point : RadarPoint) : R * R :=
  let s := m_settings m in
  if isMrrSensorIndex (pt_sensorIndex point)
  then (mrrRangeAccuracy_m s, mrrAngleAccuracy_deg s * kDegToRad)
  else (srrRangeAccuracy_m s, srrAngleAccuracy_deg s * kDegToRad).

(** [updateCell].  An index outside the vector, which the source does
    not check, reads as 0 and is not written; [gridChecked.updateCell]
    reports it. *)
Definition updateCell (m : t) (ix iy : Z) (delta : R) : t :=
  let idx := Z.to_nat (iy * m_gridSize m + ix) in
  let current := default 0 (m_logOdds m !! idx) in
  let next := std_clamp (current + delta)
                (minLogOdds (m_settings m)) (maxLogOdds (m_settings m)) in
  set_logOdds m (<[idx := next]> (m_logOdds m)).

(** [cellCenter], without the zero third component. *)
Definition cellCenter (m : t) (ix iy : Z) : vec2 :=
  let c := cellSize (m_settings m) in
  mkVec2 ((IZR ix - m_gridCenter m) * c + c * (1 / 2))
         ((IZR iy - m_gridCenter m) * c + c * (1 / 2)).

(** The lambda [toIndex] of [addGaussian] and [addFreespaceCone]. *)
Definition toIndex (m : t) (value : R) : R :=
  value / cellSize (m_settings m) + m_gridCenter m.

(** The clamped index window of both rasterising loops. *)
Definition window (m : t) (minV maxV : R) : Z * Z :=
  (clampZ (floorZ (toIndex m minV)) 0 (m_gridSize m - 1),
   clampZ (ceilZ (toIndex m maxV)) 0 (m_gridSize m - 1)).

(** The nested [for iy / for ix] loops, with the body [body m ix iy]. *)
Definition forCells (body : t -> Z -> Z -> t) (m : t)
  (ixMin ixMax iyMin iyMax : Z) : t :=
  fold_left
    (fun m1 iy => fold_left (fun m2 ix => body m2 ix iy) (zrange ixMin ixMax) m1)
    (zrange iyMin iyMax) m.

(** [addGaussian]. *)
Definition addGaussian (m : t) (detectionPosition relativeVector : vec2)
  (range_m azimuth_rad rangeAccuracy_m angleAccuracy_rad plausibility : R) : t :=
  let s := m_settings m in
  if Rleb (maxAdditiveProbability s) 0 then m
  else
    let sigmaLat := Rmax (range_m * tan angleAccuracy_rad) (cellSize s * (1 / 2)) in
    let sigmaLon := Rmax rangeAccuracy_m (cellSize s * (1 / 2)) in
    let maxSigma := Rmax sigmaLat sigmaLon in
    let radius := Rmax (cellSize s) (3 * maxSigma) in
    let invSigmaLon2 := 1 / (sigmaLon * sigmaLon) in
    let invSigmaLat2 := 1 / (sigmaLat * sigmaLat) in
    let scale := maxAdditiveProbability s * plausibility in
    let forward :=
      if Rltb (1 / 1000) (vlength relativeVector)
      then vscale relativeVector (1 / vlength relativeVector)
      else mkVec2 (sin azimuth_rad) (cos azimuth_rad) in
    let right := mkVec2 (vy forward) (- vx forward) in
    let '(ixMin, ixMax) :=
      window m (vx detectionPosition - radius) (vx detectionPosition + radius) in
    let '(iyMin, iyMax) :=
      window m (vy detectionPosition - radius) (vy detectionPosition + radius) in
    forCells
      (fun m' ix iy =>
         let cell := cellCenter m' ix iy in
         let delta := vsub cell detectionPosition in
         let longitudinal := vdot delta forward in
         let lateral := vdot delta right in
         let exponent := - (1 / 2) * ((longitudinal * longitudinal) * invSigmaLon2 +
                                      (lateral * lateral) * invSigmaLat2) in
         let gaussian := exp exponent in
         let probability :=
           std_clamp (1 / 2 + scale * gaussian) kMinProbability kMaxProbability in
         updateCell m' ix iy (ln (probability / (1 - probability))))
      m ixMin ixMax iyMin iyMax.

(** [addHit]. *)
Definition addHit (m : t) (detectionPosition : vec2) (plausibility : R) : t :=
  let '(ok, ix, iy) := worldToCell m detectionPosition in
  if negb ok then m
  else updateCell m ix iy (hitIncrement (m_settings m) * plausibility).

(** The lambdas [sign] and [pointInTriangle] of [addFreespaceCone]. *)
Definition sign (p1 p2 p3 : vec2) : R :=
  (vx p1 - vx p3) * (vy p2 - vy p3) - (vx p2 - vx p3) * (vy p1 - vy p3).

Definition pointInTriangle (p a b c : vec2) : bool :=
  let d1 := sign p a b in
  let d2 := sign p b c in
  let d3 := sign p c a in
  let hasNeg := Rltb d1 0 || Rltb d2 0 || Rltb d3 0 in
  let hasPos := Rltb 0 d1 || Rltb 0 d2 || Rltb 0 d3 in
  negb (hasNeg && hasPos).

(** [addFreespaceCone]. *)
Definition addFreespaceCone (m : t) (sensorPosition : vec2)
  (azimuth_rad range_m rangeAccuracy_m amplitude_dBsm : R) : t :=
  let s := m_settings m in
  if Rltb (maxFreeSpaceRange_m s) range_m then m
  else
    let freeSpaceRange :=
      range_m - freespaceRangeSigmaFactor s * Rmax 0 rangeAccuracy_m in
    if Rleb freeSpaceRange 0 then m
    else
      let freeSpacePlausibility :=
        computePlausibility m (Rmin freeSpaceRange 15) azimuth_rad amplitude_dBsm in
      if Rltb freeSpacePlausibility (minPlausibility s) then m
      else
        let angle := freespaceAngleAccuracy_rad s in
        let angleLeft := azimuth_rad - angle in
        let angleRight := azimuth_rad + angle in
        let left := vadd sensorPosition
                      (vscale (mkVec2 (sin angleLeft) (cos angleLeft)) freeSpaceRange) in
        let right := vadd sensorPosition
                       (vscale (mkVec2 (sin angleRight) (cos angleRight)) freeSpaceRange) in
        let delta := - Rabs (missDecrement s) * freeSpacePlausibility in
        let minX := Rmin (vx sensorPosition) (Rmin (vx left) (vx right)) in
        let maxX := Rmax (vx sensorPosition) (Rmax (vx left) (vx right)) in
        let minY := Rmin (vy sensorPosition) (Rmin (vy left) (vy right)) in
        let maxY := Rmax (vy sensorPosition) (Rmax (vy left) (vy right)) in
        let '(ixMin, ixMax) := window m minX maxX in
        let '(iyMin, iyMax) := window m minY maxY in
        forCells
          (fun m' ix iy =>
             if pointInTriangle (cellCenter m' ix iy) sensorPosition left right
             then updateCell m' ix iy delta
             else m')
          m ixMin ixMax iyMin iyMax.

(** The loop body of [update]. *)
Definition updatePoint (m : t) (point : RadarPoint) : t :=
  let s := m_settings m in
  let detectionTypeValid :=
    negb (pt_radarValid point =? 0)%Z || negb (pt_superResolution point =? 0)%Z in
  if negb detectionTypeValid then m
  else
    let detectionPosition := mkVec2 (pt_x point) (pt_y point) in
    let sensorPosition :=
      mkVec2 (pt_sensorLateral_m point) (pt_sensorLongitudinal_m point) in
    let relativeVector := vsub detectionPosition sensorPosition in
    let relativeNorm := vlength relativeVector in
    let range_m := if Rltb 0 (pt_range_m point) then pt_range_m point else relativeNorm in
    if Rleb range_m (minRange_m s) then m
    else
      let azimuth_rad :=
        if Rltb (1 / 1000) relativeNorm
        then atan2 (vx relativeVector) (vy relativeVector)
        else
          let polarity := if Reqb (pt_azimuthPolarity point) 0 then 1
                          else pt_azimuthPolarity point in
          - pt_azimuthRaw_rad point * polarity + pt_boresightAngle_rad point in
      let '(rangeAccuracy_m, angleAccuracy_rad) := computeSensorAccuracies m point in
      let plausibility :=
        computePlausibility m range_m azimuth_rad (pt_amplitude_dBsm point) in
      let isStationary :=
        negb (pt_isStationary point =? 0)%Z || negb (pt_isStatic point =? 0)%Z
        || (pt_motionStatus point =? 0)%Z in
      let m1 :=
        if enableOccupied s && Rleb (minPlausibility s) plausibility
           && (isStationary || alwaysMapDynamicDetections s)
        then
          match radarModel s with
          | Gaussian =>
              addGaussian m detectionPosition relativeVector range_m azimuth_rad
                rangeAccuracy_m angleAccuracy_rad plausibility
          | Hits => addHit m detectionPosition plausibility
          end
        else m in
      if enableFreespace s
      then addFreespaceCone m1 sensorPosition azimuth_rad range_m rangeAccuracy_m
             (pt_amplitude_dBsm point)
      else m1.

(** [FusedRadarMapping::update]. *)
Definition update (m : t) (points : list RadarPoint) : t :=
  fold_left updatePoint points m.

(** [occupiedCells], in row-major order. *)
Definition occupiedCells (m : t) : list vec2 :=
  flat_map
    (fun iy =>
       flat_map
         (fun ix =>
            let value := default 0 (m_logOdds m !! Z.to_nat (iy * m_gridSize m + ix)) in
            if Rleb (occupiedThreshold (m_settings m)) value
            then [cellCenter m ix iy] else [])
         (zrange 0 (m_gridSize m - 1)))
    (zrange 0 (m_gridSize m - 1)).

End FusedRadarMapping.

(** ** mapping/RadarVirtualSensorMapping.cpp *)

Module RadarVirtualSensorMapping.

Definition kEpsilon : R := 1 / 100000.
Definition kDefaultSegmentCount : nat := 72.

(** [glm::two_pi<float>()]. *)
Definition two_pi : R := 2 * PI.

Definition cross2 (a b : vec2) : R := vx a * vy b - vy a * vx b.

Record t : Type := mkRing {
  m_vehicleContour : list vec2;
  m_vehicleCenter : vec2;
  m_segmentCount : nat;
  m_segmentDirections : list vec2;
  m_segmentStartDist : list R;
  m_segmentEndDist : list efloat;
  m_ready : bool
}.

(** [raySegmentIntersection]: [Some t] is a [true] return with
    [tOut = t]. *)
Definition raySegmentIntersection (origin direction a b : vec2) : option R :=
  let edge := vsub b a in
  let denom := cross2 direction edge in
  if Rltb (Rabs denom) kEpsilon then None
  else
    let delta := vsub a origin in
    let t := cross2 delta edge / denom in
    let u := cross2 delta direction / denom in
    if Rleb 0 t && Rleb 0 u && Rleb u 1 then Some t else None.

(** The loop shared by [contourRayDistance] and [polygonRayDistance]:
    the nearest hit over the edges [polygon[i] -> polygon[(i+1) % n]]. *)
Definition nearestHit (origin direction : vec2) (polygon : list vec2) : efloat :=
  let count := length polygon in
  fold_left
    (fun best i =>
       let a := default vzero (polygon !! i) in
       let b := default vzero (polygon !! ((i + 1) mod count)%nat) in
       match raySegmentIntersection origin direction a b with
       | Some t => min_efloat best t
       | None => best
       end)
    (seq 0 count) PosInf.

(** [contourRayDistance]. *)
Definition contourRayDistance (contour : list vec2) (origin direction : vec2) : R :=
  if Nat.ltb (length contour) 3 then 0
  else
    match nearestHit origin direction contour with
    | Finite best => best
    | PosInf => 0
    end.

(** [polygonRayDistance] on the four corners of a footprint. *)
Definition polygonRayDistance (origin direction : vec2) (polygon : list vec2) : efloat :=
  nearestHit origin direction polygon.

(** The direction that [rebuildSegments] writes at index [i] of
    [count] segments. *)
Definition segmentDirection (count i : nat) : vec2 :=
  let delta := two_pi / INR count in
  let angle := (INR i + 1 / 2) * delta in
  mkVec2 (cos angle) (sin angle).

(** The loop of [setVehicleContour] over the segments. *)
Definition contourStartDists (contour : list vec2) (center : vec2)
  (count : nat) (directions : list vec2) (startDist : list R) : list R :=
  fold_left
    (fun acc i =>
       let distance :=
         contourRayDistance contour center (default vzero (directions !! i)) in
       <[i := Rmax 0 distance]> acc)
    (seq 0 count) startDist.

(** The centroid computed by [setVehicleContour]. *)
Definition centroid (contour : list vec2) : vec2 :=
  vscale (fold_left vadd contour vzero) (1 / INR (length contour)).

(** [setVehicleContour]. *)
Definition setVehicleContour (m : t) (contour : list vec2) : t :=
  if Nat.ltb (length contour) 3 then m
  else
    let center := centroid contour in
    mkRing contour center (m_segmentCount m) (m_segmentDirections m)
      (contourStartDists contour center (m_segmentCount m)
         (m_segmentDirections m) (m_segmentStartDist m))
      (m_segmentEndDist m)
      true.

(** [setSegmentCount]: the returned flag and the ring after the call.
    [rebuilt] is the ring after the three [assign] calls and
    [rebuildSegments], which overwrites every direction and writes zero
    to every start distance. *)
Definition setSegmentCount (m : t) (count : nat) : bool * t :=
  let clamped := Nat.max 3 count in
  if Nat.eqb clamped (m_segmentCount m)
     && negb (Nat.eqb (length (m_segmentDirections m)) 0)
  then (false, m)
  else
    let rebuilt :=
      mkRing (m_vehicleContour m) (m_vehicleCenter m) clamped
        (map (segmentDirection clamped) (seq 0 clamped))
        (replicate clamped 0)
        (replicate clamped PosInf)
        (m_ready m) in
    if Nat.leb 3 (length (m_vehicleContour m))
    then (true, setVehicleContour rebuilt (m_vehicleContour m))
    else (true,
          mkRing (m_vehicleContour rebuilt) (m_vehicleCenter rebuilt)
            (m_segmentCount rebuilt) (m_segmentDirections rebuilt)
            (m_segmentStartDist rebuilt) (m_segmentEndDist rebuilt) false).

(** The member initialisers, before the constructor body runs. *)
Definition blank : t := mkRing [] vzero kDefaultSegmentCount [] [] [] false.

(** Constructor. *)
Definition new : t := snd (setSegmentCount blank kDefaultSegmentCount).

Definition segmentCount (m : t) : nat := m_segmentCount m.

(** [resetSegments]. *)
Definition resetSegments (m : t) : t :=
  mkRing (m_vehicleContour m) (m_vehicleCenter m) (m_segmentCount m)
    (m_segmentDirections m) (m_segmentStartDist m)
    (map (fun _ => PosInf) (m_segmentEndDist m))
    (m_ready m).

Definition reset (m : t) : t := resetSegments m.

(** [normalizeAngle]. *)
Definition normalizeAngle (angle : R) : R :=
  let normalized := fmod angle two_pi in
  if Rltb normalized 0 then normalized + two_pi else normalized.

(** [segmentIndex]. *)
Definition segmentIndex (m : t) (angle : R) : nat :=
  if Nat.eqb (m_segmentCount m) 0 then 0%nat
  else
    let normalized := normalizeAngle angle in
    let scale := normalized / two_pi in
    let idx := to_size_t (scale * INR (m_segmentCount m)) in
    Nat.min idx (m_segmentCount m - 1).

Definition set_endDist (m : t) (l : list efloat) : t :=
  mkRing (m_vehicleContour m) (m_vehicleCenter m) (m_segmentCount m)
    (m_segmentDirections m) (m_segmentStartDist m) l (m_ready m).

(** The tail shared by both loops of [update]: the reads of
    [m_segmentStartDist[idx]] and [m_segmentEndDist[idx]] and the write.
    [None] is an access outside the vector. *)
Definition shrinkEnd (m : t) (idx : nat) (distance : R) : option t :=
  match m_segmentStartDist m !! idx with
  | None => None
  | Some startDist =>
      if Rleb distance (startDist + kEpsilon) then Some m
      else
        match m_segmentEndDist m !! idx with
        | None => None
        | Some endDist =>
            if lt_efloat distance endDist
            then Some (set_endDist m (<[idx := Finite distance]> (m_segmentEndDist m)))
            else Some m
        end
  end.

(** The body of the detection loop of [update].  The length of a real
    vector is finite, so only [distance <= kEpsilon] skips. *)
Definition updateDetection (m : t) (point : vec2) : option t :=
  let delta := vsub point (m_vehicleCenter m) in
  let distance := vlength delta in
  if Rleb distance kEpsilon then Some m
  else shrinkEnd m (segmentIndex m (atan2 (vy delta) (vx delta))) distance.

(** The body of the inner loop over the segments for one footprint. *)
Definition updateFootprintSegment (footprint : list vec2) (m : t) (i : nat)
  : option t :=
  match m_segmentDirections m !! i with
  | None => None
  | Some direction =>
      match polygonRayDistance (m_vehicleCenter m) direction footprint with
      | PosInf => Some m
      | Finite distance =>
          if Rleb distance kEpsilon then Some m
          else shrinkEnd m i distance
      end
  end.

(** A loop whose body may fail. *)
Fixpoint foldM {A B : Type} (f : A -> B -> option A) (l : list B) (a : A) : option A :=
  match l with
  | [] => Some a
  | b :: l' =>
      match f a b with
      | None => None
      | Some a' => foldM f l' a'
      end
  end.

(** [RadarVirtualSensorMapping::update].  A footprint is a
    [std::array<glm::vec2, 4>]. *)
Definition update (m : t) (detections : list vec2)
  (trackFootprints : list (list vec2)) : option t :=
  let m0 := resetSegments m in
  if negb (m_ready m0) then Some m0
  else
    match foldM updateDetection detections m0 with
    | None => None
    | Some m1 =>
        foldM
          (fun m2 footprint =>
             foldM (updateFootprintSegment footprint) (seq 0 (m_segmentCount m2)) m2)
          trackFootprints m1
    end.

(** [ring]. *)
Definition ring (m : t) (fallbackRange : R) : list vec2 :=
  if negb (m_ready m) || Rleb fallbackRange 0 then []
  else
    map
      (fun i =>
         let endDist := default PosInf (m_segmentEndDist m !! i) in
         let length0 := match endDist with
                        | Finite e => Rmin e fallbackRange
                        | PosInf => fallbackRange
                        end in
         let length1 := Rmax length0 (default 0 (m_segmentStartDist m !! i)) in
         vadd (m_vehicleCenter m)
              (vscale (default vzero (m_segmentDirections m !! i)) length1))
      (seq 0 (m_segmentCount m)).

End RadarVirtualSensorMapping.

End radar.

(* ===================================================================== *)
(** * Call histories *)
(* ===================================================================== *)

Import utility.

Section Histories.

Variable draw : nat -> nat -> nat.
Variable qr_solve : list (R * R) -> list R -> R * R.

(** The pipelines on which [initialize] has not been called yet: a
    fresh pipeline and what the other public methods make of one. *)
Inductive beforeInitialize : core.Pipeline -> Prop :=
| bi_new (settings : core.ProcessingSettings) :
    beforeInitialize (core.Pipeline_new settings)
| bi_updateVehicleState p state :
    beforeInitialize p ->
    beforeInitialize (core.updateVehicleState p state)
| bi_processTrackFusion p timestamp_us input :
    beforeInitialize p ->
    beforeInitialize (fst (core.processTrackFusion p timestamp_us input))
| bi_processCornerDetections p fuel sensor timestamp_us input output r p' output' :
    beforeInitialize p ->
    core.processCornerDetections draw qr_solve fuel p sensor timestamp_us input output
    = Some (r, p', output') ->
    beforeInitialize p'
| bi_processFrontDetections p fuel timestamp_us input oS oL r p' oS' oL' :
    beforeInitialize p ->
    core.processFrontDetections draw qr_solve fuel p timestamp_us input oS oL
    = Some (r, p', oS', oL') ->
    beforeInitialize p'.

End Histories.

(** The liveness record that [updateSensorStatus] reads and writes. *)
Definition sensorState (p : core.Pipeline) (sensor : SensorIndex)
  : core.SensorUpdateState :=
  default core.SensorUpdateState_default
    (core.m_sensorStates p !! sensor_index sensor).

(** A sequence of frames as the liveness update sees it: each frame is
    the sensor it comes from and the timestamp of its header.
    [afterFrames p frames] is the pipeline after the liveness updates
    of the frames, in their order. *)
Definition afterFrames (p : core.Pipeline) (frames : list (SensorIndex * Z))
  : core.Pipeline :=
  fold_left
    (fun q frame => snd (core.updateSensorStatus q (fst frame) (snd frame)))
    frames p.

(* ===================================================================== *)
(** * Reference instances and example inputs *)
(* ===================================================================== *)

Module example.

(** A generator that walks through the indices in turn; any two
    consecutive draws differ when there are at least two samples. *)
Definition draw_cycle (n k : nat) : nat := (k mod n)%nat.

(** The least-squares solution of a system with two unknowns in exact
    arithmetic, by the normal equations; for a matrix of rank one the
    column of larger norm is the pivot and the other unknown is zero,
    as in a column-pivoted QR solve. *)
Definition lstsq (A : list (R * R)) (b : list R) : R * R :=
  let rows := zip A b in
  let sum f := fold_right (fun r acc => f r + acc) 0 rows in
  let s11 := sum (fun r => fst (fst r) * fst (fst r)) in
  let s12 := sum (fun r => fst (fst r) * snd (fst r)) in
  let s22 := sum (fun r => snd (fst r) * snd (fst r)) in
  let t1 := sum (fun r => fst (fst r) * snd r) in
  let t2 := sum (fun r => snd (fst r) * snd r) in
  let det := s11 * s22 - s12 * s12 in
  if Reqb det 0 then
    if Reqb s11 0 && Reqb s22 0 then (0, 0)
    else if Rleb s22 s11 then (t1 / s11, 0) else (0, t2 / s22)
  else ((s22 * t1 - s12 * t2) / det, (s11 * t2 - s12 * t1) / det).

(** A value-initialised [RawReturns] of [n] returns. *)
Definition RawReturns_zero (n : nat) : RawReturns :=
  mkRawReturns
    (replicate n 0) (replicate n 0) (replicate n 0) (replicate n 0)
    (replicate n 0) (replicate n 0) (replicate n 0) (replicate n 0)
    (replicate n 0%Z) (replicate n 0%Z) (replicate n 0%Z) (replicate n 0%Z)
    (replicate n 0%Z) (replicate n 0%Z).

(** [RawCornerDetections{}] and [RawFrontDetections{}]. *)
Definition RawCornerDetections_zero : RawCornerDetections :=
  mkRawCornerDetections FrontLeft RawDetectionsHeader_default
    (RawReturns_zero kCornerReturnCount).

Definition RawFrontDetections_zero : RawFrontDetections :=
  mkRawFrontDetections RawDetectionsHeader_default
    (RawReturns_zero kFrontReturnCount).

(** A fresh pipeline with the default settings. *)
Definition pipeline0 : core.Pipeline :=
  core.Pipeline_new core.ProcessingSettings_default.

(** A track frame whose entry 0 is an updated car of length and width
    0.1 m and of height 0; the 95 other entries are invalid. *)
Definition smallCarFrame : RawTrackFusion :=
  mkRawTrackFusion 900 0 0 0 0
    (replicate kTrackCount 0) (replicate kTrackCount 0)
    (1 / 10 :: replicate 95 0)
    (1 / 10 :: replicate 95 0)
    (replicate kTrackCount 0)
    (replicate kTrackCount 0)
    (replicate kTrackCount 0%Z)
    (TrackObjectClass_Car :: replicate 95 0%Z)
    (replicate kTrackCount 0%Z)
    (TrackStatus_Updated :: replicate 95 TrackStatus_Invalid)
    (replicate kTrackCount 0) (replicate kTrackCount 0) (replicate kTrackCount 0)
    (replicate kTrackCount 0) (replicate kTrackCount 0) (replicate kTrackCount 0)
    (replicate kTrackCount 0%Z) (replicate kTrackCount 0%Z)
    (replicate kTrackCount 0%Z) (replicate kTrackCount 0%Z).

End example.

(** The property of C3 as it is worded, on the records that
    [processTrackFusion] emits for [input]: entry [i] of the frame and
    the record emitted for it. *)
Definition emittedTrackImputedAndClamped (input : RawTrackFusion)
  (i : nat) (et : EnhancedTrack) : Prop :=
  (atR (rtf_height input) i = 0 ->
   et_height et = radar.imputedHeight (atZ (rtf_objectClassification input) i)) /\
  25 / 100 <= et_length et /\
  25 / 100 <= et_width et.

Module ringExample.
Import radar.RadarVirtualSensorMapping.

(** The square contour of side 2 around the origin. *)
Definition square : list vec2 :=
  [mkVec2 (-1) (-1); mkVec2 1 (-1); mkVec2 1 1; mkVec2 (-1) 1].

(** A ring of three segments around the square contour. *)
Definition ring3 : t := setVehicleContour (snd (setSegmentCount new 3)) square.

(** One detection 5 m from the centre, on the axis of segment 1. *)
Definition detection : vec2 := mkVec2 (-5) 0.

End ringExample.

(** The guard at the head of [setSegmentCount]. *)
Definition sameCount (m : radar.RadarVirtualSensorMapping.t) (count : nat) : bool :=
  Nat.eqb (Nat.max 3 count) (radar.RadarVirtualSensorMapping.m_segmentCount m)
  && negb (Nat.eqb
             (length (radar.RadarVirtualSensorMapping.m_segmentDirections m)) 0).

(** The rings that the public methods of [RadarVirtualSensorMapping]
    produce from a constructed one. *)
Inductive ringReachable : radar.RadarVirtualSensorMapping.t -> Prop :=
| rr_new :
    ringReachable radar.RadarVirtualSensorMapping.new
| rr_setSegmentCount m count :
    ringReachable m ->
    ringReachable (snd (radar.RadarVirtualSensorMapping.setSegmentCount m count))
| rr_setVehicleContour m contour :
    ringReachable m ->
    ringReachable (radar.RadarVirtualSensorMapping.setVehicleContour m contour)
| rr_update m detections trackFootprints m' :
    ringReachable m ->
    radar.RadarVirtualSensorMapping.update m detections trackFootprints = Some m' ->
    ringReachable m'
| rr_reset m :
    ringReachable m ->
    ringReachable (radar.RadarVirtualSensorMapping.reset m).

(** The three per-segment vectors have [m_segmentCount] entries, and
    there are at least three segments. *)
Definition ringInv (m : radar.RadarVirtualSensorMapping.t) : Prop :=
  length (radar.RadarVirtualSensorMapping.m_segmentDirections m)
  = radar.RadarVirtualSensorMapping.m_segmentCount m /\
  length (radar.RadarVirtualSensorMapping.m_segmentStartDist m)
  = radar.RadarVirtualSensorMapping.m_segmentCount m /\
  length (radar.RadarVirtualSensorMapping.m_segmentEndDist m)
  = radar.RadarVirtualSensorMapping.m_segmentCount m /\
  (3 <= radar.RadarVirtualSensorMapping.m_segmentCount m)%nat.

(** The invariant together with a fixed segment count. *)
Definition ringInvAt (c : nat) (m : radar.RadarVirtualSensorMapping.t) : Prop :=
  ringInv m /\ radar.RadarVirtualSensorMapping.m_segmentCount m = c.

(** ** Occupancy grid: histories, configuration and the plausibility of
    the specification *)

Module gridSpec.
Import radar.FusedRadarMapping.

(** The mappings that the public methods produce when every [Settings]
    value handed to the constructor or to [applySettings] satisfies
    [ok]. *)
Inductive reachable (ok : Settings -> Prop) : t -> Prop :=
| reach_new settings :
    ok settings -> reachable ok (new settings)
| reach_applySettings m settings :
    reachable ok m -> ok settings -> reachable ok (applySettings m settings)
| reach_update m points :
    reachable ok m -> reachable ok (update m points)
| reach_reset m :
    reachable ok m -> reachable ok (reset m).

(** Everything of a mapping but its cells. *)
Definition config (m : t) : Settings * Z * R * R * R * R :=
  (m_settings m, m_gridSize m, m_gridCenter m,
   m_rangeGrowthRate m, m_azimuthGrowthRate m, m_amplitudeGrowthRate m).

(** The cached growth rates are those of the current settings. *)
Definition cacheFresh (m : t) : Prop :=
  m_rangeGrowthRate m = - computeGrowthRate (plausibilityRangeBandwidth (m_settings m)) /\
  m_azimuthGrowthRate m = - computeGrowthRate (plausibilityAzimuthBandwidth (m_settings m)) /\
  m_amplitudeGrowthRate m = computeGrowthRate (plausibilityAmplitudeBandwidth (m_settings m)).


(** The settings of a configuration. *)
Definition configSettings (c : Settings * Z * R * R * R * R) : Settings :=
  fst (fst (fst (fst (fst c)))).

(** The configuration is [c] and every cell satisfies [Q]. *)
Definition keeps (c : Settings * Z * R * R * R * R) (Q : R -> Prop) (m : t) : Prop :=
  config m = c /\ Forall Q (m_logOdds m).


Definition anySettings (s : Settings) : Prop := True.

(** The plausibility as section 4.2 of the specification words it.
    [g_k = 4.39444915 / bandwidth_k], zero if the bandwidth is not
    positive. *)
Definition growth (bandwidth : R) : R :=
  if Rleb bandwidth 0 then 0 else 439444915 / 100000000 / bandwidth.

(** [sigma_k = 1 / (1 + exp(-g_k (value_k - midpoint_k)))]. *)
Definition sigmoid (g value midpoint : R) : R :=
  1 / (1 + exp (- g * (value - midpoint))).

(** [rad2deg]: the degrees in one radian, [180 / pi], in the nine
    digits that a [float] holds. *)
Definition rad2deg : R := 572957795 / 10000000.

(** [wrapDegTo180]: the angle of [[-180, 180)] that differs from
    [degrees] by a whole number of turns, that is [degrees] less 360
    times the number of whole turns in [degrees + 180]. *)
Definition wrapDegTo180 (degrees : R) : R :=
  degrees - 360 * IZR (Int_part ((degrees + 180) / 360)).

(** The growth rates of range and azimuth are negated; the azimuth
    value is [|wrapDegTo180(azimuth * rad2deg)|]. *)
Definition sigma_range (s : Settings) (range_m : R) : R :=
  sigmoid (- growth (plausibilityRangeBandwidth s)) range_m
    (plausibilityRangeMidpoint s).

Definition sigma_azimuth (s : Settings) (azimuth_rad : R) : R :=
  sigmoid (- growth (plausibilityAzimuthBandwidth s))
    (Rabs (wrapDegTo180 (azimuth_rad * rad2deg)))
    (plausibilityAzimuthMidpoint s).

Definition sigma_amplitude (s : Settings) (amplitude_dBsm : R) : R :=
  sigmoid (growth (plausibilityAmplitudeBandwidth s)) amplitude_dBsm
    (plausibilityAmplitudeMidpoint s).

(** Clamp to [0, 1]. *)
Definition clamp01 (x : R) : R := Rmax 0 (Rmin 1 x).

(** [Custom -> (range > 10 ? min(sigma_r, sigma_a) : sigma_r) * sigma_A],
    clamped. *)
Definition customPlausibility (s : Settings)
  (range_m azimuth_rad amplitude_dBsm : R) : R :=
  clamp01
    (if Rltb 10 range_m
     then Rmin (sigma_range s range_m) (sigma_azimuth s azimuth_rad)
          * sigma_amplitude s amplitude_dBsm
     else sigma_range s range_m * sigma_amplitude s amplitude_dBsm).


End gridSpec.

(** ** Pipeline: track snapshot and generator fairness *)

(** A track state with its vote accumulator blanked. *)
Definition forgetVotes (t : core.TrackState) : core.TrackState :=
  core.set_movingVotes t 0.

(** The track snapshot of [p'] is that of [p] up to the vote
    accumulators: same tracks in the same order, same snapshot time. *)
Definition sameSnapshotUpToVotes (p p' : core.Pipeline) : Prop :=
  map forgetVotes (core.m_tracks p') = map forgetVotes (core.m_tracks p) /\
  core.m_tracksTimestamp_us p' = core.m_tracksTimestamp_us p.

(** Within [fuel + 1] further draws the generator returns a value
    different from any given index. *)
Definition drawsSeparate (draw : nat -> nat -> nat) (fuel : nat) : Prop :=
  forall n i k, (2 <= n)%nat ->
    exists d, (d <= fuel)%nat /\ draw n (k + d)%nat <> i.

Module pipelineExample.

(** The calibration of the repository's pipeline test, for all six
    sensors. *)
Definition calibration : RadarCalibration :=
  mkRadarCalibration
    (mkRadarPose 0 0 0 0)
    (mkRadarPose 1 0 0 0)
    1 (15 / 10) (174532925 / 10000000000) (15707963 / 10000000).

Definition parameters : VehicleParameters :=
  mkVehicleParameters 1 0 0 (replicate SensorIndex_Count calibration) [].

(** A track frame with one updated car at VCS (1, 1), 4 m by 2 m, whose
    moveable flag is not set. *)
Definition carFrame : RawTrackFusion :=
  mkRawTrackFusion 900 0 0 0 0
    (1 :: replicate 95 0)
    (1 :: replicate 95 0)
    (4 :: replicate 95 0)
    (2 :: replicate 95 0)
    (16 / 10 :: replicate 95 0)
    (8 / 10 :: replicate 95 0)
    (42%Z :: replicate 95 0%Z)
    (TrackObjectClass_Car :: replicate 95 0%Z)
    (replicate kTrackCount 0%Z)
    (TrackStatus_Updated :: replicate 95 TrackStatus_Invalid)
    (replicate kTrackCount 0) (replicate kTrackCount 0) (replicate kTrackCount 0)
    (replicate kTrackCount 0) (replicate kTrackCount 0) (replicate kTrackCount 0)
    (replicate kTrackCount 0%Z) (replicate kTrackCount 0%Z)
    (replicate kTrackCount 0%Z) (1%Z :: replicate 95 0%Z).

(** The state that [processTrackFusion] records for that car. *)
Definition carState : core.TrackState :=
  core.mkTrackState (mkVec2 1 1) (mkVec2 0 0) (mkVec2 0 0)
    4 2 (16 / 10) 0 0 false false 0.

(** A corner frame with one valid return at offsets (1, 1) and range
    rate 0; the 63 other returns are empty. *)
Definition cornerFrame : RawCornerDetections :=
  mkRawCornerDetections FrontLeft
    (mkRawDetectionsHeader 1000 0 0 1 0 0 0)
    (mkRawReturns
       (10 :: replicate 63 0)
       (replicate kCornerReturnCount 0)
       (replicate kCornerReturnCount 0)
       (replicate kCornerReturnCount 0)
       (replicate kCornerReturnCount 0)
       (replicate kCornerReturnCount 0)
       (1 :: replicate 63 0)
       (1 :: replicate 63 0)
       (replicate kCornerReturnCount 0%Z)
       (1%Z :: replicate 63 0%Z)
       (replicate kCornerReturnCount 0%Z)
       (replicate kCornerReturnCount 0%Z)
       (replicate kCornerReturnCount 0%Z)
       (replicate kCornerReturnCount 0%Z)).

(** The vehicle at rest. *)
Definition atRest : VehicleMotionState :=
  mkVehicleMotionState 0 0 0 (1 / 10) (1 / 10) (1 / 10).

(** An initialised pipeline with an external motion state at rest,
    after the track frame. *)
Definition tracked : core.Pipeline :=
  fst (core.processTrackFusion
         (core.updateVehicleState
            (core.initialize example.pipeline0 (Some parameters))
            atRest)
         900 carFrame).

(** Return 0 of [cornerFrame] after mapping and classification at rest:
    stationary with probability 1. *)
Definition hit : EnhancedDetection :=
  mkEnhancedDetection 10 0 0 0 0 0 1 1 0 1 (-1) 1 0 1 1 0.

End pipelineExample.

(** ** Odometry: generator range and an example batch *)

(** Every draw for [n] samples is an index below [n]. *)
Definition drawsInRange (draw : nat -> nat -> nat) : Prop :=
  forall n k, (0 < n)%nat -> (draw n k < n)%nat.

(** The best count is either still 0 or the inlier count of the best
    pair, which has at least its own two samples as inliers. *)
Definition bestIsCounted (samples : list core.Sample) (threshold : R)
  (st : core.Ransac) : Prop :=
  core.bestInliers st = 0%Z \/
  ((2 <= core.bestInliers st)%Z /\
   core.bestInliers st
   = core.countInliers threshold (core.bestVLon st) (core.bestVLat st) samples).

Module odometryExample.

(** A valid return with the given raw azimuth and range rate. *)
Definition validReturn (azimuthRaw_rad rangeRate_ms : R) : EnhancedDetection :=
  mkEnhancedDetection 10 rangeRate_ms 0 azimuthRaw_rad 0 0 0 0 0
    DetectionFlag_Valid (-1) 0 0 0 0 0.

(** Three valid returns of range rate -1, seen at the angles 0, pi/2
    and pi of the sensor frame (polarity 1, orientation 0). *)
Definition batch : EnhancedDetections :=
  mkEnhancedDetections
    (mkRawDetectionsHeader 1234 0 0 1 0 0 0)
    [validReturn 0 (-1); validReturn (- (PI / 2)) (-1); validReturn (- PI) (-1)].

(** The samples of [batch]. *)
Definition samples : list core.Sample :=
  [core.mkSample 1 0 (-1); core.mkSample 0 1 (-1); core.mkSample (-1) 0 (-1)].

(** An estimator with the default settings: 120 iterations, threshold
    0.35, at least 6 inliers. *)
Definition estimator : core.RadarOdometryEstimator :=
  core.RadarOdometryEstimator_new core.OdometrySettings_default.

(** The velocities that a RANSAC state can hold on [samples]: the
    initial one and those of the two solvable pairs. *)
Definition bestOfSamples (st : core.Ransac) : Prop :=
  (core.bestVLon st = 0 /\ core.bestVLat st = 0) \/
  (core.bestVLon st = 1 /\ core.bestVLat st = 1) \/
  (core.bestVLon st = -1 /\ core.bestVLat st = 1).

End odometryExample.


(* ===================================================================== *)
(** * Further histories and relations *)
(* ===================================================================== *)

Section PipelineHistories.

Variable draw : nat -> nat -> nat.
Variable qr_solve : list (R * R) -> list R -> R * R.

(** The pipelines that the public methods produce from a constructed
    one. *)
Inductive pipelineReachable : core.Pipeline -> Prop :=
| pr_new (settings : core.ProcessingSettings) :
    pipelineReachable (core.Pipeline_new settings)
| pr_initialize p parameters :
    pipelineReachable p ->
    pipelineReachable (core.initialize p parameters)
| pr_updateVehicleState p state :
    pipelineReachable p ->
    pipelineReachable (core.updateVehicleState p state)
| pr_processTrackFusion p timestamp_us input :
    pipelineReachable p ->
    pipelineReachable (fst (core.processTrackFusion p timestamp_us input))
| pr_processCornerDetections p fuel sensor timestamp_us input output r p' output' :
    pipelineReachable p ->
    core.processCornerDetections draw qr_solve fuel p sensor timestamp_us input output
    = Some (r, p', output') ->
    pipelineReachable p'
| pr_processFrontDetections p fuel timestamp_us input oS oL r p' oS' oL' :
    pipelineReachable p ->
    core.processFrontDetections draw qr_solve fuel p timestamp_us input oS oL
    = Some (r, p', oS', oL') ->
    pipelineReachable p'.

End PipelineHistories.

(** The detections of the output before association: the caller's
    vector resized to 64, overwritten from the raw returns starting at
    [offset], and classified. *)
Definition classifiedReturns (settings : core.ProcessingSettings)
  (motion : VehicleMotionState) (calibration : RadarCalibration)
  (returns : RawReturns) (offset : nat) (output : EnhancedDetections)
  : list EnhancedDetection :=
  map (core.classifyDetection settings motion calibration)
    (imap (fun i det => core.mapReturn returns (i + offset) det)
       (core.resize kCornerReturnCount EnhancedDetection_default
          (eds_detections output))).

(** The fields of a detection that the mapping step copies from the
    raw frame or keeps from the caller's object. *)
Definition sameRawFields (d d' : EnhancedDetection) : Prop :=
  det_range_m d' = det_range_m d /\
  det_rangeRate_ms d' = det_rangeRate_ms d /\
  det_rangeRateRaw_ms d' = det_rangeRateRaw_ms d /\
  det_azimuthRaw_rad d' = det_azimuthRaw_rad d /\
  det_azimuth_rad d' = det_azimuth_rad d /\
  det_amplitude_dBsm d' = det_amplitude_dBsm d /\
  det_longitudinalOffset_m d' = det_longitudinalOffset_m d /\
  det_lateralOffset_m d' = det_lateralOffset_m d /\
  det_motionStatus d' = det_motionStatus d /\
  det_flags d' = det_flags d /\
  det_elevationRaw_m d' = det_elevationRaw_m d.

(** The classification fields of a detection are consistent: the three
    flags are 0 or 1, [isStatic] is [isStationary && !isMoveable], and
    the probability lies in [0, 1]. *)
Definition classificationConsistent (d : EnhancedDetection) : Prop :=
  (det_isStationary d = 0%Z \/ det_isStationary d = 1%Z) /\
  (det_isMoveable d = 0%Z \/ det_isMoveable d = 1%Z) /\
  det_isStatic d
  = (if negb (det_isStationary d =? 0)%Z && (det_isMoveable d =? 0)%Z
     then 1%Z else 0%Z) /\
  0 <= det_stationaryProbability d <= 1.

(** What every reachable pipeline satisfies. *)
Definition pipelineInv (p : core.Pipeline) : Prop :=
  length (core.m_sensorStates p) = SensorIndex_Count /\
  (length (core.m_tracks p) <= kTrackCount)%nat /\
  Forall (fun t => -100 <= core.ts_movingVotes t <= 100) (core.m_tracks p) /\
  (core.m_lastOdometry p = OdometryEstimate_default \/
   oe_valid (core.m_lastOdometry p) = true).

(** Everything of a pipeline but its track states. *)
Definition pipelineRest (p : core.Pipeline) :=
  (core.m_settings p, core.m_parameters p, core.m_sensorStates p,
   core.m_tracksTimestamp_us p, core.m_motionState p,
   core.m_hasExternalMotionState p, core.m_odometry p, core.m_lastOdometry p).

(** The fields of [det] that the mapping loops assign from the raw
    arrays at index [i]. *)
Definition rawFieldsAt (r : RawReturns) (i : nat) (det : EnhancedDetection) : Prop :=
  det_range_m det = atR (raw_range_m r) i /\
  det_rangeRate_ms det = atR (raw_rangeRate_ms r) i /\
  det_rangeRateRaw_ms det = atR (raw_rangeRateRaw_ms r) i /\
  det_azimuthRaw_rad det = atR (raw_azimuthRaw_rad r) i /\
  det_azimuth_rad det = atR (raw_azimuth_rad r) i /\
  det_amplitude_dBsm det = atR (raw_amplitude_dBsm r) i /\
  det_longitudinalOffset_m det = atR (raw_longitudinalOffset_m r) i /\
  det_lateralOffset_m det = atR (raw_lateralOffset_m r) i /\
  det_motionStatus det = atZ (raw_motionStatus r) i /\
  det_flags det
  = packDetectionFlags (atZ (raw_radarValidReturn r) i)
      (atZ (raw_superResolutionDetection r) i)
      (atZ (raw_nearTargetDetection r) i)
      (atZ (raw_hostVehicleClutter r) i)
      (atZ (raw_multibounceDetection r) i).

(** The element [i] of the caller's detection vector after
    [resize(64)]. *)
Definition callerSlot (output : EnhancedDetections) (i : nat) : EnhancedDetection :=
  default EnhancedDetection_default
    (core.resize kCornerReturnCount EnhancedDetection_default
       (eds_detections output) !! i).

(** A fused track index is [-1] or the index of a track of the snapshot
    of [n] tracks, and only a detection with one of the flags [Valid]
    and [SuperResolution] has a track. *)
Definition fusedIndexOk (n : nat) (det : EnhancedDetection) : Prop :=
  det_fusedTrackIndex det = (-1)%Z \/
  ((0 <= det_fusedTrackIndex det < Z.of_nat n)%Z /\
   Z.land (det_flags det) core.validMask <> 0%Z).

(** ** Odometry: usable detections and noise-free samples *)

(** The detections that the sample loop of [processDetections] keeps:
    those with one of the flags [Valid] and [SuperResolution]. *)
Definition usableDetections (dets : list EnhancedDetection) : list EnhancedDetection :=
  filter (fun det => Z.land (det_flags det) core.validMask <> 0%Z) dets.

(** The range rate of every sample is the one that a sensor moving with
    [(vLon, vLat)] measures, without noise. *)
Definition noiseFree (vLon vLat : R) (samples : list core.Sample) : Prop :=
  Forall (fun s => core.rangeRate s = core.predictedRangeRate s vLon vLat) samples.

(** What the RANSAC state holds on noise-free samples. *)
Definition noiseFreeBest (vLon vLat : R) (n : nat) (st : core.Ransac) : Prop :=
  core.bestInliers st = 0%Z \/
  (core.bestVLon st = vLon /\ core.bestVLat st = vLat /\
   core.bestInliers st = Z.of_nat n).

Module noiseFreeExample.

(** Two samples at the angles 0 and pi/2 for the velocity (2, 3). *)
Definition samples : list core.Sample :=
  [core.mkSample 1 0 (-2); core.mkSample 0 1 (-3)].

End noiseFreeExample.

(** ** Occupancy grid: ignored points and cell values *)

Module gridMore.
Import radar.FusedRadarMapping.

(** The range that [update] uses for a point: the reported range when
    it is positive, the distance from the sensor to the point
    otherwise. *)
Definition pointRange (point : radar.RadarPoint) : R :=
  if Rltb 0 (radar.pt_range_m point) then radar.pt_range_m point
  else vlength (vsub (mkVec2 (radar.pt_x point) (radar.pt_y point))
                  (mkVec2 (radar.pt_sensorLateral_m point)
                     (radar.pt_sensorLongitudinal_m point))).

(** The points that the loop of [update] skips: neither a valid return
    nor a super-resolution one, or not beyond [minRange_m]. *)
Definition skippedPoint (s : Settings) (point : radar.RadarPoint) : Prop :=
  (radar.pt_radarValid point = 0%Z /\ radar.pt_superResolution point = 0%Z) \/
  pointRange point <= minRange_m s.

(** The value of the cell [(ix, iy)], as [occupiedCells] reads it. *)
Definition cellValue (m : t) (ix iy : Z) : R :=
  default 0 (m_logOdds m !! Z.to_nat (iy * m_gridSize m + ix)).

(** The default settings with occupancy mapping disabled, so that an
    update only carves free space. *)
Definition freespaceOnly : Settings :=
  mkSettings (1 / 2) (1 / 2) (1 / 10) 5 (-5) (2 / 10) 60
    Gaussian false true false true
    (275 / 1000) 100 (1 / 1000000) (1 / 100)
    (174532925 / 10000000000) 4
    (1 / 100) (1 / 10) (25 / 100) (1 / 2)
    Custom 10
    7 (105 / 10) 65 (1465 / 100) (-22) (879 / 100).

(** A valid return 10 m ahead of a sensor at the origin. *)
Definition pointAhead : radar.RadarPoint :=
  radar.mkRadarPoint 0 10 0 1 10 0 0 0 0 0 0 0 0 1 0 0 0 0 0
    0 0 1 0 0 0 0 (-1) 1 0 1 1.

End gridMore.

(** ** Occupancy grid: the conversions to [int] and the accesses to the
    cell vector

    [FusedRadarMapping] above computes the grid coordinates with
    unbounded integers and reads a cell outside the vector as 0.  The
    source has neither: the conversion of a [float] outside the range
    of [int] and the overflow of an [int] product are undefined, and
    [m_logOdds[i]] is not checked.  The functions below are those of
    the source that convert to [int] or index [m_logOdds], with the
    same arithmetic, returning the first such fault instead of a
    value. *)

Module gridChecked.
Import radar radar.FusedRadarMapping.

(** What a function comes to: its value, or the first fault.
    [NotAnInt]: a conversion to [int], or an [int] product or sum, out
    of the range of [int].  [OutsideVector]: an index of [m_logOdds]
    that is not below its size. *)
Inductive outcome (A : Type) : Type :=
| Done (a : A)
| NotAnInt
| OutsideVector.

Arguments Done {A} a.
Arguments NotAnInt {A}.
Arguments OutsideVector {A}.

Definition bind {A B : Type} (r : outcome A) (k : A -> outcome B) : outcome B :=
  match r with
  | Done a => k a
  | NotAnInt => NotAnInt
  | OutsideVector => OutsideVector
  end.

Local Notation "x <- r ;; k" := (bind r (fun x => k))
  (at level 100, r at next level, right associativity).

(** A loop over [l] that stops at the first fault. *)
Definition foldOutcome {A : Type} (f : t -> A -> outcome t) (l : list A) (m : t)
  : outcome t :=
  fold_left (fun r a => m' <- r ;; f m' a) l (Done m).

Definition INT_MIN : Z := -2147483648.
Definition INT_MAX : Z := 2147483647.

(** A value of [int]: the result of a [static_cast<int>] or of an
    [int] operation, undefined outside the range of [int]. *)
Definition toInt (z : Z) : outcome Z :=
  if (INT_MIN <=? z)%Z && (z <=? INT_MAX)%Z then Done z else NotAnInt.

(** [updatePlausibilityCache] followed by [initializeGrid].  With a
    zero cell size the quotient is infinite or NaN and has no
    conversion to [int]. *)
Definition configured (s : Settings) : outcome t :=
  if Reqb (cellSize s) 0 then NotAnInt
  else
    cells <- toInt (ceilZ (mapRadius s * 2 / cellSize s)) ;;
    let gridSize := Z.max 3 cells in
    count <- toInt (gridSize * gridSize) ;;
    Done (mkMapping s gridSize ((IZR gridSize - 1) * (1 / 2))
            (replicate (Z.to_nat count) 0)
            (- computeGrowthRate (plausibilityRangeBandwidth s))
            (- computeGrowthRate (plausibilityAzimuthBandwidth s))
            (computeGrowthRate (plausibilityAmplitudeBandwidth s))).

(** [static_cast<int>(std::floor(toIndex(value)))] and
    [static_cast<int>(std::ceil(toIndex(value)))]. *)
Definition floorIndex (m : t) (value : R) : outcome Z :=
  if Reqb (cellSize (m_settings m)) 0 then NotAnInt
  else toInt (floorZ (toIndex m value)).

Definition ceilIndex (m : t) (value : R) : outcome Z :=
  if Reqb (cellSize (m_settings m)) 0 then NotAnInt
  else toInt (ceilZ (toIndex m value)).

(** [worldToCell]. *)
Definition worldToCell (m : t) (position : vec2) : outcome (bool * Z * Z) :=
  ix <- floorIndex m (vx position) ;;
  iy <- floorIndex m (vy position) ;;
  Done ((0 <=? ix)%Z && (ix <? m_gridSize m)%Z
        && (0 <=? iy)%Z && (iy <? m_gridSize m)%Z,
        ix, iy).

(** The index [iy * m_gridSize + ix] of [m_logOdds[...]], computed in
    [int] and used as a [std::size_t]. *)
Definition cellIndex (m : t) (ix iy : Z) : outcome nat :=
  row <- toInt (iy * m_gridSize m) ;;
  idx <- toInt (row + ix) ;;
  if (0 <=? idx)%Z && (Z.to_nat idx <? length (m_logOdds m))%nat
  then Done (Z.to_nat idx)
  else OutsideVector.

(** [updateCell]. *)
Definition updateCell (m : t) (ix iy : Z) (delta : R) : outcome t :=
  idx <- cellIndex m ix iy ;;
  let current := default 0 (m_logOdds m !! idx) in
  let next := std_clamp (current + delta)
                (minLogOdds (m_settings m)) (maxLogOdds (m_settings m)) in
  Done (set_logOdds m (<[idx := next]> (m_logOdds m))).

(** The index window of both rasterising loops: the two conversions,
    then the two clamps. *)
Definition window (m : t) (minV maxV : R) : outcome (Z * Z) :=
  lo <- floorIndex m minV ;;
  hi <- ceilIndex m maxV ;;
  Done (clampZ lo 0 (m_gridSize m - 1), clampZ hi 0 (m_gridSize m - 1)).

(** The nested [for iy / for ix] loops. *)
Definition forCells (body : t -> Z -> Z -> outcome t) (m : t)
  (ixMin ixMax iyMin iyMax : Z) : outcome t :=
  foldOutcome
    (fun m1 iy => foldOutcome (fun m2 ix => body m2 ix iy) (zrange ixMin ixMax) m1)
    (zrange iyMin iyMax) m.

(** [addGaussian]. *)
Definition addGaussian (m : t) (detectionPosition relativeVector : vec2)
  (range_m azimuth_rad rangeAccuracy_m angleAccuracy_rad plausibility : R)
  : outcome t :=
  let s := m_settings m in
  if Rleb (maxAdditiveProbability s) 0 then Done m
  else
    let sigmaLat := Rmax (range_m * tan angleAccuracy_rad) (cellSize s * (1 / 2)) in
    let sigmaLon := Rmax rangeAccuracy_m (cellSize s * (1 / 2)) in
    let maxSigma := Rmax sigmaLat sigmaLon in
    let radius := Rmax (cellSize s) (3 * maxSigma) in
    let invSigmaLon2 := 1 / (sigmaLon * sigmaLon) in
    let invSigmaLat2 := 1 / (sigmaLat * sigmaLat) in
    let scale := maxAdditiveProbability s * plausibility in
    let forward :=
      if Rltb (1 / 1000) (vlength relativeVector)
      then vscale relativeVector (1 / vlength relativeVector)
      else mkVec2 (sin azimuth_rad) (cos azimuth_rad) in
    let right := mkVec2 (vy forward) (- vx forward) in
    xs <- window m (vx detectionPosition - radius) (vx detectionPosition + radius) ;;
    ys <- window m (vy detectionPosition - radius) (vy detectionPosition + radius) ;;
    forCells
      (fun m' ix iy =>
         let cell := cellCenter m' ix iy in
         let delta := vsub cell detectionPosition in
         let longitudinal := vdot delta forward in
         let lateral := vdot delta right in
         let exponent := - (1 / 2) * ((longitudinal * longitudinal) * invSigmaLon2 +
                                      (lateral * lateral) * invSigmaLat2) in
         let gaussian := exp exponent in
         let probability :=
           std_clamp (1 / 2 + scale * gaussian) kMinProbability kMaxProbability in
         updateCell m' ix iy (ln (probability / (1 - probability))))
      m (fst xs) (snd xs) (fst ys) (snd ys).

(** [addHit]. *)
Definition addHit (m : t) (detectionPosition : vec2) (plausibility : R)
  : outcome t :=
  cell <- worldToCell m detectionPosition ;;
  let '(ok, ix, iy) := cell in
  if negb ok then Done m
  else updateCell m ix iy (hitIncrement (m_settings m) * plausibility).

(** [addFreespaceCone]. *)
Definition addFreespaceCone (m : t) (sensorPosition : vec2)
  (azimuth_rad range_m rangeAccuracy_m amplitude_dBsm : R) : outcome t :=
  let s := m_settings m in
  if Rltb (maxFreeSpaceRange_m s) range_m then Done m
  else
    let freeSpaceRange :=
      range_m - freespaceRangeSigmaFactor s * Rmax 0 rangeAccuracy_m in
    if Rleb freeSpaceRange 0 then Done m
    else
      let freeSpacePlausibility :=
        computePlausibility m (Rmin freeSpaceRange 15) azimuth_rad amplitude_dBsm in
      if Rltb freeSpacePlausibility (minPlausibility s) then Done m
      else
        let angle := freespaceAngleAccuracy_rad s in
        let angleLeft := azimuth_rad - angle in
        let angleRight := azimuth_rad + angle in
        let left := vadd sensorPosition
                      (vscale (mkVec2 (sin angleLeft) (cos angleLeft)) freeSpaceRange) in
        let right := vadd sensorPosition
                       (vscale (mkVec2 (sin angleRight) (cos angleRight)) freeSpaceRange) in
        let delta := - Rabs (missDecrement s) * freeSpacePlausibility in
        let minX := Rmin (vx sensorPosition) (Rmin (vx left) (vx right)) in
        let maxX := Rmax (vx sensorPosition) (Rmax (vx left) (vx right)) in
        let minY := Rmin (vy sensorPosition) (Rmin (vy left) (vy right)) in
        let maxY := Rmax (vy sensorPosition) (Rmax (vy left) (vy right)) in
        xs <- window m minX maxX ;;
        ys <- window m minY maxY ;;
        forCells
          (fun m' ix iy =>
             if pointInTriangle (cellCenter m' ix iy) sensorPosition left right
             then updateCell m' ix iy delta
             else Done m')
          m (fst xs) (snd xs) (fst ys) (snd ys).

(** The loop body of [update]. *)
Definition updatePoint (m : t) (point : RadarPoint) : outcome t :=
  let s := m_settings m in
  let detectionTypeValid :=
    negb (pt_radarValid point =? 0)%Z || negb (pt_superResolution point =? 0)%Z in
  if negb detectionTypeValid then Done m
  else
    let detectionPosition := mkVec2 (pt_x point) (pt_y point) in
    let sensorPosition :=
      mkVec2 (pt_sensorLateral_m point) (pt_sensorLongitudinal_m point) in
    let relativeVector := vsub detectionPosition sensorPosition in
    let relativeNorm := vlength relativeVector in
    let range_m := if Rltb 0 (pt_range_m point) then pt_range_m point else relativeNorm in
    if Rleb range_m (minRange_m s) then Done m
    else
      let azimuth_rad :=
        if Rltb (1 / 1000) relativeNorm
        then atan2 (vx relativeVector) (vy relativeVector)
        else
          let polarity := if Reqb (pt_azimuthPolarity point) 0 then 1
                          else pt_azimuthPolarity point in
          - pt_azimuthRaw_rad point * polarity + pt_boresightAngle_rad point in
      let '(rangeAccuracy_m, angleAccuracy_rad) := computeSensorAccuracies m point in
      let plausibility :=
        computePlausibility m range_m azimuth_rad (pt_amplitude_dBsm point) in
      let isStationary :=
        negb (pt_isStationary point =? 0)%Z || negb (pt_isStatic point =? 0)%Z
        || (pt_motionStatus point =? 0)%Z in
      m1 <- (if enableOccupied s && Rleb (minPlausibility s) plausibility
                && (isStationary || alwaysMapDynamicDetections s)
             then
               match radarModel s with
               | Gaussian =>
                   addGaussian m detectionPosition relativeVector range_m azimuth_rad
                     rangeAccuracy_m angleAccuracy_rad plausibility
               | Hits => addHit m detectionPosition plausibility
               end
             else Done m) ;;
      if enableFreespace s
      then addFreespaceCone m1 sensorPosition azimuth_rad range_m rangeAccuracy_m
             (pt_amplitude_dBsm point)
      else Done m1.

(** [FusedRadarMapping::update]. *)
Definition update (m : t) (points : list RadarPoint) : outcome t :=
  foldOutcome updatePoint points m.

(** The lists that a loop appends, up to the first fault. *)
Fixpoint collect {A B : Type} (f : A -> outcome (list B)) (l : list A)
  : outcome (list B) :=
  match l with
  | [] => Done []
  | a :: l' => xs <- f a ;; ys <- collect f l' ;; Done (xs ++ ys)
  end.

(** [occupiedCells]: the [reserve] of [m_gridSize * m_gridSize / 16]
    entries, then the scan in row-major order. *)
Definition occupiedCells (m : t) : outcome (list vec2) :=
  _ <- toInt (m_gridSize m * m_gridSize m) ;;
  collect
    (fun iy =>
       collect
         (fun ix =>
            idx <- cellIndex m ix iy ;;
            let value := default 0 (m_logOdds m !! idx) in
            Done (if Rleb (occupiedThreshold (m_settings m)) value
                  then [cellCenter m ix iy] else []))
         (zrange 0 (m_gridSize m - 1)))
    (zrange 0 (m_gridSize m - 1)).

(** Settings for which [initializeGrid] is defined: the cell size is
    not zero, the number of cells per side is a value of [int], and so
    is the number of cells. *)
Definition gridFits (s : Settings) : Prop :=
  cellSize s <> 0 /\
  (INT_MIN <= ceilZ (mapRadius s * 2 / cellSize s) <= INT_MAX)%Z /\
  (initializeGrid_size s * initializeGrid_size s <= INT_MAX)%Z.

(** A grid of at least 3 cells per side whose cell vector holds one
    value per cell, their number being a value of [int]. *)
Definition shaped (m : t) : Prop :=
  (3 <= m_gridSize m)%Z /\
  (m_gridSize m * m_gridSize m <= INT_MAX)%Z /\
  length (m_logOdds m) = Z.to_nat (m_gridSize m * m_gridSize m).

(** The grid [m'] has the configuration and the number of cells of
    [m]. *)
Definition sameGrid (m m' : t) : Prop :=
  gridSpec.config m' = gridSpec.config m /\
  length (m_logOdds m') = length (m_logOdds m).

(** The outcome [r] is the value [a], unless a conversion to [int] was
    out of range; no access was outside the vector. *)
Definition agrees {A : Type} (r : outcome A) (a : A) : Prop :=
  r = Done a \/ r = NotAnInt.

End gridChecked.

(** ** Virtual ring: segments, and what the methods keep *)

Module ringMore.
Import radar.RadarVirtualSensorMapping.

(** [RadarVirtualSensorMapping::Segment]. *)
Record Segment : Type := mkSegment {
  seg_start : vec2;
  seg_end : vec2
}.

(** [RadarVirtualSensorMapping::segments]. *)
Definition segments (m : t) (fallbackRange : R) : list Segment :=
  if negb (m_ready m) || Rleb fallbackRange 0 then []
  else
    map
      (fun i =>
         let endDist := default PosInf (m_segmentEndDist m !! i) in
         let length0 := match endDist with
                        | Finite e => Rmin e fallbackRange
                        | PosInf => fallbackRange
                        end in
         let startDist := default 0 (m_segmentStartDist m !! i) in
         let length1 := Rmax length0 startDist in
         let direction := default vzero (m_segmentDirections m !! i) in
         mkSegment (vadd (m_vehicleCenter m) (vscale direction startDist))
                   (vadd (m_vehicleCenter m) (vscale direction length1)))
      (seq 0 (m_segmentCount m)).

(** The angle of the centre ray of segment [i] of [count]. *)
Definition segmentAngle (count i : nat) : R :=
  (INR i + 1 / 2) * (two_pi / INR count).

(** [m'] is [m] up to the end distances, of which there are as many. *)
Definition sameButEnds (m m' : t) : Prop :=
  m_vehicleContour m' = m_vehicleContour m /\
  m_vehicleCenter m' = m_vehicleCenter m /\
  m_segmentCount m' = m_segmentCount m /\
  m_segmentDirections m' = m_segmentDirections m /\
  m_segmentStartDist m' = m_segmentStartDist m /\
  m_ready m' = m_ready m /\
  length (m_segmentEndDist m') = length (m_segmentEndDist m).

(** Every finite end distance lies beyond the start distance of its
    segment by more than [kEpsilon]. *)
Definition endsBeyondStarts (m : t) : Prop :=
  forall i d,
    m_segmentEndDist m !! i = Some (Finite d) ->
    exists s, m_segmentStartDist m !! i = Some s /\ s + kEpsilon < d.

(** The state of the loops of [update]: the ring is [m0] up to the end
    distances, which lie beyond the start distances. *)
Definition updating (m0 m : t) : Prop := sameButEnds m0 m /\ endsBeyondStarts m.

(** What the public methods keep besides the sizes of the vectors: the
    ring is ready exactly when it holds a contour of at least three
    points, the directions are the centre rays of the segments, and no
    start distance is negative. *)
Definition ringShape (m : t) : Prop :=
  m_ready m = Nat.leb 3 (length (m_vehicleContour m)) /\
  m_segmentDirections m
  = map (segmentDirection (m_segmentCount m)) (seq 0 (m_segmentCount m)) /\
  Forall (fun s => 0 <= s) (m_segmentStartDist m).

End ringMore.

(** ** Association: the two tests of the inner loop *)

Module associationSpec.

(** The range-rate distance of [det] to the track [i], as the inner
    loop of [associateDetections] computes it. *)
Definition distance (settings : core.ProcessingSettings)
  (motion : VehicleMotionState) (calibration : RadarCalibration)
  (tracks : list core.TrackState) (det : EnhancedDetection) (i : nat) : R :=
  let track := default core.TrackState_default (tracks !! i) in
  let detAngle := core.detectionAngleRad det calibration in
  let relativeVelocity :=
    vsub (mkVec2 (vLon_mps motion) (vLat_mps motion)) (core.ts_velocity track) in
  let predicted := vx relativeVelocity * - cos detAngle +
                   vy relativeVelocity * - sin detAngle in
  Rabs (det_rangeRate_ms det - predicted) /
  sqrt (Rmax (core.rangeRateVar calibration) (1 / 10000)).

(** The track [i] is eligible for [det]: its predicted box holds
    the position of the detection and the range-rate distance is
    within [rangeRateSigma]. *)
Definition eligible (settings : core.ProcessingSettings)
  (motion : VehicleMotionState) (calibration : RadarCalibration)
  (boxes : list core.OrientedBox) (tracks : list core.TrackState)
  (det : EnhancedDetection) (i : nat) : Prop :=
  core.contains (default core.OrientedBox_default (boxes !! i))
    (core.detectionPositionVcs det calibration) = true /\
  distance settings motion calibration tracks det i
  <= core.rangeRateSigma (core.association settings).

(** The state of the inner loop after the boxes below [m]. *)
Definition bestSoFar (settings : core.ProcessingSettings)
  (motion : VehicleMotionState) (calibration : RadarCalibration)
  (boxes : list core.OrientedBox) (tracks : list core.TrackState)
  (det : EnhancedDetection) (m : nat) (best : R * nat) : Prop :=
  (fst best = core.FLT_MAX /\ snd best = length boxes /\
   forall j, (j < m)%nat ->
     eligible settings motion calibration boxes tracks det j ->
     core.FLT_MAX <= distance settings motion calibration tracks det j) \/
  ((snd best < m)%nat /\
   eligible settings motion calibration boxes tracks det (snd best) /\
   fst best = distance settings motion calibration tracks det (snd best) /\
   fst best < core.FLT_MAX /\
   forall j, (j < m)%nat ->
     eligible settings motion calibration boxes tracks det j ->
     fst best <= distance settings motion calibration tracks det j).

End associationSpec.

(** ** engine/RadarPlaybackEngine.cpp *)

Module engine.

(** [convertContourIsoToVcs]. *)
Definition convertContourIsoToVcs (isoContour : list vec2) (distRearAxle : R)
  : list vec2 :=
  map (fun point => mkVec2 (- vx point) (vy point - distRearAxle)) isoContour.

(** [buildTrackFootprint]: the four corners [p0, p1, p2, p3]. *)
Definition buildTrackFootprint (track : radar.RadarTrack) : list vec2 :=
  let halfLength := Rmax (radar.rt_length track) (1 / 10) * (1 / 2) in
  let halfWidth := Rmax (radar.rt_width track) (1 / 10) * (1 / 2) in
  let center := mkVec2 (vy (radar.rt_isoPosition track))
                       (vx (radar.rt_isoPosition track)) in
  let heading := radar.rt_headingRad track in
  let forward := mkVec2 (sin heading) (cos heading) in
  let right := mkVec2 (vy forward) (- vx forward) in
  let p0 := vadd (vadd center (vscale forward halfLength)) (vscale right halfWidth) in
  let p1 := vadd (vsub center (vscale forward halfLength)) (vscale right halfWidth) in
  let p2 := vsub (vsub center (vscale forward halfLength)) (vscale right halfWidth) in
  let p3 := vsub (vadd center (vscale forward halfLength)) (vscale right halfWidth) in
  [p0; p1; p2; p3].

(** The centre of the footprint of [track]. *)
Definition footprintCenter (track : radar.RadarTrack) : vec2 :=
  mkVec2 (vy (radar.rt_isoPosition track)) (vx (radar.rt_isoPosition track)).

End engine.

(** ** utility/vehicle_config.cpp and utility/math_utils.hpp *)

Module config.

(** [updateIsoPose]. *)
Definition updateIsoPose (distRearAxleToFrontBumper_m : R)
  (calibration : RadarCalibration) : RadarCalibration :=
  mkRadarCalibration (vcs calibration)
    (mkRadarPose
       (longitudinal_m (vcs calibration) + distRearAxleToFrontBumper_m)
       (- lateral_m (vcs calibration))
       (height_m (vcs calibration))
       (- orientation_rad (vcs calibration)))
    (polarity calibration) (rangeRateAccuracy_mps calibration)
    (azimuthAccuracy_rad calibration) (horizontalFov_rad calibration).

(** [kPi], [kDegToRad] and [kRadToDeg]. *)
Definition kPi : R := PI.
Definition kDegToRad : R := kPi / 180.
Definition kRadToDeg : R := 180 / kPi.

Definition degreesToRadians (degrees : R) : R := degrees * kDegToRad.
Definition radiansToDegrees (radians : R) : R := radians * kRadToDeg.

(** [wrapToPi]. *)
Definition wrapToPi (angleRad : R) : R :=
  let wrapped := fmod (angleRad + kPi) (2 * kPi) in
  (if Rltb wrapped 0 then wrapped + 2 * kPi else wrapped) - kPi.

End config.

(** ** processing/RadarPlayback.cpp: [appendEnhancedDetections] *)

Module playback.

(** [(typeMask & flag) != 0U] as a [std::uint8_t]. *)
Definition flagBit (typeMask flag : Z) : Z :=
  if (Z.land typeMask flag =? 0)%Z then 0%Z else 1%Z.

(** The loop body of [appendEnhancedDetections] for the detection [det]
    at index [i]: [None] when the detection is skipped.  The products
    of real numbers are finite, so only the first test skips. *)
Definition enhancedPoint (data : EnhancedDetections) (radarCal : RadarCalibration)
  (sensorIndex : Z) (elevationRad : list R) (i : nat) (det : EnhancedDetection)
  : option radar.RadarPoint :=
  if (det_flags det =? 0)%Z && Rleb (det_range_m det) 0
     && Reqb (det_longitudinalOffset_m det) 0 && Reqb (det_lateralOffset_m det) 0
  then None
  else
    let header := eds_header data in
    let detAngle :=
      if Reqb (det_azimuth_rad det) 0 && negb (Reqb (det_azimuthRaw_rad det) 0)
      then
        let azimuthPolarity := if Reqb (hdr_azimuthPolarity header) 0 then 1
                               else hdr_azimuthPolarity header in
        hdr_boresightAngle_rad header + azimuthPolarity * det_azimuthRaw_rad det
      else det_azimuth_rad det in
    let polar := Reqb (det_lateralOffset_m det) 0
                 && Reqb (det_longitudinalOffset_m det) 0
                 && Rltb 0 (det_range_m det) in
    let lateral := if polar then det_range_m det * sin detAngle
                   else det_lateralOffset_m det in
    let longitudinal := if polar then det_range_m det * cos detAngle
                        else det_longitudinalOffset_m det in
    let elevationRadValue := default 0 (elevationRad !! i) in
    let z := if Reqb (det_elevationRaw_m det) 0 && negb (Reqb elevationRadValue 0)
             then height_m (vcs radarCal) + det_range_m det * sin elevationRadValue
             else det_elevationRaw_m det in
    Some (radar.mkRadarPoint
            lateral longitudinal z 1
            (det_range_m det) (det_rangeRate_ms det) (det_rangeRateRaw_ms det)
            (det_azimuthRaw_rad det) (det_azimuth_rad det) (det_amplitude_dBsm det)
            (det_longitudinalOffset_m det) (det_lateralOffset_m det)
            (det_motionStatus det)
            (flagBit (det_flags det) DetectionFlag_Valid)
            (flagBit (det_flags det) DetectionFlag_SuperResolution)
            (flagBit (det_flags det) DetectionFlag_NearTarget)
            (flagBit (det_flags det) DetectionFlag_HostVehicleClutter)
            (flagBit (det_flags det) DetectionFlag_MultiBounce)
            sensorIndex
            (hdr_horizontalFov_rad header) (hdr_maximumRange_m header)
            (hdr_azimuthPolarity header) (hdr_boresightAngle_rad header)
            (hdr_sensorLongitudinal_m header) (hdr_sensorLateral_m header)
            elevationRadValue
            (det_fusedTrackIndex det)
            (det_isStationary det) (det_isMoveable det) (det_isStatic det)
            (det_stationaryProbability det)).

(** [appendEnhancedDetections]: [outPoints] after the call. *)
Definition appendEnhancedDetections (data : EnhancedDetections)
  (radarCal : RadarCalibration) (sensorIndex : Z) (elevationRad : list R)
  (outPoints : list radar.RadarPoint) : list radar.RadarPoint :=
  outPoints ++
  omap Datatypes.id
    (imap (enhancedPoint data radarCal sensorIndex elevationRad)
       (eds_detections data)).

(** A bit of the raw flag arrays. *)
Definition isBit (b : Z) : Prop := b = 0%Z \/ b = 1%Z.

End playback.
(* ===================================================================== *)
(** * Lemmas on the numeric layer *)
(* ===================================================================== *)

Lemma Rleb_true (x y : R) : Rleb x y = true <-> x <= y.
Proof. unfold Rleb. destruct (Rle_dec x y); split; intros; try easy. Qed.

Lemma Rleb_false (x y : R) : Rleb x y = false <-> y < x.
Proof.
  unfold Rleb. destruct (Rle_dec x y); split; intros; try easy; lra.
Qed.

Lemma Rltb_true (x y : R) : Rltb x y = true <-> x < y.
Proof. unfold Rltb. destruct (Rlt_dec x y); split; intros; try easy. Qed.

Lemma Rltb_false (x y : R) : Rltb x y = false <-> y <= x.
Proof.
  unfold Rltb. destruct (Rlt_dec x y); split; intros; try easy; lra.
Qed.

Lemma Reqb_true (x y : R) : Reqb x y = true <-> x = y.
Proof. unfold Reqb. destruct (Req_dec_T x y); split; intros; try easy. Qed.

Lemma Reqb_false (x y : R) : Reqb x y = false <-> x <> y.
Proof. unfold Reqb. destruct (Req_dec_T x y); split; intros; try easy. Qed.

Lemma Reqb_refl (x : R) : Reqb x x = true.
Proof. now apply Reqb_true. Qed.

(** Comparisons and absolute values of closed rational expressions. *)
Ltac Rdecide :=
  repeat match goal with
    | |- context [Rabs ?a] =>
        first [ rewrite (Rabs_right a) by lra | rewrite (Rabs_left a) by lra ]
    | |- context [Rltb ?a ?b] =>
        first [ rewrite (proj2 (Rltb_true a b)) by lra
              | rewrite (proj2 (Rltb_false a b)) by lra ]
    | |- context [Rleb ?a ?b] =>
        first [ rewrite (proj2 (Rleb_true a b)) by lra
              | rewrite (proj2 (Rleb_false a b)) by lra ]
    | |- context [Reqb ?a ?b] =>
        first [ rewrite (proj2 (Reqb_true a b)) by lra
              | rewrite (proj2 (Reqb_false a b)) by lra ]
    end.

Lemma truncZ_between (x : R) (z : Z) :
  0 <= x -> IZR z <= x < IZR z + 1 -> truncZ x = z.
Proof.
  intros H0 Hz. unfold truncZ. rewrite (proj2 (Rleb_true 0 x)) by assumption.
  symmetry. apply Int_part_spec. lra.
Qed.

(** [std::clamp] lands in the interval as soon as the interval is not
    empty. *)
Lemma std_clamp_range (v lo hi : R) :
  lo <= hi -> lo <= std_clamp v lo hi <= hi.
Proof.
  intros Hle. unfold std_clamp.
  destruct (Rltb v lo) eqn:E1.
  - lra.
  - apply Rltb_false in E1.
    destruct (Rltb hi v) eqn:E2.
    + lra.
    + apply Rltb_false in E2. lra.
Qed.

Lemma std_clamp_id (v lo hi : R) :
  lo <= v <= hi -> std_clamp v lo hi = v.
Proof.
  intros [H1 H2]. unfold std_clamp.
  destruct (Rltb v lo) eqn:E1.
  - apply Rltb_true in E1. lra.
  - destruct (Rltb hi v) eqn:E2; [apply Rltb_true in E2; lra | reflexivity].
Qed.

Lemma erf_0 : erf 0 = 0.
Proof.
  unfold erf. destruct (Rle_dec 0 0) as [H | H].
  - rewrite RiemannInt_P9. lra.
  - exfalso. apply H. lra.
Qed.

(* ===================================================================== *)
(** * The pipeline before [initialize] (C6) *)
(* ===================================================================== *)

Section PipelineFacts.

Variable draw : nat -> nat -> nat.
Variable qr_solve : list (R * R) -> list R -> R * R.

Lemma beforeInitialize_nullptr p :
  beforeInitialize draw qr_solve p -> core.m_parameters p = None.
Proof.
  induction 1 as [ s | p st _ IH | p ts input _ IH
                 | p fuel sensor ts input output r p' output' _ IH Hcall
                 | p fuel ts input oS oL r p' oS' oL' _ IH Hcall ];
    simpl; try assumption; try reflexivity.
  - unfold core.processCornerDetections in Hcall. rewrite IH in Hcall.
    inversion Hcall; subst; assumption.
  - unfold core.processFrontDetections in Hcall. rewrite IH in Hcall.
    inversion Hcall; subst; assumption.
Qed.

(** C6. Before [initialize] has been called, [processCornerDetections]
    and [processFrontDetections] return [false] for every input, and
    they leave the pipeline and the caller's output objects exactly as
    they were. *)
Theorem C6_uninitialized_detection_calls_fail p :
  beforeInitialize draw qr_solve p ->
  (forall fuel sensor timestamp_us input output,
      core.processCornerDetections draw qr_solve fuel p sensor timestamp_us input output
      = Some (false, p, output)) /\
  (forall fuel timestamp_us input outputShort outputLong,
      core.processFrontDetections draw qr_solve fuel p timestamp_us input
        outputShort outputLong
      = Some (false, p, outputShort, outputLong)).
Proof.
  intros Hp. apply beforeInitialize_nullptr in Hp.
  split; intros.
  - unfold core.processCornerDetections. now rewrite Hp.
  - unfold core.processFrontDetections. now rewrite Hp.
Qed.

End PipelineFacts.

(* ===================================================================== *)
(** * Sensor liveness (C7) *)
(* ===================================================================== *)

Lemma sensor_index_lt (sensor : SensorIndex) :
  (sensor_index sensor < SensorIndex_Count)%nat.
Proof. destruct sensor; unfold SensorIndex_Count; simpl; lia. Qed.

Lemma sensor_index_inj s1 s2 : sensor_index s1 = sensor_index s2 -> s1 = s2.
Proof. destruct s1, s2; cbn; intros H; try reflexivity; discriminate. Qed.

Lemma sensorState_insert p sensor st :
  length (core.m_sensorStates p) = SensorIndex_Count ->
  sensorState
    (core.set_sensorStates p (<[sensor_index sensor := st]> (core.m_sensorStates p)))
    sensor = st.
Proof.
  intros Hlen. unfold sensorState. simpl.
  rewrite list_lookup_insert_eq; [reflexivity |].
  rewrite Hlen. apply sensor_index_lt.
Qed.

Lemma sensorState_insert_ne p sensor other st :
  other <> sensor ->
  sensorState
    (core.set_sensorStates p (<[sensor_index sensor := st]> (core.m_sensorStates p)))
    other = sensorState p other.
Proof.
  intros Hne. unfold sensorState. cbn.
  rewrite list_lookup_insert_ne; [reflexivity |].
  intros H. apply Hne. symmetry. now apply sensor_index_inj.
Qed.

(** *** One liveness update *)

(** The record that one update writes, and what it returns. *)
Lemma updateSensorStatus_record p sensor timestamp_us :
  length (core.m_sensorStates p) = SensorIndex_Count ->
  let old := sensorState p sensor in
  let call := core.updateSensorStatus p sensor timestamp_us in
  fst call
  = negb (core.sus_initialized old)
    || (core.sus_timestamp_us old <? timestamp_us)%Z /\
  sensorState (snd call) sensor
  = (if negb (core.sus_initialized old)
        || (core.sus_timestamp_us old <? timestamp_us)%Z
     then core.mkSensorUpdateState true timestamp_us 0
     else core.mkSensorUpdateState true (core.sus_timestamp_us old)
            ((core.sus_numConsecutiveInvalid old + 1) mod 2 ^ 32)) /\
  (forall other, other <> sensor ->
     sensorState (snd call) other = sensorState p other) /\
  length (core.m_sensorStates (snd call)) = SensorIndex_Count.
Proof.
  intros Hlen old call. subst call. unfold core.updateSensorStatus.
  fold (sensorState p sensor). fold old.
  destruct (core.sus_initialized old) eqn:Ei; cbn [negb orb];
    [destruct (core.sus_timestamp_us old <? timestamp_us)%Z eqn:Et |];
    cbn [fst snd].
  all: split; [reflexivity |].
  all: rewrite sensorState_insert by assumption.
  all: split; [reflexivity |].
  all: split; [intros other Hne; now apply sensorState_insert_ne |].
  all: cbn; rewrite length_insert; exact Hlen.
Qed.

(** *** A sequence of frames *)

Lemma afterFrames_snoc p frames sensor timestamp_us :
  afterFrames p (frames ++ [(sensor, timestamp_us)])
  = snd (core.updateSensorStatus (afterFrames p frames) sensor timestamp_us).
Proof. unfold afterFrames. rewrite fold_left_app. reflexivity. Qed.

Lemma afterFrames_length p frames :
  length (core.m_sensorStates p) = SensorIndex_Count ->
  length (core.m_sensorStates (afterFrames p frames)) = SensorIndex_Count.
Proof.
  intros Hlen. induction frames as [| [sensor timestamp_us] frames IH] using rev_ind.
  - exact Hlen.
  - rewrite afterFrames_snoc.
    apply (updateSensorStatus_record (afterFrames p frames) sensor timestamp_us IH).
Qed.

(** The record of a sensor after a sequence of frames.  It is
    uninitialised exactly when it was so at the start and the sequence
    holds no frame of the sensor.  Otherwise its timestamp is not
    earlier than the one at the start (if there was one) nor than the
    timestamp of any frame of the sensor, and it is one of those. *)
Lemma afterFrames_record p frames sensor :
  length (core.m_sensorStates p) = SensorIndex_Count ->
  let start := sensorState p sensor in
  let record := sensorState (afterFrames p frames) sensor in
  (core.sus_initialized record = false <->
   core.sus_initialized start = false /\
   forall j t, frames !! j <> Some (sensor, t)) /\
  (core.sus_initialized record = true ->
   (core.sus_initialized start = true ->
    (core.sus_timestamp_us start <= core.sus_timestamp_us record)%Z) /\
   (forall j t, frames !! j = Some (sensor, t) ->
                (t <= core.sus_timestamp_us record)%Z) /\
   ((core.sus_initialized start = true /\
     core.sus_timestamp_us record = core.sus_timestamp_us start) \/
    exists j, frames !! j = Some (sensor, core.sus_timestamp_us record))).
Proof.
  intros Hlen start. cbv zeta.
  induction frames as [| [sensor' t'] frames IH] using rev_ind.
  - cbn. fold start. split.
    + split.
      * intros H. split; [exact H |]. intros j t. rewrite lookup_nil. discriminate.
      * intros [H _]. exact H.
    + intros Hi. split; [lia |]. split.
      * intros j t. rewrite lookup_nil. discriminate.
      * left. split; [exact Hi | reflexivity].
  - rewrite afterFrames_snoc.
    pose proof (afterFrames_length p frames Hlen) as Hlen'.
    destruct (updateSensorStatus_record (afterFrames p frames) sensor' t' Hlen')
      as (_ & Hrec & Hother & _).
    destruct IH as [IHa IHb].
    set (before := sensorState (afterFrames p frames) sensor) in *.
    destruct (Nat.eq_dec (sensor_index sensor') (sensor_index sensor)) as [He | Hne].
    + apply sensor_index_inj in He. subst sensor'. fold before in Hrec.
      rewrite Hrec. clear Hrec Hother.
      assert (Hnew : forall r, core.sus_initialized
                (if negb (core.sus_initialized before)
                    || (core.sus_timestamp_us before <? t')%Z
                 then core.mkSensorUpdateState true t' 0 else
                 core.mkSensorUpdateState true (core.sus_timestamp_us before) r)
                = true).
      { intros r. now destruct (negb _ || _). }
      split.
      * rewrite Hnew. split; [discriminate |].
        intros [_ Hno]. exfalso. apply (Hno (length frames) t').
        apply lookup_snoc_Some. right. auto.
      * intros _.
        destruct (core.sus_initialized before) eqn:Ei; cbn [negb orb].
        -- destruct (IHb eq_refl) as (Hs & Hall & Hex).
           destruct (core.sus_timestamp_us before <? t')%Z eqn:Et;
             [apply Z.ltb_lt in Et | apply Z.ltb_ge in Et]; cbn.
           ++ split; [intros Hi; specialize (Hs Hi); lia |]. split.
              ** intros j t Hj. apply lookup_snoc_Some in Hj as [[_ Hj] | [_ Hj]].
                 --- specialize (Hall j t Hj). lia.
                 --- injection Hj as <-. lia.
              ** right. exists (length frames). apply lookup_snoc_Some. right. auto.
           ++ split; [exact Hs |]. split.
              ** intros j t Hj. apply lookup_snoc_Some in Hj as [[_ Hj] | [_ Hj]].
                 --- exact (Hall j t Hj).
                 --- injection Hj as <-. exact Et.
              ** destruct Hex as [Hex | [j Hj]]; [left; exact Hex |].
                 right. exists j. apply lookup_snoc_Some. left.
                 split; [eapply lookup_lt_Some; exact Hj | exact Hj].
        -- cbn. destruct (proj1 IHa eq_refl) as [Hs Hno].
           split; [intros Hi; congruence |]. split.
           ++ intros j t Hj. apply lookup_snoc_Some in Hj as [[_ Hj] | [_ Hj]].
              ** exfalso. exact (Hno j t Hj).
              ** injection Hj as <-. lia.
           ++ right. exists (length frames). apply lookup_snoc_Some. right. auto.
    + assert (Hs : sensor <> sensor') by (intros ->; now apply Hne).
      rewrite (Hother sensor Hs). fold before. split.
      * split.
        -- intros H. destruct (proj1 IHa H) as [H0 Hno]. split; [exact H0 |].
           intros j t Hj. apply lookup_snoc_Some in Hj as [[_ Hj] | [_ Hj]].
           ++ exact (Hno j t Hj).
           ++ injection Hj as Hj _. now apply Hs.
        -- intros [H0 Hno]. apply (proj2 IHa). split; [exact H0 |].
           intros j t Hj. apply (Hno j t). apply lookup_snoc_Some. left.
           split; [eapply lookup_lt_Some; exact Hj | exact Hj].
      * intros Hi. destruct (IHb Hi) as (H0 & Hall & Hex). split; [exact H0 |]. split.
        -- intros j t Hj. apply lookup_snoc_Some in Hj as [[_ Hj] | [_ Hj]].
           ++ exact (Hall j t Hj).
           ++ injection Hj as Hj _. exfalso. now apply Hs.
        -- destruct Hex as [Hex | [j Hj]]; [left; exact Hex |].
           right. exists j. apply lookup_snoc_Some. left.
           split; [eapply lookup_lt_Some; exact Hj | exact Hj].
Qed.

(** C7.  For every sensor and every sequence of frames, fed from any
    pipeline state (whose state array has its [SensorIndex::Count]
    entries): let frame [k] of the sequence be a frame of [sensor] with
    header timestamp [timestamp_us], let [old] be the record of the
    sensor after the frames before it and [new] the record after it.

    - If [old] is not initialised, the frame is live and [new] is
      initialised, holds the timestamp of the frame and an invalid
      count of 0.
    - If [old] is initialised and the timestamp of the frame is
      strictly greater than the stored one, the frame is live and [new]
      holds the timestamp of the frame and an invalid count of 0; it
      stays initialised.
    - If [old] is initialised and the timestamp of the frame is not
      greater than the stored one, the frame is not live; [new] keeps
      the stored timestamp, stays initialised, and its 32-bit invalid
      count is one more (without wrap-around below [2^32 - 1]).
    - The records of the other sensors are not touched.

    Over the sequence: [old] is uninitialised exactly when the record
    was so at the start and no earlier frame of the sequence is of this
    sensor (the frame is the first of its sensor); and the frame is
    live exactly when its timestamp is strictly greater than the one
    stored at the start (if the record was initialised then) and than
    the timestamp of every earlier frame of the sensor. *)
Theorem C7_updateSensorStatus_liveness p frames k sensor timestamp_us :
  length (core.m_sensorStates p) = SensorIndex_Count ->
  frames !! k = Some (sensor, timestamp_us) ->
  let start := sensorState p sensor in
  let before := afterFrames p (take k frames) in
  let old := sensorState before sensor in
  let live := fst (core.updateSensorStatus before sensor timestamp_us) in
  let after := snd (core.updateSensorStatus before sensor timestamp_us) in
  let new := sensorState after sensor in
  afterFrames p (take (S k) frames) = after /\
  (core.sus_initialized old = false ->
     live = true /\ new = core.mkSensorUpdateState true timestamp_us 0) /\
  (core.sus_initialized old = true ->
   (core.sus_timestamp_us old < timestamp_us)%Z ->
     live = true /\ new = core.mkSensorUpdateState true timestamp_us 0) /\
  (core.sus_initialized old = true ->
   (timestamp_us <= core.sus_timestamp_us old)%Z ->
     live = false /\
     new = core.mkSensorUpdateState true (core.sus_timestamp_us old)
             ((core.sus_numConsecutiveInvalid old + 1) mod 2 ^ 32) /\
     ((0 <= core.sus_numConsecutiveInvalid old < 2 ^ 32 - 1)%Z ->
      core.sus_numConsecutiveInvalid new
      = (core.sus_numConsecutiveInvalid old + 1)%Z)) /\
  (forall other, other <> sensor ->
     sensorState after other = sensorState before other) /\
  (core.sus_initialized old = false <->
   core.sus_initialized start = false /\
   forall j t, (j < k)%nat -> frames !! j <> Some (sensor, t)) /\
  (live = true <->
   (core.sus_initialized start = true ->
    (core.sus_timestamp_us start < timestamp_us)%Z) /\
   forall j t, (j < k)%nat -> frames !! j = Some (sensor, t) ->
               (t < timestamp_us)%Z).
Proof.
  intros Hlen Hk start before old live after new.
  pose proof (afterFrames_length p (take k frames) Hlen) as Hlen'.
  fold before in Hlen'.
  destruct (updateSensorStatus_record before sensor timestamp_us Hlen')
    as (Hlive & Hrec & Hother & _).
  fold old live after new in Hlive, Hrec, Hother.
  destruct (afterFrames_record p (take k frames) sensor Hlen) as [Ha Hb].
  fold start before old in Ha, Hb.
  assert (Hprefix : forall j t, take k frames !! j = Some (sensor, t)
                                <-> (j < k)%nat /\ frames !! j = Some (sensor, t)).
  { intros j t. rewrite lookup_take_Some. tauto. }
  split; [| split; [| split; [| split; [| split; [| split]]]]].
  - rewrite (take_S_r frames k _ Hk). apply afterFrames_snoc.
  - intros Hi. rewrite Hlive, Hrec, Hi. split; reflexivity.
  - intros Hi Hlt. apply Z.ltb_lt in Hlt.
    rewrite Hlive, Hrec, Hi, Hlt. split; reflexivity.
  - intros Hi Hle. apply Z.ltb_ge in Hle.
    rewrite Hlive, Hrec, Hi, Hle. cbn.
    split; [reflexivity |]. split; [reflexivity |].
    intros Hrange. apply Z.mod_small. lia.
  - exact Hother.
  - rewrite Ha. split; intros [H0 Hno]; (split; [exact H0 |]); intros j t.
    + intros Hj Hf. apply (Hno j t). apply Hprefix. auto.
    + intros Hf. apply Hprefix in Hf as [Hj Hf]. exact (Hno j t Hj Hf).
  - rewrite Hlive. split.
    + intros Hl. destruct (core.sus_initialized old) eqn:Ei.
      * cbn in Hl. apply Z.ltb_lt in Hl.
        destruct (Hb eq_refl) as (Hs & Hall & _). split.
        -- intros H0. specialize (Hs H0). lia.
        -- intros j t Hj Hf.
           assert (Ht := Hall j t (proj2 (Hprefix j t) (conj Hj Hf))). lia.
      * destruct (proj1 Ha eq_refl) as [H0 Hno]. split.
        -- intros H1. congruence.
        -- intros j t Hj Hf. exfalso.
           exact (Hno j t (proj2 (Hprefix j t) (conj Hj Hf))).
    + intros [Hs Hall]. destruct (core.sus_initialized old) eqn:Ei; [| reflexivity].
      cbn. apply Z.ltb_lt.
      destruct (Hb eq_refl) as (_ & _ & [[H0 Heq] | [j Hj]]).
      * rewrite Heq. now apply Hs.
      * apply Hprefix in Hj as [Hj Hf]. exact (Hall j _ Hj Hf).
Qed.

Lemma C6_uninitialized_witness :
  beforeInitialize example.draw_cycle example.lstsq example.pipeline0 /\
  core.processCornerDetections example.draw_cycle example.lstsq 0 example.pipeline0
    FrontLeft 0 example.RawCornerDetections_zero EnhancedDetections_default
  = Some (false, example.pipeline0, EnhancedDetections_default).
Proof.
  split.
  - apply bi_new.
  - apply (proj1 (C6_uninitialized_detection_calls_fail
                    example.draw_cycle example.lstsq example.pipeline0
                    (bi_new _ _ _))).
Defined.

Lemma C7_liveness_witness :
  length (core.m_sensorStates example.pipeline0) = SensorIndex_Count /\
  [(FrontLeft, 1000%Z); (FrontLeft, 900%Z)] !! 1%nat = Some (FrontLeft, 900%Z) /\
  fst (core.updateSensorStatus
         (afterFrames example.pipeline0 [(FrontLeft, 1000%Z)]) FrontLeft 900)
  = false /\
  sensorState
    (afterFrames example.pipeline0 [(FrontLeft, 1000%Z); (FrontLeft, 900%Z)])
    FrontLeft
  = core.mkSensorUpdateState true 1000 1.
Proof.
  split; [reflexivity |]. split; [reflexivity |].
  destruct (C7_updateSensorStatus_liveness example.pipeline0
              [(FrontLeft, 1000%Z); (FrontLeft, 900%Z)] 1 FrontLeft 900
              eq_refl eq_refl)
    as (Hafter & _ & _ & Hstale & _).
  destruct Hstale as (Hlive & Hnew & _); [reflexivity | cbn; lia |].
  split; [exact Hlive |].
  cbn [take] in Hafter. rewrite Hafter. exact Hnew.
Defined.

(* ===================================================================== *)
(** * Track records (C3) *)
(* ===================================================================== *)

Lemma survivingIndices_status input i :
  i ∈ core.survivingIndices input ->
  atZ (rtf_status input) i <> TrackStatus_Invalid.
Proof.
  unfold core.survivingIndices. intros Hin.
  apply list_elem_of_filter in Hin. tauto.
Qed.

Lemma filter_map_all {A B : Type} (P : B -> Prop) `{forall x, Decision (P x)}
  (f : A -> B) (l : list A) :
  (forall a, a ∈ l -> P (f a)) ->
  filter P (map f l) = map f l.
Proof.
  induction l as [| a l IH]; intros Hall; [reflexivity |].
  cbn [map]. rewrite filter_cons_True.
  - f_equal. apply IH. intros b Hb. apply Hall. now right.
  - apply Hall. now left.
Qed.

(** Every record of the pipeline output passes the status test of
    [appendTracks]. *)
Lemma appendTracks_processTrackFusion p timestamp_us input :
  radar.appendTracks (snd (core.processTrackFusion p timestamp_us input)) []
  = map (fun i => radar.radarTrackOf (core.enhancedTrackAt input i))
      (core.survivingIndices input).
Proof.
  unfold radar.appendTracks, core.processTrackFusion. cbn [snd ets_tracks app].
  rewrite filter_map_all.
  - now rewrite map_map.
  - intros i Hi. cbn. now apply survivingIndices_status.
Qed.

(** C3, as worded, fails: the record that [processTrackFusion] emits
    for a car of height 0 and of extent 0.1 m keeps the height 0 and
    the extent 0.1 m. *)
Lemma C3_counterexample :
  exists et,
    ets_tracks (snd (core.processTrackFusion example.pipeline0 900 example.smallCarFrame))
    = [et] /\
    core.survivingIndices example.smallCarFrame = [0%nat] /\
    ~ emittedTrackImputedAndClamped example.smallCarFrame 0 et.
Proof.
  exists (core.enhancedTrackAt example.smallCarFrame 0).
  assert (Hs : core.survivingIndices example.smallCarFrame = [0%nat])
    by (vm_compute; reflexivity).
  split; [| split].
  - unfold core.processTrackFusion. cbn [snd ets_tracks]. now rewrite Hs.
  - exact Hs.
  - unfold emittedTrackImputedAndClamped. cbn. unfold atR. cbn. lra.
Qed.

(** C3, amended.  For every raw track frame, [processTrackFusion] emits
    one record per entry whose status is not [Invalid], carrying the
    length, width and height of the entry unchanged; the [RadarTrack]
    that [appendTracks] builds from each of these records has the
    height imputed by class when the entry's height is 0 (1.8 for Car,
    Motorcycle and Bicycle, 3.8 for Truck, 0.05 otherwise) and a length
    and a width of at least 0.25. *)
Theorem C3_track_extent_and_height p timestamp_us input :
  let emitted := ets_tracks (snd (core.processTrackFusion p timestamp_us input)) in
  let appended :=
    radar.appendTracks (snd (core.processTrackFusion p timestamp_us input)) [] in
  Forall2
    (fun i et =>
       et_status et <> TrackStatus_Invalid /\
       et_length et = atR (rtf_length input) i /\
       et_width et = atR (rtf_width input) i /\
       et_height et = atR (rtf_height input) i)
    (core.survivingIndices input) emitted /\
  Forall2
    (fun i rt =>
       let classId := atZ (rtf_objectClassification input) i in
       (atR (rtf_height input) i = 0 ->
        (classId = 1%Z \/ classId = 2%Z \/ classId = 9%Z ->
         radar.rt_height rt = 18 / 10) /\
        (classId = 3%Z -> radar.rt_height rt = 38 / 10) /\
        (classId <> 1%Z -> classId <> 2%Z -> classId <> 9%Z -> classId <> 3%Z ->
         radar.rt_height rt = 5 / 100)) /\
       (atR (rtf_height input) i <> 0 ->
        radar.rt_height rt = atR (rtf_height input) i) /\
       radar.rt_length rt = Rmax (atR (rtf_length input) i) (25 / 100) /\
       radar.rt_width rt = Rmax (atR (rtf_width input) i) (25 / 100) /\
       25 / 100 <= radar.rt_length rt /\
       25 / 100 <= radar.rt_width rt)
    (core.survivingIndices input) appended.
Proof.
  intros emitted appended. subst emitted appended. split.
  - unfold core.processTrackFusion. cbn [snd ets_tracks].
    apply Forall2_fmap_r. apply Forall_Forall2_diag.
    apply Forall_forall. intros i Hi. cbn.
    split; [| auto].
    now apply survivingIndices_status.
  - rewrite appendTracks_processTrackFusion.
    apply Forall2_fmap_r. apply Forall_Forall2_diag.
    apply Forall_forall. intros i _. cbn.
    unfold radar.kMinTrackExtent, radar.imputedHeight.
    unfold TrackObjectClass_Car, TrackObjectClass_Motorcycle,
      TrackObjectClass_Bicycle, TrackObjectClass_Truck.
    split; [| split; [| split; [| split; [| split]]]].
    + intros H0. rewrite H0, Reqb_refl.
      split; [| split].
      * intros [-> | [-> | ->]]; reflexivity.
      * intros ->. reflexivity.
      * intros H1 H2 H9 H3.
        apply Z.eqb_neq in H1, H2, H9, H3. now rewrite H1, H2, H9, H3.
    + intros Hne. apply Reqb_false in Hne. now rewrite Hne.
    + reflexivity.
    + reflexivity.
    + apply Rmax_r.
    + apply Rmax_r.
Qed.

(* ===================================================================== *)
(** * Virtual ring (C4, C9, C10) *)
(* ===================================================================== *)

Section RingFacts.
Import radar.RadarVirtualSensorMapping.

Lemma contourStartDists_length contour center count directions startDist :
  length (contourStartDists contour center count directions startDist)
  = length startDist.
Proof.
  unfold contourStartDists. generalize (seq 0 count) as idx.
  intros idx. revert startDist.
  induction idx as [| i idx IH]; intros startDist; simpl; [reflexivity |].
  rewrite IH. apply length_insert.
Qed.

Lemma setVehicleContour_segmentCount m contour :
  m_segmentCount (setVehicleContour m contour) = m_segmentCount m.
Proof. unfold setVehicleContour. destruct (Nat.ltb _ _); reflexivity. Qed.

Lemma setVehicleContour_segmentDirections m contour :
  m_segmentDirections (setVehicleContour m contour) = m_segmentDirections m.
Proof. unfold setVehicleContour. destruct (Nat.ltb _ _); reflexivity. Qed.

Lemma setVehicleContour_segmentEndDist m contour :
  m_segmentEndDist (setVehicleContour m contour) = m_segmentEndDist m.
Proof. unfold setVehicleContour. destruct (Nat.ltb _ _); reflexivity. Qed.

Lemma setVehicleContour_startDist_length m contour :
  length (m_segmentStartDist (setVehicleContour m contour))
  = length (m_segmentStartDist m).
Proof.
  unfold setVehicleContour. destruct (Nat.ltb _ _); [reflexivity |].
  simpl. apply contourStartDists_length.
Qed.

Lemma setSegmentCount_same m count :
  sameCount m count = true -> setSegmentCount m count = (false, m).
Proof. unfold sameCount, setSegmentCount. now intros ->. Qed.

Lemma setSegmentCount_segmentCount m count :
  m_segmentCount (snd (setSegmentCount m count)) = Nat.max 3 count.
Proof.
  unfold setSegmentCount.
  destruct (Nat.eqb (Nat.max 3 count) (m_segmentCount m) && _) eqn:E.
  - apply andb_true_iff in E as [E _]. apply Nat.eqb_eq in E. now simpl.
  - destruct (Nat.leb 3 _); simpl;
      [now rewrite setVehicleContour_segmentCount | reflexivity].
Qed.

Lemma setSegmentCount_directions_length m count :
  length (m_segmentDirections (snd (setSegmentCount m count))) <> 0%nat.
Proof.
  unfold setSegmentCount.
  destruct (Nat.eqb (Nat.max 3 count) (m_segmentCount m) && _) eqn:E.
  - apply andb_true_iff in E as [_ E]. apply negb_true_iff in E.
    apply Nat.eqb_neq in E. now simpl.
  - destruct (Nat.leb 3 _); simpl;
      rewrite ?setVehicleContour_segmentDirections; simpl;
      rewrite length_map, length_seq; lia.
Qed.

Lemma setSegmentCount_endDist m count :
  m_segmentEndDist (snd (setSegmentCount m count))
  = if sameCount m count then m_segmentEndDist m
    else replicate (Nat.max 3 count) PosInf.
Proof.
  unfold sameCount, setSegmentCount.
  destruct (Nat.eqb (Nat.max 3 count) (m_segmentCount m) && _); [reflexivity |].
  destruct (Nat.leb 3 _); simpl;
    rewrite ?setVehicleContour_segmentEndDist; reflexivity.
Qed.

(** C4, amended.  [setSegmentCount(n)] returns [false] and changes
    nothing, the end distances included, when [max(3, n)] is the current
    segment count and the directions are not empty; in every other case
    it returns [true] and every one of the [max(3, n)] end distances is
    +infinity. *)
Theorem C4_setSegmentCount_end_distances m count :
  setSegmentCount m count
  = (if sameCount m count then (false, m)
     else (true, snd (setSegmentCount m count))) /\
  m_segmentEndDist (snd (setSegmentCount m count))
  = (if sameCount m count then m_segmentEndDist m
     else replicate (Nat.max 3 count) PosInf).
Proof.
  split; [| apply setSegmentCount_endDist].
  destruct (sameCount m count) eqn:E.
  - now apply setSegmentCount_same.
  - unfold sameCount in E. unfold setSegmentCount. rewrite E.
    destruct (Nat.leb 3 _); reflexivity.
Qed.

(** The second [setSegmentCount] with the same count is the early
    return, whatever the ring and the contour were. *)
Lemma setSegmentCount_twice m count contour :
  setSegmentCount (setVehicleContour (snd (setSegmentCount m count)) contour) count
  = (false, setVehicleContour (snd (setSegmentCount m count)) contour).
Proof.
  apply setSegmentCount_same. unfold sameCount.
  rewrite setVehicleContour_segmentCount, setVehicleContour_segmentDirections.
  rewrite setSegmentCount_segmentCount, Nat.eqb_refl. simpl.
  apply negb_true_iff, Nat.eqb_neq, setSegmentCount_directions_length.
Qed.

(** C9. For a segment count [S >= 3] and a contour [C] of at least
    three points, after [setSegmentCount(S); setVehicleContour(C)] a
    further [setSegmentCount(S)] leaves the start distances as
    [setVehicleContour(C)] computed them. *)
Theorem C9_repeated_setSegmentCount_keeps_start_distances m S C :
  (3 <= S)%nat ->
  (3 <= length C)%nat ->
  let m1 := snd (setSegmentCount m S) in
  let m2 := setVehicleContour m1 C in
  let m3 := snd (setSegmentCount m2 S) in
  m_segmentStartDist m3 = m_segmentStartDist m2.
Proof.
  intros _ _ m1 m2 m3. subst m3 m2 m1.
  now rewrite setSegmentCount_twice.
Qed.

(** *** The invariant of the ring *)

Lemma ringInv_setSegmentCount m count :
  ringInv m -> ringInv (snd (setSegmentCount m count)).
Proof.
  intros Hinv. unfold setSegmentCount.
  destruct (Nat.eqb (Nat.max 3 count) (m_segmentCount m) && _); [exact Hinv |].
  unfold ringInv.
  destruct (Nat.leb 3 _); simpl;
    rewrite ?setVehicleContour_segmentCount, ?setVehicleContour_segmentDirections,
      ?setVehicleContour_segmentEndDist, ?setVehicleContour_startDist_length;
    simpl; rewrite length_map, length_seq, !length_replicate; lia.
Qed.

Lemma ringInv_new : ringInv new.
Proof.
  unfold new, setSegmentCount, blank, ringInv, kDefaultSegmentCount. simpl.
  repeat split; lia.
Qed.

Lemma ringInv_setVehicleContour m contour :
  ringInv m -> ringInv (setVehicleContour m contour).
Proof.
  unfold ringInv.
  rewrite setVehicleContour_segmentCount, setVehicleContour_segmentDirections,
    setVehicleContour_segmentEndDist, setVehicleContour_startDist_length.
  tauto.
Qed.

Lemma ringInv_resetSegments m : ringInv m -> ringInv (resetSegments m).
Proof. unfold ringInv, resetSegments. simpl. now rewrite length_map. Qed.

Lemma foldM_inv {A B : Type} (P : A -> Prop) (Q : B -> Prop)
  (f : A -> B -> option A) (l : list B) (a : A) :
  (forall a b, P a -> Q b -> exists a', f a b = Some a' /\ P a') ->
  P a -> Forall Q l ->
  exists a', foldM f l a = Some a' /\ P a'.
Proof.
  intros Hstep. revert a.
  induction l as [| b l IH]; intros a Ha Hl; simpl.
  - now exists a.
  - inversion Hl as [| ? ? Hb Hl']; subst.
    destruct (Hstep a b Ha Hb) as [a' [-> Ha']].
    now apply IH.
Qed.

Lemma shrinkEnd_inv c m idx distance :
  ringInvAt c m -> (idx < c)%nat ->
  exists m', shrinkEnd m idx distance = Some m' /\ ringInvAt c m'.
Proof.
  intros [(Hd & Hs & He & H3) Hc] Hidx. unfold shrinkEnd.
  destruct (lookup_lt_is_Some_2 (m_segmentStartDist m) idx) as [s0 ->]; [lia |].
  destruct (Rleb distance (s0 + kEpsilon)).
  { exists m. repeat split; assumption. }
  destruct (lookup_lt_is_Some_2 (m_segmentEndDist m) idx) as [e0 ->]; [lia |].
  destruct (lt_efloat distance e0).
  - eexists. split; [reflexivity |].
    unfold ringInvAt, ringInv. simpl. rewrite length_insert. tauto.
  - exists m. repeat split; assumption.
Qed.

Lemma segmentIndex_lt m angle :
  (3 <= m_segmentCount m)%nat -> (segmentIndex m angle < m_segmentCount m)%nat.
Proof.
  intros H3. unfold segmentIndex.
  destruct (Nat.eqb (m_segmentCount m) 0) eqn:E.
  - apply Nat.eqb_eq in E. lia.
  - lia.
Qed.

Lemma updateDetection_inv c m point :
  ringInvAt c m ->
  exists m', updateDetection m point = Some m' /\ ringInvAt c m'.
Proof.
  intros Hinv. unfold updateDetection.
  destruct (Rleb _ kEpsilon); [now exists m |].
  apply shrinkEnd_inv; [assumption |].
  destruct Hinv as [(_ & _ & _ & H3) <-]. now apply segmentIndex_lt.
Qed.

Lemma updateFootprintSegment_inv c footprint m i :
  ringInvAt c m -> (i < c)%nat ->
  exists m', updateFootprintSegment footprint m i = Some m' /\ ringInvAt c m'.
Proof.
  intros Hinv Hi. unfold updateFootprintSegment.
  destruct (lookup_lt_is_Some_2 (m_segmentDirections m) i) as [d ->].
  { destruct Hinv as [(Hd & _) Hc]. lia. }
  destruct (polygonRayDistance _ d footprint) as [distance |]; [| now exists m].
  destruct (Rleb distance kEpsilon); [now exists m |].
  now apply shrinkEnd_inv.
Qed.

(** [update] performs no access outside the three vectors and keeps
    the invariant. *)
Lemma update_total m detections trackFootprints :
  ringInv m ->
  exists m', update m detections trackFootprints = Some m' /\ ringInv m'.
Proof.
  intros Hinv. unfold update.
  apply ringInv_resetSegments in Hinv.
  set (m0 := resetSegments m) in *.
  destruct (negb (m_ready m0)); [now exists m0 |].
  assert (H0 : ringInvAt (m_segmentCount m0) m0) by now split.
  destruct (foldM_inv (ringInvAt (m_segmentCount m0)) (fun _ => True)
              updateDetection detections m0) as [m1 [-> H1]].
  - intros a b Ha _. now apply updateDetection_inv.
  - exact H0.
  - apply Forall_forall. intros; exact I.
  - destruct (foldM_inv (ringInvAt (m_segmentCount m0)) (fun _ => True)
                (fun m2 footprint =>
                   foldM (updateFootprintSegment footprint)
                     (seq 0 (m_segmentCount m2)) m2)
                trackFootprints m1) as [m3 [-> [H3 _]]].
    + intros a fp Ha _.
      apply (foldM_inv (ringInvAt (m_segmentCount m0))
               (fun i => (i < m_segmentCount m0)%nat)).
      * intros a' i Ha' Hi. now apply updateFootprintSegment_inv.
      * exact Ha.
      * destruct Ha as [_ ->]. apply Forall_forall. intros i Hi.
        apply list_elem_of_In, in_seq in Hi. lia.
    + exact H1.
    + apply Forall_forall. intros; exact I.
    + now exists m3.
Qed.

Lemma ringReachable_inv m : ringReachable m -> ringInv m.
Proof.
  induction 1 as [ | m count _ IH | m contour _ IH
                 | m dets fps m' _ IH Hupd | m _ IH ].
  - apply ringInv_new.
  - now apply ringInv_setSegmentCount.
  - now apply ringInv_setVehicleContour.
  - destruct (update_total m dets fps IH) as [m'' [Heq Hinv]].
    rewrite Hupd in Heq. now inversion Heq; subst.
  - now apply ringInv_resetSegments.
Qed.

(** *** The angle in [0, 2 pi) *)

Lemma two_pi_pos : 0 < two_pi.
Proof. unfold two_pi. pose proof PI_RGT_0. lra. Qed.

Lemma fmod_nonneg_quotient (x y : R) :
  0 < y -> 0 <= x / y -> 0 <= fmod x y < y.
Proof.
  intros Hy Hq. unfold fmod, truncZ.
  rewrite (proj2 (Rleb_true 0 (x / y))) by assumption.
  destruct (base_Int_part (x / y)) as [H1 H2].
  assert (Hx : x = (x / y) * y) by (field; lra).
  set (q := x / y) in *. set (k := IZR (Int_part q)) in *.
  rewrite Hx. split; nra.
Qed.

Lemma fmod_neg_quotient (x y : R) :
  0 < y -> x / y < 0 -> - y < fmod x y <= 0.
Proof.
  intros Hy Hq. unfold fmod, truncZ.
  rewrite (proj2 (Rleb_false 0 (x / y))) by assumption.
  rewrite opp_IZR.
  destruct (base_Int_part (- (x / y))) as [H1 H2].
  assert (Hx : x = (x / y) * y) by (field; lra).
  set (q := x / y) in *. set (k := IZR (Int_part (- q))) in *.
  rewrite Hx. split; nra.
Qed.

Lemma normalizeAngle_range (angle : R) :
  0 <= normalizeAngle angle < two_pi.
Proof.
  unfold normalizeAngle. pose proof two_pi_pos as Hp.
  destruct (Rle_dec 0 (angle / two_pi)) as [Hq | Hq].
  - pose proof (fmod_nonneg_quotient angle two_pi Hp Hq) as [H1 H2].
    rewrite (proj2 (Rltb_false _ _)) by lra. lra.
  - apply Rnot_le_lt in Hq.
    pose proof (fmod_neg_quotient angle two_pi Hp Hq) as [H1 H2].
    destruct (Rltb (fmod angle two_pi) 0) eqn:E.
    + apply Rltb_true in E. lra.
    + apply Rltb_false in E. lra.
Qed.

(** C10. On every ring that the public methods can produce, which has
    at least three segments, and for every angle: the normalised angle
    lies in [0, 2 pi), the segment index is below the segment count and
    below the sizes of the start and end vectors, and [update] runs to
    its end without an access outside [m_segmentDirections],
    [m_segmentStartDist] or [m_segmentEndDist]. *)
Theorem C10_segment_index_in_bounds m :
  ringReachable m ->
  (3 <= m_segmentCount m)%nat /\
  (forall angle,
      0 <= normalizeAngle angle < two_pi /\
      (segmentIndex m angle < m_segmentCount m)%nat /\
      (segmentIndex m angle < length (m_segmentStartDist m))%nat /\
      (segmentIndex m angle < length (m_segmentEndDist m))%nat) /\
  (forall detections trackFootprints,
      exists m', update m detections trackFootprints = Some m').
Proof.
  intros Hr. apply ringReachable_inv in Hr.
  pose proof Hr as (Hd & Hs & He & H3).
  split; [exact H3 | split].
  - intros angle. pose proof (segmentIndex_lt m angle H3).
    split; [apply normalizeAngle_range |]. lia.
  - intros dets fps.
    destruct (update_total m dets fps Hr) as [m' [Hm' _]]. now exists m'.
Qed.

(** *** A ring of three segments around a square *)

Lemma contourStartDists_lookup contour center count directions startDist i :
  (i < count)%nat -> (count <= length startDist)%nat ->
  contourStartDists contour center count directions startDist !! i
  = Some (Rmax 0 (contourRayDistance contour center
                    (default vzero (directions !! i)))).
Proof.
  unfold contourStartDists.
  induction count as [| n IH]; intros Hi Hlen; [lia |].
  rewrite seq_S, fold_left_app. simpl.
  destruct (Nat.eq_dec i n) as [-> | Hne].
  - apply list_lookup_insert_eq.
    fold (contourStartDists contour center n directions startDist).
    rewrite contourStartDists_length. lia.
  - rewrite list_lookup_insert_ne by congruence.
    apply IH; lia.
Qed.

Lemma centroid_square : centroid ringExample.square = mkVec2 0 0.
Proof.
  unfold centroid, ringExample.square, vscale, vadd, vzero. simpl.
  f_equal; lra.
Qed.

Lemma segmentDirection_3_1 : segmentDirection 3 1 = mkVec2 (-1) 0.
Proof.
  unfold segmentDirection, two_pi.
  replace ((INR 1 + 1 / 2) * (2 * PI / INR 3)) with PI by (simpl; field).
  now rewrite cos_PI, sin_PI.
Qed.

(** From the centre of the square, the ray along [(-1, 0)] meets the
    contour on its left edge only, at distance 1. *)
Lemma contourRayDistance_square_left :
  contourRayDistance ringExample.square (mkVec2 0 0) (mkVec2 (-1) 0) = 1.
Proof.
  unfold contourRayDistance, ringExample.square. simpl.
  unfold nearestHit. simpl.
  unfold raySegmentIntersection, cross2, vsub, kEpsilon. simpl.
  Rdecide. simpl. Rdecide. simpl. lra.
Qed.

Lemma ring3_unfold :
  ringExample.ring3
  = mkRing ringExample.square (centroid ringExample.square) 3
      (map (segmentDirection 3) (seq 0 3))
      (contourStartDists ringExample.square (centroid ringExample.square) 3
         (map (segmentDirection 3) (seq 0 3)) (replicate 3 0))
      (replicate 3 PosInf) true.
Proof. reflexivity. Qed.

Lemma ring3_start1 : m_segmentStartDist ringExample.ring3 !! 1%nat = Some 1.
Proof.
  rewrite ring3_unfold. cbn [m_segmentStartDist].
  rewrite contourStartDists_lookup by (simpl; lia).
  change (map (segmentDirection 3) (seq 0 3) !! 1%nat)
    with (Some (segmentDirection 3 1)).
  cbn [default from_option]. unfold Datatypes.id.
  rewrite segmentDirection_3_1, centroid_square, contourRayDistance_square_left.
  f_equal. apply Rmax_right. lra.
Qed.

Lemma segmentIndex_ring3_pi :
  segmentIndex (resetSegments ringExample.ring3) (atan2 0 (-5 - 0)) = 1%nat.
Proof.
  unfold atan2. Rdecide.
  replace (0 / (-5 - 0)) with 0 by lra. rewrite atan_0, Rplus_0_l.
  unfold segmentIndex. rewrite ring3_unfold.
  cbn [resetSegments m_segmentCount Nat.eqb].
  unfold normalizeAngle, fmod, two_pi. pose proof PI_RGT_0 as Hpi.
  replace (PI / (2 * PI)) with (1 / 2) by (field; lra).
  rewrite (truncZ_between (1 / 2) 0) by lra.
  replace (PI - 2 * PI * 0) with PI by lra.
  rewrite (proj2 (Rltb_false PI 0)) by lra.
  replace (PI / (2 * PI) * INR 3) with (3 / 2) by (simpl; field; lra).
  unfold to_size_t. rewrite (truncZ_between (3 / 2) 1) by lra.
  reflexivity.
Qed.

(** One detection at [(-5, 0)] brings the end distance of segment 1
    down to 5. *)
Lemma update_ring3 :
  update ringExample.ring3 [ringExample.detection] []
  = Some (set_endDist (resetSegments ringExample.ring3)
            [PosInf; Finite 5; PosInf]).
Proof.
  unfold update.
  change (m_ready (resetSegments ringExample.ring3)) with true.
  cbn [negb foldM]. unfold updateDetection.
  change (m_vehicleCenter (resetSegments ringExample.ring3))
    with (centroid ringExample.square).
  rewrite centroid_square. unfold ringExample.detection, vsub. cbn [vx vy].
  assert (Hlen : vlength (mkVec2 (-5 - 0) (0 - 0)) = 5).
  { unfold vlength. cbn [vx vy].
    replace ((-5 - 0) * (-5 - 0) + (0 - 0) * (0 - 0)) with (5 * 5) by lra.
    apply sqrt_square. lra. }
  rewrite Hlen. unfold kEpsilon. Rdecide.
  replace (0 - 0) with 0 by lra.
  rewrite segmentIndex_ring3_pi.
  unfold shrinkEnd.
  change (m_segmentStartDist (resetSegments ringExample.ring3))
    with (m_segmentStartDist ringExample.ring3).
  rewrite ring3_start1. unfold kEpsilon. Rdecide.
  reflexivity.
Qed.

(** C4, as worded, fails: on the ring of three segments whose segment
    1 has the end distance 5 after an update, [setSegmentCount(3)] is
    the early return and the end distance of segment 1 is still 5. *)
Lemma C4_counterexample :
  exists m,
    update ringExample.ring3 [ringExample.detection] [] = Some m /\
    m_segmentEndDist (snd (setSegmentCount m 3)) !! 1%nat = Some (Finite 5) /\
    Finite 5 <> PosInf.
Proof.
  eexists. split; [apply update_ring3 |]. split; [reflexivity | discriminate].
Qed.

Lemma C9_repeated_setSegmentCount_witness :
  (3 <= 3)%nat /\ (3 <= length ringExample.square)%nat /\
  m_segmentStartDist (snd (setSegmentCount ringExample.ring3 3))
  = m_segmentStartDist ringExample.ring3.
Proof.
  split; [lia | split; [simpl; lia |]].
  apply (C9_repeated_setSegmentCount_keeps_start_distances new 3 ringExample.square);
    simpl; lia.
Defined.

Lemma C10_segment_index_witness :
  ringReachable ringExample.ring3 /\
  (segmentIndex ringExample.ring3 0 < m_segmentCount ringExample.ring3)%nat.
Proof.
  assert (Hr : ringReachable ringExample.ring3)
    by (apply rr_setVehicleContour, rr_setSegmentCount, rr_new).
  split; [exact Hr |].
  destruct (C10_segment_index_in_bounds ringExample.ring3 Hr) as (_ & H & _).
  apply H.
Defined.

End RingFacts.

(* ===================================================================== *)
(** * Occupancy grid (C5, C8) *)
(* ===================================================================== *)

Section GridFacts.
Import radar.FusedRadarMapping gridSpec.

(** *** What an update keeps *)

Lemma keeps_fold {A : Type} c Q (f : t -> A -> t) (l : list A) m :
  (forall m a, keeps c Q m -> keeps c Q (f m a)) ->
  keeps c Q m -> keeps c Q (fold_left f l m).
Proof.
  intros Hf. revert m. induction l as [| a l IH]; intros m Hm; simpl; auto.
Qed.

Lemma keeps_forCells c Q body m ixMin ixMax iyMin iyMax :
  (forall m ix iy, keeps c Q m -> keeps c Q (body m ix iy)) ->
  keeps c Q m -> keeps c Q (forCells body m ixMin ixMax iyMin iyMax).
Proof.
  intros Hbody Hm. unfold forCells.
  apply keeps_fold; [| exact Hm].
  intros m1 iy Hm1. apply keeps_fold; [| exact Hm1].
  intros m2 ix Hm2. now apply Hbody.
Qed.

Section Keeps.

Variable c : Settings * Z * R * R * R * R.
Variable Q : R -> Prop.

(** Every value that [updateCell] can write satisfies [Q]. *)
Hypothesis clamped_Q :
  forall v, Q (std_clamp v (minLogOdds (configSettings c)) (maxLogOdds (configSettings c))).

Lemma keeps_updateCell m ix iy delta :
  keeps c Q m -> keeps c Q (updateCell m ix iy delta).
Proof.
  intros [Hc Hcells]. unfold updateCell, keeps. split; [exact Hc |].
  cbn [m_logOdds m_settings set_logOdds].
  apply Forall_insert; [exact Hcells |].
  replace (m_settings m) with (configSettings c) by (now rewrite <- Hc).
  apply clamped_Q.
Qed.

Lemma keeps_addHit m detectionPosition plausibility :
  keeps c Q m -> keeps c Q (addHit m detectionPosition plausibility).
Proof.
  intros Hm. unfold addHit.
  destruct (worldToCell m detectionPosition) as [[ok ix] iy].
  destruct (negb ok); [exact Hm | now apply keeps_updateCell].
Qed.

Lemma keeps_addGaussian m detectionPosition relativeVector
  range_m azimuth_rad rangeAccuracy_m angleAccuracy_rad plausibility :
  keeps c Q m ->
  keeps c Q (addGaussian m detectionPosition relativeVector range_m azimuth_rad
               rangeAccuracy_m angleAccuracy_rad plausibility).
Proof.
  intros Hm. unfold addGaussian.
  destruct (Rleb _ 0); [exact Hm |].
  destruct (window m _ _) as [ixMin ixMax].
  destruct (window m _ _) as [iyMin iyMax].
  apply keeps_forCells; [| exact Hm].
  intros m' ix iy Hm'. now apply keeps_updateCell.
Qed.

Lemma keeps_addFreespaceCone m sensorPosition
  azimuth_rad range_m rangeAccuracy_m amplitude_dBsm :
  keeps c Q m ->
  keeps c Q (addFreespaceCone m sensorPosition azimuth_rad range_m
               rangeAccuracy_m amplitude_dBsm).
Proof.
  intros Hm. unfold addFreespaceCone.
  destruct (Rltb _ range_m); [exact Hm |].
  destruct (Rleb _ 0); [exact Hm |].
  destruct (Rltb _ (minPlausibility _)); [exact Hm |].
  destruct (window m _ _) as [ixMin ixMax].
  destruct (window m _ _) as [iyMin iyMax].
  apply keeps_forCells; [| exact Hm].
  intros m' ix iy Hm'.
  destruct (pointInTriangle _ _ _ _); [now apply keeps_updateCell | exact Hm'].
Qed.

Lemma keeps_updatePoint m point :
  keeps c Q m -> keeps c Q (updatePoint m point).
Proof.
  intros Hm. unfold updatePoint.
  destruct (negb _); [exact Hm |].
  destruct (Rleb _ (minRange_m _)); [exact Hm |].
  destruct (computeSensorAccuracies m point) as [rangeAccuracy_m angleAccuracy_rad].
  match goal with
  | |- keeps c Q (if _ then addFreespaceCone ?m1 _ _ _ _ _ else _) =>
      assert (H1 : keeps c Q m1)
  end.
  { destruct (_ && _ && _); [| exact Hm].
    destruct (radarModel _); [now apply keeps_addGaussian | now apply keeps_addHit]. }
  destruct (enableFreespace _); [now apply keeps_addFreespaceCone | exact H1].
Qed.

Lemma keeps_update m points :
  keeps c Q m -> keeps c Q (update m points).
Proof.
  intros Hm. unfold update. apply keeps_fold; [| exact Hm].
  intros. now apply keeps_updatePoint.
Qed.

End Keeps.

(** [update] changes nothing but cells. *)
Lemma update_config m points : config (update m points) = config m.
Proof.
  apply (keeps_update (config m) (fun _ => True)).
  - intros; exact I.
  - split; [reflexivity |]. apply Forall_forall. intros; exact I.
Qed.

Lemma update_settings m points : m_settings (update m points) = m_settings m.
Proof.
  pose proof (update_config m points) as H. unfold config in H. congruence.
Qed.

(** *** The cached growth rates (C8) *)

Lemma reachable_cacheFresh ok m : reachable ok m -> cacheFresh m.
Proof.
  induction 1 as [ s _ | m s _ _ _ | m points _ IH | m _ IH ].
  - repeat split.
  - repeat split.
  - pose proof (update_config m points) as H. unfold config in H.
    injection H as Hs _ _ Hr Ha Hp.
    unfold cacheFresh in *. now rewrite Hs, Hr, Ha, Hp.
  - exact IH.
Qed.

Lemma std_clamp_01 (v : R) : std_clamp v 0 1 = clamp01 v.
Proof.
  unfold std_clamp, clamp01, Rmax, Rmin, Rltb.
  destruct (Rlt_dec v 0), (Rlt_dec 1 v), (Rle_dec 1 v);
    try destruct (Rle_dec 0 1); try destruct (Rle_dec 0 v); lra.
Qed.

(** *** The azimuth in degrees (C8) *)

Lemma PI_ten_digits :
  31415926535 / 10000000000 < PI < 31415926540 / 10000000000.
Proof.
  pose proof (PI_2_3_7_ineq 4) as [Hlo Hhi].
  unfold sum_f_R0, tg_alt, PI_2_3_7_tg, Ratan_seq in Hlo, Hhi.
  cbn [Nat.mul Nat.add pow] in Hlo, Hhi.
  rewrite !S_INR, INR_0 in Hlo. rewrite !S_INR, INR_0 in Hhi.
  split; lra.
Qed.

(** [rad2deg] is [180 / pi] to within two units of the eighth decimal,
    a hundredth of the spacing of the [float]s around it. *)
Lemma rad2deg_is_180_over_pi : Rabs (rad2deg - 180 / PI) < 2 / 100000000.
Proof.
  destruct PI_ten_digits as [Hlo Hhi].
  assert (Hq : 180 / PI * PI = 180) by (field; lra).
  set (q := 180 / PI) in *.
  assert (H1 : 572957795 / 10000000 < q) by nra.
  assert (H2 : q < 572957795 / 10000000 + 2 / 100000000) by nra.
  unfold rad2deg. apply Rabs_def1; lra.
Qed.

(** [wrapDegTo180] lands in [[-180, 180)] and moves the angle by whole
    turns; there is one such angle only. *)
Lemma wrapDegTo180_range (degrees : R) :
  -180 <= wrapDegTo180 degrees < 180 /\
  exists k : Z, wrapDegTo180 degrees = degrees + 360 * IZR k.
Proof.
  unfold wrapDegTo180.
  destruct (base_Int_part ((degrees + 180) / 360)) as [H1 H2].
  assert (Hx : degrees + 180 = (degrees + 180) / 360 * 360) by (field; lra).
  set (q := (degrees + 180) / 360) in *. set (k := Int_part q) in *.
  split; [split; lra |].
  exists (- k)%Z. rewrite opp_IZR. ring.
Qed.

Lemma wrap_unique (degrees w1 w2 : R) :
  -180 <= w1 < 180 -> (exists k : Z, w1 = degrees + 360 * IZR k) ->
  -180 <= w2 < 180 -> (exists k : Z, w2 = degrees + 360 * IZR k) ->
  w1 = w2.
Proof.
  intros Hr1 [k1 H1] Hr2 [k2 H2].
  assert (Hk : (k1 - k2 = 0)%Z).
  { assert (Hlt : (k1 - k2 < 1)%Z) by (apply lt_IZR; rewrite minus_IZR; lra).
    assert (Hgt : (-1 < k1 - k2)%Z) by (apply lt_IZR; rewrite minus_IZR; lra).
    lia. }
  assert (k1 = k2) by lia. subst k2. lra.
Qed.

Lemma wrapTo180_turns (degrees : R) :
  -180 <= wrapTo180 degrees < 180 /\
  exists k : Z, wrapTo180 degrees = degrees + 360 * IZR k.
Proof.
  unfold wrapTo180.
  assert (Hk : exists k : Z, fmod (degrees + 180) 360 = degrees + 180 - 360 * IZR k).
  { unfold fmod. eexists. reflexivity. }
  destruct Hk as [k Hk].
  destruct (Rle_dec 0 ((degrees + 180) / 360)) as [Hq | Hq].
  - pose proof (fmod_nonneg_quotient (degrees + 180) 360 ltac:(lra) Hq) as [H1 H2].
    rewrite (proj2 (Rltb_false _ _)) by lra.
    split; [lra |]. exists (- k)%Z. rewrite opp_IZR, Hk. lra.
  - apply Rnot_le_lt in Hq.
    pose proof (fmod_neg_quotient (degrees + 180) 360 ltac:(lra) Hq) as [H1 H2].
    destruct (Rltb (fmod (degrees + 180) 360) 0) eqn:E.
    + apply Rltb_true in E. split; [lra |].
      exists (1 - k)%Z. rewrite minus_IZR, Hk. lra.
    + apply Rltb_false in E. split; [lra |].
      exists (- k)%Z. rewrite opp_IZR, Hk. lra.
Qed.

(** The [wrapTo180] of the source is the [wrapDegTo180] of the
    specification. *)
Lemma wrapTo180_is_wrapDegTo180 (degrees : R) :
  wrapTo180 degrees = wrapDegTo180 degrees.
Proof.
  destruct (wrapTo180_turns degrees) as [Hr1 Hk1].
  destruct (wrapDegTo180_range degrees) as [Hr2 Hk2].
  exact (wrap_unique degrees _ _ Hr1 Hk1 Hr2 Hk2).
Qed.

(** C8. On every mapping that the public methods produce, for every
    range, azimuth and amplitude:
    with plausibility scaling disabled [computePlausibility] returns
    exactly 1; with scaling enabled, the Custom method and a custom
    range threshold of 10 it returns the clamp to [0, 1] of
    [min(sigma_range, sigma_azimuth) * sigma_amplitude] when
    [range > 10] and of [sigma_range * sigma_amplitude] otherwise, the
    sigmas being the per-axis sigmoids of section 4.2.  The sigmoid of
    the azimuth is taken at [|wrapDegTo180(azimuth * rad2deg)|], where
    [wrapDegTo180] is the wrap into [[-180, 180)] (the value lies in
    that interval and differs from the angle by whole turns) and
    [rad2deg] is [180 / pi] to within [2e-8]. *)
Theorem C8_computePlausibility m range_m azimuth_rad amplitude_dBsm :
  reachable anySettings m ->
  (enablePlausibilityScaling (m_settings m) = false ->
   computePlausibility m range_m azimuth_rad amplitude_dBsm = 1) /\
  (enablePlausibilityScaling (m_settings m) = true ->
   plausibilityMethod (m_settings m) = Custom ->
   customCombinationRangeThreshold (m_settings m) = 10 ->
   computePlausibility m range_m azimuth_rad amplitude_dBsm
   = customPlausibility (m_settings m) range_m azimuth_rad amplitude_dBsm) /\
  (-180 <= wrapDegTo180 (azimuth_rad * rad2deg) < 180 /\
   exists k : Z,
     wrapDegTo180 (azimuth_rad * rad2deg) = azimuth_rad * rad2deg + 360 * IZR k) /\
  Rabs (rad2deg - 180 / PI) < 2 / 100000000.
Proof.
  intros Hr. apply reachable_cacheFresh in Hr. destruct Hr as (Hrg & Haz & Ham).
  unfold computePlausibility.
  split; [| split; [| split]].
  - intros ->. reflexivity.
  - intros -> -> ->. cbn [negb].
    rewrite std_clamp_01, Hrg, Haz, Ham, wrapTo180_is_wrapDegTo180. reflexivity.
  - apply wrapDegTo180_range.
  - exact rad2deg_is_180_over_pi.
Qed.

(** An azimuth of 4 rad, which is wrapped by one turn, at a range
    beyond the threshold. *)
Lemma C8_computePlausibility_witness :
  reachable anySettings (new Settings_default) /\
  computePlausibility (new Settings_default) 12 4 0
  = customPlausibility Settings_default 12 4 0 /\
  wrapDegTo180 (4 * rad2deg) = 4 * rad2deg - 360.
Proof.
  split; [now apply reach_new |].
  destruct (C8_computePlausibility (new Settings_default) 12 4 0
              (reach_new anySettings Settings_default I))
    as (_ & Hcustom & (Hrange & k & Hk) & _).
  split; [apply Hcustom; reflexivity |].
  rewrite Hk in *. unfold rad2deg in *.
  assert (Hone : k = (-1)%Z).
  { assert (Hlt : (k < 0)%Z) by (apply lt_IZR; lra).
    assert (Hgt : (-2 < k)%Z) by (apply lt_IZR; lra).
    lia. }
  subst k. lra.
Defined.

(** *** The log-odds bounds (C5) *)

Lemma reachable_settings ok m : reachable ok m -> ok (m_settings m).
Proof.
  induction 1 as [ s Hs | m s _ _ Hs | m points _ IH | m _ IH ];
    try assumption.
  now rewrite update_settings.
Qed.




End GridFacts.

(* ===================================================================== *)
(** * The track snapshot across detection frames (C2) *)
(* ===================================================================== *)

Section SnapshotFacts.

Variable draw : nat -> nat -> nat.
Variable qr_solve : list (R * R) -> list R -> R * R.

Lemma forgetVotes_set_movingVotes t v :
  forgetVotes (core.set_movingVotes t v) = forgetVotes t.
Proof. reflexivity. Qed.

Lemma map_forgetVotes_insert (tracks : list core.TrackState) i v :
  map forgetVotes
    (<[i := core.set_movingVotes (default core.TrackState_default (tracks !! i)) v]>
       tracks)
  = map forgetVotes tracks.
Proof.
  revert i. induction tracks as [| t tracks IH]; intros i; [reflexivity |].
  destruct i as [| i]; simpl.
  - reflexivity.
  - f_equal. apply IH.
Qed.

Lemma associateDetection_forgetVotes settings motion calibration boxes tracks det :
  map forgetVotes
    (fst (core.associateDetection settings motion calibration boxes tracks det))
  = map forgetVotes tracks.
Proof.
  unfold core.associateDetection.
  destruct (Z.eqb _ 0); [reflexivity |].
  destruct (Nat.ltb _ _); [| reflexivity].
  cbn [fst].
  destruct (core.ts_isMoveable _); [reflexivity |].
  apply map_forgetVotes_insert.
Qed.

Lemma associateLoop_forgetVotes settings motion calibration boxes tracks dets :
  map forgetVotes
    (fst (core.associateLoop settings motion calibration boxes tracks dets))
  = map forgetVotes tracks.
Proof.
  revert tracks. induction dets as [| det rest IH]; intros tracks; [reflexivity |].
  simpl.
  pose proof (associateDetection_forgetVotes settings motion calibration boxes
                tracks det) as H1.
  destruct (core.associateDetection settings motion calibration boxes tracks det)
    as [tracks' det'].
  specialize (IH tracks').
  destruct (core.associateLoop settings motion calibration boxes tracks' rest)
    as [tracks'' rest'].
  cbn [fst] in *. congruence.
Qed.

(** What the steps of a detection frame keep of the pipeline. *)
Lemma associateDetections_snapshot p parameters sensor timestamp_us detections :
  sameSnapshotUpToVotes p
    (fst (core.associateDetections p parameters sensor timestamp_us detections)) /\
  core.m_hasExternalMotionState
    (fst (core.associateDetections p parameters sensor timestamp_us detections))
  = core.m_hasExternalMotionState p.
Proof.
  unfold core.associateDetections, sameSnapshotUpToVotes.
  destruct (core.m_tracks p) as [| t0 ts] eqn:Ht.
  - cbn [fst]. rewrite Ht. auto.
  - match goal with
    | |- context [core.associateLoop ?s ?mo ?c ?b ?tr ?ds] =>
        pose proof (associateLoop_forgetVotes s mo c b tr ds) as H;
        destruct (core.associateLoop s mo c b tr ds) as [tracks' dets']
    end.
    cbn [fst] in *. cbn. auto.
Qed.

Lemma updateSensorStatus_snapshot p sensor timestamp_us :
  core.m_tracks (snd (core.updateSensorStatus p sensor timestamp_us)) = core.m_tracks p /\
  core.m_tracksTimestamp_us (snd (core.updateSensorStatus p sensor timestamp_us))
  = core.m_tracksTimestamp_us p /\
  core.m_hasExternalMotionState (snd (core.updateSensorStatus p sensor timestamp_us))
  = core.m_hasExternalMotionState p.
Proof.
  unfold core.updateSensorStatus.
  destruct (negb _); [cbn; auto |].
  destruct (Z.ltb _ _); cbn; auto.
Qed.

Lemma feedOdometry_snapshot fuel p calibration output p' :
  core.feedOdometry draw qr_solve fuel p calibration output = Some p' ->
  core.m_tracks p' = core.m_tracks p /\
  core.m_tracksTimestamp_us p' = core.m_tracksTimestamp_us p.
Proof.
  unfold core.feedOdometry.
  destruct (core.m_hasExternalMotionState p).
  - intros [= <-]. auto.
  - destruct (core.processDetections draw qr_solve fuel (core.m_odometry p)
                calibration output) as [[[|] e] |];
      intros [= <-]; cbn; auto.
Qed.

Lemma sameSnapshot_refl p : sameSnapshotUpToVotes p p.
Proof. split; reflexivity. Qed.

Lemma sameSnapshot_trans p1 p2 p3 :
  sameSnapshotUpToVotes p1 p2 -> sameSnapshotUpToVotes p2 p3 ->
  sameSnapshotUpToVotes p1 p3.
Proof. unfold sameSnapshotUpToVotes. intros [? ?] [? ?]. split; congruence. Qed.

Lemma sameSnapshot_eq p p' :
  core.m_tracks p' = core.m_tracks p ->
  core.m_tracksTimestamp_us p' = core.m_tracksTimestamp_us p ->
  sameSnapshotUpToVotes p p'.
Proof. unfold sameSnapshotUpToVotes. intros -> ->. auto. Qed.

Lemma processCornerDetections_snapshot fuel p sensor timestamp_us input output
  r p' output' :
  core.processCornerDetections draw qr_solve fuel p sensor timestamp_us input output
  = Some (r, p', output') ->
  sameSnapshotUpToVotes p p'.
Proof.
  unfold core.processCornerDetections.
  destruct (core.m_parameters p) as [parameters |];
    [| intros [= _ <- _]; apply sameSnapshot_refl].
  pose proof (updateSensorStatus_snapshot p sensor
                (hdr_timestamp_us (corner_header input))) as (Ht & Hts & _).
  destruct (core.updateSensorStatus p sensor _) as [updateValid p1].
  cbn [snd] in *.
  match goal with
  | |- context [core.associateDetections ?a ?b ?c ?d ?e] =>
      pose proof (associateDetections_snapshot a b c d e) as [Ha _];
      destruct (core.associateDetections a b c d e) as [p2 out3]
  end.
  cbn [fst] in *.
  destruct (core.feedOdometry draw qr_solve fuel p2 _ out3) as [p3 |] eqn:Hf;
    [| discriminate].
  intros [= _ <- _].
  apply feedOdometry_snapshot in Hf as [Hf1 Hf2].
  eapply sameSnapshot_trans; [apply (sameSnapshot_eq p p1); assumption |].
  eapply sameSnapshot_trans; [exact Ha |].
  now apply sameSnapshot_eq.
Qed.

Lemma processFrontDetections_snapshot fuel p timestamp_us input oS oL
  r p' oS' oL' :
  core.processFrontDetections draw qr_solve fuel p timestamp_us input oS oL
  = Some (r, p', oS', oL') ->
  sameSnapshotUpToVotes p p'.
Proof.
  unfold core.processFrontDetections.
  destruct (core.m_parameters p) as [parameters |];
    [| intros [= _ <- _ _]; apply sameSnapshot_refl].
  pose proof (updateSensorStatus_snapshot p FrontShort
                (hdr_timestamp_us (front_header input))) as (Ht1 & Hts1 & _).
  destruct (core.updateSensorStatus p FrontShort _) as [updateShort p1].
  cbn [snd] in *.
  pose proof (updateSensorStatus_snapshot p1 FrontLong
                (hdr_timestamp_us (front_header input))) as (Ht2 & Hts2 & _).
  destruct (core.updateSensorStatus p1 FrontLong _) as [updateLong p2].
  cbn [snd] in *.
  destruct (core.mapFrontDetections input oS oL) as [short1 long1].
  match goal with
  | |- context [core.associateDetections p2 ?b ?c ?d ?e] =>
      pose proof (associateDetections_snapshot p2 b c d e) as [Ha3 _];
      destruct (core.associateDetections p2 b c d e) as [p3 short3]
  end.
  cbn [fst] in *.
  match goal with
  | |- context [core.associateDetections p3 ?b ?c ?d ?e] =>
      pose proof (associateDetections_snapshot p3 b c d e) as [Ha4 _];
      destruct (core.associateDetections p3 b c d e) as [p4 long3]
  end.
  cbn [fst] in *.
  destruct (core.feedOdometry draw qr_solve fuel p4 _ short3) as [p5 |] eqn:Hf;
    [| discriminate].
  intros [= _ <- _ _].
  apply feedOdometry_snapshot in Hf as [Hf1 Hf2].
  eapply sameSnapshot_trans; [apply (sameSnapshot_eq p p1); assumption |].
  eapply sameSnapshot_trans; [apply (sameSnapshot_eq p1 p2); assumption |].
  eapply sameSnapshot_trans; [exact Ha3 |].
  eapply sameSnapshot_trans; [exact Ha4 |].
  now apply sameSnapshot_eq.
Qed.

(** *** The detection entry points return *)

Lemma redraw_total fuel n i k :
  (exists d, (d <= fuel)%nat /\ draw n (k + d)%nat <> i) ->
  exists r, core.redraw draw fuel n i (draw n k) (S k) = Some r.
Proof.
  revert k. induction fuel as [| fuel IH]; intros k [d [Hd Hne]].
  - assert (d = 0)%nat by lia. subst d. rewrite Nat.add_0_r in Hne.
    simpl. apply Nat.eqb_neq in Hne. rewrite Hne. eauto.
  - simpl. destruct (Nat.eqb (draw n k) i) eqn:E; [| eauto].
    apply Nat.eqb_eq in E.
    apply IH. destruct d as [| d].
    + rewrite Nat.add_0_r in Hne. contradiction.
    + exists d. split; [lia |]. now replace (S k + d)%nat with (k + S d)%nat by lia.
Qed.

Lemma ransacStep_total fuel samples threshold st :
  drawsSeparate draw fuel -> (2 <= length samples)%nat ->
  exists st', core.ransacStep draw fuel samples threshold st = Some st'.
Proof.
  intros Hfair Hn. unfold core.ransacStep.
  destruct (Nat.ltb 1 (length samples)) eqn:E;
    [| apply Nat.ltb_ge in E; lia].
  destruct (redraw_total fuel (length samples)
              (draw (length samples) (core.rngPos st)) (S (core.rngPos st))
              (Hfair _ _ _ Hn)) as [[j' k'] ->].
  destruct (core.solvePair _ _) as [[vLon vLat] |]; [| eauto].
  destruct (Z.ltb _ _); eauto.
Qed.

Lemma ransacLoop_total fuel samples threshold iterations st :
  drawsSeparate draw fuel -> (2 <= length samples)%nat ->
  exists st', core.ransacLoop draw fuel samples threshold iterations st = Some st'.
Proof.
  intros Hfair Hn. revert st.
  induction iterations as [| it IH]; intros st; simpl; [eauto |].
  destruct (ransacStep_total fuel samples threshold st Hfair Hn) as [st' ->].
  apply IH.
Qed.

Lemma processDetections_total fuel e calibration detections :
  drawsSeparate draw fuel ->
  exists r, core.processDetections draw qr_solve fuel e calibration detections = Some r.
Proof.
  intros Hfair. unfold core.processDetections.
  destruct (Nat.ltb (length _) 2) eqn:E; [eauto |].
  apply Nat.ltb_ge in E. unfold core.ransac.
  destruct (ransacLoop_total fuel
              (core.collectSamples calibration (eds_detections detections))
              (core.ransacThreshold (core.odo_settings e))
              (core.ransacIterations (core.odo_settings e))
              (core.mkRansac 0 0 0 0) Hfair E) as [best ->].
  eauto.
Qed.

Lemma feedOdometry_total fuel p calibration output :
  drawsSeparate draw fuel ->
  exists p', core.feedOdometry draw qr_solve fuel p calibration output = Some p'.
Proof.
  intros Hfair. unfold core.feedOdometry.
  destruct (core.m_hasExternalMotionState p); [eauto |].
  destruct (processDetections_total fuel (core.m_odometry p) calibration output Hfair)
    as [[[|] e] ->]; eauto.
Qed.

Lemma processCornerDetections_total fuel p sensor timestamp_us input output :
  drawsSeparate draw fuel ->
  exists r p' output',
    core.processCornerDetections draw qr_solve fuel p sensor timestamp_us input output
    = Some (r, p', output').
Proof.
  intros Hfair. unfold core.processCornerDetections.
  destruct (core.m_parameters p) as [parameters |]; [| eauto].
  destruct (core.updateSensorStatus p sensor _) as [updateValid p1].
  destruct (core.associateDetections p1 _ _ _ _) as [p2 out3].
  destruct (feedOdometry_total fuel p2 (cal_at parameters sensor) out3 Hfair)
    as [p3 ->].
  eauto.
Qed.

Lemma processFrontDetections_total fuel p timestamp_us input oS oL :
  drawsSeparate draw fuel ->
  exists r p' oS' oL',
    core.processFrontDetections draw qr_solve fuel p timestamp_us input oS oL
    = Some (r, p', oS', oL').
Proof.
  intros Hfair. unfold core.processFrontDetections.
  destruct (core.m_parameters p) as [parameters |]; [| eauto 6].
  destruct (core.updateSensorStatus p FrontShort _) as [updateShort p1].
  destruct (core.updateSensorStatus p1 FrontLong _) as [updateLong p2].
  destruct (core.mapFrontDetections input oS oL) as [short1 long1].
  destruct (core.associateDetections p2 _ _ _ _) as [p3 short3].
  destruct (core.associateDetections p3 _ _ _ _) as [p4 long3].
  destruct (feedOdometry_total fuel p4 (cal_at parameters FrontShort) short3 Hfair)
    as [p5 ->].
  eauto 6.
Qed.

(** C2, amended.  With a generator whose redraw loop ends within
    [fuel] draws, from any pipeline state: a corner or a front detection
    frame returns and leaves the cached track snapshot as it was up to
    the [movingVotes] accumulators (same tracks in the same order, every
    other field and the snapshot time unchanged); a track frame replaces
    the snapshot by the states of the surviving entries of its input,
    with all votes at 0, whatever the snapshot was. *)
Theorem C2_detection_frame_keeps_snapshot_up_to_votes fuel p :
  drawsSeparate draw fuel ->
  (forall sensor timestamp_us input output,
      exists r p' output',
        core.processCornerDetections draw qr_solve fuel p sensor timestamp_us
          input output = Some (r, p', output') /\
        sameSnapshotUpToVotes p p') /\
  (forall timestamp_us input outputShort outputLong,
      exists r p' outputShort' outputLong',
        core.processFrontDetections draw qr_solve fuel p timestamp_us input
          outputShort outputLong = Some (r, p', outputShort', outputLong') /\
        sameSnapshotUpToVotes p p') /\
  (forall timestamp_us input,
      core.m_tracks (fst (core.processTrackFusion p timestamp_us input))
      = map (fun i => core.trackStateOf (core.enhancedTrackAt input i))
          (core.survivingIndices input) /\
      Forall (fun t => core.ts_movingVotes t = 0)
        (core.m_tracks (fst (core.processTrackFusion p timestamp_us input))) /\
      core.m_tracksTimestamp_us (fst (core.processTrackFusion p timestamp_us input))
      = timestamp_us).
Proof.
  intros Hfair. split; [| split].
  - intros sensor ts input output.
    destruct (processCornerDetections_total fuel p sensor ts input output Hfair)
      as (r & p' & output' & Hcall).
    exists r, p', output'. split; [exact Hcall |].
    eapply processCornerDetections_snapshot, Hcall.
  - intros ts input oS oL.
    destruct (processFrontDetections_total fuel p ts input oS oL Hfair)
      as (r & p' & oS' & oL' & Hcall).
    exists r, p', oS', oL'. split; [exact Hcall |].
    eapply processFrontDetections_snapshot, Hcall.
  - intros ts input. unfold core.processTrackFusion. cbn [fst core.m_tracks
      core.m_tracksTimestamp_us].
    rewrite map_map. split; [reflexivity | split; [| reflexivity]].
    apply Forall_forall. intros t Ht.
    apply list_elem_of_In, in_map_iff in Ht. destruct Ht as [i [<- _]].
    reflexivity.
Qed.

End SnapshotFacts.

(** *** A detection frame that votes *)

Section SnapshotExample.
Import pipelineExample.

Lemma tracked_tracks : core.m_tracks tracked = [carState].
Proof.
  assert (Hs : core.survivingIndices carFrame = [0%nat]) by (vm_compute; reflexivity).
  unfold tracked, core.processTrackFusion. cbn [fst core.m_tracks].
  rewrite Hs. reflexivity.
Qed.

Lemma Rdiv_0_num (x : R) : 0 / x = 0.
Proof. unfold Rdiv. apply Rmult_0_l. Qed.

Lemma stationaryProbability_0 : core.stationaryProbabilityFromDistance 0 = 1.
Proof.
  unfold core.stationaryProbabilityFromDistance.
  rewrite Rdiv_0_num, erf_0. lra.
Qed.

(** With the vehicle at rest, a return of range rate 0 has Mahalanobis
    distance 0. *)
Lemma classifyDetection_at_rest settings cal det :
  det_rangeRate_ms det = 0 ->
  0 <= core.nSigma (core.stationary settings) ->
  core.classifyDetection settings atRest cal det
  = mkEnhancedDetection
      (det_range_m det) (det_rangeRate_ms det) (det_rangeRateRaw_ms det)
      (det_azimuthRaw_rad det) (det_azimuth_rad det) (det_amplitude_dBsm det)
      (det_longitudinalOffset_m det) (det_lateralOffset_m det)
      (det_motionStatus det) (det_flags det)
      (-1) 1 0 1 1 (det_elevationRaw_m det).
Proof.
  intros Hrr Hn. unfold core.classifyDetection.
  set (a := core.detectionAngleRad det cal).
  assert (Hm : Rabs (det_rangeRate_ms det + core.yawCompensation atRest cal a
                     - - (vLon_mps atRest * cos a + vLat_mps atRest * sin a))
               / sqrt (Rmax (core.rangeRateVar cal) (1 / 10000)) = 0).
  { replace (det_rangeRate_ms det + core.yawCompensation atRest cal a
             - - (vLon_mps atRest * cos a + vLat_mps atRest * sin a)) with 0.
    - rewrite Rabs_R0. apply Rdiv_0_num.
    - unfold core.yawCompensation, atRest.
      cbn [vLon_mps vLat_mps yawRate_rps]. rewrite Hrr. ring. }
  rewrite Hm, stationaryProbability_0.
  rewrite (proj2 (Rleb_true _ _) Hn).
  rewrite (std_clamp_id 1 0 1) by lra.
  reflexivity.
Qed.

Lemma hit_eq :
  core.classifyDetection core.ProcessingSettings_default atRest calibration
    (core.mapReturn (corner_returns cornerFrame) 0 EnhancedDetection_default)
  = hit.
Proof.
  rewrite classifyDetection_at_rest; [reflexivity | reflexivity | simpl; lra].
Qed.

Lemma associate_hit dt_s :
  core.associateDetection core.ProcessingSettings_default atRest calibration
    [core.predictedBox core.ProcessingSettings_default dt_s carState]
    [carState] hit
  = ([core.set_movingVotes carState (-1)],
     mkEnhancedDetection 10 0 0 0 0 0 1 1 0 1 0 1 0 1 1 0).
Proof.
  unfold core.associateDetection.
  change (Z.land (det_flags hit) core.validMask =? 0)%Z with false. cbn match.
  assert (Hbest : core.bestTrack core.ProcessingSettings_default atRest calibration
                    [core.predictedBox core.ProcessingSettings_default dt_s carState]
                    [carState] hit = 0%nat).
  { unfold core.bestTrack. cbn [length seq fold_left].
    unfold core.bestTrackStep. cbn [lookup list_lookup default from_option].
    unfold Datatypes.id.
    assert (Hc : core.contains (core.predictedBox core.ProcessingSettings_default dt_s carState)
             (core.detectionPositionVcs hit calibration) = true).
    { unfold core.contains, core.predictedBox, core.detectionPositionVcs, hit, carState, calibration.
      cbn -[Rabs cos sin Rmax].
      repeat (progress (Rdecide; cbn -[Rabs cos sin Rmax])).
      rewrite (Rmax_left 4 (1/10)) by lra. rewrite (Rmax_left 2 (1/10)) by lra.
      match goal with |- Rleb ?x _ && Rleb ?y _ = true =>
        replace x with 0 by ring; replace y with 0 by ring end.
      Rdecide. reflexivity. }
    rewrite Hc. cbn [negb].
    match goal with |- context [Rabs ?x / ?y] => replace (Rabs x / y) with 0 end.
    - cbn [fst core.association core.ProcessingSettings_default core.rangeRateSigma].
      unfold core.FLT_MAX. Rdecide. reflexivity.
    - match goal with |- 0 = Rabs ?x / ?y => replace x with 0 end.
      + now rewrite Rabs_R0, Rdiv_0_num.
      + unfold hit, carState, atRest. cbn. ring. }
  rewrite Hbest. cbn [length Nat.ltb Nat.leb lookup list_lookup default from_option].
  unfold Datatypes.id. cbn [core.ts_isMoveable carState].
  change (det_isStationary hit =? 0)%Z with false. cbn match.
  assert (Hv : clamp (core.ts_movingVotes carState + - det_stationaryProbability hit) (-100) 100 = -1).
  { unfold clamp, carState, hit.
    cbn [core.ts_movingVotes det_stationaryProbability].
    unfold Rmin, Rmax. repeat destruct (Rle_dec _ _); lra. }
  rewrite Hv. Rdecide. reflexivity.
Qed.

End SnapshotExample.

Section SnapshotCalls.

Variable draw : nat -> nat -> nat.
Variable qr_solve : list (R * R) -> list R -> R * R.

Lemma associateLoop_skip settings motion calibration boxes tracks dets :
  Forall (fun d => Z.land (det_flags d) core.validMask = 0%Z) dets ->
  fst (core.associateLoop settings motion calibration boxes tracks dets) = tracks.
Proof.
  induction 1 as [| det rest Hdet _ IH]; [reflexivity |].
  simpl. unfold core.associateDetection at 1. rewrite Hdet. cbn [Z.eqb].
  destruct (core.associateLoop settings motion calibration boxes tracks rest)
    as [tracks'' rest'].
  exact IH.
Qed.

Lemma associateDetections_tracks p parameters sensor timestamp_us detections :
  core.m_tracks p <> [] ->
  core.m_tracks
    (fst (core.associateDetections p parameters sensor timestamp_us detections))
  = fst (core.associateLoop (core.m_settings p) (core.m_motionState p)
           (cal_at parameters sensor)
           (map (core.predictedBox (core.m_settings p)
                   (microsecondsToSeconds
                      (if (core.m_tracksTimestamp_us p <? timestamp_us)%Z
                       then (timestamp_us - core.m_tracksTimestamp_us p)%Z
                       else 0%Z)))
              (core.m_tracks p))
           (core.m_tracks p) (eds_detections detections)).
Proof.
  intros Hne. unfold core.associateDetections.
  destruct (core.m_tracks p) as [| t0 ts] eqn:Ht; [contradiction |].
  destruct (core.associateLoop _ _ _ _ _ _) as [tracks' dets'].
  reflexivity.
Qed.

Lemma processCornerDetections_external fuel p parameters sensor timestamp_us
  input output :
  core.m_parameters p = Some parameters ->
  core.m_hasExternalMotionState p = true ->
  exists r,
    core.processCornerDetections draw qr_solve fuel p sensor timestamp_us input output
    = Some (r,
            fst (core.associateDetections
                   (snd (core.updateSensorStatus p sensor
                           (hdr_timestamp_us (corner_header input))))
                   parameters sensor
                   (core.observationTime timestamp_us
                      (secondsToMicroseconds (cornerHardwareDelay_s parameters)))
                   (core.classifyDetections
                      (snd (core.updateSensorStatus p sensor
                              (hdr_timestamp_us (corner_header input))))
                      parameters sensor
                      (core.mapCornerDetections input output))),
            snd (core.associateDetections
                   (snd (core.updateSensorStatus p sensor
                           (hdr_timestamp_us (corner_header input))))
                   parameters sensor
                   (core.observationTime timestamp_us
                      (secondsToMicroseconds (cornerHardwareDelay_s parameters)))
                   (core.classifyDetections
                      (snd (core.updateSensorStatus p sensor
                              (hdr_timestamp_us (corner_header input))))
                      parameters sensor
                      (core.mapCornerDetections input output)))).
Proof.
  intros Hp He. unfold core.processCornerDetections. rewrite Hp.
  pose proof (updateSensorStatus_snapshot p sensor
                (hdr_timestamp_us (corner_header input))) as (_ & _ & He1).
  destruct (core.updateSensorStatus p sensor _) as [updateValid p1].
  cbn [snd] in *.
  match goal with
  | |- context [core.associateDetections ?a ?b ?c ?d ?e] =>
      pose proof (associateDetections_snapshot a b c d e) as [_ He2];
      destruct (core.associateDetections a b c d e) as [p2 out3]
  end.
  cbn [fst snd] in *.
  unfold core.feedOdometry. rewrite He2, He1, He. eauto.
Qed.

End SnapshotCalls.

Section SnapshotCounterexample.
Import pipelineExample.

Lemma cornerFrame_detections :
  eds_detections
    (core.classifyDetections
       (snd (core.updateSensorStatus tracked FrontLeft 1000))
       parameters FrontLeft
       (core.mapCornerDetections cornerFrame EnhancedDetections_default))
  = map (fun i =>
           core.classifyDetection core.ProcessingSettings_default atRest calibration
             (core.mapReturn (corner_returns cornerFrame) i EnhancedDetection_default))
      (seq 0 64).
Proof. reflexivity. Qed.

Lemma cornerFrame_rest_flags :
  Forall (fun d => Z.land (det_flags d) core.validMask = 0%Z)
    (map (fun i =>
           core.classifyDetection core.ProcessingSettings_default atRest calibration
             (core.mapReturn (corner_returns cornerFrame) i EnhancedDetection_default))
      (seq 1 63)).
Proof.
  apply Forall_forall. intros d Hd.
  apply list_elem_of_In, in_map_iff in Hd. destruct Hd as [i [<- Hi]].
  apply in_seq in Hi.
  destruct i as [| i]; [lia |].
  cbn [core.classifyDetection det_flags core.mapReturn corner_returns cornerFrame
       raw_radarValidReturn raw_superResolutionDetection raw_nearTargetDetection
       raw_hostVehicleClutter raw_multibounceDetection].
  unfold atZ, kCornerReturnCount.
  change ((1%Z :: replicate 63 0%Z) !! S i) with (replicate 63 0%Z !! i).
  rewrite !lookup_replicate_2 by lia. reflexivity.
Qed.

(** C2, as worded, fails: on an initialised pipeline that holds one
    track which is not flagged moveable, a corner frame with one valid
    return inside the track's box changes the track's [movingVotes] from
    0 to -1. *)
Lemma C2_counterexample :
  exists r p' output',
    core.processCornerDetections example.draw_cycle example.lstsq 0 tracked
      FrontLeft 1000 cornerFrame EnhancedDetections_default
    = Some (r, p', output') /\
    core.m_tracks tracked = [carState] /\
    core.m_tracks p' = [core.set_movingVotes carState (-1)] /\
    core.m_tracks p' <> core.m_tracks tracked.
Proof.
  destruct (processCornerDetections_external example.draw_cycle example.lstsq 0
              tracked parameters FrontLeft 1000 cornerFrame
              EnhancedDetections_default eq_refl eq_refl) as [r Hcall].
  eexists r, _, _. split; [exact Hcall |].
  assert (Ht : core.m_tracks
                 (fst (core.associateDetections
                   (snd (core.updateSensorStatus tracked FrontLeft
                           (hdr_timestamp_us (corner_header cornerFrame))))
                   parameters FrontLeft
                   (core.observationTime 1000
                      (secondsToMicroseconds (cornerHardwareDelay_s parameters)))
                   (core.classifyDetections
                      (snd (core.updateSensorStatus tracked FrontLeft
                              (hdr_timestamp_us (corner_header cornerFrame))))
                      parameters FrontLeft
                      (core.mapCornerDetections cornerFrame EnhancedDetections_default))))
               = [core.set_movingVotes carState (-1)]).
  { rewrite associateDetections_tracks.
    - change (hdr_timestamp_us (corner_header cornerFrame)) with 1000%Z.
      rewrite cornerFrame_detections.
      change (seq 0 64) with (0%nat :: seq 1 63). rewrite map_cons, hit_eq.
      change (core.m_tracks (snd (core.updateSensorStatus tracked FrontLeft 1000)))
        with (core.m_tracks tracked).
      rewrite tracked_tracks.
      change (core.m_settings (snd (core.updateSensorStatus tracked FrontLeft 1000)))
        with core.ProcessingSettings_default.
      change (core.m_motionState (snd (core.updateSensorStatus tracked FrontLeft 1000)))
        with atRest.
      change (cal_at parameters FrontLeft) with calibration.
      cbn [map core.associateLoop].
      rewrite associate_hit.
      match goal with
      | |- context [core.associateLoop ?s ?mo ?c ?b ?tr ?ds] =>
          pose proof (associateLoop_skip s mo c b tr ds cornerFrame_rest_flags) as Hskip;
          destruct (core.associateLoop s mo c b tr ds) as [tracks'' rest']
      end.
      exact Hskip.
    - change (core.m_tracks (snd (core.updateSensorStatus tracked FrontLeft
                           (hdr_timestamp_us (corner_header cornerFrame)))))
        with (core.m_tracks tracked).
      rewrite tracked_tracks. discriminate. }
  split; [apply tracked_tracks |]. split; [exact Ht |].
  rewrite Ht, tracked_tracks. intros [= H]. lra.
Qed.

End SnapshotCounterexample.

Section GeneratorFacts.

Lemma succ_mod_neq (n k : nat) : (2 <= n)%nat -> (S k mod n <> k mod n)%nat.
Proof.
  intros Hn Heq.
  pose proof (Nat.div_mod_eq k n) as Hk.
  pose proof (Nat.div_mod_eq (S k) n) as HSk.
  pose proof (Nat.mod_upper_bound k n ltac:(lia)) as Hb.
  rewrite Heq in HSk.
  assert (Hd : (n * (S k / n) = n * (k / n) + 1)%nat) by lia.
  assert (Hq : (k / n <= S k / n)%nat) by (apply Nat.Div0.div_le_mono; lia).
  set (a := (k / n)%nat) in *. set (b := (S k / n)%nat) in *.
  clearbody a b. clear Hk HSk Hb Heq.
  destruct (Nat.eq_dec a b) as [-> | Hab]; [lia |].
  assert (Hb' : (n * (a + 1) <= n * b)%nat) by (apply Nat.mul_le_mono_l; lia).
  lia.
Qed.

Lemma draw_cycle_separate : drawsSeparate example.draw_cycle 1.
Proof.
  intros n i k Hn. unfold example.draw_cycle.
  destruct (Nat.eq_dec (k mod n) i) as [Heq | Hne].
  - exists 1%nat. split; [lia |]. rewrite Nat.add_1_r, <- Heq.
    now apply succ_mod_neq.
  - exists 0%nat. split; [lia |]. now rewrite Nat.add_0_r.
Qed.

End GeneratorFacts.

Lemma C2_snapshot_witness :
  drawsSeparate example.draw_cycle 1 /\
  exists r p' output',
    core.processCornerDetections example.draw_cycle example.lstsq 1
      pipelineExample.tracked FrontLeft 1000 pipelineExample.cornerFrame
      EnhancedDetections_default = Some (r, p', output') /\
    sameSnapshotUpToVotes pipelineExample.tracked p'.
Proof.
  split; [apply draw_cycle_separate |].
  apply (proj1 (C2_detection_frame_keeps_snapshot_up_to_votes
                  example.draw_cycle example.lstsq 1 pipelineExample.tracked
                  draw_cycle_separate)).
Defined.

(* ===================================================================== *)
(** * Odometry: the refit after RANSAC (C1) *)
(* ===================================================================== *)

Section OdometryFacts.

Variable draw : nat -> nat -> nat.
Variable qr_solve : list (R * R) -> list R -> R * R.

(** A solved pair reproduces the range rates of its two samples. *)
Lemma solvePair_exact a b vLon vLat :
  core.solvePair a b = Some (vLon, vLat) ->
  core.predictedRangeRate a vLon vLat = core.rangeRate a /\
  core.predictedRangeRate b vLon vLat = core.rangeRate b.
Proof.
  unfold core.solvePair, core.predictedRangeRate.
  destruct (Rltb _ _) eqn:E; [discriminate |].
  apply Rltb_false in E. intros [= <- <-].
  assert (Hdet : - core.cosAngle a * - core.sinAngle b
                 - - core.sinAngle a * - core.cosAngle b <> 0).
  { intros H0. rewrite H0, Rabs_R0 in E. lra. }
  split; field; exact Hdet.
Qed.

Lemma ransacThreshold_pos settings : 0 < core.ransacThreshold settings.
Proof.
  unfold core.ransacThreshold.
  pose proof (Rmax_l (5 / 100) (core.inlierThreshold_mps settings)). lra.
Qed.

Lemma solvePair_inliers threshold a b vLon vLat :
  0 < threshold ->
  core.solvePair a b = Some (vLon, vLat) ->
  core.isInlier threshold vLon vLat a = true /\
  core.isInlier threshold vLon vLat b = true.
Proof.
  intros Ht Hs. apply solvePair_exact in Hs as [Ha Hb].
  unfold core.isInlier. rewrite Ha, Hb.
  replace (core.rangeRate a - core.rangeRate a) with 0 by ring.
  replace (core.rangeRate b - core.rangeRate b) with 0 by ring.
  rewrite Rabs_R0. split; apply Rleb_true; lra.
Qed.

Lemma filter_length_one {A : Type} (P : A -> Prop) `{forall x, Decision (P x)}
  (l : list A) (d : A) i :
  (i < length l)%nat -> P (nth i l d) -> (1 <= length (filter P l))%nat.
Proof.
  revert i. induction l as [| x l IH]; intros i Hi HP; simpl in *; [lia |].
  destruct i as [| i].
  - rewrite filter_cons_True by assumption. simpl. lia.
  - specialize (IH i ltac:(lia) HP).
    rewrite filter_cons. destruct (decide (P x)); simpl; lia.
Qed.

Lemma filter_length_two {A : Type} (P : A -> Prop) `{forall x, Decision (P x)}
  (l : list A) (d : A) i j :
  (i < length l)%nat -> (j < length l)%nat -> i <> j ->
  P (nth i l d) -> P (nth j l d) -> (2 <= length (filter P l))%nat.
Proof.
  revert i j. induction l as [| x l IH]; intros i j Hi Hj Hne HPi HPj;
    simpl in *; [lia |].
  destruct i as [| i], j as [| j]; try congruence.
  - rewrite filter_cons_True by assumption. simpl.
    pose proof (filter_length_one P l d j ltac:(lia) HPj). lia.
  - rewrite filter_cons_True by assumption. simpl.
    pose proof (filter_length_one P l d i ltac:(lia) HPi). lia.
  - specialize (IH i j ltac:(lia) ltac:(lia) ltac:(congruence) HPi HPj).
    rewrite filter_cons. destruct (decide (P x)); simpl; lia.
Qed.

Lemma redraw_distinct fuel n i j k j' k' :
  core.redraw draw fuel n i j k = Some (j', k') -> j' <> i.
Proof.
  revert j k. induction fuel as [| fuel IH]; intros j k; simpl.
  - destruct (Nat.eqb j i) eqn:E; [discriminate |].
    intros [= <- _]. now apply Nat.eqb_neq.
  - destruct (Nat.eqb j i) eqn:E; [apply IH |].
    intros [= <- _]. now apply Nat.eqb_neq.
Qed.

Lemma redraw_in_range fuel n i j k j' k' :
  drawsInRange draw -> (0 < n)%nat -> (j < n)%nat ->
  core.redraw draw fuel n i j k = Some (j', k') -> (j' < n)%nat.
Proof.
  intros Hr Hn. revert j k. induction fuel as [| fuel IH]; intros j k Hj; simpl.
  - destruct (Nat.eqb j i); [discriminate |]. now intros [= <- _].
  - destruct (Nat.eqb j i); [apply IH, Hr, Hn |]. now intros [= <- _].
Qed.

Lemma ransacStep_counted fuel samples threshold st st' :
  drawsInRange draw -> 0 < threshold -> (2 <= length samples)%nat ->
  bestIsCounted samples threshold st ->
  core.ransacStep draw fuel samples threshold st = Some st' ->
  bestIsCounted samples threshold st'.
Proof.
  intros Hr Ht Hn Hst. unfold core.ransacStep.
  destruct (Nat.ltb 1 (length samples)) eqn:E; [| apply Nat.ltb_ge in E; lia].
  destruct (core.redraw draw fuel _ _ _ _) as [[j' k'] |] eqn:Hre; [| discriminate].
  assert (Hpos : (0 < length samples)%nat) by lia.
  pose proof (redraw_distinct _ _ _ _ _ _ _ Hre) as Hne.
  pose proof (redraw_in_range _ _ _ _ _ _ _ Hr Hpos
                (Hr _ (S (core.rngPos st)) Hpos) Hre) as Hj.
  pose proof (Hr (length samples) (core.rngPos st) Hpos) as Hi.
  destruct (core.solvePair _ _) as [[vLon vLat] |] eqn:Hs.
  - destruct (Z.ltb _ _) eqn:Hlt; intros [= <-]; [| exact Hst].
    right. cbn. split; [| reflexivity].
    destruct (solvePair_inliers threshold _ _ _ _ Ht Hs) as [Hi1 Hi2].
    unfold core.countInliers.
    pose proof (filter_length_two
                  (fun s => core.isInlier threshold vLon vLat s = true)
                  samples core.Sample_default _ _ Hi Hj ltac:(congruence) Hi1 Hi2).
    lia.
  - intros [= <-]. exact Hst.
Qed.

Lemma ransacLoop_counted fuel samples threshold iterations st st' :
  drawsInRange draw -> 0 < threshold -> (2 <= length samples)%nat ->
  bestIsCounted samples threshold st ->
  core.ransacLoop draw fuel samples threshold iterations st = Some st' ->
  bestIsCounted samples threshold st'.
Proof.
  intros Hr Ht Hn. revert st.
  induction iterations as [| it IH]; intros st Hst; simpl.
  - now intros [= <-].
  - destruct (core.ransacStep draw fuel samples threshold st) as [st1 |] eqn:E;
      [| discriminate].
    apply IH. eapply ransacStep_counted; eauto.
Qed.

Lemma to_uint32_small (n : Z) : (0 <= n < 2 ^ 32)%Z -> core.to_uint32 n = n.
Proof. intros. unfold core.to_uint32. now apply Z.mod_small. Qed.

(** The RANSAC loop ends, and its best count is that of its best
    pair. *)
Lemma ransac_returns fuel settings samples :
  drawsSeparate draw fuel -> drawsInRange draw -> (2 <= length samples)%nat ->
  exists best,
    core.ransac draw fuel settings samples = Some best /\
    bestIsCounted samples (core.ransacThreshold settings) best.
Proof.
  intros Hfair Hrange Hn. unfold core.ransac.
  destruct (ransacLoop_total draw fuel samples (core.ransacThreshold settings)
              (core.ransacIterations settings) (core.mkRansac 0 0 0 0) Hfair Hn)
    as [best Hbest].
  exists best. split; [exact Hbest |].
  eapply ransacLoop_counted;
    [exact Hrange | apply ransacThreshold_pos | exact Hn | | exact Hbest].
  now left.
Qed.

Lemma processDetections_after_ransac fuel e calibration detections best :
  (2 <= length (core.collectSamples calibration (eds_detections detections)))%nat ->
  core.ransac draw fuel (core.odo_settings e)
    (core.collectSamples calibration (eds_detections detections)) = Some best ->
  core.processDetections draw qr_solve fuel e calibration detections
  = Some (core.refit qr_solve e (eds_header detections)
            (core.collectSamples calibration (eds_detections detections)) best).
Proof.
  intros Hn Hbest. unfold core.processDetections.
  apply Nat.ltb_ge in Hn. now rewrite Hn, Hbest.
Qed.

(** Below [minInliers] the fit runs over all the samples. *)
Lemma refit_below_minInliers e header samples best :
  (2 <= length samples)%nat ->
  (0 <= core.minInliers (core.odo_settings e) < 2 ^ 32)%Z ->
  (core.bestInliers best < core.minInliers (core.odo_settings e))%Z ->
  core.refit qr_solve e header samples best
  = (false,
     core.mkRadarOdometryEstimator (core.odo_settings e)
       (mkOdometryEstimate (hdr_timestamp_us header)
          (fst (qr_solve (core.systemRows samples) (core.systemRhs samples)))
          (snd (qr_solve (core.systemRows samples) (core.systemRhs samples)))
          0 [1; 0; 0; 0; 1; 0; 0; 0; 1] (core.bestInliers best) false)).
Proof.
  intros Hn Hmin Hlt. unfold core.refit.
  rewrite to_uint32_small by exact Hmin.
  apply Z.leb_gt in Hlt. apply Nat.ltb_ge in Hn. now rewrite Hlt, Hn.
Qed.

(** C1, amended.  For a batch with at least two usable samples, a
    generator that returns indices of the sample list and whose redraw
    loop ends within [fuel] draws, and [min_inliers >= 1]: the RANSAC
    loop ends with a best state; if its inlier count is at least
    [min_inliers], the inliers of the best pair are at least two,
    [vLon] and [vLat] are the QR solution over those inliers and the
    estimate is valid; otherwise [vLon] and [vLat] are the QR solution
    over all usable samples and the estimate is not valid. *)
Theorem C1_refit_after_ransac fuel e calibration detections :
  let settings := core.odo_settings e in
  let samples := core.collectSamples calibration (eds_detections detections) in
  let threshold := core.ransacThreshold settings in
  drawsSeparate draw fuel ->
  drawsInRange draw ->
  (2 <= length samples)%nat ->
  (1 <= core.minInliers settings < 2 ^ 31)%Z ->
  exists best,
    core.ransac draw fuel settings samples = Some best /\
    let inliers :=
      filter (fun s => core.isInlier threshold (core.bestVLon best)
                         (core.bestVLat best) s = true) samples in
    ((core.minInliers settings <= core.bestInliers best)%Z ->
     (2 <= length inliers)%nat /\
     core.processDetections draw qr_solve fuel e calibration detections
     = Some (true,
             core.mkRadarOdometryEstimator settings
               (mkOdometryEstimate
                  (hdr_timestamp_us (eds_header detections))
                  (fst (qr_solve (core.systemRows inliers) (core.systemRhs inliers)))
                  (snd (qr_solve (core.systemRows inliers) (core.systemRhs inliers)))
                  0
                  [1 / INR (length inliers); 0; 0; 0;
                   1 / INR (length inliers); 0; 0; 0; 1]
                  (Z.of_nat (length inliers))
                  true))) /\
    ((core.bestInliers best < core.minInliers settings)%Z ->
     core.processDetections draw qr_solve fuel e calibration detections
     = Some (false,
             core.mkRadarOdometryEstimator settings
               (mkOdometryEstimate
                  (hdr_timestamp_us (eds_header detections))
                  (fst (qr_solve (core.systemRows samples) (core.systemRhs samples)))
                  (snd (qr_solve (core.systemRows samples) (core.systemRhs samples)))
                  0
                  [1; 0; 0; 0; 1; 0; 0; 0; 1]
                  (core.bestInliers best)
                  false))).
Proof.
  intros settings samples threshold Hfair Hrange Hn Hmin.
  destruct (ransac_returns fuel settings samples Hfair Hrange Hn)
    as [best [Hbest Hcounted]].
  exists best. split; [exact Hbest |].
  rewrite (processDetections_after_ransac fuel e calibration detections best Hn Hbest).
  fold samples. cbv zeta. split.
  - intros Hge.
    destruct Hcounted as [H0 | [H2 Hc]]; [lia |].
    unfold core.countInliers in Hc. fold threshold in Hc.
    assert (Hl : (2 <= length
                    (filter (fun s => core.isInlier threshold (core.bestVLon best)
                                        (core.bestVLat best) s = true) samples))%nat)
      by lia.
    split; [exact Hl |].
    unfold core.refit. fold settings threshold.
    rewrite to_uint32_small by lia.
    apply Z.leb_le in Hge. apply Nat.ltb_ge in Hl. now rewrite Hge, Hl.
  - intros Hlt. f_equal.
    apply refit_below_minInliers; [exact Hn | fold settings; lia | exact Hlt].
Qed.

End OdometryFacts.

Section OdometryExample.
Import odometryExample.

Variable draw : nat -> nat -> nat.

Lemma batch_samples :
  core.collectSamples pipelineExample.calibration (eds_detections batch) = samples.
Proof.
  unfold core.collectSamples, batch, validReturn, samples. cbn.
  replace (- 0 * 1 + 0) with 0 by lra.
  replace (- - (PI / 2) * 1 + 0) with (PI / 2) by lra.
  replace (- - PI * 1 + 0) with PI by lra.
  now rewrite cos_0, sin_0, cos_PI2, sin_PI2, cos_PI, sin_PI.
Qed.

(** Every pair of the three samples that can be solved gives
    [(1, 1)] or [(-1, 1)]. *)
Lemma samples_pairs i j vLon vLat :
  core.solvePair (nth i samples core.Sample_default)
    (nth j samples core.Sample_default) = Some (vLon, vLat) ->
  (vLon = 1 /\ vLat = 1) \/ (vLon = -1 /\ vLat = 1).
Proof.
  destruct i as [| [| [| [| i]]]], j as [| [| [| [| j]]]];
    unfold core.solvePair, samples, core.Sample_default;
    cbn [nth core.cosAngle core.sinAngle core.rangeRate];
    Rdecide; try discriminate.
  all: intros [= <- <-];
    first [ left; split; solve [lra | field; lra]
          | right; split; solve [lra | field; lra] ].
Qed.

Lemma countInliers_bound threshold vLon vLat (l : list core.Sample) :
  (0 <= core.countInliers threshold vLon vLat l <= Z.of_nat (length l))%Z.
Proof.
  unfold core.countInliers.
  pose proof (length_filter (fun s => core.isInlier threshold vLon vLat s = true) l).
  lia.
Qed.

Lemma samples_ransacLoop fuel threshold iterations st st' :
  odometryExample.bestOfSamples st -> (core.bestInliers st <= 3)%Z ->
  core.ransacLoop draw fuel samples threshold iterations st = Some st' ->
  odometryExample.bestOfSamples st' /\ (core.bestInliers st' <= 3)%Z.
Proof.
  revert st. induction iterations as [| it IH]; intros st Hst Hle; simpl.
  - intros [= <-]. auto.
  - destruct (core.ransacStep draw fuel samples threshold st) as [st1 |] eqn:E;
      [| discriminate].
    apply IH; unfold core.ransacStep in E;
      destruct (if Nat.ltb 1 (length samples) then _ else _) as [[j' k'] |];
      try discriminate;
      destruct (core.solvePair _ _) as [[vLon vLat] |] eqn:Hs;
      try (injection E as <-; assumption);
      destruct (Z.ltb _ _); injection E as <-; try assumption; cbn.
    + right. now apply samples_pairs in Hs.
    + pose proof (countInliers_bound threshold vLon vLat samples). simpl in *. lia.
Qed.

Lemma samples_lstsq :
  example.lstsq (core.systemRows samples) (core.systemRhs samples) = (0, 1).
Proof.
  unfold example.lstsq, samples. cbn.
  Rdecide. f_equal; solve [lra | field; lra].
Qed.

End OdometryExample.

Lemma draw_cycle_in_range : drawsInRange example.draw_cycle.
Proof.
  intros n k Hn. unfold example.draw_cycle. apply Nat.mod_upper_bound. lia.
Qed.

(** C1, as worded, fails: for three valid returns seen at 0, pi/2 and
    pi with range rate -1 and the default settings, no pair has six
    inliers, the reported velocity is the least-squares solution
    (0, 1) over all three samples with [valid = false], and it is not
    the velocity of the best RANSAC pair. *)
Lemma C1_counterexample :
  exists best r e',
    core.ransac example.draw_cycle 1 (core.odo_settings odometryExample.estimator)
      (core.collectSamples pipelineExample.calibration
         (eds_detections odometryExample.batch)) = Some best /\
    core.processDetections example.draw_cycle example.lstsq 1
      odometryExample.estimator pipelineExample.calibration odometryExample.batch
    = Some (r, e') /\
    (core.bestInliers best
     < core.minInliers (core.odo_settings odometryExample.estimator))%Z /\
    oe_valid (core.odo_lastEstimate e') = false /\
    oe_vLon_mps (core.odo_lastEstimate e') = 0 /\
    oe_vLat_mps (core.odo_lastEstimate e') = 1 /\
    (core.bestVLon best, core.bestVLat best)
    <> (oe_vLon_mps (core.odo_lastEstimate e'), oe_vLat_mps (core.odo_lastEstimate e')).
Proof.
  assert (Hn : (2 <= length (core.collectSamples pipelineExample.calibration
                               (eds_detections odometryExample.batch)))%nat)
    by (rewrite batch_samples; simpl; lia).
  destruct (ransac_returns example.draw_cycle 1
              (core.odo_settings odometryExample.estimator) _
              draw_cycle_separate draw_cycle_in_range Hn) as [best [Hbest _]].
  pose proof Hbest as Hloop. unfold core.ransac in Hloop.
  rewrite batch_samples in Hloop.
  apply samples_ransacLoop in Hloop as [Hv Hle];
    [| left; split; reflexivity | simpl; lia].
  assert (Hlt : (core.bestInliers best
                 < core.minInliers (core.odo_settings odometryExample.estimator))%Z)
    by (simpl; lia).
  pose proof (processDetections_after_ransac example.draw_cycle example.lstsq 1
                odometryExample.estimator pipelineExample.calibration
                odometryExample.batch best Hn Hbest) as Helse.
  rewrite refit_below_minInliers in Helse;
    [| exact Hn | simpl; lia | exact Hlt].
  rewrite batch_samples, samples_lstsq in Helse.
  eexists best, _, _. split; [exact Hbest |]. split; [exact Helse |].
  cbn [core.odo_lastEstimate oe_valid oe_vLon_mps oe_vLat_mps fst snd].
  repeat split; try assumption.
  intros [= H1 H2].
  destruct Hv as [[? ?] | [[? ?] | [? ?]]]; lra.
Qed.

Lemma C1_refit_witness :
  drawsSeparate example.draw_cycle 1 /\
  drawsInRange example.draw_cycle /\
  (2 <= length (core.collectSamples pipelineExample.calibration
                  (eds_detections odometryExample.batch)))%nat /\
  (1 <= core.minInliers (core.odo_settings odometryExample.estimator) < 2 ^ 31)%Z /\
  exists best,
    core.ransac example.draw_cycle 1 (core.odo_settings odometryExample.estimator)
      (core.collectSamples pipelineExample.calibration
         (eds_detections odometryExample.batch)) = Some best.
Proof.
  assert (Hn : (2 <= length (core.collectSamples pipelineExample.calibration
                               (eds_detections odometryExample.batch)))%nat)
    by (simpl; lia).
  assert (Hm : (1 <= core.minInliers (core.odo_settings odometryExample.estimator)
                < 2 ^ 31)%Z) by (simpl; lia).
  split; [apply draw_cycle_separate |].
  split; [apply draw_cycle_in_range |].
  split; [exact Hn |]. split; [exact Hm |].
  destruct (C1_refit_after_ransac example.draw_cycle example.lstsq 1
              odometryExample.estimator pipelineExample.calibration
              odometryExample.batch draw_cycle_separate draw_cycle_in_range Hn Hm)
    as [best [Hbest _]].
  now exists best.
Defined.

(* ===================================================================== *)
(** * Further properties of the pipeline *)
(* ===================================================================== *)

Section PipelineOutput.

Variable draw : nat -> nat -> nat.
Variable qr_solve : list (R * R) -> list R -> R * R.

Lemma resize_length {A : Type} (n : nat) (d : A) (l : list A) :
  length (core.resize n d l) = n.
Proof.
  unfold core.resize. rewrite length_app, length_take, length_replicate. lia.
Qed.

Lemma associateLoop_Forall2 (P : EnhancedDetection -> EnhancedDetection -> Prop)
  settings motion calibration boxes :
  (forall tracks det,
      P det (snd (core.associateDetection settings motion calibration boxes tracks det))) ->
  forall tracks dets,
    Forall2 P dets
      (snd (core.associateLoop settings motion calibration boxes tracks dets)).
Proof.
  intros Hstep tracks dets. revert tracks.
  induction dets as [| det rest IH]; intros tracks; simpl; [constructor |].
  pose proof (Hstep tracks det) as H1.
  destruct (core.associateDetection settings motion calibration boxes tracks det)
    as [tracks' det'].
  specialize (IH tracks').
  destruct (core.associateLoop settings motion calibration boxes tracks' rest)
    as [tracks'' rest'].
  cbn [snd] in *. now constructor.
Qed.

Lemma updateSensorStatus_rest p sensor timestamp_us :
  let p1 := snd (core.updateSensorStatus p sensor timestamp_us) in
  core.m_settings p1 = core.m_settings p /\
  core.m_parameters p1 = core.m_parameters p /\
  core.m_motionState p1 = core.m_motionState p /\
  core.m_odometry p1 = core.m_odometry p /\
  core.m_lastOdometry p1 = core.m_lastOdometry p /\
  length (core.m_sensorStates p1) = length (core.m_sensorStates p).
Proof.
  unfold core.updateSensorStatus.
  destruct (negb _); [cbn; rewrite length_insert; auto 10 |].
  destruct (Z.ltb _ _); cbn; rewrite length_insert; auto 10.
Qed.

Lemma associateDetections_rest p parameters sensor timestamp_us detections :
  pipelineRest
    (fst (core.associateDetections p parameters sensor timestamp_us detections))
  = pipelineRest p.
Proof.
  unfold core.associateDetections.
  destruct (core.m_tracks p); [reflexivity |].
  destruct (core.associateLoop _ _ _ _ _ _). reflexivity.
Qed.

Lemma associateDetections_Forall2
  (P : EnhancedDetection -> EnhancedDetection -> Prop)
  p parameters sensor timestamp_us detections :
  (forall d, P d d) ->
  (forall boxes tracks det,
      length boxes = length (core.m_tracks p) ->
      P det (snd (core.associateDetection (core.m_settings p) (core.m_motionState p)
                    (cal_at parameters sensor) boxes tracks det))) ->
  eds_header
    (snd (core.associateDetections p parameters sensor timestamp_us detections))
  = eds_header detections /\
  Forall2 P (eds_detections detections)
    (eds_detections
       (snd (core.associateDetections p parameters sensor timestamp_us detections))).
Proof.
  intros Hrefl Hstep. unfold core.associateDetections.
  destruct (core.m_tracks p) as [| t0 ts] eqn:Ht.
  - cbn [snd]. split; [reflexivity |]. now apply Forall_Forall2_diag, Forall_forall.
  - match goal with
    | |- context [core.associateLoop ?s ?mo ?c ?b ?tr ?ds] =>
        pose proof (associateLoop_Forall2 P s mo c b
                      (fun tracks det => Hstep b tracks det
                         ltac:(subst; now rewrite length_map)) tr ds) as H;
        destruct (core.associateLoop s mo c b tr ds) as [tracks' dets']
    end.
    cbn [snd eds_header eds_detections] in *. auto.
Qed.


Lemma processCornerDetections_output fuel p parameters sensor timestamp_us
  input output r p' output' :
  core.m_parameters p = Some parameters ->
  core.processCornerDetections draw qr_solve fuel p sensor timestamp_us input output
  = Some (r, p', output') ->
  let status := core.updateSensorStatus p sensor
                  (hdr_timestamp_us (corner_header input)) in
  let associated :=
    core.associateDetections (snd status) parameters sensor
      (core.observationTime timestamp_us
         (secondsToMicroseconds (cornerHardwareDelay_s parameters)))
      (core.classifyDetections (snd status) parameters sensor
         (core.mapCornerDetections input output)) in
  output' = snd associated /\
  core.feedOdometry draw qr_solve fuel (fst associated) (cal_at parameters sensor)
    output' = Some p' /\
  r = (if fst status then oe_valid (core.m_lastOdometry p') else false).
Proof.
  intros Hpar. unfold core.processCornerDetections. rewrite Hpar.
  destruct (core.updateSensorStatus p sensor _) as [updateValid p1].
  cbn [fst snd].
  destruct (core.associateDetections p1 _ _ _ _) as [p2 out3]. cbn [fst snd].
  destruct (core.feedOdometry draw qr_solve fuel p2 _ out3) as [p3 |] eqn:E;
    [| discriminate].
  intros [= <- <- <-]. cbv zeta. auto.
Qed.

Lemma processFrontDetections_output fuel p parameters timestamp_us
  input oS oL r p' oS' oL' :
  core.m_parameters p = Some parameters ->
  core.processFrontDetections draw qr_solve fuel p timestamp_us input oS oL
  = Some (r, p', oS', oL') ->
  let statusShort := core.updateSensorStatus p FrontShort
                       (hdr_timestamp_us (front_header input)) in
  let statusLong := core.updateSensorStatus (snd statusShort) FrontLong
                      (hdr_timestamp_us (front_header input)) in
  let obs := core.observationTime timestamp_us
               (secondsToMicroseconds (frontCenterHardwareDelay_s parameters)) in
  let short := core.associateDetections (snd statusLong) parameters FrontShort obs
                 (core.classifyDetections (snd statusLong) parameters FrontShort
                    (fst (core.mapFrontDetections input oS oL))) in
  let long := core.associateDetections (fst short) parameters FrontLong obs
                (core.classifyDetections (fst short) parameters FrontLong
                   (snd (core.mapFrontDetections input oS oL))) in
  oS' = snd short /\ oL' = snd long /\
  core.feedOdometry draw qr_solve fuel (fst long) (cal_at parameters FrontShort) oS'
  = Some p' /\
  r = (if fst statusShort && fst statusLong
       then oe_valid (core.m_lastOdometry p') else false).
Proof.
  intros Hpar. unfold core.processFrontDetections. rewrite Hpar.
  destruct (core.updateSensorStatus p FrontShort _) as [updateShort p1].
  cbn [fst snd].
  destruct (core.updateSensorStatus p1 FrontLong _) as [updateLong p2].
  cbn [fst snd].
  destruct (core.mapFrontDetections input oS oL) as [short1 long1]. cbn [fst snd].
  destruct (core.associateDetections p2 _ _ _ _) as [p3 short3]. cbn [fst snd].
  destruct (core.associateDetections p3 _ _ _ _) as [p4 long3]. cbn [fst snd].
  destruct (core.feedOdometry draw qr_solve fuel p4 _ short3) as [p5 |] eqn:E;
    [| discriminate].
  intros [= <- <- <- <-]. cbv zeta. auto.
Qed.

(** The relation between the classified returns and the detections of
    the output of a corner frame, from a relation that every
    association step keeps. *)
Lemma corner_output_rel (P : EnhancedDetection -> EnhancedDetection -> Prop)
  fuel p parameters sensor timestamp_us input output r p' output' :
  (forall d, P d d) ->
  (forall boxes tracks det,
      length boxes = length (core.m_tracks p) ->
      P det (snd (core.associateDetection (core.m_settings p) (core.m_motionState p)
                    (cal_at parameters sensor) boxes tracks det))) ->
  core.m_parameters p = Some parameters ->
  core.processCornerDetections draw qr_solve fuel p sensor timestamp_us input output
  = Some (r, p', output') ->
  eds_header output' = corner_header input /\
  Forall2 P
    (classifiedReturns (core.m_settings p) (core.m_motionState p)
       (cal_at parameters sensor) (corner_returns input) 0 output)
    (eds_detections output').
Proof.
  intros Hrefl Hstep Hpar Hcall.
  destruct (processCornerDetections_output _ _ _ _ _ _ _ _ _ _ Hpar Hcall)
    as [-> _].
  set (p1 := snd (core.updateSensorStatus p sensor _)).
  destruct (updateSensorStatus_rest p sensor
              (hdr_timestamp_us (corner_header input)))
    as [Hs [_ [Hm _]]].
  destruct (updateSensorStatus_snapshot p sensor
              (hdr_timestamp_us (corner_header input))) as [Ht _].
  fold p1 in Hs, Hm, Ht.
  match goal with
  | |- context [core.associateDetections p1 ?q ?s ?o ?d] =>
      destruct (associateDetections_Forall2 P p1 q s o d Hrefl) as [Hh Hd]
  end.
  { intros boxes tracks det Hb. rewrite Hs, Hm. apply Hstep. now rewrite <- Ht. }
  split; [rewrite Hh; reflexivity |].
  unfold classifiedReturns. rewrite <- Hs, <- Hm.
  erewrite imap_ext; [exact Hd |].
  intros i x _. cbn. now rewrite Nat.add_0_r.
Qed.

Lemma associateDetections_tracks_length p parameters sensor timestamp_us detections :
  length (core.m_tracks
            (fst (core.associateDetections p parameters sensor timestamp_us detections)))
  = length (core.m_tracks p).
Proof.
  destruct (associateDetections_snapshot p parameters sensor timestamp_us detections)
    as [[H _] _].
  apply (f_equal (@length _)) in H. now rewrite !length_map in H.
Qed.

(** The same for a front frame: the short output holds returns 0..63,
    the long output returns 64..127. *)
Lemma front_output_rel (P : EnhancedDetection -> EnhancedDetection -> Prop)
  fuel p parameters timestamp_us input oS oL r p' oS' oL' :
  (forall d, P d d) ->
  (forall sensor boxes tracks det,
      length boxes = length (core.m_tracks p) ->
      P det (snd (core.associateDetection (core.m_settings p) (core.m_motionState p)
                    (cal_at parameters sensor) boxes tracks det))) ->
  core.m_parameters p = Some parameters ->
  core.processFrontDetections draw qr_solve fuel p timestamp_us input oS oL
  = Some (r, p', oS', oL') ->
  eds_header oS' = front_header input /\
  eds_header oL' = front_header input /\
  Forall2 P
    (classifiedReturns (core.m_settings p) (core.m_motionState p)
       (cal_at parameters FrontShort) (front_returns input) 0 oS)
    (eds_detections oS') /\
  Forall2 P
    (classifiedReturns (core.m_settings p) (core.m_motionState p)
       (cal_at parameters FrontLong) (front_returns input) kCornerReturnCount oL)
    (eds_detections oL').
Proof.
  intros Hrefl Hstep Hpar Hcall.
  destruct (processFrontDetections_output _ _ _ _ _ _ _ _ _ _ _ Hpar Hcall)
    as [-> [-> _]].
  set (p1 := snd (core.updateSensorStatus p FrontShort _)).
  set (p2 := snd (core.updateSensorStatus p1 FrontLong _)).
  destruct (updateSensorStatus_rest p FrontShort
              (hdr_timestamp_us (front_header input)))
    as [Hs1 [_ [Hm1 _]]].
  destruct (updateSensorStatus_snapshot p FrontShort
              (hdr_timestamp_us (front_header input))) as [Ht1 _].
  fold p1 in Hs1, Hm1, Ht1.
  destruct (updateSensorStatus_rest p1 FrontLong
              (hdr_timestamp_us (front_header input)))
    as [Hs2 [_ [Hm2 _]]].
  destruct (updateSensorStatus_snapshot p1 FrontLong
              (hdr_timestamp_us (front_header input))) as [Ht2 _].
  fold p2 in Hs2, Hm2, Ht2.
  set (obs := core.observationTime _ _).
  set (short2 := core.classifyDetections p2 parameters FrontShort _).
  set (p3 := fst (core.associateDetections p2 parameters FrontShort obs short2)).
  pose proof (associateDetections_rest p2 parameters FrontShort obs short2) as Hrest.
  fold p3 in Hrest. unfold pipelineRest in Hrest.
  injection Hrest as Hs3 _ _ _ Hm3 _ _ _.
  pose proof (associateDetections_tracks_length p2 parameters FrontShort obs short2)
    as Ht3.
  fold p3 in Ht3.
  assert (HS : core.m_settings p2 = core.m_settings p) by congruence.
  assert (HM : core.m_motionState p2 = core.m_motionState p) by congruence.
  assert (HS3 : core.m_settings p3 = core.m_settings p) by congruence.
  assert (HM3 : core.m_motionState p3 = core.m_motionState p) by congruence.
  destruct (associateDetections_Forall2 P p2 parameters FrontShort obs short2 Hrefl)
    as [Hh Hd].
  { intros boxes tracks det Hb. rewrite HS, HM. apply Hstep. congruence. }
  match goal with
  | |- context [core.associateDetections p3 ?q ?s ?o ?d] =>
      destruct (associateDetections_Forall2 P p3 q s o d Hrefl) as [Hh' Hd']
  end.
  { intros boxes tracks det Hb. rewrite HS3, HM3. apply Hstep. congruence. }
  split; [rewrite Hh; reflexivity |].
  split; [rewrite Hh'; reflexivity |].
  unfold classifiedReturns. split.
  - rewrite <- HS, <- HM.
    erewrite imap_ext; [exact Hd |].
    intros i x _. cbn. now rewrite Nat.add_0_r.
  - rewrite <- HS3, <- HM3. exact Hd'.
Qed.

Lemma classifiedReturns_length settings motion calibration returns offset output :
  length (classifiedReturns settings motion calibration returns offset output)
  = kCornerReturnCount.
Proof.
  unfold classifiedReturns.
  now rewrite length_map, length_imap, resize_length.
Qed.

Lemma classifiedReturns_lookup settings motion calibration returns offset output i d :
  classifiedReturns settings motion calibration returns offset output !! i = Some d ->
  d = core.classifyDetection settings motion calibration
        (core.mapReturn returns (i + offset) (callerSlot output i)).
Proof.
  unfold classifiedReturns, callerSlot.
  rewrite list_lookup_fmap, list_lookup_imap.
  destruct (core.resize _ _ _ !! i) as [d0 |]; [| discriminate].
  cbn. now intros [= <-].
Qed.

Lemma Forall2_carry {A : Type} (Q : A -> Prop) (l k : list A) :
  Forall2 (fun x y => Q x -> Q y) l k -> Forall Q l -> Forall Q k.
Proof.
  induction 1 as [| x y l k Hxy _ IH]; [constructor |].
  intros Hl. inversion Hl; subst. constructor; auto.
Qed.

Lemma classifiedReturns_Forall (Q : EnhancedDetection -> Prop)
  settings motion calibration returns offset output :
  (forall d, Q (core.classifyDetection settings motion calibration d)) ->
  Forall Q (classifiedReturns settings motion calibration returns offset output).
Proof.
  intros H. unfold classifiedReturns. apply Forall_fmap, Forall_forall.
  intros d _. apply H.
Qed.

(** ** What one classification and one association step do to a detection *)

Lemma classifyDetection_raw settings motion calibration d :
  sameRawFields d (core.classifyDetection settings motion calibration d).
Proof. unfold sameRawFields, core.classifyDetection. cbn. auto 12. Qed.

Lemma associateDetection_raw settings motion calibration boxes tracks det :
  sameRawFields det
    (snd (core.associateDetection settings motion calibration boxes tracks det)).
Proof.
  unfold sameRawFields, core.associateDetection.
  destruct (_ =? _)%Z; [cbn; auto 12 |].
  destruct (Nat.ltb _ _); cbn; auto 12.
Qed.

Lemma sameRawFields_refl d : sameRawFields d d.
Proof. unfold sameRawFields. auto 12. Qed.

Lemma classifyDetection_consistent settings motion calibration d :
  classificationConsistent (core.classifyDetection settings motion calibration d).
Proof.
  unfold classificationConsistent, core.classifyDetection. cbn.
  split; [destruct (Rleb _ _); auto |].
  split; [auto |].
  split; [destruct (Rleb _ _); reflexivity |].
  apply std_clamp_range. lra.
Qed.

Lemma associateDetection_consistent settings motion calibration boxes tracks det :
  classificationConsistent det ->
  classificationConsistent
    (snd (core.associateDetection settings motion calibration boxes tracks det)).
Proof.
  intros H. unfold core.associateDetection.
  destruct (_ =? _)%Z; [exact H |].
  destruct (Nat.ltb _ _); [| exact H].
  destruct H as [Hs [_ [_ Hp]]].
  unfold classificationConsistent. cbn.
  split; [exact Hs |].
  split; [destruct (core.ts_isMoveable _); [auto |]; destruct (Rltb _ _); auto |].
  split; [reflexivity | exact Hp].
Qed.

Lemma to_int8_small (n : Z) : (0 <= n < 128)%Z -> core.to_int8 n = n.
Proof. intros H. unfold core.to_int8. rewrite Z.mod_small; lia. Qed.

Lemma associateDetection_fusedIndex settings motion calibration boxes tracks det :
  (length boxes <= kTrackCount)%nat ->
  fusedIndexOk (length boxes) det ->
  fusedIndexOk (length boxes)
    (snd (core.associateDetection settings motion calibration boxes tracks det)).
Proof.
  intros Hn H. unfold core.associateDetection.
  destruct (_ =? _)%Z eqn:Ef; [exact H |].
  destruct (Nat.ltb _ _) eqn:Eb; [| exact H].
  apply Nat.ltb_lt in Eb. apply Z.eqb_neq in Ef.
  right. cbn. unfold kTrackCount in Hn.
  rewrite to_int8_small by lia. split; [lia | exact Ef].
Qed.

Lemma classifyDetection_fusedIndex n settings motion calibration d :
  fusedIndexOk n (core.classifyDetection settings motion calibration d).
Proof. left. reflexivity. Qed.

(** ** What the pipeline keeps *)

Lemma clamp_range (v lo hi : R) : lo <= hi -> lo <= clamp v lo hi <= hi.
Proof.
  intros H. unfold clamp, Rmin, Rmax.
  repeat destruct (Rle_dec _ _); lra.
Qed.

Lemma associateDetection_votes settings motion calibration boxes tracks det :
  Forall (fun t => -100 <= core.ts_movingVotes t <= 100) tracks ->
  Forall (fun t => -100 <= core.ts_movingVotes t <= 100)
    (fst (core.associateDetection settings motion calibration boxes tracks det)).
Proof.
  intros H. unfold core.associateDetection.
  destruct (_ =? _)%Z; [exact H |].
  destruct (Nat.ltb _ _); [| exact H]. cbn.
  destruct (core.ts_isMoveable _); [exact H |].
  match goal with
  | |- Forall _ (<[?i := ?x]> ?l) =>
      destruct (decide (i < length l)%nat) as [Hi | Hi]
  end.
  - apply Forall_insert; [exact H |]. cbn. apply clamp_range. lra.
  - rewrite list_insert_ge by lia. exact H.
Qed.

Lemma associateLoop_votes settings motion calibration boxes tracks dets :
  Forall (fun t => -100 <= core.ts_movingVotes t <= 100) tracks ->
  Forall (fun t => -100 <= core.ts_movingVotes t <= 100)
    (fst (core.associateLoop settings motion calibration boxes tracks dets)).
Proof.
  revert tracks. induction dets as [| det rest IH]; intros tracks H; [exact H |].
  simpl.
  pose proof (associateDetection_votes settings motion calibration boxes tracks det H)
    as H1.
  destruct (core.associateDetection settings motion calibration boxes tracks det)
    as [tracks' det'].
  specialize (IH tracks' H1).
  destruct (core.associateLoop settings motion calibration boxes tracks' rest)
    as [tracks'' rest'].
  exact IH.
Qed.

Lemma associateDetections_votes p parameters sensor timestamp_us detections :
  Forall (fun t => -100 <= core.ts_movingVotes t <= 100) (core.m_tracks p) ->
  Forall (fun t => -100 <= core.ts_movingVotes t <= 100)
    (core.m_tracks
       (fst (core.associateDetections p parameters sensor timestamp_us detections))).
Proof.
  intros H. unfold core.associateDetections.
  destruct (core.m_tracks p) as [| t0 ts] eqn:Ht; [cbn; now rewrite Ht |].
  match goal with
  | |- context [core.associateLoop ?s ?mo ?c ?b ?tr ?ds] =>
      pose proof (associateLoop_votes s mo c b tr ds H) as H1;
      destruct (core.associateLoop s mo c b tr ds) as [tracks' dets']
  end.
  exact H1.
Qed.

Lemma refit_valid e header samples best e' :
  core.refit qr_solve e header samples best = (true, e') ->
  oe_valid (core.odo_lastEstimate e') = true.
Proof.
  unfold core.refit.
  destruct (Nat.ltb _ _); [discriminate |].
  intros [= Hu <-]. cbn. exact Hu.
Qed.

Lemma processDetections_valid fuel e calibration detections e' :
  core.processDetections draw qr_solve fuel e calibration detections = Some (true, e') ->
  oe_valid (core.odo_lastEstimate e') = true.
Proof.
  unfold core.processDetections.
  destruct (Nat.ltb _ _); [discriminate |].
  destruct (core.ransac _ _ _ _) as [best |]; [| discriminate].
  intros [= H]. eapply refit_valid; eassumption.
Qed.

Lemma feedOdometry_rest fuel p calibration output p' :
  core.feedOdometry draw qr_solve fuel p calibration output = Some p' ->
  core.m_settings p' = core.m_settings p /\
  core.m_parameters p' = core.m_parameters p /\
  core.m_sensorStates p' = core.m_sensorStates p /\
  core.m_tracks p' = core.m_tracks p /\
  core.m_hasExternalMotionState p' = core.m_hasExternalMotionState p /\
  (core.m_lastOdometry p' = core.m_lastOdometry p \/
   oe_valid (core.m_lastOdometry p') = true).
Proof.
  unfold core.feedOdometry.
  destruct (core.m_hasExternalMotionState p) eqn:Ee;
    [intros [= <-]; auto 10 |].
  destruct (core.processDetections draw qr_solve fuel _ _ _) as [[[|] e] |] eqn:E;
    [| | discriminate]; intros [= <-]; cbn; [| auto 10].
  apply processDetections_valid in E. auto 10.
Qed.

Lemma pipelineInv_associateDetections p parameters sensor timestamp_us detections :
  pipelineInv p ->
  pipelineInv
    (fst (core.associateDetections p parameters sensor timestamp_us detections)).
Proof.
  intros [H1 [H2 [H3 H4]]].
  pose proof (associateDetections_rest p parameters sensor timestamp_us detections)
    as Hrest.
  unfold pipelineRest in Hrest. injection Hrest as _ _ Hs _ _ _ _ Hl.
  unfold pipelineInv. rewrite Hs, Hl, associateDetections_tracks_length.
  split; [exact H1 |]. split; [exact H2 |].
  split; [now apply associateDetections_votes | exact H4].
Qed.

Lemma pipelineInv_updateSensorStatus p sensor timestamp_us :
  pipelineInv p -> pipelineInv (snd (core.updateSensorStatus p sensor timestamp_us)).
Proof.
  intros [H1 [H2 [H3 H4]]].
  destruct (updateSensorStatus_rest p sensor timestamp_us)
    as [_ [_ [_ [_ [Hl Hlen]]]]].
  destruct (updateSensorStatus_snapshot p sensor timestamp_us) as [Ht _].
  unfold pipelineInv. cbv zeta in Hl, Hlen. rewrite Hl, Hlen, Ht. auto.
Qed.

Lemma pipelineInv_feedOdometry fuel p calibration output p' :
  pipelineInv p ->
  core.feedOdometry draw qr_solve fuel p calibration output = Some p' ->
  pipelineInv p'.
Proof.
  intros [H1 [H2 [H3 H4]]] Hf.
  destruct (feedOdometry_rest _ _ _ _ _ Hf) as [_ [_ [Hs [Ht [_ Hl]]]]].
  unfold pipelineInv. rewrite Hs, Ht.
  split; [exact H1 |]. split; [exact H2 |]. split; [exact H3 |].
  destruct Hl as [-> | Hl]; auto.
Qed.

Lemma survivingIndices_length input :
  (length (core.survivingIndices input) <= kTrackCount)%nat.
Proof.
  unfold core.survivingIndices.
  etransitivity; [apply length_filter |]. now rewrite length_seq.
Qed.

Lemma pipelineInv_processTrackFusion p timestamp_us input :
  pipelineInv p -> pipelineInv (fst (core.processTrackFusion p timestamp_us input)).
Proof.
  intros [H1 [H2 [H3 H4]]]. unfold pipelineInv, core.processTrackFusion.
  cbn [fst core.m_sensorStates core.m_tracks core.m_lastOdometry].
  split; [exact H1 |].
  split; [rewrite !length_map; apply survivingIndices_length |].
  split; [| exact H4].
  apply Forall_forall. intros t Ht.
  apply list_elem_of_fmap in Ht as [tr [-> _]]. cbn. lra.
Qed.

Lemma pipelineInv_corner fuel p sensor timestamp_us input output r p' output' :
  pipelineInv p ->
  core.processCornerDetections draw qr_solve fuel p sensor timestamp_us input output
  = Some (r, p', output') ->
  pipelineInv p'.
Proof.
  intros Hinv Hcall.
  destruct (core.m_parameters p) as [parameters |] eqn:Hpar.
  - destruct (processCornerDetections_output _ _ _ _ _ _ _ _ _ _ Hpar Hcall)
      as [_ [Hf _]].
    eapply pipelineInv_feedOdometry; [| exact Hf].
    apply pipelineInv_associateDetections, pipelineInv_updateSensorStatus, Hinv.
  - unfold core.processCornerDetections in Hcall. rewrite Hpar in Hcall.
    now injection Hcall as _ <- _.
Qed.

Lemma pipelineInv_front fuel p timestamp_us input oS oL r p' oS' oL' :
  pipelineInv p ->
  core.processFrontDetections draw qr_solve fuel p timestamp_us input oS oL
  = Some (r, p', oS', oL') ->
  pipelineInv p'.
Proof.
  intros Hinv Hcall.
  destruct (core.m_parameters p) as [parameters |] eqn:Hpar.
  - destruct (processFrontDetections_output _ _ _ _ _ _ _ _ _ _ _ Hpar Hcall)
      as [_ [_ [Hf _]]].
    eapply pipelineInv_feedOdometry; [| exact Hf].
    do 2 apply pipelineInv_associateDetections.
    do 2 apply pipelineInv_updateSensorStatus. exact Hinv.
  - unfold core.processFrontDetections in Hcall. rewrite Hpar in Hcall.
    now injection Hcall as _ <- _ _.
Qed.

Lemma pipelineInv_new settings : pipelineInv (core.Pipeline_new settings).
Proof.
  unfold pipelineInv, core.Pipeline_new. cbn.
  split; [reflexivity |].
  split; [lia |]. split; [constructor | auto].
Qed.

End PipelineOutput.

(* ===================================================================== *)
(** * Detection frames: what the output holds *)
(* ===================================================================== *)

Section DetectionFrames.

Variable draw : nat -> nat -> nat.
Variable qr_solve : list (R * R) -> list R -> R * R.

Lemma rawFields_of_classified settings motion calibration returns offset output i d det :
  classifiedReturns settings motion calibration returns offset output !! i = Some d ->
  sameRawFields d det ->
  rawFieldsAt returns (i + offset) det /\
  det_elevationRaw_m det = det_elevationRaw_m (callerSlot output i).
Proof.
  intros Hd Hsame. apply classifiedReturns_lookup in Hd. subst d.
  unfold sameRawFields in Hsame. cbn in Hsame.
  destruct Hsame as (H1 & H2 & H3 & H4 & H5 & H6 & H7 & H8 & H9 & H10 & H11).
  unfold rawFieldsAt. auto 12.
Qed.

(** X1.  An initialised pipeline, with a generator whose redraw loop
    ends: a corner frame returns, the output carries the header of the
    input and exactly 64 detections, and detection [i] holds the raw
    return [i] of the input (ranges, range rates, azimuths, amplitude,
    offsets, motion status and the five flag arrays packed into one
    byte), whatever classification and association did to it.  The
    elevation field is not written: it is what the caller's vector held
    at [i] after the resize to 64. *)
Theorem X1_corner_output_holds_the_raw_returns
  fuel p parameters sensor timestamp_us input output :
  drawsSeparate draw fuel ->
  core.m_parameters p = Some parameters ->
  exists r p' output',
    core.processCornerDetections draw qr_solve fuel p sensor timestamp_us input output
    = Some (r, p', output') /\
    eds_header output' = corner_header input /\
    length (eds_detections output') = kCornerReturnCount /\
    forall i det,
      eds_detections output' !! i = Some det ->
      rawFieldsAt (corner_returns input) i det /\
      det_elevationRaw_m det = det_elevationRaw_m (callerSlot output i).
Proof.
  intros Hfair Hpar.
  destruct (processCornerDetections_total draw qr_solve fuel p sensor timestamp_us
              input output Hfair) as (r & p' & output' & Hcall).
  exists r, p', output'. split; [exact Hcall |].
  destruct (corner_output_rel draw qr_solve sameRawFields _ _ _ _ _ _ _ _ _ _
              sameRawFields_refl
              (fun boxes tracks det _ =>
                 associateDetection_raw _ _ _ boxes tracks det)
              Hpar Hcall) as [Hh Hd].
  split; [exact Hh |].
  split.
  - rewrite <- (Forall2_length _ _ _ Hd). apply classifiedReturns_length.
  - intros i det Hi.
    destruct (Forall2_lookup_r _ _ _ _ _ Hd Hi) as (d & Hdi & Hsame).
    destruct (rawFields_of_classified _ _ _ _ _ _ _ _ _ Hdi Hsame) as [H1 H2].
    rewrite Nat.add_0_r in H1. auto.
Qed.

(** X2.  The same for a front frame: both outputs carry the header of
    the input and 64 detections each; detection [i] of the short output
    holds raw return [i], detection [i] of the long output holds raw
    return [i + 64]. *)
Theorem X2_front_outputs_split_the_raw_returns
  fuel p parameters timestamp_us input outputShort outputLong :
  drawsSeparate draw fuel ->
  core.m_parameters p = Some parameters ->
  exists r p' outputShort' outputLong',
    core.processFrontDetections draw qr_solve fuel p timestamp_us input
      outputShort outputLong = Some (r, p', outputShort', outputLong') /\
    eds_header outputShort' = front_header input /\
    eds_header outputLong' = front_header input /\
    length (eds_detections outputShort') = kCornerReturnCount /\
    length (eds_detections outputLong') = kCornerReturnCount /\
    (forall i det,
        eds_detections outputShort' !! i = Some det ->
        rawFieldsAt (front_returns input) i det /\
        det_elevationRaw_m det = det_elevationRaw_m (callerSlot outputShort i)) /\
    (forall i det,
        eds_detections outputLong' !! i = Some det ->
        rawFieldsAt (front_returns input) (i + kCornerReturnCount) det /\
        det_elevationRaw_m det = det_elevationRaw_m (callerSlot outputLong i)).
Proof.
  intros Hfair Hpar.
  destruct (processFrontDetections_total draw qr_solve fuel p timestamp_us
              input outputShort outputLong Hfair) as (r & p' & oS' & oL' & Hcall).
  exists r, p', oS', oL'. split; [exact Hcall |].
  destruct (front_output_rel draw qr_solve sameRawFields _ _ _ _ _ _ _ _ _ _ _
              sameRawFields_refl
              (fun sensor boxes tracks det _ =>
                 associateDetection_raw _ _ _ boxes tracks det)
              Hpar Hcall) as (HhS & HhL & HdS & HdL).
  split; [exact HhS |]. split; [exact HhL |].
  split; [rewrite <- (Forall2_length _ _ _ HdS); apply classifiedReturns_length |].
  split; [rewrite <- (Forall2_length _ _ _ HdL); apply classifiedReturns_length |].
  split.
  - intros i det Hi.
    destruct (Forall2_lookup_r _ _ _ _ _ HdS Hi) as (d & Hdi & Hsame).
    destruct (rawFields_of_classified _ _ _ _ _ _ _ _ _ Hdi Hsame) as [H1 H2].
    rewrite Nat.add_0_r in H1. auto.
  - intros i det Hi.
    destruct (Forall2_lookup_r _ _ _ _ _ HdL Hi) as (d & Hdi & Hsame).
    exact (rawFields_of_classified _ _ _ _ _ _ _ _ _ Hdi Hsame).
Qed.

(** X3.  Every detection that a corner or a front frame emits on an
    initialised pipeline is classified consistently: [isStationary] and
    [isMoveable] are 0 or 1, [isStatic] is 1 exactly when the detection
    is stationary and not moveable, and [stationaryProbability] lies in
    [0, 1]; this holds whether or not the detection was associated with
    a track. *)
Theorem X3_emitted_detections_are_classified_consistently fuel p parameters :
  drawsSeparate draw fuel ->
  core.m_parameters p = Some parameters ->
  (forall sensor timestamp_us input output,
      exists r p' output',
        core.processCornerDetections draw qr_solve fuel p sensor timestamp_us
          input output = Some (r, p', output') /\
        Forall classificationConsistent (eds_detections output')) /\
  (forall timestamp_us input outputShort outputLong,
      exists r p' outputShort' outputLong',
        core.processFrontDetections draw qr_solve fuel p timestamp_us input
          outputShort outputLong = Some (r, p', outputShort', outputLong') /\
        Forall classificationConsistent (eds_detections outputShort') /\
        Forall classificationConsistent (eds_detections outputLong')).
Proof.
  intros Hfair Hpar. split.
  - intros sensor timestamp_us input output.
    destruct (processCornerDetections_total draw qr_solve fuel p sensor timestamp_us
                input output Hfair) as (r & p' & output' & Hcall).
    exists r, p', output'. split; [exact Hcall |].
    destruct (corner_output_rel draw qr_solve
                (fun d d' => classificationConsistent d -> classificationConsistent d')
                _ _ _ _ _ _ _ _ _ _
                (fun d H => H)
                (fun boxes tracks det _ =>
                   associateDetection_consistent _ _ _ boxes tracks det)
                Hpar Hcall) as [_ Hd].
    apply (Forall2_carry _ _ _ Hd).
    apply classifiedReturns_Forall, classifyDetection_consistent.
  - intros timestamp_us input oS oL.
    destruct (processFrontDetections_total draw qr_solve fuel p timestamp_us
                input oS oL Hfair) as (r & p' & oS' & oL' & Hcall).
    exists r, p', oS', oL'. split; [exact Hcall |].
    destruct (front_output_rel draw qr_solve
                (fun d d' => classificationConsistent d -> classificationConsistent d')
                _ _ _ _ _ _ _ _ _ _ _
                (fun d H => H)
                (fun sensor boxes tracks det _ =>
                   associateDetection_consistent _ _ _ boxes tracks det)
                Hpar Hcall) as (_ & _ & HdS & HdL).
    split.
    + apply (Forall2_carry _ _ _ HdS).
      apply classifiedReturns_Forall, classifyDetection_consistent.
    + apply (Forall2_carry _ _ _ HdL).
      apply classifiedReturns_Forall, classifyDetection_consistent.
Qed.

Lemma pipelineReachable_inv p : pipelineReachable draw qr_solve p -> pipelineInv p.
Proof.
  induction 1 as [settings | p parameters _ IH | p state _ IH
                 | p timestamp_us input _ IH
                 | p fuel sensor timestamp_us input output r p' output' _ IH Hcall
                 | p fuel timestamp_us input oS oL r p' oS' oL' _ IH Hcall].
  - apply pipelineInv_new.
  - exact IH.
  - exact IH.
  - now apply pipelineInv_processTrackFusion.
  - eapply pipelineInv_corner; eassumption.
  - eapply pipelineInv_front; eassumption.
Qed.

Lemma processCornerDetections_tracks_length fuel p sensor timestamp_us input output
  r p' output' :
  core.processCornerDetections draw qr_solve fuel p sensor timestamp_us input output
  = Some (r, p', output') ->
  length (core.m_tracks p') = length (core.m_tracks p).
Proof.
  intros Hcall.
  destruct (processCornerDetections_snapshot draw qr_solve fuel p sensor timestamp_us
              input output r p' output' Hcall) as [H _].
  apply (f_equal (@length _)) in H. now rewrite !length_map in H.
Qed.

Lemma processFrontDetections_tracks_length fuel p timestamp_us input oS oL
  r p' oS' oL' :
  core.processFrontDetections draw qr_solve fuel p timestamp_us input oS oL
  = Some (r, p', oS', oL') ->
  length (core.m_tracks p') = length (core.m_tracks p).
Proof.
  intros Hcall.
  destruct (processFrontDetections_snapshot draw qr_solve fuel p timestamp_us
              input oS oL r p' oS' oL' Hcall) as [H _].
  apply (f_equal (@length _)) in H. now rewrite !length_map in H.
Qed.

(** X4.  On a pipeline that the public methods have produced and that
    is initialised: every detection that a corner or a front frame
    emits has a fused track index that is [-1] or the index of a track
    of the cached snapshot, whose size the frame does not change; a
    detection with neither the [Valid] nor the [SuperResolution] flag
    has index [-1].  (The snapshot holds at most 96 tracks, so the cast
    of the index to [int8_t] does not wrap.) *)
Theorem X4_fused_track_index_points_into_the_snapshot fuel p parameters :
  drawsSeparate draw fuel ->
  pipelineReachable draw qr_solve p ->
  core.m_parameters p = Some parameters ->
  (forall sensor timestamp_us input output,
      exists r p' output',
        core.processCornerDetections draw qr_solve fuel p sensor timestamp_us
          input output = Some (r, p', output') /\
        length (core.m_tracks p') = length (core.m_tracks p) /\
        Forall (fusedIndexOk (length (core.m_tracks p'))) (eds_detections output')) /\
  (forall timestamp_us input outputShort outputLong,
      exists r p' outputShort' outputLong',
        core.processFrontDetections draw qr_solve fuel p timestamp_us input
          outputShort outputLong = Some (r, p', outputShort', outputLong') /\
        length (core.m_tracks p') = length (core.m_tracks p) /\
        Forall (fusedIndexOk (length (core.m_tracks p'))) (eds_detections outputShort') /\
        Forall (fusedIndexOk (length (core.m_tracks p'))) (eds_detections outputLong')).
Proof.
  intros Hfair Hreach Hpar.
  destruct (pipelineReachable_inv p Hreach) as [_ [Hn _]].
  set (n := length (core.m_tracks p)) in *.
  assert (Hstep : forall sensor boxes tracks det,
             length boxes = n ->
             fusedIndexOk n det ->
             fusedIndexOk n
               (snd (core.associateDetection (core.m_settings p)
                       (core.m_motionState p) (cal_at parameters sensor)
                       boxes tracks det))).
  { intros sensor boxes tracks det Hb. rewrite <- Hb.
    apply associateDetection_fusedIndex. now rewrite Hb. }
  split.
  - intros sensor timestamp_us input output.
    destruct (processCornerDetections_total draw qr_solve fuel p sensor timestamp_us
                input output Hfair) as (r & p' & output' & Hcall).
    exists r, p', output'. split; [exact Hcall |].
    pose proof (processCornerDetections_tracks_length _ _ _ _ _ _ _ _ _ Hcall) as Hlen.
    split; [exact Hlen |]. rewrite Hlen. fold n.
    destruct (corner_output_rel draw qr_solve
                (fun d d' => fusedIndexOk n d -> fusedIndexOk n d')
                _ _ _ _ _ _ _ _ _ _
                (fun d H => H) (Hstep sensor) Hpar Hcall) as [_ Hd].
    apply (Forall2_carry _ _ _ Hd).
    apply classifiedReturns_Forall, classifyDetection_fusedIndex.
  - intros timestamp_us input oS oL.
    destruct (processFrontDetections_total draw qr_solve fuel p timestamp_us
                input oS oL Hfair) as (r & p' & oS' & oL' & Hcall).
    exists r, p', oS', oL'. split; [exact Hcall |].
    pose proof (processFrontDetections_tracks_length _ _ _ _ _ _ _ _ _ _ Hcall)
      as Hlen.
    split; [exact Hlen |]. rewrite Hlen. fold n.
    destruct (front_output_rel draw qr_solve
                (fun d d' => fusedIndexOk n d -> fusedIndexOk n d')
                _ _ _ _ _ _ _ _ _ _ _
                (fun d H => H) Hstep Hpar Hcall) as (_ & _ & HdS & HdL).
    split.
    + apply (Forall2_carry _ _ _ HdS).
      apply classifiedReturns_Forall, classifyDetection_fusedIndex.
    + apply (Forall2_carry _ _ _ HdL).
      apply classifiedReturns_Forall, classifyDetection_fusedIndex.
Qed.

(** X5.  What every pipeline that the public methods have produced
    satisfies, whatever the inputs were: the liveness array has its six
    entries, the cached snapshot holds at most 96 tracks, every vote
    accumulator lies in [-100, 100], and the stored odometry estimate
    is either the value-initialised one or a valid one, so that
    [latestOdometry] never hands out an invalid estimate that a frame
    has written. *)
Theorem X5_reachable_pipeline_invariants p :
  pipelineReachable draw qr_solve p ->
  length (core.m_sensorStates p) = SensorIndex_Count /\
  (length (core.m_tracks p) <= kTrackCount)%nat /\
  Forall (fun t => -100 <= core.ts_movingVotes t <= 100) (core.m_tracks p) /\
  (fst (core.latestOdometry p) = false ->
   snd (core.latestOdometry p) = OdometryEstimate_default).
Proof.
  intros Hreach.
  assert (Hinv : pipelineInv p).
  { induction Hreach as [settings | p parameters _ IH | p state _ IH
                        | p timestamp_us input _ IH
                        | p fuel sensor timestamp_us input output r p' output' _ IH Hcall
                        | p fuel timestamp_us input oS oL r p' oS' oL' _ IH Hcall].
    - apply pipelineInv_new.
    - exact IH.
    - exact IH.
    - now apply pipelineInv_processTrackFusion.
    - eapply pipelineInv_corner; eassumption.
    - eapply pipelineInv_front; eassumption. }
  destruct Hinv as (H1 & H2 & H3 & H4).
  split; [exact H1 |]. split; [exact H2 |]. split; [exact H3 |].
  unfold core.latestOdometry. cbn [fst snd]. intros Hv.
  destruct H4 as [H4 | H4]; [exact H4 | congruence].
Qed.

Lemma feedOdometry_external fuel p calibration output :
  core.m_hasExternalMotionState p = true ->
  core.feedOdometry draw qr_solve fuel p calibration output = Some p.
Proof. intros H. unfold core.feedOdometry. now rewrite H. Qed.

(** X6.  Once [updateVehicleState] has supplied a motion state, a
    detection frame on an initialised pipeline does not run the radar
    odometry: for any bound on the redraw loop the call returns, the
    motion state, the estimator and the stored estimate are those of
    before the call, and the returned flag is the liveness of the frame
    together with the validity of the estimate stored before the
    call. *)
Theorem X6_external_motion_state_bypasses_odometry fuel p parameters :
  core.m_parameters p = Some parameters ->
  core.m_hasExternalMotionState p = true ->
  (forall sensor timestamp_us input output,
      exists p' output',
        core.processCornerDetections draw qr_solve fuel p sensor timestamp_us
          input output
        = Some (fst (core.updateSensorStatus p sensor
                       (hdr_timestamp_us (corner_header input)))
                && oe_valid (core.m_lastOdometry p), p', output') /\
        core.m_motionState p' = core.m_motionState p /\
        core.m_odometry p' = core.m_odometry p /\
        core.m_lastOdometry p' = core.m_lastOdometry p) /\
  (forall timestamp_us input outputShort outputLong,
      exists p' outputShort' outputLong',
        core.processFrontDetections draw qr_solve fuel p timestamp_us input
          outputShort outputLong
        = Some (fst (core.updateSensorStatus p FrontShort
                       (hdr_timestamp_us (front_header input)))
                && fst (core.updateSensorStatus
                          (snd (core.updateSensorStatus p FrontShort
                                  (hdr_timestamp_us (front_header input))))
                          FrontLong (hdr_timestamp_us (front_header input)))
                && oe_valid (core.m_lastOdometry p),
                p', outputShort', outputLong') /\
        core.m_motionState p' = core.m_motionState p /\
        core.m_odometry p' = core.m_odometry p /\
        core.m_lastOdometry p' = core.m_lastOdometry p).
Proof.
  intros Hpar Hext. split.
  - intros sensor timestamp_us input output.
    unfold core.processCornerDetections. rewrite Hpar.
    destruct (updateSensorStatus_rest p sensor
                (hdr_timestamp_us (corner_header input)))
      as (_ & _ & Hm & Ho & Hl & _).
    destruct (updateSensorStatus_snapshot p sensor
                (hdr_timestamp_us (corner_header input))) as (_ & _ & He).
    destruct (core.updateSensorStatus p sensor _) as [updateValid p1].
    cbn [fst snd] in *.
    match goal with
    | |- context [core.associateDetections p1 ?q ?s ?o ?d] =>
        pose proof (associateDetections_rest p1 q s o d) as Hrest;
        destruct (core.associateDetections p1 q s o d) as [p2 out3]
    end.
    cbn [fst] in Hrest. unfold pipelineRest in Hrest.
    injection Hrest as _ _ _ _ Hm2 He2 Ho2 Hl2.
    rewrite feedOdometry_external by congruence.
    exists p2, out3. split.
    + f_equal. f_equal. f_equal. rewrite Hl2, Hl. now destruct updateValid.
    + split; [congruence |]. split; congruence.
  - intros timestamp_us input oS oL.
    unfold core.processFrontDetections. rewrite Hpar.
    destruct (updateSensorStatus_rest p FrontShort
                (hdr_timestamp_us (front_header input)))
      as (_ & _ & Hm & Ho & Hl & _).
    destruct (updateSensorStatus_snapshot p FrontShort
                (hdr_timestamp_us (front_header input))) as (_ & _ & He).
    destruct (core.updateSensorStatus p FrontShort _) as [updateShort p1].
    cbn [fst snd] in *.
    destruct (updateSensorStatus_rest p1 FrontLong
                (hdr_timestamp_us (front_header input)))
      as (_ & _ & Hm1 & Ho1 & Hl1 & _).
    destruct (updateSensorStatus_snapshot p1 FrontLong
                (hdr_timestamp_us (front_header input))) as (_ & _ & He1).
    destruct (core.updateSensorStatus p1 FrontLong _) as [updateLong p2].
    cbn [fst snd] in *.
    destruct (core.mapFrontDetections input oS oL) as [short1 long1].
    match goal with
    | |- context [core.associateDetections p2 ?q ?s ?o ?d] =>
        pose proof (associateDetections_rest p2 q s o d) as Hrest;
        destruct (core.associateDetections p2 q s o d) as [p3 short3]
    end.
    cbn [fst] in Hrest. unfold pipelineRest in Hrest.
    injection Hrest as _ _ _ _ Hm3 He3 Ho3 Hl3.
    match goal with
    | |- context [core.associateDetections p3 ?q ?s ?o ?d] =>
        pose proof (associateDetections_rest p3 q s o d) as Hrest;
        destruct (core.associateDetections p3 q s o d) as [p4 long3]
    end.
    cbn [fst] in Hrest. unfold pipelineRest in Hrest.
    injection Hrest as _ _ _ _ Hm4 He4 Ho4 Hl4.
    rewrite feedOdometry_external by congruence.
    exists p4, short3, long3. split.
    + f_equal. f_equal. f_equal. f_equal.
      rewrite Hl4, Hl3, Hl1, Hl. now destruct (updateShort && updateLong).
    + split; [congruence |]. split; congruence.
Qed.

(** X7.  With an empty track snapshot (no track frame yet, or a track
    frame whose entries were all invalid) a corner frame on an
    initialised pipeline associates nothing: the emitted detections are
    exactly the classified returns, each with fused track index [-1],
    [isMoveable = 0] and [isStatic = isStationary], and the snapshot
    stays empty. *)
Theorem X7_empty_snapshot_associates_nothing
  fuel p parameters sensor timestamp_us input output :
  drawsSeparate draw fuel ->
  core.m_parameters p = Some parameters ->
  core.m_tracks p = [] ->
  exists r p' output',
    core.processCornerDetections draw qr_solve fuel p sensor timestamp_us input output
    = Some (r, p', output') /\
    eds_detections output'
    = classifiedReturns (core.m_settings p) (core.m_motionState p)
        (cal_at parameters sensor) (corner_returns input) 0 output /\
    Forall (fun det => det_fusedTrackIndex det = (-1)%Z /\
                       det_isMoveable det = 0%Z /\
                       det_isStatic det = det_isStationary det)
      (eds_detections output') /\
    core.m_tracks p' = [].
Proof.
  intros Hfair Hpar Hempty.
  destruct (processCornerDetections_total draw qr_solve fuel p sensor timestamp_us
              input output Hfair) as (r & p' & output' & Hcall).
  exists r, p', output'. split; [exact Hcall |].
  pose proof (processCornerDetections_tracks_length _ _ _ _ _ _ _ _ _ Hcall) as Hlen.
  assert (Hstep : forall boxes tracks det,
             length boxes = length (core.m_tracks p) ->
             det = snd (core.associateDetection (core.m_settings p)
                          (core.m_motionState p) (cal_at parameters sensor)
                          boxes tracks det)).
  { intros boxes tracks det Hb.
    rewrite Hempty in Hb. destruct boxes; [| discriminate].
    unfold core.associateDetection.
    destruct (_ =? _)%Z; reflexivity. }
  destruct (corner_output_rel draw qr_solve eq _ _ _ _ _ _ _ _ _ _
              (fun d => eq_refl) Hstep Hpar Hcall) as [_ Hd].
  apply list_eq_Forall2 in Hd. rewrite <- Hd.
  split; [reflexivity |].
  split; [| rewrite Hempty in Hlen; now destruct (core.m_tracks p')].
  apply classifiedReturns_Forall. intros d. cbn. auto.
Qed.

Lemma updateSensorStatus_frame p sensor timestamp_us :
  length (core.m_sensorStates p) = SensorIndex_Count ->
  let old := sensorState p sensor in
  let live := fst (core.updateSensorStatus p sensor timestamp_us) in
  let p1 := snd (core.updateSensorStatus p sensor timestamp_us) in
  (forall other, other <> sensor -> sensorState p1 other = sensorState p other) /\
  core.sus_initialized (sensorState p1 sensor) = true /\
  (core.sus_initialized old = true ->
   core.sus_timestamp_us (sensorState p1 sensor)
   = Z.max (core.sus_timestamp_us old) timestamp_us) /\
  (live = true ->
   core.sus_timestamp_us (sensorState p1 sensor) = timestamp_us /\
   core.sus_numConsecutiveInvalid (sensorState p1 sensor) = 0%Z).
Proof.
  intros Hlen old live p1. subst live p1. unfold core.updateSensorStatus.
  fold (sensorState p sensor). fold old.
  destruct (core.sus_initialized old) eqn:Ei; cbn [negb].
  - destruct (core.sus_timestamp_us old <? timestamp_us)%Z eqn:Et; cbn [fst snd].
    + apply Z.ltb_lt in Et.
      split; [intros other Hne; now apply sensorState_insert_ne |].
      rewrite sensorState_insert by assumption. cbn.
      split; [reflexivity |]. split; [intros _; lia | auto].
    + apply Z.ltb_ge in Et.
      split; [intros other Hne; now apply sensorState_insert_ne |].
      rewrite sensorState_insert by assumption. cbn.
      split; [reflexivity |]. split; [intros _; lia | discriminate].
  - cbn [fst snd].
    split; [intros other Hne; now apply sensorState_insert_ne |].
    rewrite sensorState_insert by assumption. cbn.
    split; [reflexivity |]. split; [discriminate | auto].
Qed.

(** X8.  A corner frame on an initialised pipeline touches the liveness
    record of its own sensor only.  That record is initialised after
    the call; if it was initialised before, the stored timestamp is the
    later of the stored one and the header's, so it never goes back.  A
    [true] return means that the frame was live (the header timestamp
    is stored and the invalid counter is 0) and that the stored
    odometry estimate is valid. *)
Theorem X8_corner_frame_updates_only_its_sensor_record
  fuel p parameters sensor timestamp_us input output :
  drawsSeparate draw fuel ->
  core.m_parameters p = Some parameters ->
  length (core.m_sensorStates p) = SensorIndex_Count ->
  exists r p' output',
    core.processCornerDetections draw qr_solve fuel p sensor timestamp_us input output
    = Some (r, p', output') /\
    (forall other, other <> sensor -> sensorState p' other = sensorState p other) /\
    core.sus_initialized (sensorState p' sensor) = true /\
    (core.sus_initialized (sensorState p sensor) = true ->
     core.sus_timestamp_us (sensorState p' sensor)
     = Z.max (core.sus_timestamp_us (sensorState p sensor))
         (hdr_timestamp_us (corner_header input))) /\
    (r = true ->
     core.sus_timestamp_us (sensorState p' sensor)
     = hdr_timestamp_us (corner_header input) /\
     core.sus_numConsecutiveInvalid (sensorState p' sensor) = 0%Z /\
     fst (core.latestOdometry p') = true).
Proof.
  intros Hfair Hpar Hlen.
  destruct (processCornerDetections_total draw qr_solve fuel p sensor timestamp_us
              input output Hfair) as (r & p' & output' & Hcall).
  exists r, p', output'. split; [exact Hcall |].
  destruct (processCornerDetections_output draw qr_solve _ _ _ _ _ _ _ _ _ _
              Hpar Hcall) as (_ & Hf & Hr).
  destruct (feedOdometry_rest draw qr_solve _ _ _ _ _ Hf) as (_ & _ & Hs & _).
  match type of Hf with
  | core.feedOdometry _ _ _ (fst (core.associateDetections ?p1 ?q ?s ?o ?d)) _ _ = _ =>
      pose proof (associateDetections_rest p1 q s o d) as Hrest
  end.
  unfold pipelineRest in Hrest. injection Hrest as _ _ Hs2 _ _ _ _ _.
  assert (Hstate : forall s, sensorState p' s
                   = sensorState (snd (core.updateSensorStatus p sensor
                                         (hdr_timestamp_us (corner_header input)))) s).
  { intros s. unfold sensorState. now rewrite Hs, Hs2. }
  destruct (updateSensorStatus_frame p sensor
              (hdr_timestamp_us (corner_header input)) Hlen)
    as (Hother & Hinit & Hmax & Hlive).
  rewrite !Hstate.
  split; [intros other Hne; rewrite Hstate; now apply Hother |].
  split; [exact Hinit |]. split; [exact Hmax |].
  intros Hrt. subst r.
  destruct (fst (core.updateSensorStatus p sensor _)); [| discriminate].
  destruct (Hlive eq_refl) as [H1 H2]. auto.
Qed.

Lemma filter_none {A : Type} (P : A -> Prop) `{forall x, Decision (P x)} (l : list A) :
  Forall (fun x => ~ P x) l -> filter P l = [].
Proof.
  induction 1 as [| x l Hx _ IH]; [reflexivity |].
  rewrite filter_cons. destruct (decide (P x)); [contradiction | exact IH].
Qed.

(** X9.  A track frame emits only entries whose status is not
    [Invalid], at most 96 of them, stamped with the timestamp of the
    call; the cached snapshot has one state per emitted track and the
    same timestamp.  Nothing is emitted exactly when all 96 status
    entries are [Invalid]. *)
Theorem X9_track_frame_emits_the_entries_that_are_not_invalid p timestamp_us input :
  let p' := fst (core.processTrackFusion p timestamp_us input) in
  let output := snd (core.processTrackFusion p timestamp_us input) in
  ets_timestamp_us output = timestamp_us /\
  core.m_tracksTimestamp_us p' = timestamp_us /\
  (length (ets_tracks output) <= kTrackCount)%nat /\
  length (core.m_tracks p') = length (ets_tracks output) /\
  Forall (fun t => et_status t <> TrackStatus_Invalid) (ets_tracks output) /\
  (ets_tracks output = [] <->
   forall i, (i < kTrackCount)%nat -> atZ (rtf_status input) i = TrackStatus_Invalid).
Proof.
  cbv zeta. unfold core.processTrackFusion. cbn [fst snd ets_timestamp_us ets_tracks
    core.m_tracksTimestamp_us core.m_tracks].
  split; [reflexivity |]. split; [reflexivity |].
  split; [rewrite length_map; apply survivingIndices_length |].
  split; [now rewrite !length_map |].
  split.
  - apply Forall_fmap, Forall_forall. intros i Hi. cbn.
    unfold core.survivingIndices in Hi.
    apply list_elem_of_filter in Hi as [Hi _]. exact Hi.
  - unfold core.survivingIndices. split.
    + intros Hnil i Hi.
      apply fmap_nil_inv in Hnil.
      destruct (decide (atZ (rtf_status input) i = TrackStatus_Invalid))
        as [E | E]; [exact E | exfalso].
      assert (Hin : i ∈ filter (fun i => atZ (rtf_status input) i
                                         <> TrackStatus_Invalid)
                        (seq 0 kTrackCount)).
      { apply list_elem_of_filter. split; [exact E |].
        apply elem_of_seq. lia. }
      rewrite Hnil in Hin. now apply not_elem_of_nil in Hin.
    + intros Hall.
      rewrite filter_none; [reflexivity |].
      apply Forall_forall. intros i Hi.
      apply elem_of_seq in Hi. intros Hne. apply Hne, Hall. lia.
Qed.

End DetectionFrames.

(** ** Instances on the example pipeline *)

Lemma tracked_parameters :
  core.m_parameters pipelineExample.tracked = Some pipelineExample.parameters.
Proof. reflexivity. Qed.

Lemma tracked_reachable :
  pipelineReachable example.draw_cycle example.lstsq pipelineExample.tracked.
Proof.
  unfold pipelineExample.tracked.
  apply pr_processTrackFusion, pr_updateVehicleState, pr_initialize, pr_new.
Qed.

Lemma X1_corner_output_witness :
  drawsSeparate example.draw_cycle 1 /\
  core.m_parameters pipelineExample.tracked = Some pipelineExample.parameters /\
  exists r p' output',
    core.processCornerDetections example.draw_cycle example.lstsq 1
      pipelineExample.tracked FrontLeft 1000 pipelineExample.cornerFrame
      EnhancedDetections_default = Some (r, p', output') /\
    eds_header output' = corner_header pipelineExample.cornerFrame /\
    length (eds_detections output') = kCornerReturnCount.
Proof.
  split; [apply draw_cycle_separate |]. split; [apply tracked_parameters |].
  destruct (X1_corner_output_holds_the_raw_returns example.draw_cycle example.lstsq 1
              pipelineExample.tracked pipelineExample.parameters FrontLeft 1000
              pipelineExample.cornerFrame EnhancedDetections_default
              draw_cycle_separate tracked_parameters)
    as (r & p' & output' & Hcall & Hh & Hlen & _).
  exists r, p', output'. auto.
Defined.

Lemma X2_front_outputs_witness :
  drawsSeparate example.draw_cycle 1 /\
  core.m_parameters pipelineExample.tracked = Some pipelineExample.parameters /\
  exists r p' outputShort' outputLong',
    core.processFrontDetections example.draw_cycle example.lstsq 1
      pipelineExample.tracked 1000 example.RawFrontDetections_zero
      EnhancedDetections_default EnhancedDetections_default
    = Some (r, p', outputShort', outputLong') /\
    length (eds_detections outputShort') = kCornerReturnCount /\
    length (eds_detections outputLong') = kCornerReturnCount.
Proof.
  split; [apply draw_cycle_separate |]. split; [apply tracked_parameters |].
  destruct (X2_front_outputs_split_the_raw_returns example.draw_cycle example.lstsq 1
              pipelineExample.tracked pipelineExample.parameters 1000
              example.RawFrontDetections_zero
              EnhancedDetections_default EnhancedDetections_default
              draw_cycle_separate tracked_parameters)
    as (r & p' & oS' & oL' & Hcall & _ & _ & HlS & HlL & _).
  exists r, p', oS', oL'. auto.
Defined.

Lemma X3_classification_witness :
  drawsSeparate example.draw_cycle 1 /\
  core.m_parameters pipelineExample.tracked = Some pipelineExample.parameters /\
  exists r p' output',
    core.processCornerDetections example.draw_cycle example.lstsq 1
      pipelineExample.tracked FrontLeft 1000 pipelineExample.cornerFrame
      EnhancedDetections_default = Some (r, p', output') /\
    Forall classificationConsistent (eds_detections output').
Proof.
  split; [apply draw_cycle_separate |]. split; [apply tracked_parameters |].
  apply (proj1 (X3_emitted_detections_are_classified_consistently
                  example.draw_cycle example.lstsq 1 pipelineExample.tracked
                  pipelineExample.parameters draw_cycle_separate tracked_parameters)).
Defined.

Lemma X4_fused_index_witness :
  drawsSeparate example.draw_cycle 1 /\
  pipelineReachable example.draw_cycle example.lstsq pipelineExample.tracked /\
  core.m_parameters pipelineExample.tracked = Some pipelineExample.parameters /\
  exists r p' output',
    core.processCornerDetections example.draw_cycle example.lstsq 1
      pipelineExample.tracked FrontLeft 1000 pipelineExample.cornerFrame
      EnhancedDetections_default = Some (r, p', output') /\
    length (core.m_tracks p') = length (core.m_tracks pipelineExample.tracked) /\
    Forall (fusedIndexOk (length (core.m_tracks p'))) (eds_detections output').
Proof.
  split; [apply draw_cycle_separate |]. split; [apply tracked_reachable |].
  split; [apply tracked_parameters |].
  apply (proj1 (X4_fused_track_index_points_into_the_snapshot
                  example.draw_cycle example.lstsq 1 pipelineExample.tracked
                  pipelineExample.parameters draw_cycle_separate tracked_reachable
                  tracked_parameters)).
Defined.

Lemma X5_invariants_witness :
  pipelineReachable example.draw_cycle example.lstsq pipelineExample.tracked /\
  (length (core.m_tracks pipelineExample.tracked) <= kTrackCount)%nat.
Proof.
  split; [apply tracked_reachable |].
  apply (X5_reachable_pipeline_invariants example.draw_cycle example.lstsq
           pipelineExample.tracked tracked_reachable).
Defined.

Lemma X6_external_motion_state_witness :
  core.m_parameters pipelineExample.tracked = Some pipelineExample.parameters /\
  core.m_hasExternalMotionState pipelineExample.tracked = true /\
  exists p' output',
    core.processCornerDetections example.draw_cycle example.lstsq 0
      pipelineExample.tracked FrontLeft 1000 pipelineExample.cornerFrame
      EnhancedDetections_default
    = Some (fst (core.updateSensorStatus pipelineExample.tracked FrontLeft
                   (hdr_timestamp_us (corner_header pipelineExample.cornerFrame)))
            && oe_valid (core.m_lastOdometry pipelineExample.tracked), p', output') /\
    core.m_motionState p' = core.m_motionState pipelineExample.tracked.
Proof.
  split; [apply tracked_parameters |]. split; [reflexivity |].
  destruct (proj1 (X6_external_motion_state_bypasses_odometry
                     example.draw_cycle example.lstsq 0 pipelineExample.tracked
                     pipelineExample.parameters tracked_parameters eq_refl)
              FrontLeft 1000%Z pipelineExample.cornerFrame EnhancedDetections_default)
    as (p' & output' & Hcall & Hm & _).
  exists p', output'. auto.
Defined.

Lemma X7_empty_snapshot_witness :
  drawsSeparate example.draw_cycle 1 /\
  core.m_parameters (core.initialize example.pipeline0 (Some pipelineExample.parameters))
  = Some pipelineExample.parameters /\
  core.m_tracks (core.initialize example.pipeline0 (Some pipelineExample.parameters))
  = [] /\
  exists r p' output',
    core.processCornerDetections example.draw_cycle example.lstsq 1
      (core.initialize example.pipeline0 (Some pipelineExample.parameters))
      FrontLeft 1000 pipelineExample.cornerFrame EnhancedDetections_default
    = Some (r, p', output') /\
    core.m_tracks p' = [].
Proof.
  split; [apply draw_cycle_separate |]. split; [reflexivity |].
  split; [reflexivity |].
  destruct (X7_empty_snapshot_associates_nothing example.draw_cycle example.lstsq 1
              (core.initialize example.pipeline0 (Some pipelineExample.parameters))
              pipelineExample.parameters FrontLeft 1000 pipelineExample.cornerFrame
              EnhancedDetections_default draw_cycle_separate eq_refl eq_refl)
    as (r & p' & output' & Hcall & _ & _ & Ht).
  exists r, p', output'. auto.
Defined.

Lemma X8_sensor_record_witness :
  drawsSeparate example.draw_cycle 1 /\
  core.m_parameters pipelineExample.tracked = Some pipelineExample.parameters /\
  length (core.m_sensorStates pipelineExample.tracked) = SensorIndex_Count /\
  exists r p' output',
    core.processCornerDetections example.draw_cycle example.lstsq 1
      pipelineExample.tracked FrontLeft 1000 pipelineExample.cornerFrame
      EnhancedDetections_default = Some (r, p', output') /\
    core.sus_initialized (sensorState p' FrontLeft) = true.
Proof.
  split; [apply draw_cycle_separate |]. split; [apply tracked_parameters |].
  split; [reflexivity |].
  destruct (X8_corner_frame_updates_only_its_sensor_record
              example.draw_cycle example.lstsq 1
              pipelineExample.tracked pipelineExample.parameters FrontLeft 1000
              pipelineExample.cornerFrame EnhancedDetections_default
              draw_cycle_separate tracked_parameters eq_refl)
    as (r & p' & output' & Hcall & _ & Hi & _).
  exists r, p', output'. auto.
Defined.

(* ===================================================================== *)
(** * Further properties of the odometry estimator *)
(* ===================================================================== *)

Section OdometryMore.

Variable draw : nat -> nat -> nat.
Variable qr_solve : list (R * R) -> list R -> R * R.

Lemma collectSamples_length calibration dets :
  length (core.collectSamples calibration dets) = length (usableDetections dets).
Proof.
  unfold core.collectSamples, usableDetections.
  induction dets as [| det rest IH]; [reflexivity |].
  cbn [flat_map]. rewrite filter_cons, length_app, IH.
  destruct (Z.eqb_spec (Z.land (det_flags det) core.validMask) 0) as [E | E].
  - destruct (decide _) as [H | H]; [contradiction | reflexivity].
  - destruct (decide _) as [H | H]; [reflexivity | contradiction].
Qed.

(** X10.  A batch in which fewer than two detections carry one of the
    flags [Valid] and [SuperResolution] (an empty batch in particular):
    [processDetections] returns [false] without drawing from the
    generator, whatever the bound on the redraw loop, and leaves the
    estimator, its last estimate included, as it was. *)
Theorem X10_fewer_than_two_usable_detections fuel e calibration detections :
  (length (usableDetections (eds_detections detections)) < 2)%nat ->
  core.processDetections draw qr_solve fuel e calibration detections = Some (false, e).
Proof.
  intros Hlt. unfold core.processDetections.
  rewrite collectSamples_length.
  apply Nat.ltb_lt in Hlt. now rewrite Hlt.
Qed.

(** Two noise-free samples that [solvePair] solves give back the
    velocity. *)
Lemma solvePair_noiseFree a b vLon vLat x y :
  core.rangeRate a = core.predictedRangeRate a vLon vLat ->
  core.rangeRate b = core.predictedRangeRate b vLon vLat ->
  core.solvePair a b = Some (x, y) ->
  x = vLon /\ y = vLat.
Proof.
  unfold core.solvePair, core.predictedRangeRate. intros Ha Hb.
  destruct (Rltb _ _) eqn:E; [discriminate |].
  apply Rltb_false in E. intros [= <- <-].
  assert (Hdet : - core.cosAngle a * - core.sinAngle b
                 - - core.sinAngle a * - core.cosAngle b <> 0).
  { intros H0. rewrite H0, Rabs_R0 in E. lra. }
  rewrite Ha, Hb. split; field; exact Hdet.
Qed.

Lemma noiseFree_nth vLon vLat samples i :
  noiseFree vLon vLat samples ->
  core.rangeRate (nth i samples core.Sample_default)
  = core.predictedRangeRate (nth i samples core.Sample_default) vLon vLat.
Proof.
  intros H. destruct (Nat.lt_ge_cases i (length samples)) as [Hi | Hi].
  - unfold noiseFree in H. rewrite List.Forall_forall in H.
    apply H, nth_In, Hi.
  - rewrite nth_overflow by exact Hi.
    unfold core.predictedRangeRate, core.Sample_default. cbn. ring.
Qed.

Lemma noiseFree_countInliers threshold vLon vLat samples :
  0 < threshold ->
  noiseFree vLon vLat samples ->
  core.countInliers threshold vLon vLat samples = Z.of_nat (length samples).
Proof.
  intros Ht H. unfold core.countInliers. f_equal.
  induction H as [| s rest Hs _ IH]; [reflexivity |].
  rewrite filter_cons.
  destruct (decide _) as [_ | Hn]; [cbn; now rewrite IH |].
  exfalso. apply Hn. unfold core.isInlier. rewrite <- Hs.
  replace (core.rangeRate s - core.rangeRate s) with 0 by ring.
  rewrite Rabs_R0. apply Rleb_true. lra.
Qed.

Lemma ransacStep_noiseFree fuel samples threshold vLon vLat st st' :
  0 < threshold ->
  noiseFree vLon vLat samples ->
  noiseFreeBest vLon vLat (length samples) st ->
  core.ransacStep draw fuel samples threshold st = Some st' ->
  noiseFreeBest vLon vLat (length samples) st'.
Proof.
  intros Ht Hfree Hst. unfold core.ransacStep.
  destruct (if Nat.ltb 1 (length samples) then _ else _) as [[j' k'] |];
    [| discriminate].
  destruct (core.solvePair _ _) as [[x y] |] eqn:Hs.
  - destruct (solvePair_noiseFree _ _ vLon vLat x y
                (noiseFree_nth _ _ _ _ Hfree) (noiseFree_nth _ _ _ _ Hfree) Hs)
      as [-> ->].
    rewrite (noiseFree_countInliers threshold vLon vLat samples Ht Hfree).
    destruct (Z.ltb _ _); intros [= <-]; [right; cbn; auto | exact Hst].
  - intros [= <-]. exact Hst.
Qed.

Lemma ransacLoop_noiseFree fuel samples threshold vLon vLat iterations st st' :
  0 < threshold ->
  noiseFree vLon vLat samples ->
  noiseFreeBest vLon vLat (length samples) st ->
  core.ransacLoop draw fuel samples threshold iterations st = Some st' ->
  noiseFreeBest vLon vLat (length samples) st'.
Proof.
  intros Ht Hfree. revert st.
  induction iterations as [| it IH]; intros st Hst; simpl.
  - now intros [= <-].
  - destruct (core.ransacStep draw fuel samples threshold st) as [st1 |] eqn:E;
      [| discriminate].
    apply IH. eapply ransacStep_noiseFree; eauto.
Qed.

(** X11.  On samples without noise (every range rate is the one that
    the velocity [(vLon, vLat)] predicts) the RANSAC loop never settles
    on a wrong velocity: with a generator whose redraw loop ends, it
    returns, and its best state is either the initial one with an
    inlier count of 0 (no drawn pair could be solved) or exactly
    [(vLon, vLat)] with every sample counted as an inlier. *)
Theorem X11_ransac_on_noise_free_samples fuel settings samples vLon vLat :
  drawsSeparate draw fuel ->
  (2 <= length samples)%nat ->
  noiseFree vLon vLat samples ->
  exists best,
    core.ransac draw fuel settings samples = Some best /\
    (core.bestInliers best = 0%Z \/
     (core.bestVLon best = vLon /\ core.bestVLat best = vLat /\
      core.bestInliers best = Z.of_nat (length samples))).
Proof.
  intros Hfair Hn Hfree. unfold core.ransac.
  destruct (ransacLoop_total draw fuel samples (core.ransacThreshold settings)
              (core.ransacIterations settings) (core.mkRansac 0 0 0 0) Hfair Hn)
    as [best Hbest].
  exists best. split; [exact Hbest |].
  apply (ransacLoop_noiseFree fuel samples (core.ransacThreshold settings)
           vLon vLat (core.ransacIterations settings) (core.mkRansac 0 0 0 0) best
           (ransacThreshold_pos settings) Hfree).
  - now left.
  - exact Hbest.
Qed.

Lemma refit_result e header samples best r e' :
  core.refit qr_solve e header samples best = (r, e') ->
  core.odo_settings e' = core.odo_settings e /\
  (r = true ->
   oe_valid (core.odo_lastEstimate e') = true /\
   oe_timestamp_us (core.odo_lastEstimate e') = hdr_timestamp_us header /\
   oe_yawRate_rps (core.odo_lastEstimate e') = 0 /\
   (2 <= oe_inlierCount (core.odo_lastEstimate e') <= Z.of_nat (length samples))%Z /\
   oe_covariance (core.odo_lastEstimate e')
   = [1 / IZR (oe_inlierCount (core.odo_lastEstimate e')); 0; 0; 0;
      1 / IZR (oe_inlierCount (core.odo_lastEstimate e')); 0; 0; 0; 1]) /\
  (r = false -> e' = e \/ oe_valid (core.odo_lastEstimate e') = false).
Proof.
  unfold core.refit.
  destruct (_ <=? _)%Z eqn:Eu.
  - destruct (Nat.ltb _ _) eqn:El.
    + intros [= <- <-]. split; [reflexivity |]. split; [discriminate | auto].
    + intros [= <- <-]. apply Nat.ltb_ge in El.
      split; [reflexivity |]. split; [| discriminate].
      intros _. cbn.
      pose proof (length_filter
                    (fun s => core.isInlier
                                (core.ransacThreshold (core.odo_settings e))
                                (core.bestVLon best) (core.bestVLat best) s = true)
                    samples) as Hle.
      rewrite <- INR_IZR_INZ.
      split; [reflexivity |]. split; [reflexivity |]. split; [reflexivity |].
      split; [lia | reflexivity].
  - destruct (Nat.ltb _ _) eqn:El.
    + intros [= <- <-]. split; [reflexivity |]. split; [discriminate | auto].
    + intros [= <- <-]. split; [reflexivity |]. split; [discriminate |].
      intros _. right. reflexivity.
Qed.

(** X12.  With a generator whose redraw loop ends, [processDetections]
    returns, and never changes the settings.  A [true] return has
    stored a valid estimate with the header's timestamp, yaw rate 0, an
    inlier count between 2 and the number of usable detections, and the
    covariance diagonal [1/count, 1/count, 1].  A [false] return has
    either left the estimator as it was or stored an estimate that is
    marked invalid; so after a call that changed the estimator
    [latestEstimate] returns what the call returned. *)
Theorem X12_processDetections_return_and_stored_estimate
  fuel e calibration detections :
  drawsSeparate draw fuel ->
  exists r e',
    core.processDetections draw qr_solve fuel e calibration detections = Some (r, e') /\
    core.odo_settings e' = core.odo_settings e /\
    (r = true ->
     oe_valid (core.odo_lastEstimate e') = true /\
     oe_timestamp_us (core.odo_lastEstimate e')
     = hdr_timestamp_us (eds_header detections) /\
     oe_yawRate_rps (core.odo_lastEstimate e') = 0 /\
     (2 <= oe_inlierCount (core.odo_lastEstimate e')
      <= Z.of_nat (length (usableDetections (eds_detections detections))))%Z /\
     oe_covariance (core.odo_lastEstimate e')
     = [1 / IZR (oe_inlierCount (core.odo_lastEstimate e')); 0; 0; 0;
        1 / IZR (oe_inlierCount (core.odo_lastEstimate e')); 0; 0; 0; 1]) /\
    (e' = e \/ fst (core.latestEstimate e') = r).
Proof.
  intros Hfair.
  destruct (processDetections_total draw qr_solve fuel e calibration detections Hfair)
    as [[r e'] Hcall].
  exists r, e'. split; [exact Hcall |].
  unfold core.processDetections in Hcall.
  destruct (Nat.ltb _ _).
  - injection Hcall as <- <-.
    split; [reflexivity |]. split; [discriminate | auto].
  - destruct (core.ransac _ _ _ _) as [best |]; [| discriminate].
    injection Hcall as Hcall.
    destruct (refit_result _ _ _ _ _ _ Hcall) as (Hs & Ht & Hf).
    rewrite collectSamples_length in Ht.
    split; [exact Hs |]. split; [exact Ht |].
    unfold core.latestEstimate. cbn [fst].
    destruct r.
    + right. now destruct (Ht eq_refl).
    + destruct (Hf eq_refl); auto.
Qed.

End OdometryMore.

Lemma noiseFreeExample_samples : noiseFree 2 3 noiseFreeExample.samples.
Proof.
  unfold noiseFree, noiseFreeExample.samples, core.predictedRangeRate.
  repeat constructor; cbn; lra.
Qed.

Lemma X10_empty_batch_witness :
  (length (usableDetections (eds_detections EnhancedDetections_default)) < 2)%nat /\
  core.processDetections example.draw_cycle example.lstsq 0
    odometryExample.estimator pipelineExample.calibration EnhancedDetections_default
  = Some (false, odometryExample.estimator).
Proof.
  assert (H : (length (usableDetections (eds_detections EnhancedDetections_default))
               < 2)%nat) by (cbn; lia).
  split; [exact H |].
  apply (X10_fewer_than_two_usable_detections example.draw_cycle example.lstsq 0
           odometryExample.estimator pipelineExample.calibration
           EnhancedDetections_default H).
Defined.

Lemma X11_noise_free_witness :
  drawsSeparate example.draw_cycle 1 /\
  (2 <= length noiseFreeExample.samples)%nat /\
  noiseFree 2 3 noiseFreeExample.samples /\
  exists best,
    core.ransac example.draw_cycle 1 core.OdometrySettings_default
      noiseFreeExample.samples = Some best /\
    (core.bestInliers best = 0%Z \/
     (core.bestVLon best = 2 /\ core.bestVLat best = 3 /\
      core.bestInliers best = Z.of_nat (length noiseFreeExample.samples))).
Proof.
  assert (Hn : (2 <= length noiseFreeExample.samples)%nat) by (cbn; lia).
  split; [apply draw_cycle_separate |]. split; [exact Hn |].
  split; [apply noiseFreeExample_samples |].
  apply (X11_ransac_on_noise_free_samples example.draw_cycle 1
           core.OdometrySettings_default noiseFreeExample.samples 2 3
           draw_cycle_separate Hn noiseFreeExample_samples).
Defined.

Lemma X12_processDetections_witness :
  drawsSeparate example.draw_cycle 1 /\
  exists r e',
    core.processDetections example.draw_cycle example.lstsq 1
      odometryExample.estimator pipelineExample.calibration odometryExample.batch
    = Some (r, e') /\
    core.odo_settings e' = core.odo_settings odometryExample.estimator.
Proof.
  split; [apply draw_cycle_separate |].
  destruct (X12_processDetections_return_and_stored_estimate
              example.draw_cycle example.lstsq 1 odometryExample.estimator
              pipelineExample.calibration odometryExample.batch draw_cycle_separate)
    as (r & e' & Hcall & Hs & _).
  exists r, e'. auto.
Defined.

(* ===================================================================== *)
(** * Further properties of the occupancy grid *)
(* ===================================================================== *)

Section GridMore.
Import radar.FusedRadarMapping gridSpec gridMore.

(** *** Invariants of the rasterising loops *)

Lemma fold_left_inv {A : Type} (I : t -> Prop) (f : t -> A -> t) (l : list A) m :
  (forall m a, I m -> I (f m a)) -> I m -> I (fold_left f l m).
Proof.
  intros Hf. revert m. induction l as [| a l IH]; intros m Hm; simpl; auto.
Qed.

Lemma forCells_inv (I : t -> Prop) body m ixMin ixMax iyMin iyMax :
  (forall m ix iy, I m -> I (body m ix iy)) ->
  I m -> I (forCells body m ixMin ixMax iyMin iyMax).
Proof.
  intros Hbody Hm. unfold forCells.
  apply fold_left_inv; [| exact Hm].
  intros m1 iy Hm1. apply fold_left_inv; [| exact Hm1].
  intros m2 ix Hm2. now apply Hbody.
Qed.

Lemma computePlausibility_range m range_m azimuth_rad amplitude_dBsm :
  0 <= computePlausibility m range_m azimuth_rad amplitude_dBsm <= 1.
Proof.
  unfold computePlausibility.
  destruct (negb _); [lra |]. apply std_clamp_range. lra.
Qed.

(** The log-odds that [addGaussian] adds is not negative. *)
Lemma gaussian_logOdds_nonneg (scale g : R) :
  0 <= scale -> 0 <= g ->
  0 <= ln (std_clamp (1 / 2 + scale * g) kMinProbability kMaxProbability
           / (1 - std_clamp (1 / 2 + scale * g) kMinProbability kMaxProbability)).
Proof.
  intros Hs Hg.
  assert (Hp : 1 / 2 <= std_clamp (1 / 2 + scale * g) kMinProbability kMaxProbability
               <= kMaxProbability).
  { unfold std_clamp, kMaxProbability, kMinProbability.
    assert (0 <= scale * g) by nra.
    destruct (Rltb (1 / 2 + scale * g) (1 / 1000)) eqn:E1;
      [apply Rltb_true in E1; lra |].
    destruct (Rltb (1 - 1 / 1000) (1 / 2 + scale * g)) eqn:E2; [lra |].
    apply Rltb_false in E2. lra. }
  set (p := std_clamp _ _ _) in *. unfold kMaxProbability, kMinProbability in Hp.
  rewrite <- ln_1. 
  assert (H1 : 1 <= p / (1 - p)).
  { apply (Rmult_le_reg_r (1 - p)); [lra |].
    replace (p / (1 - p) * (1 - p)) with p by (field; lra). lra. }
  destruct (Req_dec 1 (p / (1 - p))) as [<- | Hne]; [lra |].
  left. apply ln_increasing; lra.
Qed.

Section UpdateInv.

Variable s : Settings.
Variable I : t -> Prop.

Hypothesis I_settings : forall m, I m -> m_settings m = s.
(** The occupancy models add a delta that is not negative, for the hit
    model provided that the hit increment is not negative. *)
Hypothesis I_raise :
  enableOccupied s = true ->
  forall m ix iy delta,
    ((radarModel s = Hits -> 0 <= hitIncrement s) -> 0 <= delta) ->
    I m -> I (updateCell m ix iy delta).
Hypothesis I_lower :
  enableFreespace s = true ->
  forall m ix iy delta, delta <= 0 -> I m -> I (updateCell m ix iy delta).

Lemma addHit_inv m detectionPosition plausibility :
  enableOccupied s = true -> radarModel s = Hits ->
  0 <= plausibility ->
  I m -> I (addHit m detectionPosition plausibility).
Proof.
  intros Ho Hh Hp Hm. unfold addHit.
  destruct (worldToCell m detectionPosition) as [[ok ix] iy].
  destruct (negb ok); [exact Hm |].
  apply I_raise; [exact Ho | | exact Hm].
  intros Hn. rewrite (I_settings m Hm). pose proof (Hn Hh). nra.
Qed.

Lemma addGaussian_inv m detectionPosition relativeVector
  range_m azimuth_rad rangeAccuracy_m angleAccuracy_rad plausibility :
  enableOccupied s = true ->
  0 <= plausibility ->
  I m ->
  I (addGaussian m detectionPosition relativeVector range_m azimuth_rad
       rangeAccuracy_m angleAccuracy_rad plausibility).
Proof.
  intros Ho Hp Hm. unfold addGaussian.
  destruct (Rleb _ 0) eqn:E; [exact Hm |]. apply Rleb_false in E.
  destruct (window m _ _) as [ixMin ixMax].
  destruct (window m _ _) as [iyMin iyMax].
  apply forCells_inv; [| exact Hm].
  intros m' ix iy Hm'. apply I_raise; [exact Ho | | exact Hm'].
  intros _. apply gaussian_logOdds_nonneg; [nra | left; apply exp_pos].
Qed.

Lemma addFreespaceCone_inv m sensorPosition
  azimuth_rad range_m rangeAccuracy_m amplitude_dBsm :
  enableFreespace s = true ->
  I m ->
  I (addFreespaceCone m sensorPosition azimuth_rad range_m
       rangeAccuracy_m amplitude_dBsm).
Proof.
  intros Hf Hm. unfold addFreespaceCone.
  destruct (Rltb _ range_m); [exact Hm |].
  destruct (Rleb _ 0); [exact Hm |].
  destruct (Rltb _ (minPlausibility _)); [exact Hm |].
  destruct (window m _ _) as [ixMin ixMax].
  destruct (window m _ _) as [iyMin iyMax].
  apply forCells_inv; [| exact Hm].
  intros m' ix iy Hm'.
  destruct (pointInTriangle _ _ _ _); [| exact Hm'].
  apply I_lower; [exact Hf | | exact Hm'].
  match goal with
  | |- - Rabs ?a * ?b <= 0 =>
      pose proof (Rabs_pos a);
      assert (0 <= b) by apply computePlausibility_range; nra
  end.
Qed.

Lemma updatePoint_inv m point : I m -> I (updatePoint m point).
Proof.
  intros Hm. unfold updatePoint.
  destruct (negb _); [exact Hm |].
  destruct (Rleb _ (minRange_m _)); [exact Hm |].
  destruct (computeSensorAccuracies m point) as [rangeAccuracy_m angleAccuracy_rad].
  rewrite (I_settings m Hm).
  match goal with
  | |- I (if _ then addFreespaceCone ?m1 _ _ _ _ _ else _) => assert (H1 : I m1)
  end.
  { destruct (Bool.bool_dec (enableOccupied s) true) as [Ho | Ho];
      [rewrite Ho | apply not_true_is_false in Ho; rewrite Ho; exact Hm].
    destruct (_ && _ && _); [| exact Hm].
    assert (Hr : radarModel s = Gaussian \/ radarModel s = Hits)
      by (destruct (radarModel s); auto).
    destruct Hr as [Hr | Hr]; rewrite Hr.
    - apply addGaussian_inv; [exact Ho | apply computePlausibility_range | exact Hm].
    - apply addHit_inv;
        [exact Ho | exact Hr | apply computePlausibility_range | exact Hm]. }
  destruct (Bool.bool_dec (enableFreespace s) true) as [Hf | Hf];
    [rewrite Hf | apply not_true_is_false in Hf; rewrite Hf; exact H1].
  now apply addFreespaceCone_inv.
Qed.

Lemma update_inv m points : I m -> I (update m points).
Proof.
  intros Hm. unfold update. apply fold_left_inv; [| exact Hm].
  intros. now apply updatePoint_inv.
Qed.

End UpdateInv.

(** *** The shape of the grid *)

Lemma updateCell_config m ix iy delta : config (updateCell m ix iy delta) = config m.
Proof. reflexivity. Qed.

Lemma updateCell_length m ix iy delta :
  length (m_logOdds (updateCell m ix iy delta)) = length (m_logOdds m).
Proof. unfold updateCell. cbn. apply length_insert. Qed.

Lemma update_length m points :
  length (m_logOdds (update m points)) = length (m_logOdds m).
Proof.
  assert (H : config (update m points) = config m /\
              length (m_logOdds (update m points)) = length (m_logOdds m)).
  { apply (update_inv (m_settings m)
             (fun m' => config m' = config m /\
                        length (m_logOdds m') = length (m_logOdds m))).
    - intros m' [Hc _]. unfold config in Hc. congruence.
    - intros _ m' ix iy delta _ [Hc Hl].
      now rewrite updateCell_config, updateCell_length.
    - intros _ m' ix iy delta _ [Hc Hl].
      now rewrite updateCell_config, updateCell_length.
    - auto. }
  exact (proj2 H).
Qed.

(** *** [reset] and [occupiedCells] *)

Lemma flat_map_nil {A B : Type} (f : A -> list B) (l : list A) :
  (forall a, f a = []) -> flat_map f l = [].
Proof.
  intros H. induction l as [| a l IH]; [reflexivity |]. cbn. now rewrite H, IH.
Qed.

Lemma flat_map_length_const {A B : Type} (f : A -> list B) (l : list A) (k : nat) :
  (forall a, length (f a) = k) -> length (flat_map f l) = (length l * k)%nat.
Proof.
  intros H. induction l as [| a l IH]; [reflexivity |].
  cbn. rewrite length_app, H, IH. lia.
Qed.

Lemma zrange_length (lo hi : Z) : length (radar.zrange lo hi) = Z.to_nat (hi - lo + 1).
Proof. unfold radar.zrange. now rewrite length_map, length_seq. Qed.

Lemma reset_cellValue m ix iy : cellValue (reset m) ix iy = 0.
Proof.
  unfold cellValue, reset. cbn.
  rewrite list_lookup_fmap. now destruct (m_logOdds m !! _).
Qed.

(** X14.  [reset] sets every cell to 0 and keeps the settings and the
    shape of the grid.  With a positive [occupiedThreshold] a grid that
    has just been reset reports no occupied cell; with a threshold
    that is not positive it reports every cell of the grid. *)
Theorem X14_reset_clears_the_grid m :
  config (reset m) = config m /\
  length (m_logOdds (reset m)) = length (m_logOdds m) /\
  Forall (fun v => v = 0) (m_logOdds (reset m)) /\
  (0 < occupiedThreshold (m_settings m) -> occupiedCells (reset m) = []) /\
  (occupiedThreshold (m_settings m) <= 0 ->
   length (occupiedCells (reset m))
   = (Z.to_nat (m_gridSize m) * Z.to_nat (m_gridSize m))%nat).
Proof.
  split; [reflexivity |].
  split; [unfold reset; cbn; apply length_map |].
  split.
  { unfold reset. cbn. apply Forall_fmap, Forall_forall. now intros. }
  split.
  - intros Hpos. unfold occupiedCells.
    apply flat_map_nil. intros iy. apply flat_map_nil. intros ix.
    fold (cellValue (reset m) ix iy). rewrite reset_cellValue.
    cbn. now rewrite (proj2 (Rleb_false _ _)) by lra.
  - intros Hle. unfold occupiedCells.
    rewrite (flat_map_length_const _ _ (Z.to_nat (m_gridSize m))).
    + rewrite zrange_length. cbn.
      replace (m_gridSize m - 1 - 0 + 1)%Z with (m_gridSize m) by lia.
      reflexivity.
    + intros iy. rewrite (flat_map_length_const _ _ 1%nat).
      * rewrite zrange_length. cbn.
        replace (m_gridSize m - 1 - 0 + 1)%Z with (m_gridSize m) by lia. lia.
      * intros ix. fold (cellValue (reset m) ix iy). rewrite reset_cellValue.
        cbn. now rewrite (proj2 (Rleb_true _ _)) by lra.
Qed.

(** *** [cellCenter] and [worldToCell] *)

Lemma floorZ_half (k : Z) : floorZ (IZR k + 1 / 2) = k.
Proof.
  unfold floorZ. symmetry. apply Int_part_spec. lra.
Qed.

Lemma worldToCell_cellCenter m ix iy :
  cellSize (m_settings m) <> 0 ->
  worldToCell m (cellCenter m ix iy)
  = ((0 <=? ix)%Z && (ix <? m_gridSize m)%Z && (0 <=? iy)%Z && (iy <? m_gridSize m)%Z,
     ix, iy).
Proof.
  intros Hc. unfold worldToCell, cellCenter. cbn [vx vy].
  set (c := cellSize (m_settings m)) in *. set (g := m_gridCenter m).
  replace (((IZR ix - g) * c + c * (1 / 2)) / c + g) with (IZR ix + 1 / 2)
    by (field; exact Hc).
  replace (((IZR iy - g) * c + c * (1 / 2)) / c + g) with (IZR iy + 1 / 2)
    by (field; exact Hc).
  now rewrite !floorZ_half.
Qed.

Lemma elem_of_zrange (lo hi k : Z) : k ∈ radar.zrange lo hi -> (lo <= k <= hi)%Z.
Proof.
  unfold radar.zrange. intros H.
  apply list_elem_of_fmap in H as [i [-> Hi]].
  apply elem_of_seq in Hi. lia.
Qed.

Lemma elem_of_flat_map {A B : Type} (f : A -> list B) (l : list A) (b : B) :
  b ∈ flat_map f l -> exists a, a ∈ l /\ b ∈ f a.
Proof.
  intros H. apply list_elem_of_In, in_flat_map in H as [a [Ha Hb]].
  exists a. split; now apply list_elem_of_In.
Qed.

(** X15.  With a cell size that is not zero, [worldToCell] inverts
    [cellCenter]: the centre of the cell [(ix, iy)] of the grid is
    mapped to [(ix, iy)] and reported inside the grid.  So every point
    that [occupiedCells] returns lies in a cell of the grid, and the
    value of that cell is at least [occupiedThreshold]. *)
Theorem X15_worldToCell_inverts_cellCenter m :
  cellSize (m_settings m) <> 0 ->
  (forall ix iy,
      (0 <= ix < m_gridSize m)%Z -> (0 <= iy < m_gridSize m)%Z ->
      worldToCell m (cellCenter m ix iy) = (true, ix, iy)) /\
  (forall c,
      c ∈ occupiedCells m ->
      exists ix iy,
        c = cellCenter m ix iy /\
        worldToCell m c = (true, ix, iy) /\
        occupiedThreshold (m_settings m) <= cellValue m ix iy).
Proof.
  intros Hc.
  assert (Hin : forall ix iy,
             (0 <= ix < m_gridSize m)%Z -> (0 <= iy < m_gridSize m)%Z ->
             worldToCell m (cellCenter m ix iy) = (true, ix, iy)).
  { intros ix iy Hx Hy. rewrite worldToCell_cellCenter by exact Hc.
    replace (0 <=? ix)%Z with true by (symmetry; apply Z.leb_le; lia).
    replace (ix <? m_gridSize m)%Z with true by (symmetry; apply Z.ltb_lt; lia).
    replace (0 <=? iy)%Z with true by (symmetry; apply Z.leb_le; lia).
    replace (iy <? m_gridSize m)%Z with true by (symmetry; apply Z.ltb_lt; lia).
    reflexivity. }
  split; [exact Hin |].
  intros c Hcell. unfold occupiedCells in Hcell.
  apply elem_of_flat_map in Hcell as (iy & Hiy & Hcell).
  apply elem_of_flat_map in Hcell as (ix & Hix & Hcell).
  apply elem_of_zrange in Hiy, Hix.
  fold (cellValue m ix iy) in Hcell.
  destruct (Rleb _ _) eqn:E; [| now apply not_elem_of_nil in Hcell].
  apply list_elem_of_singleton in Hcell. subst c.
  exists ix, iy. split; [reflexivity |].
  split; [apply Hin; lia | now apply Rleb_true in E].
Qed.

(** *** Points that [update] skips *)

Lemma updatePoint_skipped m point :
  skippedPoint (m_settings m) point -> updatePoint m point = m.
Proof.
  intros [[Hv Hs] | Hr]; unfold updatePoint.
  - now rewrite Hv, Hs.
  - destruct (negb _); [reflexivity |].
    fold (pointRange point). now rewrite (proj2 (Rleb_true _ _)) by exact Hr.
Qed.

(** X16.  [update] skips every point that is neither a valid return nor
    a super-resolution one, and every point whose range (the reported
    one if positive, the distance from the sensor otherwise) is not
    beyond [minRange_m]: a cloud of such points, the empty cloud in
    particular, leaves the grid as it was. *)
Theorem X16_update_skips_invalid_and_near_points m points :
  Forall (skippedPoint (m_settings m)) points ->
  update m points = m.
Proof.
  unfold update. induction 1 as [| point rest Hp _ IH]; [reflexivity |].
  cbn [fold_left]. now rewrite (updatePoint_skipped m point Hp).
Qed.

(** *** Evidence moves a cell one way *)






(** *** [wrapTo180] *)


End GridMore.

(* ===================================================================== *)
(** * The occupancy grid: conversions to [int] and cell accesses *)
(* ===================================================================== *)

Section GridChecked.
Import radar.FusedRadarMapping gridSpec gridMore.

Lemma toInt_fits (z : Z) :
  (gridChecked.INT_MIN <= z <= gridChecked.INT_MAX)%Z ->
  gridChecked.toInt z = gridChecked.Done z.
Proof.
  intros [H1 H2]. unfold gridChecked.toInt.
  apply Z.leb_le in H1, H2. now rewrite H1, H2.
Qed.

Lemma toInt_Done (z v : Z) :
  gridChecked.toInt z = gridChecked.Done v ->
  v = z /\ (gridChecked.INT_MIN <= z <= gridChecked.INT_MAX)%Z.
Proof.
  unfold gridChecked.toInt.
  destruct (_ <=? z)%Z eqn:E1; [| discriminate].
  destruct (z <=? _)%Z eqn:E2; [| discriminate].
  cbn. intros [= <-]. apply Z.leb_le in E1, E2. auto.
Qed.

Lemma toInt_agrees (z : Z) : gridChecked.agrees (gridChecked.toInt z) z.
Proof.
  unfold gridChecked.toInt, gridChecked.agrees. destruct (_ && _); auto.
Qed.

Lemma floorIndex_agrees m value :
  gridChecked.agrees (gridChecked.floorIndex m value) (floorZ (toIndex m value)).
Proof.
  unfold gridChecked.floorIndex.
  destruct (Reqb _ 0); [now right | apply toInt_agrees].
Qed.

Lemma ceilIndex_agrees m value :
  gridChecked.agrees (gridChecked.ceilIndex m value) (ceilZ (toIndex m value)).
Proof.
  unfold gridChecked.ceilIndex.
  destruct (Reqb _ 0); [now right | apply toInt_agrees].
Qed.

(** *** One cell *)

Lemma cellIndex_in_grid m ix iy :
  gridChecked.shaped m ->
  (0 <= ix < m_gridSize m)%Z -> (0 <= iy < m_gridSize m)%Z ->
  gridChecked.cellIndex m ix iy = gridChecked.Done (Z.to_nat (iy * m_gridSize m + ix)).
Proof.
  intros (Hg & Hmax & Hlen) Hx Hy. unfold gridChecked.cellIndex.
  unfold gridChecked.INT_MAX in Hmax.
  assert (Hrow : (0 <= iy * m_gridSize m <= (m_gridSize m - 1) * m_gridSize m)%Z).
  { split; [apply Z.mul_nonneg_nonneg; lia |].
    apply Z.mul_le_mono_nonneg_r; lia. }
  assert (Hsq : ((m_gridSize m - 1) * m_gridSize m
                 = m_gridSize m * m_gridSize m - m_gridSize m)%Z) by ring.
  rewrite toInt_fits
    by (unfold gridChecked.INT_MIN, gridChecked.INT_MAX; lia).
  cbn [gridChecked.bind].
  rewrite toInt_fits
    by (unfold gridChecked.INT_MIN, gridChecked.INT_MAX; lia).
  cbn [gridChecked.bind].
  assert (H0 : (0 <=? iy * m_gridSize m + ix)%Z = true) by (apply Z.leb_le; lia).
  assert (H1 : (Z.to_nat (iy * m_gridSize m + ix) <? length (m_logOdds m))%nat = true).
  { apply Nat.ltb_lt. rewrite Hlen. apply Z2Nat.inj_lt; lia. }
  now rewrite H0, H1.
Qed.

Lemma updateCell_in_grid m ix iy delta :
  gridChecked.shaped m ->
  (0 <= ix < m_gridSize m)%Z -> (0 <= iy < m_gridSize m)%Z ->
  gridChecked.updateCell m ix iy delta = gridChecked.Done (updateCell m ix iy delta).
Proof.
  intros Hs Hx Hy. unfold gridChecked.updateCell.
  rewrite cellIndex_in_grid by assumption. reflexivity.
Qed.

(** *** What the functions keep of the grid *)

Lemma sameGrid_shaped m m' : gridChecked.sameGrid m m' -> gridChecked.shaped m -> gridChecked.shaped m'.
Proof.
  unfold gridChecked.sameGrid.
  intros [Hc Hl] (Hg & Hmax & Hlen). unfold config in Hc.
  injection Hc as _ Hgs _ _ _ _.
  unfold gridChecked.shaped. rewrite Hgs, Hl. auto.
Qed.

Lemma sameGrid_gridSize m m' : gridChecked.sameGrid m m' -> m_gridSize m' = m_gridSize m.
Proof.
  unfold gridChecked.sameGrid. intros [Hc _]. unfold config in Hc. now injection Hc.
Qed.

Lemma sameGrid_updateCell m m' ix iy delta :
  gridChecked.sameGrid m m' -> gridChecked.sameGrid m (updateCell m' ix iy delta).
Proof.
  unfold gridChecked.sameGrid. intros [Hc Hl].
  now rewrite updateCell_config, updateCell_length.
Qed.

Lemma sameGrid_addGaussian m m' detectionPosition relativeVector
  range_m azimuth_rad rangeAccuracy_m angleAccuracy_rad plausibility :
  gridChecked.sameGrid m m' ->
  gridChecked.sameGrid m (addGaussian m' detectionPosition relativeVector range_m azimuth_rad
                rangeAccuracy_m angleAccuracy_rad plausibility).
Proof.
  intros Hm. unfold addGaussian.
  destruct (Rleb _ 0); [exact Hm |].
  destruct (window m' _ _) as [ixMin ixMax].
  destruct (window m' _ _) as [iyMin iyMax].
  apply (forCells_inv (fun m1 => gridChecked.sameGrid m m1)); [| exact Hm].
  intros m1 ix iy Hm1. now apply sameGrid_updateCell.
Qed.

Lemma sameGrid_addHit m m' detectionPosition plausibility :
  gridChecked.sameGrid m m' -> gridChecked.sameGrid m (addHit m' detectionPosition plausibility).
Proof.
  intros Hm. unfold addHit.
  destruct (worldToCell m' detectionPosition) as [[ok ix] iy].
  destruct (negb ok); [exact Hm | now apply sameGrid_updateCell].
Qed.

Lemma sameGrid_addFreespaceCone m m' sensorPosition
  azimuth_rad range_m rangeAccuracy_m amplitude_dBsm :
  gridChecked.sameGrid m m' ->
  gridChecked.sameGrid m (addFreespaceCone m' sensorPosition azimuth_rad range_m
                rangeAccuracy_m amplitude_dBsm).
Proof.
  intros Hm. unfold addFreespaceCone.
  destruct (Rltb _ range_m); [exact Hm |].
  destruct (Rleb _ 0); [exact Hm |].
  destruct (Rltb _ (minPlausibility _)); [exact Hm |].
  destruct (window m' _ _) as [ixMin ixMax].
  destruct (window m' _ _) as [iyMin iyMax].
  apply (forCells_inv (fun m1 => gridChecked.sameGrid m m1)); [| exact Hm].
  intros m1 ix iy Hm1.
  destruct (pointInTriangle _ _ _ _); [now apply sameGrid_updateCell | exact Hm1].
Qed.

Lemma sameGrid_updatePoint m point : gridChecked.sameGrid m (updatePoint m point).
Proof.
  pose proof (update_config m [point]) as Hc.
  pose proof (update_length m [point]) as Hl.
  split; assumption.
Qed.

(** *** Loops *)

Lemma foldOutcome_cons {A : Type} (f : t -> A -> gridChecked.outcome t) a l m :
  gridChecked.foldOutcome f (a :: l) m
  = match f m a with
    | gridChecked.Done m' => gridChecked.foldOutcome f l m'
    | gridChecked.NotAnInt => gridChecked.NotAnInt
    | gridChecked.OutsideVector => gridChecked.OutsideVector
    end.
Proof.
  unfold gridChecked.foldOutcome. cbn [fold_left gridChecked.bind].
  destruct (f m a) as [m' | |]; [reflexivity | |];
    induction l as [| b l IH]; auto.
Qed.

Lemma foldOutcome_agrees {A : Type} (P : t -> Prop) (Q : A -> Prop)
  (fC : t -> A -> gridChecked.outcome t) (f : t -> A -> t) (l : list A) m :
  (forall m' a, P m' -> Q a -> gridChecked.agrees (fC m' a) (f m' a) /\ P (f m' a)) ->
  Forall Q l -> P m ->
  gridChecked.agrees (gridChecked.foldOutcome fC l m) (fold_left f l m) /\ P (fold_left f l m).
Proof.
  intros Hstep Hl. revert m.
  induction Hl as [| a l Ha Hl IH]; intros m Hm.
  - split; [now left | exact Hm].
  - destruct (Hstep m a Hm Ha) as [Hag HP].
    destruct (IH (f m a) HP) as [IHa IHP].
    split; [| exact IHP].
    rewrite foldOutcome_cons. destruct Hag as [-> | ->]; [exact IHa | now right].
Qed.

Lemma zrange_Forall (lo hi : Z) : Forall (fun k => (lo <= k <= hi)%Z) (radar.zrange lo hi).
Proof. apply Forall_forall. intros k Hk. now apply elem_of_zrange. Qed.

Lemma forCells_agrees (P : t -> Prop)
  (bodyC : t -> Z -> Z -> gridChecked.outcome t) (body : t -> Z -> Z -> t)
  m ixMin ixMax iyMin iyMax :
  (forall m' ix iy, P m' -> (ixMin <= ix <= ixMax)%Z -> (iyMin <= iy <= iyMax)%Z ->
     gridChecked.agrees (bodyC m' ix iy) (body m' ix iy) /\ P (body m' ix iy)) ->
  P m ->
  gridChecked.agrees (gridChecked.forCells bodyC m ixMin ixMax iyMin iyMax)
         (forCells body m ixMin ixMax iyMin iyMax).
Proof.
  intros Hbody Hm. unfold gridChecked.forCells, forCells.
  apply (foldOutcome_agrees P (fun iy => (iyMin <= iy <= iyMax)%Z));
    [| apply zrange_Forall | exact Hm].
  intros m1 iy Hm1 Hiy.
  apply (foldOutcome_agrees P (fun ix => (ixMin <= ix <= ixMax)%Z));
    [| apply zrange_Forall | exact Hm1].
  intros m2 ix Hm2 Hix. now apply Hbody.
Qed.

(** *** The window of the rasterising loops *)

Lemma window_agrees m minV maxV :
  gridChecked.agrees (gridChecked.window m minV maxV) (window m minV maxV).
Proof.
  unfold gridChecked.window, window.
  destruct (floorIndex_agrees m minV) as [-> | ->]; [| now right].
  cbn [gridChecked.bind].
  destruct (ceilIndex_agrees m maxV) as [-> | ->]; [| now right].
  now left.
Qed.

Lemma clampZ_range (v lo hi : Z) : (lo <= hi)%Z -> (lo <= clampZ v lo hi <= hi)%Z.
Proof.
  intros H. unfold clampZ.
  destruct (v <? lo)%Z eqn:E1; [lia |]. apply Z.ltb_ge in E1.
  destruct (hi <? v)%Z eqn:E2; [lia |]. apply Z.ltb_ge in E2. lia.
Qed.

Lemma window_in_grid m minV maxV :
  (1 <= m_gridSize m)%Z ->
  (0 <= fst (window m minV maxV) < m_gridSize m)%Z /\
  (0 <= snd (window m minV maxV) < m_gridSize m)%Z.
Proof.
  intros Hg. unfold window. cbn [fst snd].
  pose proof (clampZ_range (floorZ (toIndex m minV)) 0 (m_gridSize m - 1)).
  pose proof (clampZ_range (ceilZ (toIndex m maxV)) 0 (m_gridSize m - 1)).
  lia.
Qed.

(** The cells that a loop over two windows visits are cells of the
    grid, and the grid stays the same. *)
Lemma windows_agree m bodyC body xMin xMax yMin yMax :
  gridChecked.shaped m ->
  (forall m' ix iy,
     gridChecked.sameGrid m m' ->
     (0 <= ix < m_gridSize m)%Z -> (0 <= iy < m_gridSize m)%Z ->
     gridChecked.agrees (bodyC m' ix iy) (body m' ix iy) /\ gridChecked.sameGrid m (body m' ix iy)) ->
  gridChecked.agrees
    (gridChecked.bind (gridChecked.window m xMin xMax) (fun xs =>
     gridChecked.bind (gridChecked.window m yMin yMax) (fun ys =>
     gridChecked.forCells bodyC m (fst xs) (snd xs) (fst ys) (snd ys))))
    (let '(ixMin, ixMax) := window m xMin xMax in
     let '(iyMin, iyMax) := window m yMin yMax in
     forCells body m ixMin ixMax iyMin iyMax).
Proof.
  intros Hs Hbody.
  assert (Hg : (1 <= m_gridSize m)%Z) by (destruct Hs as (Hg & _); lia).
  destruct (window_in_grid m xMin xMax Hg) as [Hx0 Hx1].
  destruct (window_in_grid m yMin yMax Hg) as [Hy0 Hy1].
  destruct (window_agrees m xMin xMax) as [-> | ->]; [| now right].
  cbn [gridChecked.bind].
  destruct (window_agrees m yMin yMax) as [-> | ->]; [| now right].
  cbn [gridChecked.bind].
  destruct (window m xMin xMax) as [ixMin ixMax].
  destruct (window m yMin yMax) as [iyMin iyMax].
  cbn [fst snd] in *.
  apply (forCells_agrees (fun m' => gridChecked.sameGrid m m')); [| split; reflexivity].
  intros m' ix iy Hm' Hix Hiy. apply Hbody; [exact Hm' | lia | lia].
Qed.

Lemma updateCell_agrees m m' ix iy delta :
  gridChecked.shaped m -> gridChecked.sameGrid m m' ->
  (0 <= ix < m_gridSize m)%Z -> (0 <= iy < m_gridSize m)%Z ->
  gridChecked.agrees (gridChecked.updateCell m' ix iy delta) (updateCell m' ix iy delta) /\
  gridChecked.sameGrid m (updateCell m' ix iy delta).
Proof.
  intros Hs Hm' Hx Hy. split; [| now apply sameGrid_updateCell].
  left. apply updateCell_in_grid.
  - now apply (sameGrid_shaped m).
  - now rewrite (sameGrid_gridSize m m' Hm').
  - now rewrite (sameGrid_gridSize m m' Hm').
Qed.

(** *** The functions of [update] *)

Lemma addGaussian_agrees m detectionPosition relativeVector
  range_m azimuth_rad rangeAccuracy_m angleAccuracy_rad plausibility :
  gridChecked.shaped m ->
  gridChecked.agrees
    (gridChecked.addGaussian m detectionPosition relativeVector range_m azimuth_rad
       rangeAccuracy_m angleAccuracy_rad plausibility)
    (addGaussian m detectionPosition relativeVector range_m azimuth_rad
       rangeAccuracy_m angleAccuracy_rad plausibility).
Proof.
  intros Hs. unfold gridChecked.addGaussian, addGaussian. cbv zeta.
  destruct (Rleb _ 0); [now left |].
  apply windows_agree; [exact Hs |].
  intros m' ix iy Hm' Hx Hy. now apply updateCell_agrees.
Qed.

Lemma addHit_agrees m detectionPosition plausibility :
  gridChecked.shaped m ->
  gridChecked.agrees (gridChecked.addHit m detectionPosition plausibility)
         (addHit m detectionPosition plausibility).
Proof.
  intros Hs. unfold gridChecked.addHit, gridChecked.worldToCell, addHit, worldToCell.
  fold (toIndex m (vx detectionPosition)). fold (toIndex m (vy detectionPosition)).
  destruct (floorIndex_agrees m (vx detectionPosition)) as [-> | ->]; [| now right].
  cbn [gridChecked.bind].
  destruct (floorIndex_agrees m (vy detectionPosition)) as [-> | ->]; [| now right].
  cbn [gridChecked.bind].
  set (ix := floorZ (toIndex m (vx detectionPosition))).
  set (iy := floorZ (toIndex m (vy detectionPosition))).
  destruct ((0 <=? ix)%Z && (ix <? m_gridSize m)%Z
            && (0 <=? iy)%Z && (iy <? m_gridSize m)%Z) eqn:E; cbn [negb];
    [| now left].
  apply andb_prop in E as [E E4]. apply andb_prop in E as [E E3].
  apply andb_prop in E as [E1 E2].
  apply Z.leb_le in E1, E3. apply Z.ltb_lt in E2, E4.
  left. apply updateCell_in_grid; [exact Hs | lia | lia].
Qed.

Lemma addFreespaceCone_agrees m sensorPosition
  azimuth_rad range_m rangeAccuracy_m amplitude_dBsm :
  gridChecked.shaped m ->
  gridChecked.agrees
    (gridChecked.addFreespaceCone m sensorPosition azimuth_rad range_m
       rangeAccuracy_m amplitude_dBsm)
    (addFreespaceCone m sensorPosition azimuth_rad range_m
       rangeAccuracy_m amplitude_dBsm).
Proof.
  intros Hs. unfold gridChecked.addFreespaceCone, addFreespaceCone. cbv zeta.
  destruct (Rltb _ range_m); [now left |].
  destruct (Rleb _ 0); [now left |].
  destruct (Rltb _ (minPlausibility _)); [now left |].
  apply windows_agree; [exact Hs |].
  intros m' ix iy Hm' Hx Hy.
  destruct (pointInTriangle _ _ _ _); [now apply updateCell_agrees |].
  split; [now left | exact Hm'].
Qed.

Lemma updatePoint_agrees m point :
  gridChecked.shaped m ->
  gridChecked.agrees (gridChecked.updatePoint m point) (updatePoint m point).
Proof.
  intros Hs. unfold gridChecked.updatePoint, updatePoint. cbv zeta.
  destruct (negb _); [now left |].
  destruct (Rleb _ (minRange_m _)); [now left |].
  destruct (computeSensorAccuracies m point) as [rangeAccuracy_m angleAccuracy_rad].
  match goal with
  | |- gridChecked.agrees (gridChecked.bind ?rC _) (if _ then addFreespaceCone ?m1 _ _ _ _ _ else _) =>
      assert (H1 : gridChecked.agrees rC m1 /\ gridChecked.shaped m1)
  end.
  { destruct (_ && _ && _); [| split; [now left | exact Hs]].
    destruct (radarModel (m_settings m)).
    - split; [now apply addGaussian_agrees |].
      apply (sameGrid_shaped m); [| exact Hs].
      apply sameGrid_addGaussian. split; reflexivity.
    - split; [now apply addHit_agrees |].
      apply (sameGrid_shaped m); [| exact Hs].
      apply sameGrid_addHit. split; reflexivity. }
  destruct H1 as [[-> | ->] Hs1]; [| now right].
  cbn [gridChecked.bind].
  destruct (enableFreespace _); [| now left].
  now apply addFreespaceCone_agrees.
Qed.

Lemma update_agrees m points :
  gridChecked.shaped m -> gridChecked.agrees (gridChecked.update m points) (update m points).
Proof.
  intros Hs. unfold gridChecked.update, update.
  apply (foldOutcome_agrees (fun m' => gridChecked.shaped m') (fun _ => True));
    [| apply Forall_forall; auto | exact Hs].
  intros m' point Hm' _. split; [now apply updatePoint_agrees |].
  apply (sameGrid_shaped m'); [apply sameGrid_updatePoint | exact Hm'].
Qed.

(** *** Conversions that are in range *)

Lemma floorIndex_done m value :
  cellSize (m_settings m) <> 0 ->
  IZR gridChecked.INT_MIN <= toIndex m value <= IZR gridChecked.INT_MAX ->
  gridChecked.floorIndex m value = gridChecked.Done (floorZ (toIndex m value)).
Proof.
  intros Hc [Hlo Hhi]. unfold gridChecked.floorIndex.
  rewrite (proj2 (Reqb_false _ _) Hc). apply toInt_fits.
  unfold floorZ. destruct (base_Int_part (toIndex m value)) as [H1 H2].
  split.
  - assert (H : (gridChecked.INT_MIN - 1 < Int_part (toIndex m value))%Z)
      by (apply lt_IZR; rewrite minus_IZR; lra).
    lia.
  - apply le_IZR. lra.
Qed.

Lemma ceilIndex_done m value :
  cellSize (m_settings m) <> 0 ->
  IZR gridChecked.INT_MIN <= toIndex m value <= IZR gridChecked.INT_MAX ->
  gridChecked.ceilIndex m value = gridChecked.Done (ceilZ (toIndex m value)).
Proof.
  intros Hc [Hlo Hhi]. unfold gridChecked.ceilIndex.
  rewrite (proj2 (Reqb_false _ _) Hc). apply toInt_fits.
  unfold ceilZ. destruct (base_Int_part (- toIndex m value)) as [H1 H2].
  split.
  - apply le_IZR. rewrite opp_IZR. lra.
  - assert (H : (- Int_part (- toIndex m value) < gridChecked.INT_MAX + 1)%Z)
      by (apply lt_IZR; rewrite opp_IZR, plus_IZR; lra).
    lia.
Qed.

Lemma window_done m minV maxV :
  cellSize (m_settings m) <> 0 ->
  IZR gridChecked.INT_MIN <= toIndex m minV <= IZR gridChecked.INT_MAX ->
  IZR gridChecked.INT_MIN <= toIndex m maxV <= IZR gridChecked.INT_MAX ->
  gridChecked.window m minV maxV = gridChecked.Done (window m minV maxV).
Proof.
  intros Hc Hmin Hmax. unfold gridChecked.window, window.
  rewrite floorIndex_done, ceilIndex_done by assumption. reflexivity.
Qed.

(** A loop without a fault. *)
Lemma foldOutcome_done {A : Type} (P : t -> Prop) (Q : A -> Prop)
  (fC : t -> A -> gridChecked.outcome t) (f : t -> A -> t) (l : list A) m :
  (forall m' a, P m' -> Q a -> fC m' a = gridChecked.Done (f m' a) /\ P (f m' a)) ->
  Forall Q l -> P m ->
  gridChecked.foldOutcome fC l m = gridChecked.Done (fold_left f l m) /\
  P (fold_left f l m).
Proof.
  intros Hstep Hl. revert m.
  induction Hl as [| a l Ha Hl IH]; intros m Hm.
  - split; [reflexivity | exact Hm].
  - destruct (Hstep m a Hm Ha) as [Hd HP].
    rewrite foldOutcome_cons, Hd. exact (IH (f m a) HP).
Qed.

Lemma forCells_done (P : t -> Prop)
  (bodyC : t -> Z -> Z -> gridChecked.outcome t) (body : t -> Z -> Z -> t)
  m ixMin ixMax iyMin iyMax :
  (forall m' ix iy, P m' -> (ixMin <= ix <= ixMax)%Z -> (iyMin <= iy <= iyMax)%Z ->
     bodyC m' ix iy = gridChecked.Done (body m' ix iy) /\ P (body m' ix iy)) ->
  P m ->
  gridChecked.forCells bodyC m ixMin ixMax iyMin iyMax
  = gridChecked.Done (forCells body m ixMin ixMax iyMin iyMax).
Proof.
  intros Hbody Hm. unfold gridChecked.forCells, forCells.
  apply (foldOutcome_done P (fun iy => (iyMin <= iy <= iyMax)%Z));
    [| apply zrange_Forall | exact Hm].
  intros m1 iy Hm1 Hiy.
  apply (foldOutcome_done P (fun ix => (ixMin <= ix <= ixMax)%Z));
    [| apply zrange_Forall | exact Hm1].
  intros m2 ix Hm2 Hix. now apply Hbody.
Qed.

(** The free-space cone of a sensor that lies, together with its
    largest free-space range, in a box [[-B, B]] whose coordinates
    have grid indices in [int]. *)
Lemma addFreespaceCone_done m sensorPosition
  azimuth_rad range_m rangeAccuracy_m amplitude_dBsm (B : R) :
  gridChecked.shaped m ->
  cellSize (m_settings m) <> 0 ->
  0 <= freespaceRangeSigmaFactor (m_settings m) ->
  (forall v, - B <= v <= B ->
     IZR gridChecked.INT_MIN <= toIndex m v <= IZR gridChecked.INT_MAX) ->
  Rabs (vx sensorPosition) + maxFreeSpaceRange_m (m_settings m) <= B ->
  Rabs (vy sensorPosition) + maxFreeSpaceRange_m (m_settings m) <= B ->
  gridChecked.addFreespaceCone m sensorPosition azimuth_rad range_m
    rangeAccuracy_m amplitude_dBsm
  = gridChecked.Done
      (addFreespaceCone m sensorPosition azimuth_rad range_m
         rangeAccuracy_m amplitude_dBsm).
Proof.
  intros Hs Hc Hf Hbox Hx Hy.
  unfold gridChecked.addFreespaceCone, addFreespaceCone. cbv zeta.
  destruct (Rltb _ range_m) eqn:E1; [reflexivity |]. apply Rltb_false in E1.
  destruct (Rleb _ 0) eqn:E2; [reflexivity |]. apply Rleb_false in E2.
  destruct (Rltb _ (minPlausibility _)); [reflexivity |].
  set (fs := range_m - freespaceRangeSigmaFactor (m_settings m) * Rmax 0 rangeAccuracy_m)
    in *.
  assert (Hfs : 0 < fs <= maxFreeSpaceRange_m (m_settings m)).
  { split; [exact E2 |]. subst fs.
    assert (0 <= Rmax 0 rangeAccuracy_m) by apply Rmax_l. nra. }
  set (aL := azimuth_rad - freespaceAngleAccuracy_rad (m_settings m)) in *.
  set (aR := azimuth_rad + freespaceAngleAccuracy_rad (m_settings m)) in *.
  cbn [vx vy vadd vscale].
  assert (HsL := SIN_bound aL). assert (HcL := COS_bound aL).
  assert (HsR := SIN_bound aR). assert (HcR := COS_bound aR).
  assert (Hax := Rabs_def2 (vx sensorPosition) (Rabs (vx sensorPosition) + 1)
                   ltac:(lra)).
  assert (Hay := Rabs_def2 (vy sensorPosition) (Rabs (vy sensorPosition) + 1)
                   ltac:(lra)).
  assert (Hbx : - B <= vx sensorPosition <= B).
  { pose proof (Rle_abs (vx sensorPosition)).
    pose proof (Rle_abs (- vx sensorPosition)) as H'. rewrite Rabs_Ropp in H'. lra. }
  assert (Hby : - B <= vy sensorPosition <= B).
  { pose proof (Rle_abs (vy sensorPosition)).
    pose proof (Rle_abs (- vy sensorPosition)) as H'. rewrite Rabs_Ropp in H'. lra. }
  assert (HlX : - B <= vx sensorPosition + sin aL * fs <= B).
  { pose proof (Rle_abs (vx sensorPosition)).
    pose proof (Rle_abs (- vx sensorPosition)) as H'. rewrite Rabs_Ropp in H'.
    split; nra. }
  assert (HrX : - B <= vx sensorPosition + sin aR * fs <= B).
  { pose proof (Rle_abs (vx sensorPosition)).
    pose proof (Rle_abs (- vx sensorPosition)) as H'. rewrite Rabs_Ropp in H'.
    split; nra. }
  assert (HlY : - B <= vy sensorPosition + cos aL * fs <= B).
  { pose proof (Rle_abs (vy sensorPosition)).
    pose proof (Rle_abs (- vy sensorPosition)) as H'. rewrite Rabs_Ropp in H'.
    split; nra. }
  assert (HrY : - B <= vy sensorPosition + cos aR * fs <= B).
  { pose proof (Rle_abs (vy sensorPosition)).
    pose proof (Rle_abs (- vy sensorPosition)) as H'. rewrite Rabs_Ropp in H'.
    split; nra. }
  clear Hax Hay.
  set (lx := vx sensorPosition + sin aL * fs) in *.
  set (rx := vx sensorPosition + sin aR * fs) in *.
  set (ly := vy sensorPosition + cos aL * fs) in *.
  set (ry := vy sensorPosition + cos aR * fs) in *.
  assert (Hmin : forall a b c, - B <= a <= B -> - B <= b <= B -> - B <= c <= B ->
                               - B <= Rmin a (Rmin b c) <= B).
  { intros a b c Ha Hb Hc'. unfold Rmin. repeat destruct (Rle_dec _ _); lra. }
  assert (Hmax : forall a b c, - B <= a <= B -> - B <= b <= B -> - B <= c <= B ->
                               - B <= Rmax a (Rmax b c) <= B).
  { intros a b c Ha Hb Hc'. unfold Rmax. repeat destruct (Rle_dec _ _); lra. }
  rewrite (window_done m (Rmin (vx sensorPosition) (Rmin lx rx))
             (Rmax (vx sensorPosition) (Rmax lx rx)))
    by (try exact Hc; apply Hbox; auto).
  cbn [gridChecked.bind].
  rewrite (window_done m (Rmin (vy sensorPosition) (Rmin ly ry))
             (Rmax (vy sensorPosition) (Rmax ly ry)))
    by (try exact Hc; apply Hbox; auto).
  cbn [gridChecked.bind].
  assert (Hg : (1 <= m_gridSize m)%Z) by (destruct Hs as (Hg & _); lia).
  destruct (window_in_grid m (Rmin (vx sensorPosition) (Rmin lx rx))
              (Rmax (vx sensorPosition) (Rmax lx rx)) Hg) as [Hx0 Hx1].
  destruct (window_in_grid m (Rmin (vy sensorPosition) (Rmin ly ry))
              (Rmax (vy sensorPosition) (Rmax ly ry)) Hg) as [Hy0 Hy1].
  destruct (window m (Rmin (vx sensorPosition) _) _) as [ixMin ixMax].
  destruct (window m (Rmin (vy sensorPosition) _) _) as [iyMin iyMax].
  cbn [fst snd] in *.
  apply (forCells_done (fun m' => gridChecked.sameGrid m m')); [| split; reflexivity].
  intros m' ix iy Hm' Hix Hiy.
  destruct (pointInTriangle _ _ _ _); [| split; [reflexivity | exact Hm']].
  split; [| now apply sameGrid_updateCell].
  apply updateCell_in_grid.
  - now apply (sameGrid_shaped m).
  - rewrite (sameGrid_gridSize m m' Hm'). lia.
  - rewrite (sameGrid_gridSize m m' Hm'). lia.
Qed.

(** While occupancy mapping is disabled, an update with sensors in
    such a box has no fault. *)
Lemma update_freespace_done m points (B : R) :
  gridChecked.shaped m ->
  cellSize (m_settings m) <> 0 ->
  enableOccupied (m_settings m) = false ->
  0 <= freespaceRangeSigmaFactor (m_settings m) ->
  (forall v, - B <= v <= B ->
     IZR gridChecked.INT_MIN <= toIndex m v <= IZR gridChecked.INT_MAX) ->
  Forall (fun point =>
            Rabs (radar.pt_sensorLateral_m point)
            + maxFreeSpaceRange_m (m_settings m) <= B /\
            Rabs (radar.pt_sensorLongitudinal_m point)
            + maxFreeSpaceRange_m (m_settings m) <= B) points ->
  gridChecked.update m points = gridChecked.Done (update m points).
Proof.
  intros Hs Hc Ho Hf Hbox Hpts.
  unfold gridChecked.update, update.
  apply (foldOutcome_done
           (fun m' => gridChecked.sameGrid m m')
           (fun point =>
              Rabs (radar.pt_sensorLateral_m point)
              + maxFreeSpaceRange_m (m_settings m) <= B /\
              Rabs (radar.pt_sensorLongitudinal_m point)
              + maxFreeSpaceRange_m (m_settings m) <= B));
    [| exact Hpts | split; reflexivity].
  intros m' point Hm' [Hx Hy].
  assert (Hsame : gridChecked.sameGrid m (updatePoint m' point)).
  { destruct (sameGrid_updatePoint m' point) as [Hc1 Hl1].
    destruct Hm' as [Hc2 Hl2]. split; congruence. }
  split; [| exact Hsame].
  assert (Hset : m_settings m' = m_settings m).
  { destruct Hm' as [Hc2 _]. unfold config in Hc2. now injection Hc2. }
  assert (Hidx : forall v, toIndex m' v = toIndex m v).
  { destruct Hm' as [Hc2 _]. unfold config in Hc2.
    injection Hc2 as _ _ Hgc _ _ _. intros v. unfold toIndex. now rewrite Hset, Hgc. }
  unfold gridChecked.updatePoint, updatePoint. cbv zeta.
  destruct (negb _); [reflexivity |].
  destruct (Rleb _ (minRange_m _)); [reflexivity |].
  destruct (computeSensorAccuracies m' point) as [rangeAccuracy_m angleAccuracy_rad].
  rewrite Hset, Ho. cbn [andb gridChecked.bind].
  destruct (enableFreespace (m_settings m)); [| reflexivity].
  apply (addFreespaceCone_done m' _ _ _ _ _ B).
  - now apply (sameGrid_shaped m).
  - now rewrite Hset.
  - now rewrite Hset.
  - intros v Hv. rewrite Hidx. now apply Hbox.
  - cbn [vx]. now rewrite Hset.
  - cbn [vy]. now rewrite Hset.
Qed.

(** *** [occupiedCells] *)

Lemma collect_done {A B : Type} (fC : A -> gridChecked.outcome (list B))
  (f : A -> list B) (l : list A) :
  (forall a, a ∈ l -> fC a = gridChecked.Done (f a)) ->
  gridChecked.collect fC l = gridChecked.Done (flat_map f l).
Proof.
  induction l as [| a l IH]; intros H; [reflexivity |].
  cbn [gridChecked.collect flat_map].
  rewrite (H a) by apply list_elem_of_here. cbn [gridChecked.bind].
  rewrite IH by (intros b Hb; apply H; now apply list_elem_of_further).
  reflexivity.
Qed.

Lemma occupiedCells_done m :
  gridChecked.shaped m -> gridChecked.occupiedCells m = gridChecked.Done (occupiedCells m).
Proof.
  intros Hs. pose proof Hs as (Hg & Hmax & Hlen).
  unfold gridChecked.occupiedCells, occupiedCells.
  rewrite toInt_fits by (unfold gridChecked.INT_MIN; nia).
  cbn [gridChecked.bind].
  apply collect_done. intros iy Hiy. apply elem_of_zrange in Hiy.
  apply collect_done. intros ix Hix. apply elem_of_zrange in Hix.
  rewrite cellIndex_in_grid by (try exact Hs; lia).
  reflexivity.
Qed.

(** *** [initializeGrid] *)

Lemma configured_done s :
  gridChecked.gridFits s <-> gridChecked.configured s = gridChecked.Done (configured s).
Proof.
  unfold gridChecked.gridFits, gridChecked.configured, configured, initializeGrid_size.
  split.
  - intros (Hc & Hcells & Hcount).
    rewrite (proj2 (Reqb_false _ _) Hc).
    rewrite toInt_fits by exact Hcells. cbn [gridChecked.bind].
    rewrite toInt_fits by (unfold gridChecked.INT_MIN; nia).
    reflexivity.
  - destruct (Reqb (cellSize s) 0) eqn:Ec; [discriminate |].
    apply Reqb_false in Ec.
    destruct (gridChecked.toInt (ceilZ _)) as [cells | |] eqn:E1; try discriminate.
    apply toInt_Done in E1 as [-> Hcells]. cbn [gridChecked.bind].
    destruct (gridChecked.toInt (_ * _)) as [count | |] eqn:E2; try discriminate.
    apply toInt_Done in E2 as [-> Hcount]. intros _.
    split; [exact Ec |]. split; [exact Hcells | apply Hcount].
Qed.

(** *** Grids of settings that fit *)

Lemma reachable_shaped m :
  reachable gridChecked.gridFits m ->
  gridChecked.shaped m /\
  m_gridSize m = initializeGrid_size (m_settings m) /\
  m_gridCenter m = (IZR (m_gridSize m) - 1) * (1 / 2).
Proof.
  intros Hr. pose proof (reachable_settings _ _ Hr) as (_ & _ & Hfit).
  assert (H : m_gridSize m = initializeGrid_size (m_settings m) /\
              m_gridCenter m = (IZR (m_gridSize m) - 1) * (1 / 2) /\
              length (m_logOdds m) = Z.to_nat (m_gridSize m * m_gridSize m)).
  { clear Hfit.
    induction Hr as [ s _ | m s _ _ _ | m points _ IH | m _ IH ].
    - unfold new, configured. cbn. now rewrite length_replicate.
    - unfold applySettings, configured. cbn. now rewrite length_replicate.
    - pose proof (update_config m points) as Hc. unfold config in Hc.
      injection Hc as Hs Hg Hgc _ _ _.
      now rewrite update_length, Hs, Hg, Hgc.
    - unfold reset. cbn. now rewrite length_map. }
  destruct H as (Hg & Hc & Hl).
  split; [| split; assumption].
  unfold gridChecked.shaped. rewrite Hg at 1 2 3.
  split; [unfold initializeGrid_size; lia |]. split; [exact Hfit |].
  rewrite Hl, Hg. reflexivity.
Qed.

(** X13.  On every grid that the constructor, [applySettings],
    [update] and [reset] produce from settings for which
    [initializeGrid] is defined (a cell size that is not zero, a number
    of cells per side and a number of cells that are values of [int]):
    the grid has at least 3 cells per side, the side and the centre are
    those that [initializeGrid] computes from the current settings, the
    number of cells is a value of [int], and the cell vector holds side
    times side values; the current settings are such settings, and
    they are the only ones for which the conversions and the product
    of [initializeGrid] are in range.  No function reads or writes
    [m_logOdds] outside the vector: [updateCell] on a cell [(ix, iy)]
    of the grid, with its index computed in [int], gives the cell
    update of [FusedRadarMapping.updateCell]; [update], for any
    points, gives the grid of [FusedRadarMapping.update], unless the
    conversion of a cell coordinate to [int] is out of range (then the
    outcome is that fault, never an access outside the vector); and
    [occupiedCells] gives the list of
    [FusedRadarMapping.occupiedCells]. *)
Theorem X13_grid_shape_and_cell_indices m :
  reachable gridChecked.gridFits m ->
  (3 <= m_gridSize m)%Z /\
  m_gridSize m = initializeGrid_size (m_settings m) /\
  m_gridCenter m = (IZR (m_gridSize m) - 1) * (1 / 2) /\
  (m_gridSize m * m_gridSize m <= gridChecked.INT_MAX)%Z /\
  length (m_logOdds m) = Z.to_nat (m_gridSize m * m_gridSize m) /\
  gridChecked.gridFits (m_settings m) /\
  (forall s,
     gridChecked.gridFits s
     <-> gridChecked.configured s = gridChecked.Done (configured s)) /\
  (forall ix iy delta,
     (0 <= ix < m_gridSize m)%Z -> (0 <= iy < m_gridSize m)%Z ->
     gridChecked.updateCell m ix iy delta
     = gridChecked.Done (updateCell m ix iy delta)) /\
  (forall points,
     gridChecked.update m points = gridChecked.Done (update m points) \/
     gridChecked.update m points = gridChecked.NotAnInt) /\
  gridChecked.occupiedCells m = gridChecked.Done (occupiedCells m).
Proof.
  intros Hr.
  pose proof (reachable_settings _ _ Hr) as Hfit.
  destruct (reachable_shaped m Hr) as (Hs & Hg & Hc).
  pose proof Hs as (H3 & Hmax & Hlen).
  split; [exact H3 |]. split; [exact Hg |]. split; [exact Hc |].
  split; [exact Hmax |]. split; [exact Hlen |].
  split; [exact Hfit |]. split; [exact configured_done |].
  split; [intros ix iy delta Hx Hy; now apply updateCell_in_grid |].
  split; [intros points; now apply update_agrees |].
  now apply occupiedCells_done.
Qed.

End GridChecked.

Lemma freespaceOnly_side :
  radar.FusedRadarMapping.initializeGrid_size gridMore.freespaceOnly = 240%Z.
Proof.
  unfold radar.FusedRadarMapping.initializeGrid_size. cbn. unfold ceilZ.
  replace (Int_part (- (60 * 2 / (1 / 2)))) with (-240)%Z; [reflexivity |].
  apply Int_part_spec. lra.
Qed.

Lemma freespaceOnly_fits : gridChecked.gridFits gridMore.freespaceOnly.
Proof.
  pose proof freespaceOnly_side as Hside.
  unfold gridChecked.gridFits. rewrite Hside.
  unfold radar.FusedRadarMapping.initializeGrid_size in Hside.
  split; [cbn; lra |].
  unfold gridChecked.INT_MIN, gridChecked.INT_MAX. lia.
Qed.

Lemma freespaceOnly_update_done :
  gridChecked.update (radar.FusedRadarMapping.new gridMore.freespaceOnly)
    [gridMore.pointAhead]
  = gridChecked.Done
      (radar.FusedRadarMapping.update
         (radar.FusedRadarMapping.new gridMore.freespaceOnly) [gridMore.pointAhead]).
Proof.
  apply (update_freespace_done _ _ 200).
  - apply reachable_shaped. apply gridSpec.reach_new. exact freespaceOnly_fits.
  - cbn. lra.
  - reflexivity.
  - cbn. lra.
  - intros v Hv.
    unfold radar.FusedRadarMapping.toIndex, radar.FusedRadarMapping.new,
      radar.FusedRadarMapping.configured.
    cbn [radar.FusedRadarMapping.m_settings radar.FusedRadarMapping.m_gridCenter].
    rewrite freespaceOnly_side.
    unfold gridChecked.INT_MIN, gridChecked.INT_MAX. cbn. lra.
  - constructor; [| constructor]. cbn. rewrite Rabs_R0. lra.
Qed.

(** The grid of 240 cells per side with occupancy mapping disabled,
    and a valid return 10 m ahead of a sensor at the origin. *)
Lemma X13_grid_shape_witness :
  gridSpec.reachable gridChecked.gridFits
    (radar.FusedRadarMapping.new gridMore.freespaceOnly) /\
  (3 <= radar.FusedRadarMapping.m_gridSize
          (radar.FusedRadarMapping.new gridMore.freespaceOnly))%Z /\
  gridChecked.updateCell (radar.FusedRadarMapping.new gridMore.freespaceOnly) 2 1 1
  = gridChecked.Done
      (radar.FusedRadarMapping.updateCell
         (radar.FusedRadarMapping.new gridMore.freespaceOnly) 2 1 1) /\
  gridChecked.update (radar.FusedRadarMapping.new gridMore.freespaceOnly)
    [gridMore.pointAhead]
  = gridChecked.Done
      (radar.FusedRadarMapping.update
         (radar.FusedRadarMapping.new gridMore.freespaceOnly) [gridMore.pointAhead]) /\
  gridChecked.occupiedCells (radar.FusedRadarMapping.new gridMore.freespaceOnly)
  = gridChecked.Done
      (radar.FusedRadarMapping.occupiedCells
         (radar.FusedRadarMapping.new gridMore.freespaceOnly)).
Proof.
  assert (Hr : gridSpec.reachable gridChecked.gridFits
                 (radar.FusedRadarMapping.new gridMore.freespaceOnly))
    by (apply gridSpec.reach_new; exact freespaceOnly_fits).
  destruct (X13_grid_shape_and_cell_indices _ Hr)
    as (H3 & _ & _ & _ & _ & _ & _ & Hcell & Hupd & Hocc).
  split; [exact Hr |]. split; [exact H3 |].
  split; [apply Hcell; lia |]. split; [| exact Hocc].
  destruct (Hupd [gridMore.pointAhead]) as [H | H]; [exact H |].
  rewrite freespaceOnly_update_done in H. discriminate H.
Defined.

Lemma Settings_default_cellSize :
  radar.FusedRadarMapping.cellSize
    (radar.FusedRadarMapping.m_settings
       (radar.FusedRadarMapping.new radar.FusedRadarMapping.Settings_default)) <> 0.
Proof. cbn. lra. Qed.

Lemma X15_cellCenter_witness :
  radar.FusedRadarMapping.cellSize
    (radar.FusedRadarMapping.m_settings
       (radar.FusedRadarMapping.new radar.FusedRadarMapping.Settings_default)) <> 0 /\
  forall c,
    c ∈ radar.FusedRadarMapping.occupiedCells
          (radar.FusedRadarMapping.new radar.FusedRadarMapping.Settings_default) ->
    exists ix iy,
      c = radar.FusedRadarMapping.cellCenter
            (radar.FusedRadarMapping.new radar.FusedRadarMapping.Settings_default)
            ix iy /\
      radar.FusedRadarMapping.worldToCell
        (radar.FusedRadarMapping.new radar.FusedRadarMapping.Settings_default) c
      = (true, ix, iy) /\
      radar.FusedRadarMapping.occupiedThreshold
        (radar.FusedRadarMapping.m_settings
           (radar.FusedRadarMapping.new radar.FusedRadarMapping.Settings_default))
      <= gridMore.cellValue
           (radar.FusedRadarMapping.new radar.FusedRadarMapping.Settings_default)
           ix iy.
Proof.
  split; [apply Settings_default_cellSize |].
  apply (proj2 (X15_worldToCell_inverts_cellCenter
                  (radar.FusedRadarMapping.new
                     radar.FusedRadarMapping.Settings_default)
                  Settings_default_cellSize)).
Defined.

Lemma X16_update_skips_witness :
  Forall (gridMore.skippedPoint
            (radar.FusedRadarMapping.m_settings
               (radar.FusedRadarMapping.new radar.FusedRadarMapping.Settings_default)))
    [radar.RadarPoint_default] /\
  radar.FusedRadarMapping.update
    (radar.FusedRadarMapping.new radar.FusedRadarMapping.Settings_default)
    [radar.RadarPoint_default]
  = radar.FusedRadarMapping.new radar.FusedRadarMapping.Settings_default.
Proof.
  assert (H : Forall (gridMore.skippedPoint
                        (radar.FusedRadarMapping.m_settings
                           (radar.FusedRadarMapping.new
                              radar.FusedRadarMapping.Settings_default)))
                [radar.RadarPoint_default]).
  { constructor; [| constructor]. left. split; reflexivity. }
  split; [exact H |].
  apply (X16_update_skips_invalid_and_near_points _ _ H).
Defined.


(* ===================================================================== *)
(** * Further properties of the virtual ring *)
(* ===================================================================== *)

Section RingMore.
Import radar.RadarVirtualSensorMapping ringMore.

(** *** What [update] changes *)

Lemma foldM_preserves {A B : Type} (P : A -> Prop) (f : A -> B -> option A)
  (l : list B) (a a' : A) :
  (forall a b a', P a -> f a b = Some a' -> P a') ->
  P a -> foldM f l a = Some a' -> P a'.
Proof.
  intros Hstep. revert a.
  induction l as [| b l IH]; intros a Ha; simpl.
  - now intros [= <-].
  - destruct (f a b) as [a1 |] eqn:E; [| discriminate].
    apply IH. eapply Hstep; eauto.
Qed.

Lemma sameButEnds_refl m : sameButEnds m m.
Proof. unfold sameButEnds. auto 10. Qed.

Lemma sameButEnds_trans m1 m2 m3 :
  sameButEnds m1 m2 -> sameButEnds m2 m3 -> sameButEnds m1 m3.
Proof.
  unfold sameButEnds.
  intros (A1 & A2 & A3 & A4 & A5 & A6 & A7) (B1 & B2 & B3 & B4 & B5 & B6 & B7).
  repeat split; congruence.
Qed.

Lemma sameButEnds_resetSegments m : sameButEnds m (resetSegments m).
Proof.
  unfold sameButEnds, resetSegments. cbn. rewrite length_map. auto 10.
Qed.

Lemma shrinkEnd_updating m0 m idx distance m' :
  updating m0 m -> shrinkEnd m idx distance = Some m' -> updating m0 m'.
Proof.
  intros [Hsame Hends]. unfold shrinkEnd.
  destruct (m_segmentStartDist m !! idx) as [s0 |] eqn:Es; [| discriminate].
  destruct (Rleb distance (s0 + kEpsilon)) eqn:Ed; [now intros [= <-] |].
  destruct (m_segmentEndDist m !! idx) as [e0 |] eqn:Ee; [| discriminate].
  destruct (lt_efloat distance e0); [| now intros [= <-]].
  intros [= <-]. apply Rleb_false in Ed. split.
  - eapply sameButEnds_trans; [exact Hsame |].
    unfold sameButEnds. cbn. rewrite length_insert. auto 10.
  - intros i d. cbn.
    destruct (decide (i = idx)) as [-> | Hne].
    + rewrite list_lookup_insert_eq by (apply lookup_lt_Some in Ee; exact Ee).
      intros [= <-]. exists s0. split; [exact Es | lra].
    + rewrite list_lookup_insert_ne by congruence. apply Hends.
Qed.

Lemma updateDetection_updating m0 m point m' :
  updating m0 m -> updateDetection m point = Some m' -> updating m0 m'.
Proof.
  intros H. unfold updateDetection.
  destruct (Rleb _ kEpsilon); [now intros [= <-] |].
  now apply shrinkEnd_updating.
Qed.

Lemma updateFootprintSegment_updating footprint m0 m i m' :
  updating m0 m -> updateFootprintSegment footprint m i = Some m' -> updating m0 m'.
Proof.
  intros H. unfold updateFootprintSegment.
  destruct (m_segmentDirections m !! i) as [d |]; [| discriminate].
  destruct (polygonRayDistance _ d footprint) as [distance |]; [| now intros [= <-]].
  destruct (Rleb distance kEpsilon); [now intros [= <-] |].
  now apply shrinkEnd_updating.
Qed.

Lemma resetSegments_updating m : updating m (resetSegments m).
Proof.
  split; [apply sameButEnds_resetSegments |].
  intros i d. unfold resetSegments. cbn. rewrite list_lookup_fmap.
  destruct (m_segmentEndDist m !! i); discriminate.
Qed.

Lemma update_updating m detections trackFootprints m' :
  update m detections trackFootprints = Some m' -> updating m m'.
Proof.
  unfold update.
  pose proof (resetSegments_updating m) as H0.
  destruct (negb (m_ready (resetSegments m))); [now intros [= <-] |].
  destruct (foldM updateDetection detections (resetSegments m)) as [m1 |] eqn:E1;
    [| discriminate].
  assert (H1 : updating m m1).
  { eapply (foldM_preserves (updating m)); [| exact H0 | exact E1].
    intros a b a' Ha Hb. eapply updateDetection_updating; eauto. }
  intros E2.
  eapply (foldM_preserves (updating m)); [| exact H1 | exact E2].
  intros a fp a' Ha Hfp. cbn in Hfp.
  eapply (foldM_preserves (updating m)); [| exact Ha | exact Hfp].
  intros a1 i a2 Ha1 Hi. eapply updateFootprintSegment_updating; eauto.
Qed.

(** X19.  On a ring that the public methods have produced, [update]
    runs to its end and changes nothing but the end distances: contour,
    centre, segment count, directions, start distances and readiness
    are those of before the call.  After it every end distance that is
    finite lies beyond the start distance of its segment by more than
    [kEpsilon]: the free range of a segment never ends inside the
    vehicle contour. *)
Theorem X19_update_changes_only_the_end_distances m detections trackFootprints :
  ringReachable m ->
  exists m',
    update m detections trackFootprints = Some m' /\
    sameButEnds m m' /\
    (forall i d,
        m_segmentEndDist m' !! i = Some (Finite d) ->
        exists s, m_segmentStartDist m !! i = Some s /\ s + kEpsilon < d).
Proof.
  intros Hr.
  destruct (update_total m detections trackFootprints (ringReachable_inv m Hr))
    as [m' [Hupd _]].
  exists m'. split; [exact Hupd |].
  destruct (update_updating _ _ _ _ Hupd) as [Hsame Hends].
  split; [exact Hsame |].
  intros i d Hd. destruct (Hends i d Hd) as [s [Hs Hlt]].
  destruct Hsame as (_ & _ & _ & _ & Hstart & _). rewrite Hstart in Hs. eauto.
Qed.

Lemma map_const_length {A B : Type} (c : B) (l l' : list A) :
  length l = length l' -> map (fun _ => c) l = map (fun _ => c) l'.
Proof.
  revert l'. induction l as [| a l IH]; intros [| a' l'] H; try discriminate.
  - reflexivity.
  - cbn. f_equal. apply IH. now injection H.
Qed.

Lemma sameButEnds_resetSegments_eq m m' :
  sameButEnds m m' -> resetSegments m' = resetSegments m.
Proof.
  intros (H1 & H2 & H3 & H4 & H5 & H6 & H7). unfold resetSegments.
  rewrite H1, H2, H3, H4, H5, H6. f_equal. now apply map_const_length.
Qed.

(** X20.  [update] has no memory: it starts from end distances at
    infinity, so the ring after a frame depends on the detections and
    footprints of that frame only.  Updating the ring that an earlier
    [update] or a [reset] has left gives the same result as updating
    the ring before it. *)
Theorem X20_update_forgets_the_previous_frame
  m detections0 trackFootprints0 m' detections trackFootprints :
  update m detections0 trackFootprints0 = Some m' ->
  update m' detections trackFootprints = update m detections trackFootprints /\
  update (reset m) detections trackFootprints = update m detections trackFootprints.
Proof.
  intros Hupd.
  destruct (update_updating _ _ _ _ Hupd) as [Hsame _].
  split; unfold update.
  - now rewrite (sameButEnds_resetSegments_eq m m' Hsame).
  - unfold reset.
    now rewrite (sameButEnds_resetSegments_eq m (resetSegments m)
                   (sameButEnds_resetSegments m)).
Qed.

(** *** Readiness, directions and start distances *)

Lemma contourStartDists_nonneg contour center count directions startDist :
  Forall (fun s => 0 <= s) startDist ->
  Forall (fun s => 0 <= s)
    (contourStartDists contour center count directions startDist).
Proof.
  unfold contourStartDists. generalize (seq 0 count) as idx.
  intros idx. revert startDist.
  induction idx as [| i idx IH]; intros startDist H; simpl; [exact H |].
  apply IH.
  destruct (decide (i < length startDist)%nat) as [Hi | Hi].
  - apply Forall_insert; [exact H | apply Rmax_l].
  - rewrite list_insert_ge by lia. exact H.
Qed.

Lemma ringShape_setVehicleContour m contour :
  ringShape m -> ringShape (setVehicleContour m contour).
Proof.
  intros (Hready & Hdir & Hstart). unfold setVehicleContour.
  destruct (Nat.ltb_spec (length contour) 3) as [Hlt | Hge];
    [repeat split; assumption |].
  unfold ringShape. cbn -[Nat.leb contourStartDists].
  split; [symmetry; now apply Nat.leb_le |].
  split; [exact Hdir | now apply contourStartDists_nonneg].
Qed.

Lemma ringShape_setSegmentCount m count :
  ringShape m -> ringShape (snd (setSegmentCount m count)).
Proof.
  intros Hm. unfold setSegmentCount.
  destruct (Nat.eqb (Nat.max 3 count) (m_segmentCount m) && _); [exact Hm |].
  destruct (Nat.leb_spec 3 (length (m_vehicleContour m))) as [Hge | Hlt]; cbn [snd].
  - unfold setVehicleContour. cbn [m_vehicleContour].
    replace (length (m_vehicleContour m) <? 3)%nat with false
      by (symmetry; apply Nat.ltb_ge; exact Hge).
    unfold ringShape.
    cbn -[Nat.leb contourStartDists Nat.max segmentDirection seq replicate].
    split; [symmetry; now apply Nat.leb_le |].
    split; [reflexivity |].
    apply contourStartDists_nonneg, Forall_replicate. lra.
  - unfold ringShape.
    cbn -[Nat.leb contourStartDists Nat.max segmentDirection seq replicate].
    split; [symmetry; apply Nat.leb_gt; exact Hlt |].
    split; [reflexivity |].
    apply Forall_replicate. lra.
Qed.

Lemma ringShape_new : ringShape new.
Proof.
  unfold new, setSegmentCount.
  replace (Nat.eqb (Nat.max 3 kDefaultSegmentCount) (m_segmentCount blank)
           && negb (Nat.eqb (length (m_segmentDirections blank)) 0))
    with false by reflexivity.
  replace (Nat.leb 3 (length (m_vehicleContour blank))) with false by reflexivity.
  unfold ringShape.
  cbn -[Nat.leb Nat.max segmentDirection seq replicate kDefaultSegmentCount].
  split; [reflexivity |]. split; [reflexivity |].
  apply Forall_replicate. lra.
Qed.

Lemma ringShape_sameButEnds m m' : sameButEnds m m' -> ringShape m -> ringShape m'.
Proof.
  intros (H1 & H2 & H3 & H4 & H5 & H6 & H7) (Hr & Hd & Hs).
  unfold ringShape. now rewrite H1, H3, H4, H5, H6.
Qed.

Lemma ringReachable_shape m : ringReachable m -> ringShape m.
Proof.
  induction 1 as [ | m count _ IH | m contour _ IH
                 | m dets fps m' _ IH Hupd | m _ IH ].
  - apply ringShape_new.
  - now apply ringShape_setSegmentCount.
  - now apply ringShape_setVehicleContour.
  - destruct (update_updating _ _ _ _ Hupd) as [Hsame _].
    eapply ringShape_sameButEnds; eauto.
  - eapply ringShape_sameButEnds; [apply sameButEnds_resetSegments | exact IH].
Qed.

(** X21.  On a ring that the public methods have produced: the ring is
    ready exactly when it holds a contour of at least three points
    ([setVehicleContour] ignores a shorter one and keeps what it had);
    [ring] returns no point when the ring is not ready or the fallback
    range is not positive, and one point per segment otherwise. *)
Theorem X21_ring_is_ready_when_it_has_a_contour m :
  ringReachable m ->
  (m_ready m = true <-> (3 <= length (m_vehicleContour m))%nat) /\
  (forall contour,
      (length contour < 3)%nat -> setVehicleContour m contour = m) /\
  (forall fallbackRange,
      m_ready m = false \/ fallbackRange <= 0 -> ring m fallbackRange = []) /\
  (forall fallbackRange,
      m_ready m = true -> 0 < fallbackRange ->
      length (ring m fallbackRange) = segmentCount m).
Proof.
  intros Hr. destruct (ringReachable_shape m Hr) as (Hready & _ & _).
  split; [rewrite Hready; apply Nat.leb_le |].
  split.
  { intros contour Hlt. unfold setVehicleContour.
    apply Nat.ltb_lt in Hlt. now rewrite Hlt. }
  split.
  - intros fb [Hn | Hfb]; unfold ring.
    + now rewrite Hn.
    + rewrite (proj2 (Rleb_true _ _)) by exact Hfb.
      now rewrite orb_true_r.
  - intros fb Ht Hfb. unfold ring, segmentCount.
    rewrite Ht, (proj2 (Rleb_false _ _)) by lra.
    cbn [negb orb]. now rewrite length_map, length_seq.
Qed.

(** *** The centre rays *)

Lemma segmentAngle_fraction (count i : nat) :
  (i < count)%nat ->
  segmentAngle count i / two_pi = (INR i + 1 / 2) / INR count /\
  0 <= (INR i + 1 / 2) / INR count < 1.
Proof.
  intros Hi. pose proof two_pi_pos as Hp.
  assert (Hc : 0 < INR count) by (apply lt_0_INR; lia).
  assert (Hn : 0 <= INR i) by apply pos_INR.
  assert (Hle : INR i + 1 <= INR count).
  { rewrite <- S_INR. apply le_INR. lia. }
  split; [unfold segmentAngle; field; lra |].
  split.
  - apply Rmult_le_pos; [lra |]. left. now apply Rinv_0_lt_compat.
  - apply (Rmult_lt_reg_r (INR count)); [exact Hc |].
    replace ((INR i + 1 / 2) / INR count * INR count) with (INR i + 1 / 2)
      by (field; lra).
    lra.
Qed.

Lemma normalizeAngle_segmentAngle (count i : nat) :
  (i < count)%nat -> normalizeAngle (segmentAngle count i) = segmentAngle count i.
Proof.
  intros Hi. destruct (segmentAngle_fraction count i Hi) as [Hf [H0 H1]].
  pose proof two_pi_pos as Hp.
  unfold normalizeAngle, fmod.
  rewrite (truncZ_between (segmentAngle count i / two_pi) 0).
  - rewrite Rmult_0_r, Rminus_0_r.
    assert (0 <= segmentAngle count i).
    { replace (segmentAngle count i)
        with (segmentAngle count i / two_pi * two_pi) by (field; lra).
      rewrite Hf. apply Rmult_le_pos; lra. }
    now rewrite (proj2 (Rltb_false _ _)) by lra.
  - rewrite Hf. exact H0.
  - rewrite Hf. cbn. lra.
Qed.

(** X22.  On a ring that the public methods have produced, the
    direction of segment [i] is the unit vector at the angle
    [(i + 1/2) * 2 pi / count], and [segmentIndex] maps that angle back
    to [i]: a detection on the centre ray of a segment is binned into
    that segment. *)
Theorem X22_segment_directions_are_the_centre_rays m i :
  ringReachable m ->
  (i < segmentCount m)%nat ->
  m_segmentDirections m !! i
  = Some (mkVec2 (cos (segmentAngle (segmentCount m) i))
                 (sin (segmentAngle (segmentCount m) i))) /\
  vlength (default vzero (m_segmentDirections m !! i)) = 1 /\
  segmentIndex m (segmentAngle (segmentCount m) i) = i.
Proof.
  intros Hr Hi. unfold segmentCount in *.
  destruct (ringReachable_shape m Hr) as (_ & Hdir & _).
  assert (Hlook : m_segmentDirections m !! i
                  = Some (mkVec2 (cos (segmentAngle (m_segmentCount m) i))
                                 (sin (segmentAngle (m_segmentCount m) i)))).
  { rewrite Hdir, list_lookup_fmap, lookup_seq_lt by exact Hi. reflexivity. }
  split; [exact Hlook |]. split.
  - rewrite Hlook. unfold vlength. cbn.
    replace (cos _ * cos _ + sin _ * sin _) with 1; [apply sqrt_1 |].
    pose proof (sin2_cos2 (segmentAngle (m_segmentCount m) i)) as H.
    unfold Rsqr in H. lra.
  - unfold segmentIndex.
    replace (Nat.eqb (m_segmentCount m) 0) with false
      by (symmetry; apply Nat.eqb_neq; lia).
    rewrite normalizeAngle_segmentAngle by exact Hi.
    destruct (segmentAngle_fraction _ i Hi) as [Hf [H0 H1]].
    rewrite Hf.
    assert (Hc : 0 < INR (m_segmentCount m)) by (apply lt_0_INR; lia).
    replace ((INR i + 1 / 2) / INR (m_segmentCount m) * INR (m_segmentCount m))
      with (INR i + 1 / 2) by (field; lra).
    unfold to_size_t.
    rewrite (truncZ_between (INR i + 1 / 2) (Z.of_nat i)).
    + rewrite Nat2Z.id. lia.
    + pose proof (pos_INR i). lra.
    + rewrite <- INR_IZR_INZ. lra.
Qed.

(** *** The points of the ring *)

Lemma vlength_ray (c : vec2) (a L : R) :
  0 <= L -> vlength (vsub (vadd c (vscale (mkVec2 (cos a) (sin a)) L)) c) = L.
Proof.
  intros HL. unfold vlength, vsub, vadd, vscale. cbn.
  replace ((vx c + cos a * L - vx c) * (vx c + cos a * L - vx c)
           + (vy c + sin a * L - vy c) * (vy c + sin a * L - vy c))
    with (L * L).
  - now apply sqrt_square.
  - pose proof (sin2_cos2 a) as H. unfold Rsqr in H.
    replace ((vx c + cos a * L - vx c) * (vx c + cos a * L - vx c)
             + (vy c + sin a * L - vy c) * (vy c + sin a * L - vy c))
      with (L * L * (sin a * sin a + cos a * cos a)) by ring.
    rewrite H. ring.
Qed.

(** X23.  On a ring that the public methods have produced, that is
    ready, and for a positive fallback range: [segments] and [ring]
    return one entry per segment; the end of segment [i] is point [i]
    of the ring.  With [ray] the unit vector at the angle
    [(i + 1/2) * 2 pi / segmentCount] of the centre ray of segment [i]:
    the start of the segment is the point [center + ray * startDist],
    and the ring point is the point [center + ray * reach], where
    [reach] is the end distance of the segment cut down to the fallback
    range (the fallback range itself while the end distance is
    infinite) and raised to the start distance.  Hence the start of
    the segment is at the start distance from the centre, and the ring
    point is at the distance [reach], which is at least the start
    distance and at most the larger of the start distance and the
    fallback range. *)
Theorem X23_ring_points_lie_between_start_and_fallback m fallbackRange i :
  ringReachable m ->
  m_ready m = true ->
  0 < fallbackRange ->
  (i < segmentCount m)%nat ->
  let angle := segmentAngle (segmentCount m) i in
  let ray := mkVec2 (cos angle) (sin angle) in
  let startDist := default 0 (m_segmentStartDist m !! i) in
  let reach :=
    Rmax (match default PosInf (m_segmentEndDist m !! i) with
          | Finite endDist => Rmin endDist fallbackRange
          | PosInf => fallbackRange
          end) startDist in
  exists segment point,
    segments m fallbackRange !! i = Some segment /\
    ring m fallbackRange !! i = Some point /\
    seg_end segment = point /\
    vlength (vsub (seg_start segment) (m_vehicleCenter m))
    = default 0 (m_segmentStartDist m !! i) /\
    default 0 (m_segmentStartDist m !! i)
    <= vlength (vsub point (m_vehicleCenter m))
    <= Rmax (default 0 (m_segmentStartDist m !! i)) fallbackRange /\
    seg_start segment = vadd (m_vehicleCenter m) (vscale ray startDist) /\
    point = vadd (m_vehicleCenter m) (vscale ray reach) /\
    vlength (vsub point (m_vehicleCenter m)) = reach.
Proof.
  intros Hr Hready Hfb Hi angle ray startDist reach.
  subst angle ray startDist reach. unfold segmentCount in *.
  destruct (ringReachable_shape m Hr) as (_ & Hdir & Hstart).
  assert (Hlook : m_segmentDirections m !! i
                  = Some (mkVec2 (cos (segmentAngle (m_segmentCount m) i))
                                 (sin (segmentAngle (m_segmentCount m) i)))).
  { rewrite Hdir, list_lookup_fmap, lookup_seq_lt by exact Hi. reflexivity. }
  assert (Hs : 0 <= default 0 (m_segmentStartDist m !! i)).
  { destruct (m_segmentStartDist m !! i) as [s |] eqn:E; cbn; [| lra].
    rewrite Forall_forall in Hstart. apply Hstart.
    eapply list_elem_of_lookup_2. exact E. }
  unfold segments, ring.
  rewrite Hready, (proj2 (Rleb_false _ _)) by lra. cbn [negb orb].
  rewrite !list_lookup_fmap, lookup_seq_lt by exact Hi. cbn [fmap option_fmap option_map Nat.add].
  eexists. eexists. split; [reflexivity |]. split; [reflexivity |].
  cbn [seg_end seg_start]. split; [reflexivity |].
  rewrite Hlook. cbn [default Datatypes.id].
  set (s := default 0 (m_segmentStartDist m !! i)) in *.
  set (L := Rmax _ s).
  assert (HL : s <= L <= Rmax s fallbackRange).
  { subst L. destruct (default PosInf (m_segmentEndDist m !! i)) as [e |];
      unfold Rmax, Rmin; repeat destruct (Rle_dec _ _); lra. }
  rewrite !vlength_ray by lra.
  split; [reflexivity |]. split; [exact HL |].
  split; [reflexivity |]. split; reflexivity.
Qed.

(** *** Ray against segment *)

Lemma nearestHit_step_nonneg origin direction a b (best : efloat) :
  (forall x, best = Finite x -> 0 <= x) ->
  forall x,
    match raySegmentIntersection origin direction a b with
    | Some t => min_efloat best t
    | None => best
    end = Finite x -> 0 <= x.
Proof.
  intros Hbest x. unfold raySegmentIntersection.
  destruct (Rltb _ kEpsilon); [apply Hbest |].
  match goal with
  | |- match (if ?c then _ else _) with _ => _ end = _ -> _ =>
      destruct c eqn:Ec; [| apply Hbest]
  end.
  apply andb_prop in Ec as [Ec _]. apply andb_prop in Ec as [Et _].
  apply Rleb_true in Et.
  destruct best as [b0 |]; cbn; intros [= <-]; [| exact Et].
  specialize (Hbest b0 eq_refl).
  unfold Rmin. destruct (Rle_dec _ _); lra.
Qed.

Lemma nearestHit_nonneg origin direction polygon x :
  nearestHit origin direction polygon = Finite x -> 0 <= x.
Proof.
  unfold nearestHit. generalize (seq 0 (length polygon)) as idx.
  intros idx.
  assert (H0 : forall x, PosInf = Finite x -> 0 <= x) by discriminate.
  revert H0. generalize PosInf as best. revert x.
  induction idx as [| i idx IH]; intros x best Hbest; simpl.
  - apply Hbest.
  - apply IH. intros y. apply nearestHit_step_nonneg. exact Hbest.
Qed.

(** X24.  [raySegmentIntersection] reports exactly the crossing of the
    ray with the segment.  When it returns [true], the parameter [t] is
    not negative and the point [origin + t * direction] is the point
    [a + u * (b - a)] of the segment for some [u] in [0, 1].
    Conversely, when the ray and the segment are not close to parallel
    (the cross product of their directions is at least [kEpsilon] in
    absolute value), every such crossing is reported with its [t].
    Hence the distances of [contourRayDistance] are never negative. *)
Theorem X24_raySegmentIntersection_is_the_crossing origin direction a b :
  (forall t,
      raySegmentIntersection origin direction a b = Some t ->
      0 <= t /\
      exists u, 0 <= u <= 1 /\
        vadd origin (vscale direction t) = vadd a (vscale (vsub b a) u)) /\
  (forall t u,
      kEpsilon <= Rabs (cross2 direction (vsub b a)) ->
      0 <= t -> 0 <= u <= 1 ->
      vadd origin (vscale direction t) = vadd a (vscale (vsub b a) u) ->
      raySegmentIntersection origin direction a b = Some t) /\
  (forall contour, 0 <= contourRayDistance contour origin direction).
Proof.
  split; [| split].
  - intros t. unfold raySegmentIntersection.
    destruct (Rltb _ kEpsilon) eqn:Ed; [discriminate |].
    apply Rltb_false in Ed.
    match goal with
    | |- (if ?c then _ else _) = _ -> _ => destruct c eqn:Ec; [| discriminate]
    end.
    apply andb_prop in Ec as [Ec Eu1]. apply andb_prop in Ec as [Et Eu0].
    intros [= <-].
    apply Rleb_true in Et, Eu0, Eu1.
    split; [exact Et |].
    eexists. split; [split; [exact Eu0 | exact Eu1] |].
    assert (Hden : cross2 direction (vsub b a) <> 0).
    { intros H0. rewrite H0, Rabs_R0 in Ed. unfold kEpsilon in Ed. lra. }
    unfold cross2, vsub, vadd, vscale in *. cbn in *.
    f_equal; field; exact Hden.
  - intros t u Hden Ht Hu Heq. unfold raySegmentIntersection.
    rewrite (proj2 (Rltb_false _ _)) by lra.
    assert (Hne : cross2 direction (vsub b a) <> 0).
    { intros H0. rewrite H0, Rabs_R0 in Hden. unfold kEpsilon in Hden. lra. }
    unfold cross2, vsub, vadd, vscale in *. cbn in *.
    injection Heq as Hx Hy.
    set (den := vx direction * (vy b - vy a) - vy direction * (vx b - vx a)) in *.
    assert (Et : ((vx a - vx origin) * (vy b - vy a)
                  - (vy a - vy origin) * (vx b - vx a)) / den = t).
    { apply (Rmult_eq_reg_r den); [| exact Hne].
      replace (((vx a - vx origin) * (vy b - vy a)
                - (vy a - vy origin) * (vx b - vx a)) / den * den)
        with ((vx a - vx origin) * (vy b - vy a)
              - (vy a - vy origin) * (vx b - vx a)) by (field; exact Hne).
      subst den. nra. }
    assert (Eu : ((vx a - vx origin) * vy direction
                  - (vy a - vy origin) * vx direction) / den = u).
    { apply (Rmult_eq_reg_r den); [| exact Hne].
      replace (((vx a - vx origin) * vy direction
                - (vy a - vy origin) * vx direction) / den * den)
        with ((vx a - vx origin) * vy direction
              - (vy a - vy origin) * vx direction) by (field; exact Hne).
      subst den. nra. }
    rewrite Et, Eu.
    rewrite (proj2 (Rleb_true 0 t)) by lra.
    rewrite (proj2 (Rleb_true 0 u)) by lra.
    now rewrite (proj2 (Rleb_true u 1)) by lra.
  - intros contour. unfold contourRayDistance.
    destruct (Nat.ltb _ 3); [lra |].
    destruct (nearestHit origin direction contour) as [best |] eqn:E; [| lra].
    eapply nearestHit_nonneg. exact E.
Qed.

End RingMore.

(** ** Instances on the ring of three segments *)

Lemma ring3_reachable : ringReachable ringExample.ring3.
Proof. apply rr_setVehicleContour, rr_setSegmentCount, rr_new. Qed.

Lemma ring3_ready : radar.RadarVirtualSensorMapping.m_ready ringExample.ring3 = true.
Proof. reflexivity. Qed.

Lemma ring3_segmentCount :
  (1 < radar.RadarVirtualSensorMapping.segmentCount ringExample.ring3)%nat.
Proof. rewrite ring3_unfold. cbn. lia. Qed.

Lemma X19_update_witness :
  ringReachable ringExample.ring3 /\
  exists m',
    radar.RadarVirtualSensorMapping.update ringExample.ring3
      [ringExample.detection] [] = Some m' /\
    ringMore.sameButEnds ringExample.ring3 m'.
Proof.
  split; [apply ring3_reachable |].
  destruct (X19_update_changes_only_the_end_distances ringExample.ring3
              [ringExample.detection] [] ring3_reachable)
    as (m' & Hupd & Hsame & _).
  exists m'. auto.
Defined.

Lemma X20_update_forgets_witness :
  radar.RadarVirtualSensorMapping.update ringExample.ring3 [ringExample.detection] []
  = Some (radar.RadarVirtualSensorMapping.set_endDist
            (radar.RadarVirtualSensorMapping.resetSegments ringExample.ring3)
            [PosInf; Finite 5; PosInf]) /\
  radar.RadarVirtualSensorMapping.update
    (radar.RadarVirtualSensorMapping.set_endDist
       (radar.RadarVirtualSensorMapping.resetSegments ringExample.ring3)
       [PosInf; Finite 5; PosInf]) [] []
  = radar.RadarVirtualSensorMapping.update ringExample.ring3 [] [].
Proof.
  split; [apply update_ring3 |].
  apply (proj1 (X20_update_forgets_the_previous_frame ringExample.ring3
                  [ringExample.detection] [] _ [] [] update_ring3)).
Defined.

Lemma X21_ready_witness :
  ringReachable ringExample.ring3 /\
  (radar.RadarVirtualSensorMapping.m_ready ringExample.ring3 = true <->
   (3 <= length (radar.RadarVirtualSensorMapping.m_vehicleContour
                   ringExample.ring3))%nat).
Proof.
  split; [apply ring3_reachable |].
  apply (proj1 (X21_ring_is_ready_when_it_has_a_contour ringExample.ring3
                  ring3_reachable)).
Defined.

Lemma X22_centre_ray_witness :
  ringReachable ringExample.ring3 /\
  (1 < radar.RadarVirtualSensorMapping.segmentCount ringExample.ring3)%nat /\
  radar.RadarVirtualSensorMapping.segmentIndex ringExample.ring3
    (ringMore.segmentAngle
       (radar.RadarVirtualSensorMapping.segmentCount ringExample.ring3) 1)
  = 1%nat.
Proof.
  split; [apply ring3_reachable |]. split; [apply ring3_segmentCount |].
  apply (X22_segment_directions_are_the_centre_rays ringExample.ring3 1
           ring3_reachable ring3_segmentCount).
Defined.

Lemma X23_ring_points_witness :
  ringReachable ringExample.ring3 /\
  radar.RadarVirtualSensorMapping.m_ready ringExample.ring3 = true /\
  0 < 10 /\
  (1 < radar.RadarVirtualSensorMapping.segmentCount ringExample.ring3)%nat /\
  exists segment point,
    ringMore.segments ringExample.ring3 10 !! 1%nat = Some segment /\
    radar.RadarVirtualSensorMapping.ring ringExample.ring3 10 !! 1%nat = Some point /\
    ringMore.seg_end segment = point.
Proof.
  assert (H10 : 0 < 10) by lra.
  split; [apply ring3_reachable |]. split; [apply ring3_ready |].
  split; [exact H10 |]. split; [apply ring3_segmentCount |].
  destruct (X23_ring_points_lie_between_start_and_fallback ringExample.ring3 10 1
              ring3_reachable ring3_ready H10 ring3_segmentCount)
    as (segment & point & Hs & Hp & He & _).
  exists segment, point. auto.
Defined.

(* ===================================================================== *)
(** * Association: the track that a detection gets *)
(* ===================================================================== *)

Section AssociationFacts.
Import associationSpec.

Variable settings : core.ProcessingSettings.
Variable motion : VehicleMotionState.
Variable calibration : RadarCalibration.
Variable boxes : list core.OrientedBox.
Variable tracks : list core.TrackState.
Variable det : EnhancedDetection.

Lemma bestTrackStep_eq (best : R * nat) (i : nat) :
  core.bestTrackStep settings motion calibration boxes tracks det
    (core.detectionPositionVcs det calibration) best i
  = if core.contains (default core.OrientedBox_default (boxes !! i))
         (core.detectionPositionVcs det calibration)
       && Rleb (distance settings motion calibration tracks det i)
            (core.rangeRateSigma (core.association settings))
       && Rltb (distance settings motion calibration tracks det i) (fst best)
    then (distance settings motion calibration tracks det i, i)
    else best.
Proof.
  unfold core.bestTrackStep, distance.
  destruct (core.contains _ _); reflexivity.
Qed.

Lemma bestTrackStep_bestSoFar (m : nat) (best : R * nat) :
  (m < length boxes)%nat ->
  bestSoFar settings motion calibration boxes tracks det m best ->
  bestSoFar settings motion calibration boxes tracks det (S m)
    (core.bestTrackStep settings motion calibration boxes tracks det
       (core.detectionPositionVcs det calibration) best m).
Proof.
  intros Hm Hbest. rewrite bestTrackStep_eq.
  unfold bestSoFar, eligible in *.
  set (d := distance settings motion calibration tracks det) in *.
  clearbody d.
  remember (core.contains (default core.OrientedBox_default (boxes !! m))
              (core.detectionPositionVcs det calibration)) as inBoxM eqn:HinBox.
  remember core.FLT_MAX as F eqn:HF. clear HF.
  remember (core.rangeRateSigma (core.association settings)) as sigma eqn:Hs0.
  clear Hs0.
  destruct best as [bd bi]. cbn [fst snd] in *.
  assert (Hcases : (inBoxM = true /\ d m <= sigma /\ d m < bd) \/
                   ~ (inBoxM = true /\ d m <= sigma /\ d m < bd)).
  { destruct (inBoxM); [| right; intros [? _]; discriminate].
    destruct (Rle_dec (d m) sigma); [| right; tauto].
    destruct (Rlt_dec (d m) bd); [left; auto | right; tauto]. }
  destruct Hcases as [(Hc & Hs & Hl) | Hno].
  - rewrite Hc, (proj2 (Rleb_true _ _)) by exact Hs.
    rewrite (proj2 (Rltb_true _ _)) by exact Hl. cbn [andb fst snd].
    right. split; [lia |].
    split; [split; [rewrite <- HinBox; congruence | exact Hs] |].
    split; [reflexivity |].
    destruct Hbest as [(Hf & _ & Hall) | (_ & _ & _ & Hf & Hall)].
    + split; [lra |]. intros j Hj Hgj.
      destruct (Nat.eq_dec j m) as [-> | Hne]; [lra |].
      specialize (Hall j ltac:(lia) Hgj). lra.
    + split; [lra |]. intros j Hj Hgj.
      destruct (Nat.eq_dec j m) as [-> | Hne]; [lra |].
      specialize (Hall j ltac:(lia) Hgj). lra.
  - assert (Hkeep : (inBoxM && Rleb (d m) sigma && Rltb (d m) bd) = false).
    { destruct (inBoxM); [| reflexivity].
      destruct (Rleb (d m) sigma) eqn:Es; [| reflexivity].
      destruct (Rltb (d m) bd) eqn:El; [| reflexivity].
      apply Rleb_true in Es. apply Rltb_true in El. tauto. }
    rewrite Hkeep. cbn [fst snd].
    assert (Hm' : inBoxM = true /\ d m <= sigma -> bd <= d m).
    { intros [Hc Hs]. destruct (Rlt_dec (d m) bd); [tauto | lra]. }
    destruct Hbest as [(Hf & Hs & Hall) | (Hs & Hg & Hd & Hf & Hall)].
    + left. split; [exact Hf |]. split; [exact Hs |].
      intros j Hj Hgj. destruct (Nat.eq_dec j m) as [-> | Hne].
      * rewrite <- HinBox in Hgj.
        specialize (Hm' Hgj). lra.
      * apply Hall; [lia | exact Hgj].
    + right. split; [lia |]. split; [exact Hg |]. split; [exact Hd |].
      split; [exact Hf |].
      intros j Hj Hgj. destruct (Nat.eq_dec j m) as [-> | Hne].
      * rewrite <- HinBox in Hgj.
        exact (Hm' Hgj).
      * apply Hall; [lia | exact Hgj].
Qed.

Lemma bestTrack_loop (m : nat) :
  (m <= length boxes)%nat ->
  bestSoFar settings motion calibration boxes tracks det m
    (fold_left
       (core.bestTrackStep settings motion calibration boxes tracks det
          (core.detectionPositionVcs det calibration))
       (seq 0 m) (core.FLT_MAX, length boxes)).
Proof.
  induction m as [| m IH]; intros Hm.
  - left. cbn. repeat split. intros j Hj. lia.
  - rewrite seq_S, fold_left_app. cbn [fold_left Nat.add].
    apply bestTrackStep_bestSoFar; [lia | apply IH; lia].
Qed.

(** X25.  The body of the detection loop of [associateDetections], for
    a snapshot of at most 96 tracks.  A detection with neither the
    [Valid] nor the [SuperResolution] flag is left as it is, and so are
    the tracks.  Otherwise the detection gets the track whose predicted
    box holds its position and whose range-rate distance is within
    [rangeRateSigma] and smallest among such tracks, and its fused
    track index is the index of that track; if no track passes both
    tests with a distance below [FLT_MAX], the detection and the tracks
    are left as they are. *)
Theorem X25_association_takes_the_nearest_eligible_track :
  (length boxes <= kTrackCount)%nat ->
  let result :=
    core.associateDetection settings motion calibration boxes tracks det in
  let best := core.bestTrack settings motion calibration boxes tracks det in
  (Z.land (det_flags det) core.validMask = 0%Z -> result = (tracks, det)) /\
  (Z.land (det_flags det) core.validMask <> 0%Z ->
   ((best < length boxes)%nat ->
    det_fusedTrackIndex (snd result) = Z.of_nat best /\
    eligible settings motion calibration boxes tracks det best /\
    forall j, (j < length boxes)%nat ->
      eligible settings motion calibration boxes tracks det j ->
      distance settings motion calibration tracks det best
      <= distance settings motion calibration tracks det j) /\
   ((length boxes <= best)%nat ->
    result = (tracks, det) /\
    forall j, (j < length boxes)%nat ->
      eligible settings motion calibration boxes tracks det j ->
      core.FLT_MAX <= distance settings motion calibration tracks det j)).
Proof.
  intros Hn result best. subst result.
  pose proof (bestTrack_loop (length boxes) (Nat.le_refl _)) as Hloop.
  unfold bestSoFar in Hloop.
  match type of Hloop with
  | context [snd ?s] => change (snd s) with best in Hloop
  end.
  unfold core.associateDetection.
  change (core.bestTrack settings motion calibration boxes tracks det) with best.
  clearbody best. split.
  - intros ->. reflexivity.
  - intros Hflags. apply Z.eqb_neq in Hflags. rewrite Hflags. split.
    + intros Hlt. replace (Nat.ltb best (length boxes)) with true
        by (symmetry; now apply Nat.ltb_lt).
      cbn [snd det_fusedTrackIndex].
      unfold kTrackCount in Hn. rewrite to_int8_small by lia.
      split; [reflexivity |].
      destruct Hloop as [(_ & Hs & _) | (_ & Hg & Hd & _ & Hall)]; [lia |].
      split; [exact Hg |].
      intros j Hj Hgj. rewrite <- Hd. now apply Hall.
    + intros Hge. replace (Nat.ltb best (length boxes)) with false
        by (symmetry; now apply Nat.ltb_ge).
      split; [reflexivity |].
      destruct Hloop as [(_ & _ & Hall) | (Hs & _)]; [exact Hall | lia].
Qed.

End AssociationFacts.

Lemma X25_association_witness :
  (length [core.predictedBox core.ProcessingSettings_default 0
             pipelineExample.carState] <= kTrackCount)%nat /\
  (Z.land (det_flags EnhancedDetection_default) core.validMask = 0%Z ->
   core.associateDetection core.ProcessingSettings_default pipelineExample.atRest
     pipelineExample.calibration
     [core.predictedBox core.ProcessingSettings_default 0 pipelineExample.carState]
     [pipelineExample.carState] EnhancedDetection_default
   = ([pipelineExample.carState], EnhancedDetection_default)).
Proof.
  assert (H : (length [core.predictedBox core.ProcessingSettings_default 0
                         pipelineExample.carState] <= kTrackCount)%nat)
    by (cbn; unfold kTrackCount; lia).
  split; [exact H |].
  apply (proj1 (X25_association_takes_the_nearest_eligible_track
                  core.ProcessingSettings_default pipelineExample.atRest
                  pipelineExample.calibration
                  [core.predictedBox core.ProcessingSettings_default 0
                     pipelineExample.carState]
                  [pipelineExample.carState] EnhancedDetection_default H)).
Defined.

(* ===================================================================== *)
(** * The playback engine: contour and footprints *)
(* ===================================================================== *)

Section EngineFacts.
Import engine.

Lemma fold_left_vadd_vx (l : list vec2) (acc : vec2) :
  vx (fold_left vadd l acc) = vx acc + fold_right Rplus 0 (map vx l).
Proof.
  revert acc. induction l as [| p l IH]; intros acc; cbn; [lra |].
  rewrite IH. cbn. lra.
Qed.

Lemma fold_left_vadd_vy (l : list vec2) (acc : vec2) :
  vy (fold_left vadd l acc) = vy acc + fold_right Rplus 0 (map vy l).
Proof.
  revert acc. induction l as [| p l IH]; intros acc; cbn; [lra |].
  rewrite IH. cbn. lra.
Qed.

Lemma convert_sum_vx (l : list vec2) (d : R) :
  fold_right Rplus 0 (map vx (convertContourIsoToVcs l d))
  = - fold_right Rplus 0 (map vx l).
Proof.
  unfold convertContourIsoToVcs.
  induction l as [| p l IH]; cbn; [lra |]. rewrite IH. lra.
Qed.

Lemma convert_sum_vy (l : list vec2) (d : R) :
  fold_right Rplus 0 (map vy (convertContourIsoToVcs l d))
  = fold_right Rplus 0 (map vy l) - INR (length l) * d.
Proof.
  unfold convertContourIsoToVcs.
  induction l as [| p l IH]; [cbn; lra |].
  cbn [map fold_right length vy]. rewrite IH, S_INR. lra.
Qed.

Lemma vec2_eq (a b : vec2) : vx a = vx b -> vy a = vy b -> a = b.
Proof. destruct a, b. cbn. now intros -> ->. Qed.

(** X26.  [convertContourIsoToVcs] keeps the number and the order of
    the contour points, and converting back with the opposite offset
    gives the contour again.  It maps the centroid of a contour to the
    centroid of the converted contour, which is the centre that
    [setVehicleContour] then stores.  It is the inverse of the
    map from VCS to ISO that [updateIsoPose] applies to a sensor
    position: converting the ISO position of a sensor gives its VCS
    position. *)
Theorem X26_contour_conversion (isoContour : list vec2) (distRearAxle : R) :
  length (convertContourIsoToVcs isoContour distRearAxle) = length isoContour /\
  convertContourIsoToVcs (convertContourIsoToVcs isoContour distRearAxle)
    (- distRearAxle) = isoContour /\
  (isoContour <> [] ->
   radar.RadarVirtualSensorMapping.centroid
     (convertContourIsoToVcs isoContour distRearAxle)
   = mkVec2 (- vx (radar.RadarVirtualSensorMapping.centroid isoContour))
            (vy (radar.RadarVirtualSensorMapping.centroid isoContour)
             - distRearAxle)) /\
  (forall calibration,
      convertContourIsoToVcs
        [mkVec2 (lateral_m (iso (config.updateIsoPose distRearAxle calibration)))
                (longitudinal_m
                   (iso (config.updateIsoPose distRearAxle calibration)))]
        distRearAxle
      = [mkVec2 (lateral_m (vcs calibration)) (longitudinal_m (vcs calibration))]).
Proof.
  split; [apply length_map |]. split; [| split].
  - unfold convertContourIsoToVcs. rewrite map_map.
    rewrite <- (map_id isoContour) at 2. apply map_ext.
    intros [x y]. cbn. f_equal; lra.
  - intros Hne. unfold radar.RadarVirtualSensorMapping.centroid.
    replace (length (convertContourIsoToVcs isoContour distRearAxle))
      with (length isoContour) by (symmetry; apply length_map).
    assert (Hn : INR (length isoContour) <> 0).
    { apply not_0_INR. destruct isoContour; [contradiction | discriminate]. }
    apply vec2_eq; cbn [vx vy vscale].
    + rewrite !fold_left_vadd_vx, convert_sum_vx. cbn [vx vzero]. lra.
    + rewrite !fold_left_vadd_vy, convert_sum_vy. cbn [vy vzero].
      field. exact Hn.
  - intros calibration. cbn. f_equal. f_equal; lra.
Qed.

Lemma sqrt_scaled_unit (k a : R) :
  0 <= k -> sqrt (k * sin a * (k * sin a) + k * cos a * (k * cos a)) = k.
Proof.
  intros Hk. pose proof (sin2_cos2 a) as H. unfold Rsqr in H.
  replace (k * sin a * (k * sin a) + k * cos a * (k * cos a))
    with (k * k * (sin a * sin a + cos a * cos a)) by ring.
  rewrite H, Rmult_1_r. now apply sqrt_square.
Qed.

(** X27.  [buildTrackFootprint] returns the corners of a rectangle
    around the track: the track position (with its coordinates
    swapped) is the midpoint of both diagonals, the sides [p0 p1] and
    [p1 p2] are perpendicular, and their lengths are the length and the
    width of the track, each raised to 0.1 if smaller.  For a track
    that [appendTracks] has produced, whose extents are at least 0.25,
    the sides are exactly the length and the width of the track. *)
Theorem X27_track_footprint_is_a_rectangle (track : radar.RadarTrack) :
  exists p0 p1 p2 p3,
    buildTrackFootprint track = [p0; p1; p2; p3] /\
    vadd p0 p2 = vscale (footprintCenter track) 2 /\
    vadd p1 p3 = vscale (footprintCenter track) 2 /\
    vdot (vsub p0 p1) (vsub p1 p2) = 0 /\
    vlength (vsub p0 p1) = Rmax (radar.rt_length track) (1 / 10) /\
    vlength (vsub p1 p2) = Rmax (radar.rt_width track) (1 / 10) /\
    (forall enhanced,
        track = radar.radarTrackOf enhanced ->
        vlength (vsub p0 p1) = radar.rt_length track /\
        vlength (vsub p1 p2) = radar.rt_width track).
Proof.
  unfold buildTrackFootprint, footprintCenter.
  set (hL := Rmax (radar.rt_length track) (1 / 10)).
  set (hW := Rmax (radar.rt_width track) (1 / 10)).
  assert (HL : 0 <= hL) by (subst hL; pose proof (Rmax_r (radar.rt_length track) (1 / 10)); lra).
  assert (HW : 0 <= hW) by (subst hW; pose proof (Rmax_r (radar.rt_width track) (1 / 10)); lra).
  set (h := radar.rt_headingRad track).
  set (cx := vy (radar.rt_isoPosition track)).
  set (cy := vx (radar.rt_isoPosition track)).
  assert (E01 : vlength
                  (vsub
                     (vadd (vadd (mkVec2 cx cy)
                              (vscale (mkVec2 (sin h) (cos h)) (hL * (1 / 2))))
                        (vscale (mkVec2 (cos h) (- sin h)) (hW * (1 / 2))))
                     (vadd (vsub (mkVec2 cx cy)
                              (vscale (mkVec2 (sin h) (cos h)) (hL * (1 / 2))))
                        (vscale (mkVec2 (cos h) (- sin h)) (hW * (1 / 2)))))
                = hL).
  { unfold vlength, vsub, vadd, vscale. cbn [vx vy].
    etransitivity; [| apply (sqrt_scaled_unit hL h HL)]. f_equal. field. }
  assert (E12 : vlength
                  (vsub
                     (vadd (vsub (mkVec2 cx cy)
                              (vscale (mkVec2 (sin h) (cos h)) (hL * (1 / 2))))
                        (vscale (mkVec2 (cos h) (- sin h)) (hW * (1 / 2))))
                     (vsub (vsub (mkVec2 cx cy)
                              (vscale (mkVec2 (sin h) (cos h)) (hL * (1 / 2))))
                        (vscale (mkVec2 (cos h) (- sin h)) (hW * (1 / 2)))))
                = hW).
  { unfold vlength, vsub, vadd, vscale. cbn [vx vy].
    etransitivity; [| apply (sqrt_scaled_unit hW h HW)]. f_equal. field. }
  do 4 eexists. split; [reflexivity |].
  cbn [vx vy].
  split; [apply vec2_eq; cbn; lra |].
  split; [apply vec2_eq; cbn; lra |].
  split; [unfold vdot, vsub, vadd, vscale; cbn [vx vy]; ring |].
  split; [exact E01 |]. split; [exact E12 |].
  intros enhanced Htrack. rewrite E01, E12. subst hL hW.
  rewrite Htrack. cbn [radar.radarTrackOf radar.rt_length radar.rt_width].
  unfold radar.kMinTrackExtent.
  split; unfold Rmax; repeat destruct (Rle_dec _ _); lra.
Qed.

End EngineFacts.

(* ===================================================================== *)
(** * Angles of the utility library *)
(* ===================================================================== *)

Section AngleFacts.
Import config.

(** X28.  [wrapToPi] maps every angle into [-pi, pi), changes it by a
    whole number of turns, and leaves an angle of [-pi, pi) as it is;
    [radiansToDegrees] inverts [degreesToRadians]. *)
Theorem X28_wrapToPi_range (angleRad : R) :
  - PI <= wrapToPi angleRad < PI /\
  (exists k : Z, wrapToPi angleRad = angleRad + 2 * PI * IZR k) /\
  (- PI <= angleRad < PI -> wrapToPi angleRad = angleRad) /\
  radiansToDegrees (degreesToRadians angleRad) = angleRad.
Proof.
  pose proof PI_RGT_0 as Hpi.
  assert (H2 : 0 < 2 * PI) by lra.
  unfold wrapToPi, kPi.
  assert (Hk : exists k : Z,
             fmod (angleRad + PI) (2 * PI) = angleRad + PI - 2 * PI * IZR k).
  { unfold fmod. eexists. reflexivity. }
  destruct Hk as [k Hk].
  split; [| split; [| split]].
  - destruct (Rle_dec 0 ((angleRad + PI) / (2 * PI))) as [Hq | Hq].
    + pose proof (fmod_nonneg_quotient (angleRad + PI) (2 * PI) H2 Hq) as [H1 H3].
      rewrite (proj2 (Rltb_false _ _)) by lra. lra.
    + apply Rnot_le_lt in Hq.
      pose proof (fmod_neg_quotient (angleRad + PI) (2 * PI) H2 Hq) as [H1 H3].
      destruct (Rltb (fmod (angleRad + PI) (2 * PI)) 0) eqn:E.
      * apply Rltb_true in E. lra.
      * apply Rltb_false in E. lra.
  - destruct (Rltb (fmod (angleRad + PI) (2 * PI)) 0).
    + exists (1 - k)%Z. rewrite minus_IZR, Hk. lra.
    + exists (- k)%Z. rewrite opp_IZR, Hk. lra.
  - intros [Hlo Hhi]. unfold fmod.
    rewrite (truncZ_between ((angleRad + PI) / (2 * PI)) 0).
    + rewrite Rmult_0_r, Rminus_0_r.
      rewrite (proj2 (Rltb_false _ _)) by lra. lra.
    + apply Rmult_le_pos; [lra |]. left. now apply Rinv_0_lt_compat.
    + cbn. split.
      * apply Rmult_le_pos; [lra |]. left. now apply Rinv_0_lt_compat.
      * apply (Rmult_lt_reg_r (2 * PI)); [exact H2 |].
        replace ((angleRad + PI) / (2 * PI) * (2 * PI)) with (angleRad + PI)
          by (field; lra).
        lra.
  - unfold radiansToDegrees, degreesToRadians, kRadToDeg, kDegToRad, kPi.
    field. lra.
Qed.

End AngleFacts.

(* ===================================================================== *)
(** * Playback: detections as points *)
(* ===================================================================== *)

Section PlaybackFacts.
Import playback.

Lemma flagBit_pack (v s n h m : Z) :
  isBit v -> isBit s -> isBit n -> isBit h -> isBit m ->
  flagBit (packDetectionFlags v s n h m) DetectionFlag_Valid = v /\
  flagBit (packDetectionFlags v s n h m) DetectionFlag_SuperResolution = s /\
  flagBit (packDetectionFlags v s n h m) DetectionFlag_NearTarget = n /\
  flagBit (packDetectionFlags v s n h m) DetectionFlag_HostVehicleClutter = h /\
  flagBit (packDetectionFlags v s n h m) DetectionFlag_MultiBounce = m.
Proof.
  intros [-> | ->] [-> | ->] [-> | ->] [-> | ->] [-> | ->];
    repeat split; reflexivity.
Qed.

Lemma land_validMask (flags : Z) :
  Z.land flags core.validMask = 0%Z ->
  Z.land flags DetectionFlag_Valid = 0%Z /\
  Z.land flags DetectionFlag_SuperResolution = 0%Z.
Proof.
  intros H. split.
  - replace DetectionFlag_Valid with (Z.land core.validMask 1) by reflexivity.
    now rewrite Z.land_assoc, H.
  - replace DetectionFlag_SuperResolution with (Z.land core.validMask 2)
      by reflexivity.
    now rewrite Z.land_assoc, H.
Qed.

Lemma enhancedPoint_flags data radarCal sensorIndex elevationRad i det point :
  enhancedPoint data radarCal sensorIndex elevationRad i det = Some point ->
  radar.pt_radarValid point = flagBit (det_flags det) DetectionFlag_Valid /\
  radar.pt_superResolution point
  = flagBit (det_flags det) DetectionFlag_SuperResolution /\
  radar.pt_nearTarget point = flagBit (det_flags det) DetectionFlag_NearTarget /\
  radar.pt_hostVehicleClutter point
  = flagBit (det_flags det) DetectionFlag_HostVehicleClutter /\
  radar.pt_multibounce point = flagBit (det_flags det) DetectionFlag_MultiBounce.
Proof.
  unfold enhancedPoint.
  destruct (_ && _ && _ && _); [discriminate |].
  intros [= <-]. cbn. auto.
Qed.

(** X29.  The flag byte of a detection survives the way from the raw
    frame to the point cloud.  For a detection whose fields hold the
    raw return [i] (as every detection that a detection frame emits,
    X1 and X2) and whose five raw flag entries are 0 or 1, the point
    that [appendEnhancedDetections] builds has exactly those five
    flags.  And a point built from a detection with neither the [Valid]
    nor the [SuperResolution] flag, which the association and the
    odometry skip, is skipped by the occupancy grid as well. *)
Theorem X29_flags_survive_from_raw_frame_to_point
  data radarCal sensorIndex elevationRad i det point :
  enhancedPoint data radarCal sensorIndex elevationRad i det = Some point ->
  (forall returns j,
      rawFieldsAt returns j det ->
      isBit (atZ (raw_radarValidReturn returns) j) ->
      isBit (atZ (raw_superResolutionDetection returns) j) ->
      isBit (atZ (raw_nearTargetDetection returns) j) ->
      isBit (atZ (raw_hostVehicleClutter returns) j) ->
      isBit (atZ (raw_multibounceDetection returns) j) ->
      radar.pt_radarValid point = atZ (raw_radarValidReturn returns) j /\
      radar.pt_superResolution point = atZ (raw_superResolutionDetection returns) j /\
      radar.pt_nearTarget point = atZ (raw_nearTargetDetection returns) j /\
      radar.pt_hostVehicleClutter point = atZ (raw_hostVehicleClutter returns) j /\
      radar.pt_multibounce point = atZ (raw_multibounceDetection returns) j) /\
  (Z.land (det_flags det) core.validMask = 0%Z ->
   forall settings, gridMore.skippedPoint settings point).
Proof.
  intros Hpoint.
  destruct (enhancedPoint_flags _ _ _ _ _ _ _ Hpoint) as (Hv & Hs & Hn & Hh & Hm).
  split.
  - intros returns j Hraw Bv Bs Bn Bh Bm.
    destruct Hraw as (_ & _ & _ & _ & _ & _ & _ & _ & _ & Hflags).
    rewrite Hv, Hs, Hn, Hh, Hm, Hflags.
    now apply flagBit_pack.
  - intros Hmask settings. left.
    destruct (land_validMask _ Hmask) as [H1 H2].
    rewrite Hv, Hs. unfold flagBit. now rewrite H1, H2.
Qed.

Lemma omap_length_le {A B : Type} (f : A -> option B) (l : list A) :
  (length (omap f l) <= length l)%nat.
Proof.
  induction l as [| a l IH]; [cbn; lia |].
  cbn. destruct (f a); cbn; lia.
Qed.

Lemma enhancedPoint_empty_slot data radarCal sensorIndex elevationRad i det :
  det_flags det = 0%Z -> det_range_m det <= 0 ->
  det_longitudinalOffset_m det = 0 -> det_lateralOffset_m det = 0 ->
  enhancedPoint data radarCal sensorIndex elevationRad i det = None.
Proof.
  intros Hf Hr Hlon Hlat. unfold enhancedPoint.
  rewrite Hf, Hlon, Hlat, (proj2 (Rleb_true _ _)) by exact Hr.
  now rewrite Reqb_refl.
Qed.

(** X30.  [appendEnhancedDetections] keeps the points that the cloud
    already holds and appends at most one point per detection.  A slot
    without flags, with a range that is not positive and with both
    offsets zero (a value-initialised slot in particular) gives no
    point.  A point that is built lies at the offsets of the detection
    when one of them is not zero, and otherwise, for a positive range,
    at that range from the sensor origin; it carries the sensor index
    of the call and intensity 1. *)
Theorem X30_points_of_a_detection_batch
  data radarCal sensorIndex elevationRad outPoints :
  (exists added,
      appendEnhancedDetections data radarCal sensorIndex elevationRad outPoints
      = outPoints ++ added /\
      (length added <= length (eds_detections data))%nat) /\
  (forall i det,
      det_flags det = 0%Z -> det_range_m det <= 0 ->
      det_longitudinalOffset_m det = 0 -> det_lateralOffset_m det = 0 ->
      enhancedPoint data radarCal sensorIndex elevationRad i det = None) /\
  (forall i det point,
      enhancedPoint data radarCal sensorIndex elevationRad i det = Some point ->
      radar.pt_sensorIndex point = sensorIndex /\
      radar.pt_intensity point = 1 /\
      (det_lateralOffset_m det <> 0 \/ det_longitudinalOffset_m det <> 0 ->
       radar.pt_x point = det_lateralOffset_m det /\
       radar.pt_y point = det_longitudinalOffset_m det) /\
      (det_lateralOffset_m det = 0 -> det_longitudinalOffset_m det = 0 ->
       0 < det_range_m det ->
       radar.pt_x point * radar.pt_x point + radar.pt_y point * radar.pt_y point
       = det_range_m det * det_range_m det)).
Proof.
  split; [| split].
  - eexists. split; [reflexivity |].
    etransitivity; [apply omap_length_le |]. now rewrite length_imap.
  - intros i det. apply enhancedPoint_empty_slot.
  - intros i det point. unfold enhancedPoint.
    destruct (_ && _ && _ && _); [discriminate |].
    intros [= <-]. cbn [radar.pt_sensorIndex radar.pt_intensity radar.pt_x radar.pt_y].
    split; [reflexivity |]. split; [reflexivity |]. split.
    + intros Hoff.
      assert (Hp : Reqb (det_lateralOffset_m det) 0
                   && Reqb (det_longitudinalOffset_m det) 0 = false).
      { destruct Hoff as [H | H].
        - now rewrite (proj2 (Reqb_false _ _)) by exact H.
        - rewrite (proj2 (Reqb_false (det_longitudinalOffset_m det) 0)) by exact H.
          apply andb_false_r. }
      rewrite Hp. cbn [andb]. auto.
    + intros Hlat Hlon Hr.
      rewrite Hlat, Hlon, Reqb_refl, (proj2 (Rltb_true _ _)) by exact Hr.
      cbn [andb].
      match goal with
      | |- _ * sin ?a * _ + _ = _ =>
          pose proof (sin2_cos2 a) as H; unfold Rsqr in H
      end.
      match goal with
      | |- ?r * sin ?a * (?r * sin ?a) + ?r * cos ?a * (?r * cos ?a) = _ =>
          replace (r * sin a * (r * sin a) + r * cos a * (r * cos a))
            with (r * r * (sin a * sin a + cos a * cos a)) by ring
      end.
      rewrite H. ring.
Qed.

End PlaybackFacts.

Lemma X29_flags_witness :
  playback.enhancedPoint EnhancedDetections_default pipelineExample.calibration 0 []
    0 pipelineExample.hit
  = Some (radar.mkRadarPoint 1 1 0 1 10 0 0 0 0 0 1 1 0 1 0 0 0 0 0
            0 0 0 0 0 0 0 (-1) 1 0 1 1) /\
  (Z.land (det_flags pipelineExample.hit) core.validMask = 0%Z ->
   forall settings,
     gridMore.skippedPoint settings
       (radar.mkRadarPoint 1 1 0 1 10 0 0 0 0 0 1 1 0 1 0 0 0 0 0
          0 0 0 0 0 0 0 (-1) 1 0 1 1)).
Proof.
  assert (H : playback.enhancedPoint EnhancedDetections_default
                pipelineExample.calibration 0 [] 0 pipelineExample.hit
              = Some (radar.mkRadarPoint 1 1 0 1 10 0 0 0 0 0 1 1 0 1 0 0 0 0 0
                        0 0 0 0 0 0 0 (-1) 1 0 1 1)).
  { unfold playback.enhancedPoint, pipelineExample.hit. cbn.
    repeat (progress (Rdecide; cbn)). reflexivity. }
  split; [exact H |].
  apply (proj2 (X29_flags_survive_from_raw_frame_to_point _ _ _ _ _ _ _ H)).
Defined.
